(* ===== verification/_CoqProject ===== *)
-Q . S2P
Prelude.v
Tso.v
Libs.v
Instances.v
Subject.v
AuthTable.v
Errors.v
TimeSource.v
Nonce.v
Wire.v
Strategy.v
Interceptor.v
SeedClient.v
Db.v
Paging.v
Articles.v
Drafts.v
Follows.v
Accounts.v
Feeds.v
Events.v
Content.v
Markdown.v
Frontmatter.v
Rpc.v
AccountService.v
ArticleService.v
ReaderServices.v
EventService.v
Rest.v
Gateway.v
Seed.v
Resolver.v
Net.v
Config.v
Writes.v
Policy.v
Server.v
Doors.v
Routes.v
Replay.v
Journey.v
Lockout.v
RpcMetrics.v
Telemetry.v
Main.v
