(* ===== verification/Prelude.v ===== *)
(** * headlines: a verification library

    [headlines] is a publishing backend in Rust: accounts publish versioned articles, users
    follow accounts and read feeds, clients record engagement events. Requests are signed;
    a gRPC server and a REST gateway in the same process answer them over Postgres. This
    library models the program from the bytes of an [Authorization] header to the rows of
    the tables, and proves the properties that make it correct.

    ** How the parts fit together

    A signed request reaches the public gRPC listener or the REST gateway ([Doors]). Both ask
    the same strategy ([Strategy]): the canonical string ([Wire]) is checked under the key the
    resolver finds in the database ([Resolver]), the timestamp against the time source
    ([TimeSource]), the nonce against the replay cache ([Nonce]). The layers ([Interceptor])
    put the resulting subject ([Subject]) in front of the table of permissions
    ([AuthTable]), and the method's handler runs ([Server]): the service checks ownership and
    content and calls a repository, which runs SQL statements and transactions ([Db]).
    [Config] is what start-up makes of the configuration, [Main] the rest of the process,
    [Seed] the client that fills a demonstration server through the same listener.

    ** Files and the code they model

    Shared:
    - [Prelude] (this file): results, lists, UTF-8 and ASCII text, decimal and hexadecimal,
      bytes and machine integers, the order on strings;
    - [Libs], [Instances]: the third-party crates as classes of operations with the laws their
      documentation states, and toy implementations for the examples;
    - [Tso], [Errors]: [headlines-core/src/tso.rs], [error.rs], [auth.rs].

    Authentication and authorization ([headlines-auth], [headlines-core]):
    - [TimeSource]: [time/tso.rs], [time/local_clock.rs]; [Nonce]: [nonce.rs];
    - [Wire], [Strategy]: [strategy.rs], [algo/mod.rs], [metrics.rs];
    - [Subject]: [subject.rs], [authorize.rs]; [Interceptor]: [interceptor.rs] and the stacks
      of [main.rs]; [Resolver]: [postgres_resolver.rs], [time/postgres_store.rs];
    - [AuthTable]: [headlines-proto/build.rs] and the annotations in [proto/headlines/v1].

    Storage ([headlines-store], the traits of [headlines-core/src/repo]):
    - [Db]: the schema of [up.sql], statements, transactions, failures, other requests;
    - [Paging]: the cursors of every repository; [Articles], [Drafts], [Follows], [Accounts]
      (accounts, users, keys), [Feeds] (recommendations, follow feed, account stream),
      [Events]: [repo/*.rs], one definition per method.

    Services ([headlines-api/src/services]):
    - [Rpc] (what they share), [Content], [AccountService], [ArticleService],
      [ReaderServices], [EventService]: one definition per handler, over classes that stand
      for the repository traits, instantiated by the repositories above.

    The gateway ([headlines-rest-gateway]): [Rest] (JSON), [Gateway] (handlers, authentication,
    errors), [Routes] (where the handlers are mounted, and where the protocol files say).

    The server binary ([headlines-server]):
    - [Net], [Config]: [config.rs], [cli.rs], [tailscale.rs] and the helpers of [main.rs];
    - [Server]: the methods, their paths and their handlers over Postgres; [Doors]: both
      listeners and the gateway with the state they share, and histories of requests;
    - end to end, over those histories: [Replay] (nothing gets in twice), [Journey] (a
      registered key lets its owner in), [Lockout] (a revoked one lets nobody in);
    - [RpcMetrics]: the layer of [metrics.rs] and the interceptor's counter; [Telemetry]: the
      domain counters of [headlines-api/src/metrics.rs] in their handlers, [observability.rs]
      and the set-up of [metrics.rs]; [Main]: the boot-time seed, the demo commands, the wait
      for the gateway;
    - [SeedClient], [Markdown], [Frontmatter], [Seed]: [seed/*.rs].

    [Writes] and [Policy] are specifications: the writes the services can make, as data with
    the step each makes on the tables, and who may make which.

    ** How the code is read

    Rust's [Result] is [result], an integer type is a [Z] with its wrap-around or saturation
    written out ([as_i32], [as_u64], [sat_mul]), text is a list of Unicode scalar values and
    bytes are lists of [N]. A table is a [gmap] from its primary key to rows; the constraints
    of the schema are the violations a statement reports. A repository or handler is a
    program of the monad [M]: it takes an environment, which says of every step whether it
    fails and with or without its effect, what the clock reads, which id is generated and
    what other requests did in between, and a world, the database with a step counter.
    Theorems that begin "whatever fails" quantify over all environments; "without failures"
    is the hypothesis [quiet]. Transactions are atomic and isolated. Concurrency inside the
    process (callers of the oracle, the replay pipeline, crashes) is a step relation.

    ** What the theorems show

    - Whole server ([Doors] and the files after it): rows of an account or user change only by
      requests signed with a key of its own or of a system, over any history on both doors;
      callers without credentials can only register, where the modes allow it, and who
      registers a key is let in as its owner ([Journey]), until the key is revoked, and then
      no longer ([Lockout]); every RPC keeps the invariants of all
      tables and loses no record; routers and permissions cover the same methods; a server
      booted with a sound configuration lets nothing in twice, through either door
      ([Replay]), and a closed one is read-only for strangers; seeding keeps the invariants
      and happens once; every call is counted once, and the domain counters lie between what
      was replied and what is stored ([Telemetry]); every route is mounted where its method is
      annotated ([Routes]).
    - Authentication: no request is accepted twice, whatever the clock does, unless it is
      recorded when its timestamp is already past the nonce store's horizon; timestamps are strictly increasing under
      every interleaving and across crashes; the canonical string is injective, the header is
      read back as written; a service runs only as the subject the strategy returned, on both
      doors; revoked keys resolve to nobody; the permission table is the annotations.
    - Storage: every operation keeps the invariant of its tables whatever fails, and without
      failures does what an abstract specification says, on every branch; histories are
      append-only, publication of a draft is atomic, deletion is final; walking the pages
      shows every row once and ends; a republisher that follows the stream after changes
      stamped later than its cursor, whatever failed in them, ends with what is served.
    - Services and formats: what is published, recorded or pushed is what is read; validation
      accepts exactly what it documents; batches are all or nothing; strangers learn nothing
      from replies; JSON, errors and Markdown are rendered so that they can be read back.
    - Examples at the end of a file evaluate the definitions; some show what the code does
      where its comments or documents say otherwise.

    ** Bounds and fuel

    Recursion is structural wherever the code's loop is over a list. Elsewhere a definition
    has fuel, and a theorem that enough of it gives the result:
    - walks over pages: a walk that is out of fuel says so ([None]), which is told from one
      that was handed an empty token; as many further pages as there are rows are enough
      ([event_listing_drains], [republisher_catches_up], [pushed_feed_is_served]), and
      [walk_visits_every_row] says exactly how many it takes;
    - the boot of the oracle: one reading of the clock per wait, [new_with_clock_boots] says
      which reading ends it; the wait for the gateway: [wait_for_gateway_returns];
    - the loops of the seed: [event_loop_ends], [dial_ends]; attributes of embedded HTML: one
      more than the text is long; readers of wire bytes: ten bytes of a varint, one more item
      than the message is long ([file_scan_ends]; the scan of a whole set need not end on a
      truncated one, which [truncated_set_never_ends] proves);
    - hexadecimal digits of an escape: six, for a scalar value.

    ** Not modelled, and why

    - What transactions show each other below serialisability (READ COMMITTED inside a
      transaction), leap seconds. Times are kept by Postgres to the microsecond: the clock is
      read at that resolution, and the times a client chooses, those of events and of the
      filters of their listing, pass through [timestamptz]; the time inside a page token is
      compared as written, which for the tokens the server makes is the same;
    - the [updated_at] column of the timestamp row, which nothing reads;
    - code of libraries and generated code: [tonic] and [prost] (decoding of a message is a
      parameter), [tower] plumbing ([poll_ready], clones, pinned futures), axum's matching of
      paths to routes, CORS and decompression, [figment]'s parsing of files and the
      environment, the table macros of [store/src/schema.rs];
    - what the exporters of telemetry do with the counts and spans they are given, and log
      lines; the counters of a call that runs beside another are counted by that other call;
    - the generated OpenAPI document, a constant; the notification service's replies beyond
      [UNIMPLEMENTED], which is all it answers;
    - file-system errors of the seeder and the key files, process signals, task spawning and
      shutdown, the search for [protoc] and its call in the build script. *)

From Stdlib Require Export ZArith Lia.
From stdpp Require Export base numbers strings pretty gmap sorting list.
From Stdlib Require Import Ascii.

Open Scope Z_scope.

(** ** Results *)

(** Rust's [Result<A, E>]. *)
Inductive result (E A : Type) : Type :=
  | Ok (a : A)
  | Err (e : E).
Arguments Ok {E A} _.
Arguments Err {E A} _.

#[global] Instance result_eq_dec {E A} `{EqDecision E, EqDecision A} :
  EqDecision (result E A).
Proof. solve_decision. Defined.

#[export] Instance result_ret {E} : MRet (result E) := λ A a, Ok a.
#[export] Instance result_bind {E} : MBind (result E) := λ A B f m,
  match m with Ok a => f a | Err e => Err e end.
#[export] Instance result_fmap {E} : FMap (result E) := λ A B f m,
  match m with Ok a => Ok (f a) | Err e => Err e end.

(** [Result::map_err]. *)
Definition map_err {E F A} (f : E → F) (m : result E A) : result F A :=
  match m with Ok a => Ok a | Err e => Err (f e) end.

(** [Option::ok_or]. *)
Definition ok_or {E A} (e : E) (o : option A) : result E A :=
  match o with Some a => Ok a | None => Err e end.

Lemma ok_or_ok {E A} (e : E) (o : option A) a : ok_or e o = Ok a ↔ o = Some a.
Proof. destruct o; cbn; naive_solver. Qed.

Definition is_ok {E A} (m : result E A) : bool :=
  match m with Ok _ => true | Err _ => false end.

(** [for x in l { .. f(x)? .. }] collecting the results in order, leaving at
    the first error. *)
Fixpoint try_map {E A B} (f : A → result E B) (l : list A) : result E (list B) :=
  match l with
  | [] => Ok []
  | x :: l => y ← f x; ys ← try_map f l; Ok (y :: ys)
  end.

Lemma try_map_ok {E A B} (f : A → result E B) l ys :
  try_map f l = Ok ys ↔ Forall2 (λ x y, f x = Ok y) l ys.
Proof.
  revert ys; induction l as [|x l IH]; intros ys; simpl.
  - split; [intros [= <-]; constructor | by inversion 1].
  - split.
    + destruct (f x) as [y|] eqn:Hf; simpl; [|done].
      destruct (try_map f l) as [ys'|] eqn:Hl; simpl; [|done].
      intros [= <-]. constructor; [done|]. by apply IH.
    + inversion 1 as [|? y ? ys' Hf Hl]; subst. rewrite Hf; simpl.
      apply IH in Hl as ->. done.
Qed.

Lemma try_map_total {E A B} (f : A → result E B) (g : A → B) l :
  Forall (λ x, f x = Ok (g x)) l → try_map f l = Ok (g <$> l).
Proof. induction 1 as [|x l Hx _ IH]; simpl; [done|]. by rewrite Hx, IH. Qed.

Lemma try_map_first_error {E A B} (f : A → result E B) pre x post e :
  Forall (λ y, is_ok (f y) = true) pre → f x = Err e → try_map f (pre ++ x :: post) = Err e.
Proof.
  intros Hpre Hx. induction Hpre as [|y pre Hy _ IH]; cbn; [by rewrite Hx|].
  destruct (f y); [|done]. cbn. by rewrite IH.
Qed.

Lemma try_map_is_ok {E A B} (f : A → result E B) l :
  Forall (λ x, is_ok (f x) = true) l → is_ok (try_map f l) = true.
Proof.
  induction 1 as [|x l Hx _ IH]; cbn; [done|]. destruct (f x); [|done]. cbn.
  by destruct (try_map f l).
Qed.

(** ** Lists *)

Lemma filter_ext_elem {A} (P Q : A → Prop)
    `{!∀ x, Decision (P x), !∀ x, Decision (Q x)} (l : list A) :
  (∀ x, x ∈ l → P x ↔ Q x) → filter P l = filter Q l.
Proof.
  induction l as [|x l IH]; intros HPQ; [done|]. rewrite !filter_cons.
  rewrite IH by set_solver. specialize (HPQ x ltac:(set_solver)).
  destruct (decide (P x)), (decide (Q x)); tauto || done.
Qed.

Lemma filter_all {A} (P : A → Prop) `{!∀ x, Decision (P x)} (l : list A) :
  (∀ x, x ∈ l → P x) → filter P l = l.
Proof.
  induction l as [|x l IH]; intros HP; [done|].
  rewrite filter_cons_True by set_solver. f_equal. set_solver.
Qed.

Lemma forallb_of_Forall {A} (P : A → bool) l :
  Forall (λ x, P x = true) l → forallb P l = true.
Proof. rewrite forallb_forall, Forall_forall. intros Hl x Hx. by apply Hl, list_elem_of_In. Qed.

(** What an injective partial map shows of distinct elements is distinct. *)
Lemma NoDup_omap_inj {A B} (f : A → option B) (l : list A) :
  NoDup l → (∀ x y z, x ∈ l → y ∈ l → f x = Some z → f y = Some z → x = y) →
  NoDup (omap f l).
Proof.
  induction 1 as [|x l Hx Hl IH]; intros Hinj; [constructor|]. cbn.
  assert (NoDup (omap f l)) by (apply IH; intros; eapply Hinj; set_solver).
  destruct (f x) as [z|] eqn:Hf; [|done]. constructor; [|done].
  intros (y & Hy & Hfy)%list_elem_of_omap. apply Hx.
  rewrite (Hinj x y z); [done|set_solver..|done|done].
Qed.

Lemma omap_omap {A B C} (f : A → option B) (g : B → option C) (l : list A) :
  omap g (omap f l) = omap (λ x, f x ≫= g) l.
Proof.
  induction l as [|x l IH]; [done|]. cbn. destruct (f x) as [y|]; cbn; by rewrite IH.
Qed.
Lemma omap_length {A B} (f : A → option B) (l : list A) : (length (omap f l) <= length l)%nat.
Proof. induction l as [|x l IH]; cbn; [done|]. destruct (f x); cbn; lia. Qed.
Lemma omap_ext_elem {A B} (f g : A → option B) (l : list A) :
  (∀ x, x ∈ l → f x = g x) → omap f l = omap g l.
Proof.
  induction l as [|x l IH]; intros Hfg; [done|]. cbn.
  rewrite (Hfg x), IH by set_solver. done.
Qed.

(** The list without one occurrence of an element, if it has one. *)
Fixpoint take_out {A} `{EqDecision A} (x : A) (l : list A) : option (list A) :=
  match l with
  | [] => None
  | y :: l => if decide (x = y) then Some l else cons y <$> take_out x l
  end.

Lemma take_out_Some {A} `{EqDecision A} (x : A) l k :
  take_out x l = Some k → l ≡ₚ x :: k.
Proof.
  revert k; induction l as [|y l IH]; intros k; simpl; [done|].
  destruct (decide (x = y)) as [->|]; [by intros [= ->]|].
  intros (k' & Hk' & ->)%fmap_Some. rewrite (IH k' Hk'). constructor.
Qed.

(** ** Strings

    A Rust [String] / [&str] is a sequence of Unicode scalar values stored as
    UTF-8.  It is modelled by the list of its scalar values, so that
    [chars().count()] is [length] and [len()] is the UTF-8 length. *)
Abbreviation str := (list N).

(** A string literal of the source (ASCII). *)
Definition lit (s : string) : str := N_of_ascii <$> String.list_ascii_of_string s.
Arguments lit s%_string : simpl never.

(** The number of bytes of one scalar value in UTF-8. *)
Definition utf8_len (c : N) : nat :=
  if (c <? 128)%N then 1 else if (c <? 2048)%N then 2
  else if (c <? 65536)%N then 3 else 4.

(** [str::len]: the length in bytes. *)
Definition str_len (s : str) : nat := sum_list_with utf8_len s.

(** [char::is_whitespace]: the Unicode property White_Space. *)
Definition is_whitespace (c : N) : bool :=
  ((9 <=? c) && (c <=? 13) || (c =? 32) || (c =? 133) || (c =? 160) || (c =? 5760)
  || (8192 <=? c) && (c <=? 8202) || (c =? 8232) || (c =? 8233) || (c =? 8239)
  || (c =? 8287) || (c =? 12288))%N.

Fixpoint trim_start (s : str) : str :=
  match s with
  | [] => []
  | c :: s' => if is_whitespace c then trim_start s' else s
  end.

(** [str::trim]. *)
Definition trim (s : str) : str := reverse (trim_start (reverse (trim_start s))).

Definition is_ascii_digit (c : N) : bool := ((48 <=? c) && (c <=? 57))%N.
Definition is_ascii_lowercase (c : N) : bool := ((97 <=? c) && (c <=? 122))%N.
Definition is_ascii_uppercase (c : N) : bool := ((65 <=? c) && (c <=? 90))%N.
Definition is_ascii_alphanumeric (c : N) : bool :=
  is_ascii_digit c || is_ascii_lowercase c || is_ascii_uppercase c.
(** [str::is_ascii]. *)
Definition is_ascii_str (s : str) : bool := forallb (λ c, (c <? 128)%N) s.

(** Equality test on strings, the code's [==]. *)
Definition str_eqb (a b : str) : bool := bool_decide (a = b).

Lemma str_eqb_eq a b : str_eqb a b = true ↔ a = b.
Proof. apply bool_decide_eq_true. Qed.

Lemma str_eqb_neq a b : str_eqb a b = false ↔ a ≠ b.
Proof. apply bool_decide_eq_false. Qed.

(** [if s.is_empty() { None } else { Some(s) }] and [unwrap_or_default]. *)
Definition non_empty (s : str) : option str := if bool_decide (s = []) then None else Some s.
Definition or_default (o : option str) : str := default [] o.

Lemma or_default_non_empty s : or_default (non_empty s) = s.
Proof. unfold non_empty. by case_bool_decide; subst. Qed.

(** [slice.contains(&s)] on a slice of literals. *)
Definition str_mem (s : str) (l : list str) : bool := existsb (str_eqb s) l.

Lemma str_mem_elem s l : str_mem s l = true ↔ s ∈ l.
Proof.
  unfold str_mem. rewrite existsb_exists, list_elem_of_In.
  split; [intros (x & Hx & ->%str_eqb_eq); done|].
  intros H; exists s; split; [done|]. by apply str_eqb_eq.
Qed.

(** [str]'s [Ord]: lexicographic by byte, which on UTF-8 is lexicographic by
    scalar value. *)
Fixpoint str_leb (a b : str) : bool :=
  match a, b with
  | [], _ => true
  | _ :: _, [] => false
  | x :: a', y :: b' => ((x <? y) || ((x =? y)%N && str_leb a' b'))%N
  end.

(** [str::strip_prefix]. *)
Fixpoint strip_prefix (p s : str) : option str :=
  match p, s with
  | [], _ => Some s
  | _ :: _, [] => None
  | x :: p', y :: s' => if (x =? y)%N then strip_prefix p' s' else None
  end.

(** [str::strip_suffix]. *)
Definition strip_suffix (p s : str) : option str :=
  reverse <$> strip_prefix (reverse p) (reverse s).

(** [str::starts_with]. *)
Definition starts_with (p s : str) : bool := bool_decide (is_Some (strip_prefix p s)).

(** [str::contains]. *)
Fixpoint str_contains (p s : str) : bool :=
  starts_with p s || match s with [] => false | _ :: s' => str_contains p s' end.

(** [str::split(sep)] for a separator character: never empty. *)
Fixpoint split_on (sep : N) (s : str) : list str :=
  match s with
  | [] => [[]]
  | c :: s' =>
    if (c =? sep)%N then [] :: split_on sep s'
    else match split_on sep s' with
         | w :: ws => (c :: w) :: ws
         | [] => [[c]]
         end
  end.

(** [str::split_once(sep)]. *)
Fixpoint split_once (sep : N) (s : str) : option (str * str) :=
  match s with
  | [] => None
  | c :: s' =>
    if (c =? sep)%N then Some ([], s')
    else '(a, b) ← split_once sep s'; Some (c :: a, b)
  end.

(** Joining with a separator string. *)
Fixpoint join (sep : str) (l : list str) : str :=
  match l with
  | [] => []
  | [w] => w
  | w :: ws => w ++ sep ++ join sep ws
  end.

(** Decimal formatting of an unsigned and of a signed integer, [{}]. *)
Definition dec_N (n : N) : str := lit (pretty n).
Definition dec_nat (n : nat) : str := dec_N (N.of_nat n).
Definition dec_Z (z : Z) : str :=
  if z <? 0 then lit "-" ++ dec_N (Z.to_N (- z)) else dec_N (Z.to_N z).

(** [{:x}], with fuel for the number of digits. *)
Definition hex_char (d : N) : N := if (d <? 10)%N then (48 + d)%N else (87 + d)%N.
Fixpoint hex_digits (fuel : nat) (n : N) (acc : str) : str :=
  match fuel with
  | O => acc
  | S fuel => let acc := hex_char (n mod 16)%N :: acc in
              if (n <? 16)%N then acc else hex_digits fuel (n / 16)%N acc
  end.

(** A literal determines its text. *)
#[global] Instance lit_inj : Inj (=) (=) lit.
Proof.
  intros a b. unfold lit. revert b; induction a as [|x a IH]; intros [|y b]; try done.
  cbn. intros [= Hx Hr]. f_equal; [|by apply IH].
  by rewrite <- (ascii_N_embedding x), <- (ascii_N_embedding y), Hx.
Qed.

#[global] Instance dec_N_inj : Inj (=) (=) dec_N.
Proof. intros a b H. by apply lit_inj, pretty_N_inj in H. Qed.

Definition digit_value (c : N) : N := (c - 48)%N.
(** The value of a string of decimal digits read after the prefix [acc]. *)
Definition dec_value (acc : N) (s : str) : N :=
  foldl (λ a c, (a * 10 + digit_value c)%N) acc s.

Lemma lit_cons c s : lit (String c s) = N_of_ascii c :: lit s.
Proof. done. Qed.

Lemma pretty_char_digit x :
  (x < 10)%N → N_of_ascii (pretty_N_char x) = (48 + x)%N.
Proof.
  intros Hx. assert (x ∈ [0;1;2;3;4;5;6;7;8;9]%N) as Hin.
  { rewrite !elem_of_cons. lia. }
  repeat (apply elem_of_cons in Hin as [->|Hin]; [by vm_compute|]).
  by apply not_elem_of_nil in Hin.
Qed.

Lemma dec_N_go x s :
  Forall (λ c, is_ascii_digit c = true) (lit s) →
  Forall (λ c, is_ascii_digit c = true) (lit (pretty_N_go x s)) ∧
  dec_value 0 (lit (pretty_N_go x s)) = dec_value x (lit s).
Proof.
  revert s; induction x as [x IH] using (well_founded_induction N.lt_wf_0); intros s Hs.
  destruct (decide (x = 0)%N) as [->|Hx]; [by rewrite pretty_N_go_0|].
  rewrite pretty_N_go_step by lia.
  assert (x mod 10 < 10)%N as Hm by by apply N.mod_lt.
  pose proof (pretty_char_digit _ Hm) as Hc.
  destruct (IH (x `div` 10)%N) with (s := String (pretty_N_char (x `mod` 10)) s)
    as [IH1 IH2].
  - by apply N.div_lt; lia.
  - rewrite lit_cons. constructor; [|done].
    rewrite Hc. unfold is_ascii_digit. apply andb_true_iff. rewrite !N.leb_le.
      clear -Hm. revert Hm. generalize (x `mod` 10)%N. lia.
  - split; [done|]. rewrite IH2, lit_cons. cbn [dec_value foldl].
    unfold dec_value, digit_value. cbn [foldl]. rewrite Hc. f_equal.
    pose proof (N.div_mod x 10 ltac:(done)).
    revert H. generalize (x `mod` 10)%N, (x `div` 10)%N. intros. lia.
Qed.

(** A decimal is a non-empty string of digits whose value is the number. *)
Lemma dec_N_spec n :
  Forall (λ c, is_ascii_digit c = true) (dec_N n) ∧ dec_value 0 (dec_N n) = n ∧
  dec_N n ≠ [].
Proof.
  unfold dec_N, pretty, pretty_N. destruct (decide (n = 0)%N) as [->|Hn].
  - split_and!; [repeat constructor|by vm_compute|done].
  - destruct (dec_N_go n "") as [H1 H2]; [constructor|].
    split_and!; [done|by rewrite H2|].
    intros Hnil. rewrite Hnil in H2. symmetry in H2. by apply Hn.
Qed.

#[global] Instance dec_Z_inj : Inj (=) (=) dec_Z.
Proof.
  assert (∀ n, dec_N n !! 0%nat ≠ Some 45%N) as Hm.
  { intros n Hn. destruct (dec_N_spec n) as (Hd & _).
    rewrite Forall_lookup in Hd. by specialize (Hd _ _ Hn). }
  intros a b. unfold dec_Z.
  destruct (Z.ltb_spec a 0), (Z.ltb_spec b 0); intros Hab.
  - apply app_inv_head, (inj dec_N) in Hab. lia.
  - exfalso. apply (Hm (Z.to_N b)). by rewrite <- Hab.
  - exfalso. apply (Hm (Z.to_N a)). by rewrite Hab.
  - apply (inj dec_N) in Hab. lia.
Qed.

(** *** Splitting and joining *)

Lemma split_on_fresh sep w : sep ∉ w → split_on sep w = [w].
Proof.
  induction w as [|c w IH]; simpl; [done|]. intros [Hc Hw]%not_elem_of_cons.
  apply not_eq_sym, N.eqb_neq in Hc. rewrite Hc. by rewrite IH.
Qed.

Lemma split_on_app sep w s : sep ∉ w → split_on sep (w ++ sep :: s) = w :: split_on sep s.
Proof.
  induction w as [|c w IH]; simpl; [by rewrite N.eqb_refl|].
  intros [Hc Hw]%not_elem_of_cons.
  apply not_eq_sym, N.eqb_neq in Hc. rewrite Hc. by rewrite IH.
Qed.

(** Splitting undoes joining, when no piece holds the separator. *)
Lemma split_on_join sep ws :
  ws ≠ [] → Forall (λ w, sep ∉ w) ws → split_on sep (join [sep] ws) = ws.
Proof.
  intros Hne. induction 1 as [|w ws Hw Hws IH]; [done|].
  destruct ws as [|w' ws]; simpl; [by apply split_on_fresh|].
  rewrite split_on_app by done. f_equal. by apply IH.
Qed.

Lemma split_on_pieces sep s : Forall (λ w, sep ∉ w) (split_on sep s).
Proof.
  induction s as [|c s IH]; simpl; [repeat constructor; set_solver|].
  destruct (N.eqb_spec c sep) as [->|Hc]; [constructor; [set_solver|done]|].
  destruct (split_on sep s) as [|w ws]; [repeat constructor; set_solver|].
  inversion IH; subst. constructor; [set_solver|done].
Qed.

Lemma split_once_app sep k v :
  sep ∉ k → split_once sep (k ++ sep :: v) = Some (k, v).
Proof.
  induction k as [|c k IH]; simpl; [by rewrite N.eqb_refl|].
  intros [Hc Hk]%not_elem_of_cons.
  apply not_eq_sym, N.eqb_neq in Hc. rewrite Hc. by rewrite IH.
Qed.

Lemma split_once_Some sep s k v :
  split_once sep s = Some (k, v) → s = k ++ sep :: v ∧ sep ∉ k.
Proof.
  revert k; induction s as [|c s IH]; intros k; simpl; [done|].
  destruct (N.eqb_spec c sep) as [->|Hc]; [intros [= <- <-]; set_solver|].
  destruct (split_once sep s) as [[a b]|]; simpl; [|done]. intros [= <- <-].
  destruct (IH a eq_refl) as [-> ?]. set_solver.
Qed.

Lemma split_once_None sep s : split_once sep s = None → sep ∉ s.
Proof.
  induction s as [|c s IH]; simpl; [set_solver|].
  destruct (N.eqb_spec c sep) as [->|Hc]; [done|].
  destruct (split_once sep s) as [[a b]|]; simpl; [done|]. set_solver.
Qed.

Lemma strip_prefix_some p s r : strip_prefix p s = Some r ↔ s = p ++ r.
Proof.
  revert s; induction p as [|x p IH]; intros s; simpl; [naive_solver|].
  destruct s as [|y s]; [naive_solver|].
  destruct (N.eqb_spec x y) as [->|]; [rewrite IH; naive_solver|naive_solver].
Qed.

Lemma strip_suffix_some p s r : strip_suffix p s = Some r ↔ s = r ++ p.
Proof.
  unfold strip_suffix. rewrite fmap_Some. split.
  - intros (r' & H%strip_prefix_some & ->).
    rewrite <- (reverse_involutive s), H, reverse_app. by rewrite reverse_involutive.
  - intros ->. exists (reverse r). rewrite strip_prefix_some, reverse_app.
    by rewrite reverse_involutive.
Qed.

Lemma starts_with_iff p s : starts_with p s = true ↔ ∃ r, s = p ++ r.
Proof.
  unfold starts_with. rewrite bool_decide_eq_true. split.
  - intros [r H%strip_prefix_some]; eauto.
  - intros [r H%strip_prefix_some]. eauto.
Qed.

Lemma str_len_app a b : str_len (a ++ b) = (str_len a + str_len b)%nat.
Proof. unfold str_len. by rewrite sum_list_with_app. Qed.

Lemma Forall_join (P : N → Prop) sep ws :
  Forall P sep → Forall (Forall P) ws → Forall P (join sep ws).
Proof.
  intros Hsep. induction 1 as [|w ws Hw Hws IH]; simpl; [constructor|].
  destruct ws; [done|]. by rewrite !Forall_app.
Qed.

(** A string without white space at its ends is its own trim. *)
Lemma trim_start_id s : (∀ c, head s = Some c → is_whitespace c = false) → trim_start s = s.
Proof. destruct s as [|c s]; simpl; [done|]. intros Hc. by rewrite (Hc c). Qed.

Lemma trim_id s :
  (∀ c, c ∈ s → is_whitespace c = false) → trim s = s.
Proof.
  intros Hs. unfold trim.
  assert (∀ l : str, (∀ c, c ∈ l → is_whitespace c = false) → trim_start l = l) as Ht.
  { intros l Hl. apply trim_start_id. intros c Hc. apply Hl. destruct l; set_solver. }
  rewrite (Ht s Hs), Ht; [by rewrite reverse_involutive|].
  intros c Hc. apply Hs. by rewrite <- elem_of_reverse.
Qed.

Lemma trim_ends a s b :
  is_whitespace a = false → is_whitespace b = false → trim (a :: s ++ [b]) = a :: s ++ [b].
Proof.
  intros Ha Hb. unfold trim. cbn [trim_start]. rewrite Ha.
  rewrite app_comm_cons, reverse_app, reverse_singleton. cbn [app trim_start]. rewrite Hb.
  change (b :: reverse (a :: s)) with ([b] ++ reverse (a :: s)).
  by rewrite reverse_app, reverse_involutive, reverse_singleton.
Qed.

(** [str::find] of a pattern, as the text before and after its first occurrence. *)
Fixpoint split_at (p s : str) : option (str * str) :=
  match strip_prefix p s with
  | Some r => Some ([], r)
  | None =>
    match s with
    | [] => None
    | c :: s' => '(a, b) ← split_at p s'; Some (c :: a, b)
    end
  end.

(** [str::lines]: the last line is dropped when empty, the others lose a final CR. *)
Definition strip_cr (s : str) : str := default s (strip_suffix [13%N] s).
Fixpoint lines_of (pieces : list str) : list str :=
  match pieces with
  | [] => []
  | [w] => if bool_decide (w = []) then [] else [w]
  | w :: ws => strip_cr w :: lines_of ws
  end.
Definition str_lines (s : str) : list str := lines_of (split_on 10 s).

Lemma str_lines_join ws :
  Forall (λ w, w ≠ [] ∧ 10%N ∉ w ∧ strip_cr w = w) ws → str_lines (join [10%N] ws) = ws.
Proof.
  intros Hws. destruct ws as [|w ws]; [done|].
  unfold str_lines. rewrite split_on_join; [|done|].
  - clear -Hws. revert w Hws; induction ws as [|w' ws IH]; intros w [[Hne [_ Hcr]] Hws]%Forall_cons.
    + cbn. by case_bool_decide.
    + change (lines_of (w :: w' :: ws)) with (strip_cr w :: lines_of (w' :: ws)).
      by rewrite Hcr, IH.
  - eapply Forall_impl; [exact Hws|]. by intros x (_ & ? & _).
Qed.

(** The longest prefix of characters that satisfy a test, and what follows: the
    [while let Some(&c) = chars.peek()] loops. *)
Fixpoint span (p : N → bool) (s : str) : str * str :=
  match s with
  | [] => ([], [])
  | c :: s' => if p c then let (a, b) := span p s' in (c :: a, b) else ([], s)
  end.

Lemma span_app p s : (span p s).1 ++ (span p s).2 = s.
Proof.
  induction s as [|c s IH]; [done|]. cbn. destruct (p c); [|done].
  destruct (span p s). cbn in *. by rewrite IH.
Qed.
Lemma span_length p s : (length (span p s).2 <= length s)%nat.
Proof. rewrite <- (span_app p s) at 2. rewrite length_app. lia. Qed.
Lemma span_stop p w c s :
  Forall (λ x, p x = true) w → p c = false → span p (w ++ c :: s) = (w, c :: s).
Proof. induction 1 as [|x w Hx _ IH]; intros Hc; cbn; [by rewrite Hc|]. by rewrite Hx, IH. Qed.

(** [str::to_ascii_lowercase]. *)
Definition to_ascii_lowercase (s : str) : str :=
  (λ c, if is_ascii_uppercase c then (c + 32)%N else c) <$> s.

(** *** [str::as_bytes]: UTF-8 *)
Definition utf8_char (c : N) : list N :=
  (if c <? 128 then [c]
   else if c <? 2048 then [192 + c / 64; 128 + c mod 64]
   else if c <? 65536 then [224 + c / 4096; 128 + (c / 64) mod 64; 128 + c mod 64]
   else [240 + c / 262144; 128 + (c / 4096) mod 64; 128 + (c / 64) mod 64;
         128 + c mod 64])%N.
Definition as_bytes (s : str) : list N := s ≫= utf8_char.
Arguments as_bytes : simpl never.

(** *** Stable sorting by key: [slice::sort_by] *)

Section sort_by.
Context {A : Type} (le : A → A → bool).

Fixpoint insert_by (x : A) (l : list A) : list A :=
  match l with
  | [] => [x]
  | y :: l' => if le x y then x :: l else y :: insert_by x l'
  end.
Fixpoint sort_by (l : list A) : list A :=
  match l with [] => [] | x :: l => insert_by x (sort_by l) end.

Lemma insert_by_perm x l : insert_by x l ≡ₚ x :: l.
Proof.
  induction l as [|y l IH]; simpl; [done|]. destruct (le x y); [done|].
  rewrite IH. constructor.
Qed.
Lemma sort_by_perm l : sort_by l ≡ₚ l.
Proof. induction l as [|x l IH]; simpl; [done|]. by rewrite insert_by_perm, IH. Qed.

Lemma insert_by_sorted x l :
  (∀ a b, le a b = false → le b a = true) →
  (∀ a b c, le a b = true → le b c = true → le a c = true) →
  StronglySorted (λ a b, le a b = true) l →
  StronglySorted (λ a b, le a b = true) (insert_by x l).
Proof.
  intros Htot Htr. induction 1 as [|y l Hl IH Hy]; simpl; [repeat constructor|].
  destruct (le x y) eqn:Hxy.
  - constructor; [by constructor|]. constructor; [done|].
    eapply Forall_impl; [exact Hy|]. eauto.
  - constructor; [done|]. rewrite insert_by_perm. constructor; [by apply Htot|done].
Qed.

Lemma sort_by_sorted l :
  (∀ a b, le a b = false → le b a = true) →
  (∀ a b c, le a b = true → le b c = true → le a c = true) →
  StronglySorted (λ a b, le a b = true) (sort_by l).
Proof.
  intros. induction l; simpl; [constructor|]. by apply insert_by_sorted.
Qed.

(** A sorted list is left as it is. *)
Lemma sort_by_id l : StronglySorted (λ a b, le a b = true) l → sort_by l = l.
Proof.
  induction 1 as [|x l Hl IH Hx]; simpl; [done|]. rewrite IH.
  destruct l as [|y l]; simpl; [done|]. inversion Hx as [|?? Hxy]; subst. by rewrite Hxy.
Qed.

(** Elements of one class of the order keep their relative order. *)
Lemma sort_by_stable (P : A → Prop) `{∀ x, Decision (P x)} l :
  (∀ a b, P a → P b → le a b = true) →
  filter P (sort_by l) = filter P l.
Proof.
  intros HP. induction l as [|x l IH]; simpl; [done|].
  rewrite filter_cons. rewrite <- IH. generalize (sort_by l) as k. clear IH.
  induction k as [|y k IHk]; simpl.
  - rewrite filter_cons. by destruct (decide (P x)).
  - destruct (le x y) eqn:Hxy; [by rewrite filter_cons|].
    rewrite !filter_cons. rewrite IHk.
    destruct (decide (P y)) as [Hy|]; [|done]. destruct (decide (P x)) as [Hx|]; [|done].
    rewrite HP in Hxy by done. done.
Qed.
End sort_by.

(** ** Bytes and machine integers *)

(** A boolean property of the numbers below a bound, checked by evaluation. *)
Lemma below_forallb (P : N → bool) (bound : nat) :
  forallb P (N.of_nat <$> seq 0 bound) = true →
  ∀ n, (n < N.of_nat bound)%N → P n = true.
Proof.
  rewrite forallb_forall. intros HP n Hn. apply HP, list_elem_of_In, list_elem_of_fmap.
  exists (N.to_nat n). rewrite elem_of_seq. lia.
Qed.

(** A byte is an [N] below 256. *)
Abbreviation bytes := (list N).
Definition is_byte (b : N) : Prop := (b < 256)%N.

Definition u32_max : Z := 4294967295.
Definition u64_max : Z := 18446744073709551615.
Definition i64_max : Z := 9223372036854775807.
Definition i32_max : Z := 2147483647.
Definition i32_min : Z := -2147483648.
Definition is_u64 (z : Z) : Prop := 0 <= z <= u64_max.
Definition is_i32 (z : Z) : Prop := i32_min <= z <= i32_max.
Definition is_i64 (z : Z) : Prop := - i64_max - 1 <= z <= i64_max.

(** [u64::saturating_add] and [u64::saturating_sub]. *)
Definition sat_add (a b : Z) : Z := Z.min (a + b) u64_max.
Definition sat_sub (a b : Z) : Z := Z.max (a - b) 0.

(** [x as i32], [x as u32], [x as i64]: truncation to the width. *)
Definition as_i32 (z : Z) : Z := (z + 2147483648) mod 4294967296 - 2147483648.
Definition as_u32 (z : Z) : Z := z mod 4294967296.
Definition as_i64 (z : Z) : Z :=
  (z + 9223372036854775808) mod 18446744073709551616 - 9223372036854775808.

Lemma as_i32_id z : is_i32 z → as_i32 z = z.
Proof. unfold is_i32, as_i32, i32_min, i32_max. intros. rewrite Z.mod_small; lia. Qed.

(** *** [str::parse::<u64>] *)

(** [ParseIntError]'s messages. *)
Definition int_empty : str := lit "cannot parse integer from empty string".
Definition int_invalid : str := lit "invalid digit found in string".
Definition int_overflow : str := lit "number too large to fit in target type".

Fixpoint parse_digits (max acc : Z) (s : str) : result str Z :=
  match s with
  | [] => Ok acc
  | c :: s =>
    if is_ascii_digit c then
      if max <? acc * 10 then Err int_overflow
      else let acc := acc * 10 + Z.of_N (digit_value c) in
           if max <? acc then Err int_overflow else parse_digits max acc s
    else Err int_invalid
  end.

Definition parse_unsigned (max : Z) (s : str) : result str Z :=
  match s with
  | [] => Err int_empty
  | [43%N] | [45%N] => Err int_invalid
  | 43%N :: s => parse_digits max 0 s
  | _ => parse_digits max 0 s
  end.
Definition parse_u64 (s : str) : result str Z := parse_unsigned u64_max s.

Lemma dec_value_ge acc s : (acc <= dec_value acc s)%N.
Proof.
  revert acc; induction s as [|c s IH]; intros acc; [done|].
  cbn [dec_value foldl]. etrans; [|apply IH]. lia.
Qed.

Lemma parse_digits_value max acc s :
  0 <= acc → Forall (λ c, is_ascii_digit c = true) s →
  Z.of_N (dec_value (Z.to_N acc) s) <= max →
  parse_digits max acc s = Ok (Z.of_N (dec_value (Z.to_N acc) s)).
Proof.
  intros Hacc Hs. revert acc Hacc. induction Hs as [|c s Hc Hs IH]; intros acc Hacc Hle.
  - cbn in *. by rewrite Z2N.id.
  - cbn [parse_digits dec_value foldl] in *. rewrite Hc.
    pose proof (dec_value_ge (Z.to_N acc * 10 + digit_value c) s) as Hge.
    unfold dec_value in *.
    replace (Z.to_N acc * 10 + digit_value c)%N with
      (Z.to_N (acc * 10 + Z.of_N (digit_value c))) in * by lia.
    destruct (Z.ltb_spec max (acc * 10)); [lia|].
    destruct (Z.ltb_spec max (acc * 10 + Z.of_N (digit_value c))); [lia|].
    apply IH; [lia|done].
Qed.

(** Printing then parsing gives the number back. *)
Lemma parse_u64_dec n : is_u64 n → parse_u64 (dec_Z n) = Ok n.
Proof.
  intros [Hn Hle]. unfold dec_Z. apply Z.ltb_ge in Hn as Hn'. rewrite Hn'.
  destruct (dec_N_spec (Z.to_N n)) as (Hd & Hv & Hne).
  unfold parse_u64, parse_unsigned.
  destruct (dec_N (Z.to_N n)) as [|c s] eqn:Hs; [done|].
  assert (parse_digits u64_max 0 (c :: s) = Ok n) as Hp.
  { rewrite parse_digits_value; [|done|done|].
    - change (Z.to_N 0) with 0%N. by rewrite Hv, Z2N.id.
    - change (Z.to_N 0) with 0%N. by rewrite Hv, Z2N.id. }
  inversion Hd as [|? ? Hc _]; subst.
  assert (c ≠ 43%N ∧ c ≠ 45%N) as [H43 H45] by (split; by intros ->).
  rewrite <- Hp. clear -H43 H45.
  repeat match goal with |- context [match ?x with _ => _ end] => is_var x; destruct x end;
    try done; congruence.
Qed.

(** ** The order on strings *)

Lemma str_leb_total a b : str_leb a b = false → str_leb b a = true.
Proof.
  revert b; induction a as [|x a IH]; intros [|y b]; simpl; try done.
  rewrite orb_false_iff, andb_false_iff, orb_true_iff, andb_true_iff.
  rewrite N.ltb_ge, N.eqb_neq, N.ltb_lt, N.eqb_eq. intros [Hle [Hne|Hab]].
  - left. lia.
  - destruct (decide (x = y)) as [->|]; [right; auto|left; lia].
Qed.

Lemma str_leb_trans a b c : str_leb a b = true → str_leb b c = true → str_leb a c = true.
Proof.
  revert b c; induction a as [|x a IH]; intros [|y b] [|z c]; simpl; try done.
  rewrite !orb_true_iff, !andb_true_iff, !N.ltb_lt, !N.eqb_eq.
  intros [?|[-> ?]] [?|[-> ?]]; [left; lia..|right; eauto].
Qed.

Lemma str_leb_refl a : str_leb a a = true.
Proof. induction a as [|x a IH]; simpl; [done|]. by rewrite N.eqb_refl, IH, orb_true_r. Qed.

Lemma str_leb_antisym a b : str_leb a b = true → str_leb b a = true → a = b.
Proof.
  revert b; induction a as [|x a IH]; intros [|y b]; simpl; try done.
  rewrite !orb_true_iff, !andb_true_iff, !N.ltb_lt, !N.eqb_eq.
  intros [?|[-> ?]] [?|[? ?]]; try lia. f_equal. by apply IH.
Qed.
