(* ===== verification/Tso.v ===== *)
(** * The hybrid logical timestamp ([headlines-core/src/tso.rs])

    The value type [Tso] with its packing of 46 bits of physical milliseconds
    and 18 bits of logical counter into a [u64], and the lemmas the time source
    and the nonce store use: packing and unpacking are inverse, and the order
    on raw values is the lexicographic order on the parts. *)

From S2P Require Import Prelude.

Definition LOGICAL_BITS : Z := 18.
Definition LOGICAL_MASK : Z := Z.shiftl 1 LOGICAL_BITS - 1.

(** [pub struct Tso(u64)]. *)
Record Tso := mkTso { tso_raw : Z }.

#[global] Instance tso_eq_dec : EqDecision Tso.
Proof. solve_decision. Defined.

Definition ZERO : Tso := mkTso 0.
Definition from_raw (raw : Z) : Tso := mkTso raw.
Definition as_u64 (t : Tso) : Z := tso_raw t.

(** [<<] on a [u64] drops the bits shifted out. *)
Definition from_parts (physical_ms logical : Z) : Tso :=
  let p := Z.land (Z.shiftl physical_ms LOGICAL_BITS) u64_max in
  let l := Z.land logical LOGICAL_MASK in
  mkTso (Z.lor p l).

(** The cast of the masked counter to [u32] keeps every value. *)
Definition parts (t : Tso) : Z * Z :=
  (Z.shiftr (tso_raw t) LOGICAL_BITS, as_u32 (Z.land (tso_raw t) LOGICAL_MASK)).

Definition physical_ms (t : Tso) : Z := (parts t).1.
Definition logical (t : Tso) : Z := (parts t).2.

(** [impl Display for Tso]. *)
Definition tso_display (t : Tso) : str := dec_Z (tso_raw t).

(** A well-formed value: the raw word is a [u64]. *)
Definition tso_wf (t : Tso) : Prop := is_u64 (tso_raw t).

Definition PHYSICAL_BOUND : Z := 70368744177664. (* 2^46 *)
Definition LOGICAL_BOUND : Z := 262144.          (* 2^18 *)

(** [Ord] on [Tso] is the order of the raw words. *)
Definition tso_lt (a b : Tso) : Prop := tso_raw a < tso_raw b.

Lemma land_mask x : Z.land x LOGICAL_MASK = x mod LOGICAL_BOUND.
Proof. change LOGICAL_MASK with (Z.ones 18). rewrite Z.land_ones by lia. done. Qed.

Lemma land_u64_max x : Z.land x u64_max = x mod 18446744073709551616.
Proof. change u64_max with (Z.ones 64). rewrite Z.land_ones by lia. done. Qed.

Lemma shiftl_bits x : Z.shiftl x LOGICAL_BITS = x * LOGICAL_BOUND.
Proof. unfold LOGICAL_BITS. rewrite Z.shiftl_mul_pow2 by lia. done. Qed.

Lemma shiftr_bits x : Z.shiftr x LOGICAL_BITS = x / LOGICAL_BOUND.
Proof. unfold LOGICAL_BITS. rewrite Z.shiftr_div_pow2 by lia. done. Qed.

(** A multiple of 2^18 and a value below 2^18 share no bit. *)
Lemma lor_disjoint h l :
  0 <= l < LOGICAL_BOUND → Z.lor (h * LOGICAL_BOUND) l = h * LOGICAL_BOUND + l.
Proof.
  intros Hl. symmetry.
  rewrite <- Z.lxor_lor, <- Z.add_nocarry_lxor; [done| |];
    apply Z.bits_inj'; intros n Hn; rewrite Z.land_spec, Z.bits_0;
    change LOGICAL_BOUND with (2 ^ 18) in *;
    (destruct (decide (n < 18));
     [by rewrite Z.mul_pow2_bits_low by lia
     |rewrite (Z.bits_above_log2 l n); [by rewrite andb_false_r|lia|];
      destruct (decide (l = 0)) as [->|]; [simpl; lia|];
      apply Z.log2_lt_pow2; [lia|]; apply Z.lt_le_trans with (2 ^ 18); [lia|];
      apply Z.pow_le_mono_r; lia]).
Qed.

(** The raw word in arithmetic form: the physical part modulo 2^46 and the
    logical part modulo 2^18, so what does not fit is masked off. *)
Lemma from_parts_raw p l :
  tso_raw (from_parts p l) =
  (p mod PHYSICAL_BOUND) * LOGICAL_BOUND + l mod LOGICAL_BOUND.
Proof.
  unfold from_parts; simpl. rewrite land_mask, land_u64_max, shiftl_bits.
  replace 18446744073709551616 with (PHYSICAL_BOUND * LOGICAL_BOUND) by done.
  rewrite Z.mul_mod_distr_r by done.
  apply lor_disjoint, Z.mod_pos_bound. done.
Qed.

Lemma from_parts_wf p l : tso_wf (from_parts p l).
Proof.
  unfold tso_wf, is_u64, u64_max. rewrite from_parts_raw.
  pose proof (Z.mod_pos_bound p PHYSICAL_BOUND ltac:(done)).
  pose proof (Z.mod_pos_bound l LOGICAL_BOUND ltac:(done)).
  unfold PHYSICAL_BOUND, LOGICAL_BOUND in *. lia.
Qed.

Lemma physical_ms_div t : physical_ms t = tso_raw t / LOGICAL_BOUND.
Proof. apply shiftr_bits. Qed.

Lemma logical_mod t : logical t = tso_raw t mod LOGICAL_BOUND.
Proof.
  unfold logical, parts; simpl. rewrite land_mask. unfold as_u32.
  pose proof (Z.mod_pos_bound (tso_raw t) LOGICAL_BOUND ltac:(done)).
  rewrite Z.mod_small; [done|]. unfold LOGICAL_BOUND in *; lia.
Qed.

Lemma tso_parts_eq t : tso_raw t = physical_ms t * LOGICAL_BOUND + logical t.
Proof.
  rewrite physical_ms_div, logical_mod.
  pose proof (Z.div_mod (tso_raw t) LOGICAL_BOUND ltac:(done)). lia.
Qed.

Lemma logical_bounds t : 0 <= logical t < LOGICAL_BOUND.
Proof. rewrite logical_mod. by apply Z.mod_pos_bound. Qed.

Lemma physical_bounds t : tso_wf t → 0 <= physical_ms t < PHYSICAL_BOUND.
Proof.
  unfold tso_wf, is_u64, u64_max. rewrite physical_ms_div. intros.
  split; [apply Z.div_pos; [lia|done]|].
  apply Z.div_lt_upper_bound; [done|]. unfold LOGICAL_BOUND, PHYSICAL_BOUND. lia.
Qed.

Lemma physical_from_parts p l : physical_ms (from_parts p l) = p mod PHYSICAL_BOUND.
Proof.
  rewrite physical_ms_div, from_parts_raw, Z.div_add_l by done.
  rewrite (Z.div_small (l mod _)); [lia|]. by apply Z.mod_pos_bound.
Qed.

Lemma logical_from_parts p l : logical (from_parts p l) = l mod LOGICAL_BOUND.
Proof.
  rewrite logical_mod, from_parts_raw, Z.add_comm, Z.mod_add by done.
  apply Z.mod_mod. done.
Qed.

(** The order of raw words is the lexicographic order of the parts. *)
Lemma tso_lt_parts a b :
  tso_lt a b ↔
  physical_ms a < physical_ms b ∨
  (physical_ms a = physical_ms b ∧ logical a < logical b).
Proof.
  unfold tso_lt. rewrite (tso_parts_eq a), (tso_parts_eq b).
  pose proof (logical_bounds a). pose proof (logical_bounds b).
  unfold LOGICAL_BOUND in *. split; intros; lia.
Qed.

Lemma physical_mono a b : tso_raw a <= tso_raw b → physical_ms a <= physical_ms b.
Proof. rewrite !physical_ms_div. intros. apply Z.div_le_mono; [done|lia]. Qed.

(** Packing and unpacking a timestamp are mutually inverse on the field
    widths the layout documents, every packed word is a [u64], and comparing
    words compares [(physical_ms, logical)] lexicographically. *)
Theorem tso_layout :
  (∀ p l, 0 <= p < PHYSICAL_BOUND → 0 <= l < LOGICAL_BOUND →
     parts (from_parts p l) = (p, l)) ∧
  (∀ t, tso_wf t → from_parts (physical_ms t) (logical t) = t) ∧
  (∀ p l, tso_wf (from_parts p l)) ∧
  (∀ a b, tso_lt a b ↔
     physical_ms a < physical_ms b ∨
     (physical_ms a = physical_ms b ∧ logical a < logical b)).
Proof.
  split_and!.
  - intros p l Hp Hl. rewrite (surjective_pairing (parts _)).
    change (parts ?t).1 with (physical_ms t); change (parts ?t).2 with (logical t).
    by rewrite physical_from_parts, logical_from_parts, !Z.mod_small.
  - intros [raw] Hwf.
    pose proof (physical_bounds _ Hwf). pose proof (logical_bounds (mkTso raw)).
    transitivity (mkTso (tso_raw (from_parts (physical_ms (mkTso raw)) (logical (mkTso raw)))));
      [done|]. rewrite from_parts_raw, !Z.mod_small by done.
    by rewrite <- tso_parts_eq.
  - apply from_parts_wf.
  - apply tso_lt_parts.
Qed.
