(* ===== verification/Libs.v ===== *)
(** * Third-party code as parameters

    The crates the source calls ([uuid], [chrono], [base64], [serde], [url],
    [sha2], [ed25519-dalek], [diesel]) are not under [src/].  Each is a class of
    operations; the definitions that call it take the class as an argument.  The
    documented behaviour a theorem relies on is a separate class of laws. *)

From S2P Require Import Prelude.

(** [uuid::Uuid]: a 128-bit value; [Ord] compares the big-endian bytes, i.e.
    the number. *)
Abbreviation Uuid := N.

(** [chrono::DateTime<Utc>]: an instant, in nanoseconds since the epoch. *)
Abbreviation DateTime := Z.

(** [serde_json::Value]; [Map] is the default [BTreeMap], here its entries in
    key order.  The source only stores integers in [Number]s. *)
Inductive Json : Type :=
  | JNull
  | JBool (b : bool)
  | JNumber (n : Z)
  | JString (s : str)
  | JArray (l : list Json)
  | JObject (m : list (str * Json)).

(** [uuid] *)
Class UuidLib := {
  uuid_parse_str : str → result str Uuid;   (* Err: the error's [Display] *)
  uuid_display : Uuid → str;
}.

(** [chrono] *)
Class ChronoLib := {
  to_rfc3339 : DateTime → str;
  parse_from_rfc3339 : str → result str DateTime;
  dt_display : DateTime → str;
  from_timestamp : Z → Z → option DateTime;      (* seconds, nanoseconds *)
  from_timestamp_millis : Z → option DateTime;
}.

(** [base64]: the STANDARD and the URL_SAFE_NO_PAD engines *)
Class Base64Lib := {
  b64_encode : bytes → str;
  b64_decode : str → result str bytes;
  b64url_encode : bytes → str;
  b64url_decode : str → result str bytes;
}.

(** The code [serde] derives for the cursor structs, through [serde_json]:
    [{<field>: String, i: Uuid}] and [{p: i32}], and [serde_json::to_vec] of a
    [Value]. *)
Class SerdeLib := {
  cursor_to_vec : str → str → Uuid → bytes;
  cursor_from_slice : str → bytes → result str (str * Uuid);
  position_to_vec : Z → bytes;
  position_from_slice : bytes → result str Z;
  json_to_vec : Json → result str bytes;
}.

(** [url::Url::parse], keeping the scheme *)
Class UrlLib := { url_parse_scheme : str → result str str }.

(** The generated tables behind [char]'s [Debug]: is a non-ASCII scalar value printed as
    itself. *)
Class UnicodeLib := { is_printable : N → bool }.

(** How [Debug] escapes a character between the given quotes; [{:x}] of a scalar value has
    at most six digits. *)
Definition escape_debug `{UnicodeLib} (quote c : N) : str :=
  if (c =? 0)%N then lit "\0"
  else if (c =? 9)%N then lit "\t"
  else if (c =? 13)%N then lit "\r"
  else if (c =? 10)%N then lit "\n"
  else if (c =? quote)%N || (c =? 92)%N then [92%N; c]
  else if (if (c <? 128)%N then ((32 <=? c) && (c <=? 126))%N else is_printable c) then [c]
  else lit "\u{" ++ hex_digits 6 c [] ++ lit "}".
(** [{s:?}] for a string. *)
Definition str_debug `{UnicodeLib} (s : str) : str :=
  [34%N] ++ (s ≫= escape_debug 34) ++ [34%N].

(** [sha2] and [ed25519-dalek] *)
Class CryptoLib := {
  VerifyingKey : Type;
  sha256 : bytes → bytes;
  verifying_key_from_bytes : bytes → result str VerifyingKey;
  ed25519_verify : VerifyingKey → bytes → bytes → bool;
}.

(** ** Documented behaviour *)

(** [Uuid::parse_str] reads back what [Display] prints: hexadecimal digits and
    dashes. *)
Definition uuid_char (c : N) : bool := is_ascii_alphanumeric c || (c =? 45)%N.
Class UuidLaws `{UuidLib} : Prop := {
  uuid_roundtrip : ∀ u, uuid_parse_str (uuid_display u) = Ok u;
  uuid_display_chars : ∀ u, Forall (λ c, uuid_char c = true) (uuid_display u);
}.

(** Decoding inverts encoding, for both alphabets; the standard one has letters,
    digits, [+], [/] and the padding [=]. *)
Definition b64_char (c : N) : bool :=
  is_ascii_alphanumeric c || (c =? 43)%N || (c =? 47)%N || (c =? 61)%N.
Class Base64Laws `{Base64Lib} : Prop := {
  b64_roundtrip : ∀ b, b64_decode (b64_encode b) = Ok b;
  b64url_roundtrip : ∀ b, b64url_decode (b64url_encode b) = Ok b;
  b64url_encode_nil : ∀ b, b64url_encode b = [] → b = [];
  b64_encode_chars : ∀ b, Forall (λ c, b64_char c = true) (b64_encode b);
}.

(** RFC 3339 printing of a UTC instant is parsed back to it. *)
Class ChronoLaws `{ChronoLib} : Prop :=
  rfc3339_roundtrip : ∀ t, parse_from_rfc3339 (to_rfc3339 t) = Ok t.

(** [DateTime::from_timestamp]: seconds and nanoseconds since the epoch.  (From 10^9 on the
    nanoseconds denote a leap second.) *)
Class TimestampLaws `{ChronoLib} : Prop :=
  from_timestamp_value : ∀ s n t, 0 <= n < 1000000000 →
    from_timestamp s n = Some t → t = s * 1000000000 + n.

(** Derived deserialisers read back what the derived serialisers write. *)
Class SerdeLaws `{SerdeLib} : Prop := {
  cursor_nonempty : ∀ f c i, cursor_to_vec f c i ≠ [];
  cursor_roundtrip : ∀ f c i, cursor_from_slice f (cursor_to_vec f c i) = Ok (c, i);
  position_nonempty : ∀ p, position_to_vec p ≠ [];
  position_roundtrip : ∀ p, is_i32 p → position_from_slice (position_to_vec p) = Ok p;
}.

#[global] Instance uuid_display_inj `{UuidLaws} : Inj (=) (=) uuid_display.
Proof.
  intros a b Hab. assert (Ok (E := str) a = Ok b) as Hk; [|by injection Hk].
  by rewrite <- (uuid_roundtrip a), <- (uuid_roundtrip b), Hab.
Qed.

#[global] Instance b64_encode_inj `{Base64Laws} : Inj (=) (=) b64_encode.
Proof.
  intros a b Hab. assert (Ok (E := str) a = Ok b) as Hk; [|by injection Hk].
  by rewrite <- (b64_roundtrip a), <- (b64_roundtrip b), Hab.
Qed.

#[global] Instance to_rfc3339_inj `{ChronoLaws} : Inj (=) (=) to_rfc3339.
Proof.
  intros a b Hab. assert (Ok (E := str) a = Ok b) as Hk; [|by injection Hk].
  by rewrite <- (rfc3339_roundtrip a), <- (rfc3339_roundtrip b), Hab.
Qed.

(** [lru::LruCache<K, V>]: [iter] lists the entries, [get] also marks the entry as
    recently used, [put] evicts only at capacity. *)
Class LruLib (K V : Type) := {
  Lru : Type;
  lru_new : Z → Lru;
  lru_iter : Lru → list (K * V);
  lru_get : K → Lru → option V * Lru;
  lru_pop : K → Lru → Lru;
  lru_put : K → V → Lru → Lru;
  lru_len : Lru → Z;
  lru_cap : Lru → Z;
}.
Arguments Lru K V {_}.

Class LruLaws (K V : Type) `{LruLib K V, EqDecision K} : Prop := {
  lru_keys : ∀ c, NoDup (lru_iter c).*1;
  lru_iter_new : ∀ n, lru_iter (lru_new n) = [];
  lru_get_some : ∀ k v c, (lru_get k c).1 = Some v ↔ (k, v) ∈ lru_iter c;
  lru_iter_get : ∀ k c, lru_iter (lru_get k c).2 ≡ₚ lru_iter c;
  lru_iter_pop : ∀ k c, lru_iter (lru_pop k c) ≡ₚ filter (λ e, e.1 ≠ k) (lru_iter c);
  lru_len_iter : ∀ c, lru_len c = Z.of_nat (length (lru_iter c));
  lru_iter_put : ∀ k v c, lru_len c < lru_cap c → k ∉ (lru_iter c).*1 →
    lru_iter (lru_put k v c) ≡ₚ (k, v) :: lru_iter c;
  lru_cap_new : ∀ n, 0 < n → lru_cap (lru_new n) = n;
  lru_cap_get : ∀ k c, lru_cap (lru_get k c).2 = lru_cap c;
  lru_cap_pop : ∀ k c, lru_cap (lru_pop k c) = lru_cap c;
  lru_cap_put : ∀ k v c, lru_cap (lru_put k v c) = lru_cap c;
}.
