(* ===== verification/Instances.v ===== *)
(** * Concrete instances of the library interfaces

    Small executable models of the third-party interfaces of [Libs], each with
    its laws.  They are plain definitions, not instances: the theorems are proved
    for every library that satisfies the laws; the witnesses evaluate on these. *)

From S2P Require Import Prelude Libs.

(** ** [uuid]: decimal text *)

Definition toy_uuid : UuidLib := {|
  uuid_parse_str s :=
    if forallb is_ascii_digit s && negb (bool_decide (s = [])) then Ok (dec_value 0 s)
    else Err (lit "invalid character");
  uuid_display := dec_N;
|}.

Lemma dec_N_digits_b n : forallb is_ascii_digit (dec_N n) = true.
Proof.
  destruct (dec_N_spec n) as (H & _). apply forallb_forall. intros c Hc.
  rewrite Forall_forall in H. apply H. by apply list_elem_of_In.
Qed.

Lemma toy_uuid_laws : @UuidLaws toy_uuid.
Proof.
  split; intros u; simpl; destruct (dec_N_spec u) as (Hd & Hv & Hne).
  - by rewrite dec_N_digits_b, bool_decide_eq_false_2, Hv.
  - eapply Forall_impl; [exact Hd|]. intros c Hc.
    unfold uuid_char, is_ascii_alphanumeric. by rewrite Hc.
Qed.

(** ** [chrono]: signed decimal text of the nanoseconds *)

Definition toy_parse_time (s : str) : result str DateTime :=
  match s with
  | 45%N :: s' => Ok (- Z.of_N (dec_value 0 s'))
  | 43%N :: s' => Ok (Z.of_N (dec_value 0 s'))
  | _ => Err (lit "input contains invalid characters")
  end.
Definition toy_show_time (t : DateTime) : str :=
  if t <? 0 then 45%N :: dec_N (Z.to_N (- t)) else 43%N :: dec_N (Z.to_N t).

Definition toy_chrono : ChronoLib := {|
  to_rfc3339 := toy_show_time;
  parse_from_rfc3339 := toy_parse_time;
  dt_display := toy_show_time;
  from_timestamp s n := Some (s * 1000000000 + n);
  from_timestamp_millis ms := Some (ms * 1000000);
|}.

Lemma toy_chrono_laws : @ChronoLaws toy_chrono.
Proof.
  intros t. simpl. unfold toy_show_time, toy_parse_time.
  destruct (Z.ltb_spec t 0); destruct (dec_N_spec (Z.to_N (- t))) as (_ & H1 & _);
    destruct (dec_N_spec (Z.to_N t)) as (_ & H2 & _); f_equal;
    [rewrite H1|rewrite H2]; lia.
Qed.

Lemma toy_timestamp_laws : @TimestampLaws toy_chrono.
Proof. intros s n t _ [= <-]. done. Qed.

(** ** [core::unicode]: every non-ASCII character is printable *)

Definition toy_unicode : UnicodeLib := {| is_printable _ := true |}.

(** ** [base64]: each byte as that many letters [A] and a [B] *)

Fixpoint toy_encode (b : bytes) : str :=
  match b with
  | [] => []
  | x :: b => replicate (N.to_nat x) 65%N ++ 66%N :: toy_encode b
  end.
Fixpoint toy_decode (acc : N) (s : str) : result str bytes :=
  match s with
  | [] => if (acc =? 0)%N then Ok [] else Err (lit "Invalid padding")
  | 65%N :: s => toy_decode (acc + 1) s
  | 66%N :: s => b ← toy_decode 0 s; Ok (acc :: b)
  | _ => Err (lit "Invalid symbol")
  end.

Definition toy_base64 : Base64Lib := {|
  b64_encode := toy_encode;
  b64_decode := toy_decode 0;
  b64url_encode := toy_encode;
  b64url_decode := toy_decode 0;
|}.

Lemma toy_decode_run n acc s :
  toy_decode acc (replicate n 65%N ++ s) = toy_decode (acc + N.of_nat n) s.
Proof.
  revert acc; induction n as [|n IH]; intros acc; simpl; [by rewrite N.add_0_r|].
  rewrite IH. f_equal. lia.
Qed.

Lemma toy_base64_roundtrip b : toy_decode 0 (toy_encode b) = Ok b.
Proof.
  induction b as [|x b IH]; [done|]. simpl. rewrite toy_decode_run. simpl.
  rewrite IH. simpl. by rewrite N2Nat.id.
Qed.

Lemma toy_base64_laws : @Base64Laws toy_base64.
Proof.
  split; [apply toy_base64_roundtrip..| |]; intros b; simpl.
  { destruct b as [|x b]; simpl; [done|]. intros Hb.
    apply app_nil in Hb as [_ Hb]. done. }
  induction b as [|x b IH]; simpl; [constructor|]. apply Forall_app. split.
  - by apply Forall_replicate.
  - by constructor.
Qed.

(** ** [serde]: cursors as untyped byte strings *)

Definition toy_serde : SerdeLib := {|
  cursor_to_vec _ c i := i :: c;
  cursor_from_slice _ b := match b with i :: c => Ok (c, i) | [] => Err (lit "EOF") end;
  position_to_vec p := [Z.to_N (Z.abs p); if p <? 0 then 1%N else 0%N];
  position_from_slice b :=
    match b with
    | [n; s] => Ok (if (s =? 1)%N then - Z.of_N n else Z.of_N n)
    | _ => Err (lit "EOF")
    end;
  json_to_vec _ := Ok [];
|}.

Lemma toy_serde_laws : @SerdeLaws toy_serde.
Proof.
  split; [done|done|done|]. intros p _. simpl. destruct (Z.ltb_spec p 0); simpl; f_equal; lia.
Qed.

(** ** [sha2], [ed25519-dalek]: sums modulo 256 *)

Definition byte_sum (b : bytes) : N := (foldr N.add 0 b mod 256)%N.
Definition toy_crypto : CryptoLib := {|
  VerifyingKey := bytes;
  sha256 b := replicate 32 (byte_sum b);
  verifying_key_from_bytes b := Ok b;
  ed25519_verify k m s := bool_decide (s = replicate 64 (byte_sum (k ++ m)));
|}.

(** ** [lru]: a finite map with a capacity *)

Section toy_lru.
Context (K V : Type) `{Countable K}.

Record ToyLru := mkToyLru { tl_map : gmap K V; tl_cap : Z }.

Definition toy_lru : LruLib K V := {|
  Lru := ToyLru;
  lru_new n := mkToyLru ∅ n;
  lru_iter c := map_to_list (tl_map c);
  lru_get k c := (tl_map c !! k, c);
  lru_pop k c := mkToyLru (delete k (tl_map c)) (tl_cap c);
  lru_put k v c :=
    if Z.of_nat (size (tl_map c)) <? tl_cap c then mkToyLru (<[k := v]> (tl_map c)) (tl_cap c)
    else match (map_to_list (tl_map c)).*1 with
         | victim :: _ => mkToyLru (<[k := v]> (delete victim (tl_map c))) (tl_cap c)
         | [] => c
         end;
  lru_len c := Z.of_nat (size (tl_map c));
  lru_cap := tl_cap;
|}.

Lemma toy_lru_laws : @LruLaws K V toy_lru _.
Proof.
  split; simpl.
  - intros c. apply NoDup_fst_map_to_list.
  - intros n. apply map_to_list_empty.
  - intros k v c. by rewrite elem_of_map_to_list.
  - done.
  - intros k c. apply NoDup_Permutation; [apply NoDup_map_to_list| |].
    + apply NoDup_filter, NoDup_map_to_list.
    + intros [k' v]. rewrite list_elem_of_filter, !elem_of_map_to_list, lookup_delete_Some.
      simpl. naive_solver.
  - intros c. by rewrite length_map_to_list.
  - intros k v c Hlt Hk. apply Z.ltb_lt in Hlt as ->. apply map_to_list_insert.
    apply eq_None_not_Some. intros [v' Hv]. destruct Hk.
    apply list_elem_of_fmap. exists (k, v'). by rewrite elem_of_map_to_list.
  - done.
  - done.
  - done.
  - intros k v c. destruct (_ <? _); [done|]. by destruct (map_to_list (tl_map c)).*1.
Qed.
End toy_lru.

(** The scheme is what precedes the first colon. *)
Definition toy_url : UrlLib :=
  {| url_parse_scheme s :=
       match split_once 58%N s with
       | Some (scheme, _) => Ok scheme
       | None => Err (lit "relative URL without a base")
       end |}.
