(* ===== verification/Subject.v ===== *)
(** * Subjects, scopes and the authorization decision
    ([headlines-core/src/subject.rs], [headlines-auth/src/authorize.rs],
    [headlines-proto/src/lib.rs])

    The identity a verified request carries, the wildcard scope language and the
    per-RPC decision [is_allowed].  The wildcard matcher is specified against an
    inductive reading of the documented rules. *)

From S2P Require Import Prelude Libs.

Inductive Subject : Type :=
  | User (user_id key_id : Uuid)
  | Account (account_id key_id : Uuid)
  | System (system_id key_id : Uuid) (scopes : list str)
  | Anonymous.

Inductive SubjectClass : Type :=
  | CAnonymous | CUserSelf | CAccountSelf | CAccountOwnsResource | CSystem.

#[global] Instance subject_eq_dec : EqDecision Subject.
Proof. solve_decision. Defined.
#[global] Instance subject_class_eq_dec : EqDecision SubjectClass.
Proof. solve_decision. Defined.

(** [Subject::class] *)
Definition class (s : Subject) : SubjectClass :=
  match s with
  | Anonymous => CAnonymous
  | User _ _ => CUserSelf
  | Account _ _ => CAccountSelf
  | System _ _ _ => CSystem
  end.

(** [Subject::is_self_for] *)
Definition is_self_for (s : Subject) (target_user_id target_account_id : option Uuid) : bool :=
  match s with
  | User user_id _ => bool_decide (target_user_id = Some user_id)
  | Account account_id _ => bool_decide (target_account_id = Some account_id)
  | System _ _ _ | Anonymous => false
  end.

(** [target.as_bytes()[prefix.len()] == b'.']: in range by the conjuncts before
    it.  A prefix of a string is a prefix of its bytes, so the byte at the
    prefix's length is the next scalar value's first byte, and it is ['.'] iff
    that scalar value is. *)
Definition dot : N := 46%N.

(** [scope_matches] *)
Definition scope_matches (granted target : str) : bool :=
  if str_eqb granted (lit "*") then true
  else if str_eqb granted target then true
  else match strip_suffix (lit ".*") granted with
       | Some prefix =>
         (str_len prefix <? str_len target)%nat && starts_with prefix target
         && bool_decide (target !! length prefix = Some dot)
       | None => false
       end.

(** [Subject::has_scope] *)
Definition has_scope (s : Subject) (scope : str) : bool :=
  match s with
  | System _ _ scopes =>
    match scope with
    | [] => existsb (λ g, str_eqb g (lit "*")) scopes
    | _ => existsb (λ g, scope_matches g scope) scopes
    end
  | _ => false
  end.

(** [impl TryFrom<i32> for SubjectClass] *)
Definition subject_class_try_from (value : Z) : result Z SubjectClass :=
  match value with
  | 1 => Ok CAnonymous
  | 2 => Ok CUserSelf
  | 3 => Ok CAccountSelf
  | 4 => Ok CAccountOwnsResource
  | 5 => Ok CSystem
  | other => Err other
  end.

(** [headlines_proto::AuthSpec] *)
Record AuthSpec := { allowed : list SubjectClass; spec_scopes : list str }.

(** [matches!((c, class), ...)] in [is_allowed] *)
Definition class_accepts (c cls : SubjectClass) : bool :=
  match c, cls with
  | CAnonymous, CAnonymous | CUserSelf, CUserSelf | CAccountSelf, CAccountSelf
  | CAccountOwnsResource, CAccountSelf | CSystem, CSystem => true
  | _, _ => false
  end.

(** [is_allowed] of authorize.rs *)
Definition is_allowed (subject : Subject) (spec : AuthSpec) : bool :=
  let cls := match subject with
             | Anonymous => CAnonymous
             | User _ _ => CUserSelf
             | Account _ _ => CAccountSelf
             | System _ _ _ => CSystem
             end in
  let class_ok := existsb (λ c, class_accepts c cls) (allowed spec) in
  if negb class_ok then false
  else match subject with
       | System _ _ _ =>
         match spec_scopes spec with
         | [] => true
         | _ => existsb (has_scope subject) (spec_scopes spec)
         end
       | _ => true
       end.

(** [AuthTable::lookup] on the association-list form: the first entry of the
    method.  The generated perfect-hash table is the same function of the
    method name. *)
Fixpoint table_lookup (table : list (str * AuthSpec)) (path : str) : option AuthSpec :=
  match table with
  | [] => None
  | (m, spec) :: rest => if str_eqb m path then Some spec else table_lookup rest path
  end.

(** ** The documented scope rules, as a relation *)
Inductive grants : str → str → Prop :=
  | grants_star t : grants (lit "*") t
  | grants_exact s : grants s s
  | grants_prefix p rest : grants (p ++ lit ".*") (p ++ lit "." ++ rest).

(** The matcher decides the documented relation. *)
Lemma scope_matches_grants g t : scope_matches g t = true ↔ grants g t.
Proof.
  unfold scope_matches. split.
  - destruct (str_eqb g (lit "*")) eqn:Hs; [apply str_eqb_eq in Hs as ->; constructor|].
    destruct (str_eqb g t) eqn:Ht; [apply str_eqb_eq in Ht as ->; constructor|].
    destruct (strip_suffix _ g) as [p|] eqn:Hp; [|done].
    apply strip_suffix_some in Hp as ->.
    rewrite !andb_true_iff, starts_with_iff, bool_decide_eq_true.
    intros [[_ [r ->]] Hdot].
    rewrite lookup_app_r, Nat.sub_diag in Hdot by done.
    destruct r as [|c r]; [done|]. injection Hdot as ->. constructor.
  - inversion 1 as [|s|p rest]; subst.
    + done.
    + destruct (str_eqb t (lit "*")); [done|].
      assert (str_eqb t t = true) as -> by by apply str_eqb_eq. done.
    + destruct (str_eqb _ _); [done|]. destruct (str_eqb _ _); [done|].
      assert (strip_suffix (lit ".*") (p ++ lit ".*") = Some p) as ->
        by by apply strip_suffix_some.
      rewrite !andb_true_iff, starts_with_iff, bool_decide_eq_true.
      split_and!; [|by eexists|by rewrite lookup_app_r, Nat.sub_diag].
      apply Nat.ltb_lt. rewrite str_len_app. simpl. lia.
Qed.

(** [has_scope] decides the documented scope language: only a system holds scopes,
    and it holds a scope when a granted one is [*], the same, or a prefix [p.*] of it;
    nothing but [*] grants the empty scope. *)
Theorem has_scope_spec s scope :
  has_scope s scope = true ↔
  ∃ sys key granted g, s = System sys key granted ∧ g ∈ granted ∧
    (g = lit "*" ∨ (scope ≠ [] ∧ grants g scope)).
Proof.
  split.
  - destruct s as [| |sys key granted|]; try done. intros H.
    destruct scope as [|c scope']; simpl in H; apply existsb_exists in H as (g & Hg & H);
      apply list_elem_of_In in Hg.
    + apply str_eqb_eq in H. naive_solver.
    + apply scope_matches_grants in H. exists sys, key, granted, g. naive_solver.
  - intros (sys & key & granted & g & -> & Hg & H). apply list_elem_of_In in Hg.
    destruct scope as [|c scope']; simpl; apply existsb_exists; exists g;
      (split; [done|]).
    + destruct H as [->|[? _]]; [|done]. by apply str_eqb_eq.
    + apply scope_matches_grants. destruct H as [->|[_ H]]; [constructor|done].
Qed.

(** [is_allowed] admits exactly the subjects of a listed class (an account also where
    only the owner of the resource is listed), and a system only when the method names no
    scope or the system holds one of those named. *)
Theorem is_allowed_spec subject spec :
  is_allowed subject spec = true ↔
  (class subject ∈ allowed spec ∨
   (class subject = CAccountSelf ∧ CAccountOwnsResource ∈ allowed spec)) ∧
  (class subject = CSystem →
   spec_scopes spec = [] ∨ ∃ sc, sc ∈ spec_scopes spec ∧ has_scope subject sc = true).
Proof.
  assert (Hcls : existsb (λ c, class_accepts c (class subject)) (allowed spec) = true ↔
    (class subject ∈ allowed spec ∨
     (class subject = CAccountSelf ∧ CAccountOwnsResource ∈ allowed spec))).
  { rewrite existsb_exists. setoid_rewrite <- list_elem_of_In. split.
    - intros (c & Hc & H). destruct subject, c; simpl in *; naive_solver.
    - intros [H|[H1 H2]]; eexists; (split; [eassumption|]);
        [destruct subject; done|by rewrite H1]. }
  unfold is_allowed. fold (class subject).
  destruct (existsb _ (allowed spec)); simpl.
  - destruct Hcls as [Hcls _]. specialize (Hcls eq_refl).
    destruct subject; simpl; try (split; [naive_solver|done]).
    destruct (spec_scopes spec) as [|sc scs] eqn:Hsc; [split; naive_solver|].
    rewrite <- Hsc. rewrite existsb_exists. setoid_rewrite <- list_elem_of_In.
    split; [naive_solver|]. intros [_ [H|H]]; [done|congruence|done].
  - split; [done|]. intros [H _]. by apply Hcls in H.
Qed.
