(* ===== verification/AuthTable.v ===== *)
(** * The authorization table ([headlines-proto/build.rs] and the annotations of
    [proto/headlines/v1/*.proto])

    The build script walks the wire bytes of the descriptor set and turns the
    [auth_requirement] option of every method into a table entry; the interceptor
    consults the table. *)

From S2P Require Import Prelude Libs Subject.

(** ** How a build step ends

    A failed build names its error; a slice out of range or, with overflow checks, a sum
    out of [usize] panics; [Diverges] is running out of fuel. *)
Inductive BuildError : Type :=
  | Message (m : str)
  | BadUtf8.
Inductive Build (A : Type) : Type :=
  | Built (a : A)
  | Failed (e : BuildError)
  | Panicked
  | Diverges.
Arguments Built {A} _.
Arguments Failed {A} _.
Arguments Panicked {A}.
Arguments Diverges {A}.
#[export] Instance build_ret : MRet Build := λ A a, Built a.
#[export] Instance build_bind : MBind Build := λ A B f m,
  match m with
  | Built a => f a
  | Failed e => Failed e
  | Panicked => Panicked
  | Diverges => Diverges
  end.
Definition built_or {A} (d : A) (b : Build A) : A := match b with Built a => a | _ => d end.
Definition try {A} (r : result BuildError A) : Build A :=
  match r with Ok a => Built a | Err e => Failed e end.

(** ** UTF-8: [std::str::from_utf8] *)

Definition cont (b : N) : bool := ((128 <=? b) && (b <=? 191))%N.
Definition second3 (b0 b1 : N) : bool :=
  (if b0 =? 224 then (160 <=? b1) && (b1 <=? 191)
   else if b0 =? 237 then (128 <=? b1) && (b1 <=? 159) else cont b1)%N.
Definition second4 (b0 b1 : N) : bool :=
  (if b0 =? 240 then (144 <=? b1) && (b1 <=? 191)
   else if b0 =? 244 then (128 <=? b1) && (b1 <=? 143) else cont b1)%N.
Fixpoint from_utf8 (b : bytes) : result BuildError str :=
  match b with
  | [] => Ok []
  | b0 :: r =>
    if (b0 <? 128)%N then s ← from_utf8 r; Ok (b0 :: s)
    else
      match r with
      | b1 :: r =>
        if ((194 <=? b0) && (b0 <=? 223) && cont b1)%N then
          s ← from_utf8 r; Ok (((b0 - 192) * 64 + (b1 - 128))%N :: s)
        else
          match r with
          | b2 :: r =>
            if ((224 <=? b0) && (b0 <=? 239) && second3 b0 b1 && cont b2)%N then
              s ← from_utf8 r;
              Ok (((b0 - 224) * 4096 + (b1 - 128) * 64 + (b2 - 128))%N :: s)
            else
              match r with
              | b3 :: r =>
                if ((240 <=? b0) && (b0 <=? 244) && second4 b0 b1 && cont b2 && cont b3)%N then
                  s ← from_utf8 r;
                  Ok (((b0 - 240) * 262144 + (b1 - 128) * 4096 + (b2 - 128) * 64 + (b3 - 128))%N :: s)
                else Err BadUtf8
              | [] => Err BadUtf8
              end
          | [] => Err BadUtf8
          end
      | [] => Err BadUtf8
      end
  end.

(** ** Varints *)

(** [decode_varint]: at most ten bytes; [<<] on a [u64] drops the high bits. *)
Fixpoint varint_loop (take : nat) (i : nat) (value shift : N) (bs : bytes) :
    result BuildError (N * nat) :=
  match take, bs with
  | S take, byte :: bs =>
    let value := N.lor value (N.shiftl (N.land byte 127) shift mod 2 ^ 64)%N in
    if (N.land byte 128 =? 0)%N then Ok (value, S i)
    else varint_loop take (S i) value (shift + 7)%N bs
  | _, _ => Err (Message (lit "varint too long"))
  end.
Definition decode_varint (bs : bytes) : result BuildError (N * nat) := varint_loop 10 0 0 0 bs.

(** ** The scanner *)

(** [WireScanner]: the message and the position, which stays within it. *)
Record WireScanner := mkScanner { sc_bytes : bytes; sc_pos : nat }.
Definition new_scanner (bs : bytes) : WireScanner := mkScanner bs 0.
Definition sc_rest (s : WireScanner) : bytes := drop (sc_pos s) (sc_bytes s).
Definition advance (n : nat) (s : WireScanner) : WireScanner :=
  mkScanner (sc_bytes s) (sc_pos s + n).

Inductive Scanned : Type :=
  | ScanEnd
  | ScanPanic
  | ScanItem (field_no wire : N) (body : result BuildError bytes) (next : WireScanner).

(** A fixed-width value: the position moves first, then the slice is taken. *)
Definition fixed_item (field_no wire : N) (n : nat) (s : WireScanner) : Scanned :=
  if (length (sc_rest s) <? n)%nat then ScanPanic
  else ScanItem field_no wire (Ok (take n (sc_rest s))) (advance n s).

(** [Iterator::next].  A malformed tag is reported without moving on. *)
Definition scan_next (s : WireScanner) : Scanned :=
  if (length (sc_bytes s) <=? sc_pos s)%nat then ScanEnd
  else
    match decode_varint (sc_rest s) with
    | Err e => ScanItem 0 0 (Err e) s
    | Ok (tag, n) =>
      let s := advance n s in
      let field_no := (N.shiftr tag 3 mod 2 ^ 32)%N in
      let wire := N.land tag 7 in
      match wire with
      | 0 =>
        match decode_varint (sc_rest s) with
        | Err e => ScanItem field_no wire (Err e) s
        | Ok (_, n) => ScanItem field_no wire (Ok (take n (sc_rest s))) (advance n s)
        end
      | 1 => fixed_item field_no wire 8 s
      | 2 =>
        match decode_varint (sc_rest s) with
        | Err e => ScanItem field_no wire (Err e) s
        | Ok (len, n) =>
          let s := advance n s in
          if (2 ^ 64 <=? N.of_nat (sc_pos s) + len)%N then ScanPanic
          else if (N.of_nat (length (sc_rest s)) <? len)%N then
            ScanItem field_no wire
              (Err (Message (lit "truncated length-delimited field"))) s
          else ScanItem field_no wire (Ok (take (N.to_nat len) (sc_rest s)))
                 (advance (N.to_nat len) s)
        end
      | 5 => fixed_item field_no wire 4 s
      | other =>
        ScanItem field_no wire (Err (Message (lit "unexpected wire type " ++ dec_N other))) s
      end%N
    end.

(** [for (field_no, _wire, body) in WireScanner::new(bytes)] *)
Fixpoint scan_loop {A} (fuel : nat) (on_field : A → N → result BuildError bytes → Build A)
    (acc : A) (s : WireScanner) : Build A :=
  match fuel with
  | O => Diverges
  | S fuel =>
    match scan_next s with
    | ScanEnd => Built acc
    | ScanPanic => Panicked
    | ScanItem field_no _ body s => acc ← on_field acc field_no body; scan_loop fuel on_field acc s
    end
  end.
Definition for_fields {A} (on_field : A → N → result BuildError bytes → Build A) (acc : A)
    (bs : bytes) : Build A :=
  scan_loop (S (length bs)) on_field acc (new_scanner bs).

(** ** From options to entries *)

(** [subject_class_name] *)
Definition subject_class_name (value : Z) : result BuildError str :=
  match value with
  | 1 => Ok (lit "Anonymous")
  | 2 => Ok (lit "UserSelf")
  | 3 => Ok (lit "AccountSelf")
  | 4 => Ok (lit "AccountOwnsResource")
  | 5 => Ok (lit "System")
  | other => Err (Message (lit "unknown SubjectClass value: " ++ dec_Z other))
  end.

Record AuthRequirementBytes := mkReq { req_allowed : list str; req_scopes : list str }.
Definition push_allowed (out : AuthRequirementBytes) (name : str) : AuthRequirementBytes :=
  mkReq (req_allowed out ++ [name]) (req_scopes out).
Definition push_scope (out : AuthRequirementBytes) (s : str) : AuthRequirementBytes :=
  mkReq (req_allowed out) (req_scopes out ++ [s]).

(** [&bytes[cursor..]]: a cursor past the end panics. *)
Definition slice_from (bs : bytes) (cursor : N) : Build bytes :=
  if (N.of_nat (length bs) <? cursor)%N then Panicked else Built (drop (N.to_nat cursor) bs).
(** [cursor + len as usize] *)
Definition checked_add (a b : N) : Build N :=
  if (2 ^ 64 <=? a + b)%N then Panicked else Built (a + b)%N.

(** [skip_wire_value] *)
Definition skip_wire_value (bs : bytes) (cursor wire : N) : Build N :=
  match wire with
  | 0 => rest ← slice_from bs cursor; '(_, n) ← try (decode_varint rest);
         checked_add cursor (N.of_nat n)
  | 1 => checked_add cursor 8
  | 2 => rest ← slice_from bs cursor; '(len, n) ← try (decode_varint rest);
         step ← checked_add (N.of_nat n) len; checked_add cursor step
  | 5 => checked_add cursor 4
  | other => Failed (Message (lit "unexpected wire type " ++ dec_N other))
  end%N.

(** The [while inner < end] loop over packed enum values. *)
Fixpoint packed_loop (fuel : nat) (bs : bytes) (inner end_ : N) (out : AuthRequirementBytes) :
    Build AuthRequirementBytes :=
  match fuel with
  | O => Diverges
  | S fuel =>
    if (inner <? end_)%N then
      rest ← slice_from bs inner;
      '(val, n) ← try (decode_varint rest);
      name ← try (subject_class_name (as_i32 (Z.of_N val)));
      packed_loop fuel bs (inner + N.of_nat n)%N end_ (push_allowed out name)
    else Built out
  end.

(** The [while cursor < bytes.len()] loop of [decode_auth_requirement_message]. *)
Fixpoint requirement_loop (fuel : nat) (bs : bytes) (cursor : N) (out : AuthRequirementBytes) :
    Build AuthRequirementBytes :=
  match fuel with
  | O => Diverges
  | S fuel =>
    if (cursor <? N.of_nat (length bs))%N then
      rest ← slice_from bs cursor;
      '(tag, n) ← try (decode_varint rest);
      let cursor := (cursor + N.of_nat n)%N in
      let field_no := (N.shiftr tag 3 mod 2 ^ 32)%N in
      let wire := N.land tag 7 in
      match field_no, wire with
      | 1, 0 =>
        rest ← slice_from bs cursor;
        '(val, n) ← try (decode_varint rest);
        name ← try (subject_class_name (as_i32 (Z.of_N val)));
        requirement_loop fuel bs (cursor + N.of_nat n)%N (push_allowed out name)
      | 1, 2 =>
        rest ← slice_from bs cursor;
        '(len, n) ← try (decode_varint rest);
        let cursor := (cursor + N.of_nat n)%N in
        end_ ← checked_add cursor len;
        if (N.of_nat (length bs) <? end_)%N then Failed (Message (lit "truncated packed enum"))
        else
          out ← packed_loop (S (length bs)) bs cursor end_ out;
          requirement_loop fuel bs end_ out
      | 2, 2 =>
        rest ← slice_from bs cursor;
        '(len, n) ← try (decode_varint rest);
        let cursor := (cursor + N.of_nat n)%N in
        end_ ← checked_add cursor len;
        if (N.of_nat (length bs) <? end_)%N then Failed (Message (lit "truncated string field"))
        else
          s ← try (from_utf8 (take (N.to_nat len) (drop (N.to_nat cursor) bs)));
          requirement_loop fuel bs end_ (push_scope out s)
      | _, w =>
        cursor ← skip_wire_value bs cursor w;
        requirement_loop fuel bs cursor out
      end%N
    else Built out
  end.
Definition decode_auth_requirement_message (bs : bytes) : Build AuthRequirementBytes :=
  requirement_loop (S (length bs)) bs 0 (mkReq [] []).

Definition AUTH_REQUIREMENT_FIELD : N := 50001.

(** [scan_method_options_for_auth]: the last instance wins. *)
Definition scan_method_options_for_auth (bs : bytes) : Build (option AuthRequirementBytes) :=
  found ← for_fields (λ found field_no body,
            body ← try body;
            mret (if (field_no =? AUTH_REQUIREMENT_FIELD)%N then Some body else found)) None bs;
  match found with
  | None => mret None
  | Some body => req ← decode_auth_requirement_message body; mret (Some req)
  end.

(** [AuthEntry] *)
Record AuthEntry := { full_method : str; entry_allowed : list str; entry_scopes : list str }.

Definition missing_annotation (full : str) : BuildError :=
  Message (lit "method " ++ full ++ lit (" is missing the headlines.v1.auth_requirement " ++
    "MethodOption " )%string ++ [8212%N] ++
    lit (" every RPC must declare its authorization policy at " ++
    "the proto level (see docs/design/architecture.md)")%string).

(** [scan_method] *)
Definition scan_method (bs : bytes) (package svc : str) (entries : list AuthEntry) :
    Build (list AuthEntry) :=
  '(name, options_bytes) ← for_fields (λ acc field_no body,
      body ← try body;
      match field_no with
      | 1 => name ← try (from_utf8 body); mret (name, acc.2)
      | 4 => mret (acc.1, Some body)
      | _ => mret acc
      end%N) ([], None) bs;
  let full := lit "/" ++ package ++ lit "." ++ svc ++ lit "/" ++ name in
  req ← match options_bytes with
        | None => mret None
        | Some options => scan_method_options_for_auth options
        end;
  match req with
  | None => Failed (missing_annotation full)
  | Some req =>
    mret (entries ++ [{| full_method := full; entry_allowed := req_allowed req;
                         entry_scopes := req_scopes req |}])
  end.

(** The [for] loops over the collected slices, leaving at the first error. *)
Fixpoint for_each {A} (f : bytes → A → Build A) (l : list bytes) (acc : A) : Build A :=
  match l with
  | [] => mret acc
  | x :: l => acc ← f x acc; for_each f l acc
  end.

(** [scan_service] *)
Definition scan_service (bs : bytes) (package : str) (entries : list AuthEntry) :
    Build (list AuthEntry) :=
  '(svc_name, methods) ← for_fields (λ acc field_no body,
      body ← try body;
      match field_no with
      | 1 => name ← try (from_utf8 body); mret (name, acc.2)
      | 2 => mret (acc.1, acc.2 ++ [body])
      | _ => mret acc
      end%N) ([], []) bs;
  for_each (λ m_bytes entries, scan_method m_bytes package svc_name entries) methods entries.

(** [scan_file] *)
Definition scan_file (bs : bytes) (entries : list AuthEntry) : Build (list AuthEntry) :=
  '(package, services) ← for_fields (λ acc field_no body,
      body ← try body;
      match field_no with
      | 2 => package ← try (from_utf8 body); mret (package, acc.2)
      | 6 => mret (acc.1, acc.2 ++ [body])
      | _ => mret acc
      end%N) ([], []) bs;
  if negb (starts_with (lit "headlines.") package) then mret entries
  else for_each (λ svc_bytes entries, scan_service svc_bytes package entries) services entries.

(** [scan_descriptor_set]: a body of another field is not looked at, even when it is an
    error.  The fuel is an argument, since the loop need not end. *)
Definition scan_descriptor_set (fuel : nat) (bs : bytes) : Build (list AuthEntry) :=
  scan_loop fuel (λ entries field_no body,
      if (field_no =? 1)%N then body ← try body; scan_file body entries
      else mret entries) [] (new_scanner bs).

(** ** The generated source *)

(** [phf_codegen]: the initialiser of a map with these entries; a repeated key panics. *)
Class PhfLib := { phf_build : list (str * str) → option str }.

Section generated.
Context `{UnicodeLib, PhfLib}.

(** The [value_literals] of [write_auth_table]. *)
Definition allowed_literal (names : list str) : str :=
  if bool_decide (names = []) then lit "&[]"
  else lit "&[" ++ join (lit ", ") ((λ n, lit "SubjectClass::" ++ n) <$> names) ++ lit "]".
Definition scopes_literal (scopes : list str) : str :=
  if bool_decide (scopes = []) then lit "&[]"
  else lit "&[" ++ join (lit ", ") (str_debug <$> scopes) ++ lit "]".
Definition value_literal (e : AuthEntry) : str :=
  lit "AuthSpec { allowed: " ++ allowed_literal (entry_allowed e) ++ lit ", scopes: " ++
  scopes_literal (entry_scopes e) ++ lit " }".

(** [write_auth_table]: the text of [auth_table.rs]. *)
Definition write_auth_table (entries : list AuthEntry) : Build str :=
  match phf_build ((λ e, (full_method e, value_literal e)) <$> entries) with
  | None => Panicked
  | Some map =>
    Built (lit "// @generated by build.rs - do not hand-edit." ++ [10%N] ++ [10%N] ++
           lit "pub static AUTH_TABLE: ::phf::Map<&'static str, AuthSpec> = " ++ map ++
           lit ";" ++ [10%N])
  end.
End generated.

(** The variant a [SubjectClass::] literal names, and the table the generated source
    denotes. *)
Definition class_of_name (name : str) : option SubjectClass :=
  if str_eqb name (lit "Anonymous") then Some CAnonymous
  else if str_eqb name (lit "UserSelf") then Some CUserSelf
  else if str_eqb name (lit "AccountSelf") then Some CAccountSelf
  else if str_eqb name (lit "AccountOwnsResource") then Some CAccountOwnsResource
  else if str_eqb name (lit "System") then Some CSystem
  else None.
Definition entry_spec (e : AuthEntry) : str * AuthSpec :=
  (full_method e,
   {| allowed := omap class_of_name (entry_allowed e); spec_scopes := entry_scopes e |}).

(** ** Varints *)

Lemma varint_loop_length k i v sh bs x n :
  varint_loop k i v sh bs = Ok (x, n) → (i < n <= i + length bs)%nat.
Proof.
  revert i v sh bs; induction k as [|k IH]; intros i v sh bs; [done|].
  destruct bs as [|b bs]; [done|]. cbn [varint_loop length].
  destruct (N.land b 128 =? 0)%N; [intros [= _ <-]; lia|]. intros Hn%IH. lia.
Qed.
Lemma decode_varint_length bs x n : decode_varint bs = Ok (x, n) → (0 < n <= length bs)%nat.
Proof. apply varint_loop_length. Qed.

(** The base-128 encoding of protobuf. *)
Fixpoint encode_varint_fuel (fuel : nat) (n : N) : bytes :=
  match fuel with
  | O => []
  | S fuel => if (n <? 128)%N then [n] else (n mod 128 + 128)%N :: encode_varint_fuel fuel (n / 128)
  end.
Definition encode_varint (n : N) : bytes := encode_varint_fuel 10 n.

Lemma lor_shift v x sh : (v < 2 ^ sh)%N → N.lor v (N.shiftl x sh) = (v + x * 2 ^ sh)%N.
Proof.
  intros Hv. rewrite N.shiftl_mul_pow2.
  assert (Hl : N.land v (x * 2 ^ sh) = 0%N).
  { apply N.bits_inj. intros k. rewrite N.land_spec, N.bits_0.
    destruct (N.lt_ge_cases k sh).
    - by rewrite N.mul_pow2_bits_low, andb_false_r.
    - rewrite <- (N.mod_small v (2 ^ sh)) by done. by rewrite N.mod_pow2_bits_high. }
  rewrite <- N.lxor_lor by done. symmetry. by apply N.add_nocarry_lxor.
Qed.

Lemma varint_loop_encode k i v sh n rest :
  (k ≠ 0%nat → v < 2 ^ sh → v + n * 2 ^ sh < 2 ^ 64 → n < 2 ^ (7 * N.of_nat k) →
  varint_loop k i v sh (encode_varint_fuel k n ++ rest)
  = Ok (v + n * 2 ^ sh, (i + length (encode_varint_fuel k n))%nat))%N.
Proof.
  revert i v sh n; induction k as [|k IH]; intros i v sh n Hk0 Hv Hn Hk; [done|].
  assert (Hpow : (0 < 2 ^ sh)%N) by (apply N.neq_0_lt_0, N.pow_nonzero; lia).
  assert (Hland : ∀ x, N.land x 127 = (x mod 128)%N) by (intros; apply (N.land_ones x 7)).
  assert (Hcont : ∀ x, (x < 256)%N → (N.land x 128 =? 0)%N = (x <? 128)%N).
  { intros x Hx. change 128%N with (2 ^ 7)%N.
    assert (N.land x (2 ^ 7) = if N.testbit x 7 then 2 ^ 7 else 0)%N as ->.
    { apply N.bits_inj. intros j. rewrite N.land_spec, N.pow2_bits_eqb.
      destruct (N.eqb_spec 7 j) as [<-|Hj].
      - rewrite andb_true_r. by destruct (N.testbit x 7).
      - rewrite andb_false_r. destruct (N.testbit x 7); [|by rewrite N.bits_0].
        rewrite N.pow2_bits_false by done. done. }
    destruct (N.ltb_spec x (2 ^ 7)) as [Hlt|Hge].
    - rewrite <- (N.mod_small x (2 ^ 7)), N.mod_pow2_bits_high by (done || lia). done.
    - assert (N.testbit x 7 = true) as ->; [|done].
      apply N.testbit_true. rewrite <- (N.div_unique x (2 ^ 7) 1 (x - 2 ^ 7))%N; [done| |]; lia. }
  cbn [encode_varint_fuel]. destruct (N.ltb_spec n 128) as [Hlt|Hge].
  - cbn [app varint_loop length]. rewrite Hcont, Hland, (N.mod_small n 128) by lia.
    destruct (N.ltb_spec n 128); [|lia].
    rewrite (N.mod_small (N.shiftl n sh)), lor_shift by (rewrite ?N.shiftl_mul_pow2; lia).
    f_equal. f_equal. lia.
  - assert (Hk' : (2 ^ (7 * N.of_nat (S k)) = 128 * 2 ^ (7 * N.of_nat k))%N).
    { replace (7 * N.of_nat (S k))%N with (7 + 7 * N.of_nat k)%N by lia. by rewrite N.pow_add_r. }
    assert (Hq : (n / 128 < 2 ^ (7 * N.of_nat k))%N) by (apply N.Div0.div_lt_upper_bound; lia).
    assert (Hmod : (n mod 128 < 128)%N) by (apply N.mod_lt; done).
    pose proof (N.div_mod n 128 ltac:(done)) as Hdm.
    revert Hq Hmod Hdm. generalize (n / 128)%N (n mod 128)%N. intros q r Hq Hr Hdm.
    assert (Hr128 : ((r + 128) mod 128 = r)%N).
    { replace (r + 128)%N with (r + 1 * 128)%N by lia.
      rewrite N.Div0.mod_add. by apply N.mod_small. }
    cbn [app varint_loop length]. rewrite Hcont, Hland, Hr128 by lia.
    destruct (N.ltb_spec (r + 128) 128); [lia|].
    assert (Hn' : (n * 2 ^ sh = r * 2 ^ sh + 128 * (q * 2 ^ sh))%N) by (subst n; lia).
    assert (H7 : (2 ^ (sh + 7) = 128 * 2 ^ sh)%N) by (rewrite N.pow_add_r; lia).
    assert (Hr7 : (r * 2 ^ sh <= 127 * 2 ^ sh)%N) by (apply N.mul_le_mono_r; lia).
    rewrite (N.mod_small (N.shiftl _ sh)), lor_shift by (rewrite ?N.shiftl_mul_pow2; lia).
    rewrite IH; rewrite ?H7; [|intros ->; cbn in Hk; lia|lia..].
    f_equal. f_equal; lia.
Qed.

Lemma decode_encode_varint n rest :
  (n < 2 ^ 64)%N →
  decode_varint (encode_varint n ++ rest) = Ok (n, length (encode_varint n)).
Proof.
  intros Hn. unfold decode_varint, encode_varint. rewrite varint_loop_encode.
  - f_equal. f_equal. lia.
  - done.
  - by vm_compute.
  - lia.
  - eapply N.lt_trans; [exact Hn|by vm_compute].
Qed.

(** ** The scanner reads encoded messages *)

(** A message whose fields are all length-delimited, as those of descriptors that the
    build script looks at. *)
Definition enc_field (f : N) (b : bytes) : bytes :=
  encode_varint (f * 8 + 2) ++ encode_varint (N.of_nat (length b)) ++ b.
Definition encode_msg (fs : list (N * bytes)) : bytes := concat (map (λ p, enc_field p.1 p.2) fs).
Definition fields_ok (fs : list (N * bytes)) : Prop :=
  Forall (λ p, p.1 < 2 ^ 29)%N fs ∧ (N.of_nat (length (encode_msg fs)) < 2 ^ 64)%N.

Lemma encode_varint_cons n : ∃ b bs, encode_varint n = b :: bs.
Proof. unfold encode_varint. cbn [encode_varint_fuel]. destruct (_ <? _)%N; eauto. Qed.

(** The field number and the wire type of a length-delimited field. *)
Lemma tag_parts f :
  (f < 2 ^ 29 → N.shiftr (f * 8 + 2) 3 mod 2 ^ 32 = f ∧ N.land (f * 8 + 2) 7 = 2)%N.
Proof.
  intros Hf. split.
  - rewrite N.shiftr_div_pow2, <- (N.div_unique _ _ f 2) by lia. apply N.mod_small. lia.
  - rewrite (N.land_ones _ 3). symmetry. apply (N.mod_unique _ _ f); lia.
Qed.

Lemma sc_rest_app pre rest n :
  sc_rest (mkScanner (pre ++ rest) (length pre + n)) = drop n rest.
Proof. unfold sc_rest. cbn. by rewrite <- drop_drop, drop_app_length. Qed.

Lemma sc_rest_pre pre rest : sc_rest (mkScanner (pre ++ rest) (length pre)) = rest.
Proof. unfold sc_rest. cbn. apply drop_app_length. Qed.

Lemma scan_next_field pre f b post :
  (f < 2 ^ 29)%N → (N.of_nat (length (pre ++ enc_field f b ++ post)) < 2 ^ 64)%N →
  scan_next (mkScanner (pre ++ enc_field f b ++ post) (length pre)) =
  ScanItem f 2 (Ok b) (mkScanner (pre ++ enc_field f b ++ post) (length (pre ++ enc_field f b))).
Proof.
  intros Hf Hlen. rewrite !length_app in Hlen. unfold scan_next. cbn [sc_bytes sc_pos].
  unfold enc_field in *. rewrite !length_app in Hlen.
  destruct (encode_varint_cons (f * 8 + 2)) as (c & cs & Hc).
  destruct (Nat.leb_spec (length (pre ++ (encode_varint (f * 8 + 2) ++
    encode_varint (N.of_nat (length b)) ++ b) ++ post)) (length pre)) as [Hle|_].
  { rewrite length_app, Hc in Hle. cbn in Hle. lia. }
  pose proof (sc_rest_app pre) as Hrest.
  rewrite <- !app_assoc. rewrite sc_rest_pre.
  rewrite decode_encode_varint by lia.
  unfold advance. cbn [sc_bytes sc_pos].
  destruct (tag_parts f Hf) as [-> ->].
  rewrite Hrest, drop_app_length.
  rewrite decode_encode_varint by lia. cbn [sc_bytes sc_pos].
  rewrite <- !Nat.add_assoc, !Hrest. rewrite <- !drop_drop, !drop_app_length.
  destruct (N.leb_spec (2 ^ 64)
    (N.of_nat (length pre + (length (encode_varint (f * 8 + 2)) +
       length (encode_varint (N.of_nat (length b))))) + N.of_nat (length b))); [lia|].
  rewrite length_app. destruct (N.ltb_spec (N.of_nat (length b + length post)) (N.of_nat (length b)));
    [lia|].
  rewrite Nat2N.id, take_app_length. f_equal. f_equal. rewrite !length_app. lia.
Qed.

Section fold_fields.
Context {A : Type} (on_field : A → N → result BuildError bytes → Build A).

Fixpoint fold_fields (acc : A) (fs : list (N * bytes)) : Build A :=
  match fs with
  | [] => Built acc
  | (f, b) :: fs => acc ← on_field acc f (Ok b); fold_fields acc fs
  end.

Lemma scan_loop_fields fuel acc pre fs :
  fields_ok fs → (N.of_nat (length (pre ++ encode_msg fs)) < 2 ^ 64)%N → (length fs < fuel)%nat →
  scan_loop fuel on_field acc (mkScanner (pre ++ encode_msg fs) (length pre)) = fold_fields acc fs.
Proof.
  revert fuel acc pre; induction fs as [|[f b] fs IH]; intros fuel acc pre [Hf Hl] Hlen Hfuel;
    (destruct fuel as [|fuel]; [cbn in Hfuel; lia|]); cbn [scan_loop].
  - assert (scan_next (mkScanner (pre ++ encode_msg []) (length pre)) = ScanEnd) as ->; [|done].
    unfold scan_next. cbn. rewrite app_nil_r. by rewrite Nat.leb_refl.
  - apply Forall_cons in Hf as [Hf Hfs]. cbn [fst] in Hf.
    change (encode_msg ((f, b) :: fs)) with (enc_field f b ++ encode_msg fs) in *.
    rewrite scan_next_field by done. cbn [fold_fields].
    destruct (on_field acc f (Ok b)) as [acc'| | |]; try done.
    change (scan_loop fuel on_field acc' (mkScanner (pre ++ enc_field f b ++ encode_msg fs)
      (length (pre ++ enc_field f b))) = fold_fields acc' fs).
    rewrite app_assoc. rewrite app_assoc in Hlen. apply IH; [|done|cbn in Hfuel; lia].
    split; [done|]. rewrite length_app in Hl. lia.
Qed.

Lemma encode_msg_length fs : (length fs <= length (encode_msg fs))%nat.
Proof.
  induction fs as [|[f b] fs IH]; [done|].
  change (encode_msg ((f, b) :: fs)) with (enc_field f b ++ encode_msg fs). rewrite length_app.
  unfold enc_field. destruct (encode_varint_cons (f * 8 + 2)) as (c & cs & ->). cbn. lia.
Qed.

Lemma for_fields_encode acc fs :
  fields_ok fs → for_fields on_field acc (encode_msg fs) = fold_fields acc fs.
Proof.
  intros Hfs. unfold for_fields, new_scanner. apply (scan_loop_fields _ _ []); [done|apply Hfs|].
  pose proof (encode_msg_length fs). lia.
Qed.
End fold_fields.

(** ** UTF-8 decodes what it encodes *)

(** Unicode scalar values. *)
Definition scalar (c : N) : Prop := (c < 1114112 ∧ ¬ (55296 <= c <= 57343))%N.

Ltac bool_lia :=
  repeat first
    [ rewrite andb_true_iff | rewrite andb_false_iff | rewrite N.leb_le | rewrite N.leb_gt
    | rewrite N.ltb_lt | rewrite N.ltb_ge ]; lia.

Lemma scalar_ascii s : forallb (λ c, (c <? 128)%N) s = true → Forall scalar s.
Proof.
  rewrite forallb_forall, Forall_forall. intros Hs c Hc%list_elem_of_In.
  apply Hs, N.ltb_lt in Hc. unfold scalar. lia.
Qed.

Lemma cont_range b : (128 <= b <= 191)%N → cont b = true.
Proof. unfold cont. intros. bool_lia. Qed.

Lemma div_mod_64 c : ∃ q r, (c = 64 * q + r ∧ r < 64 ∧ c / 64 = q ∧ c mod 64 = r)%N.
Proof.
  exists (c / 64)%N, (c mod 64)%N. split_and!; [by apply N.div_mod|by apply N.mod_lt|done|done].
Qed.

Lemma from_utf8_char c rest :
  scalar c → from_utf8 (utf8_char c ++ rest) = (s ← from_utf8 rest; Ok (c :: s)).
Proof.
  intros [Hmax Hsur]. unfold utf8_char.
  destruct (N.ltb_spec c 128) as [H1|H1].
  { cbn [app from_utf8]. apply N.ltb_lt in H1. by rewrite H1. }
  destruct (div_mod_64 c) as (c1 & r0 & Hc & Hr0 & Ed0 & Em0).
  destruct (div_mod_64 c1) as (c2 & r1 & Hc1 & Hr1 & Ed1 & Em1).
  destruct (div_mod_64 c2) as (c3 & r2 & Hc2 & Hr2 & Ed2 & Em2).
  assert (c / 4096 = c2)%N as E12
    by (change 4096%N with (64 * 64)%N; rewrite <- N.Div0.div_div; by rewrite Ed0).
  assert (c / 262144 = c3)%N as E18
    by (change 262144%N with (4096 * 64)%N; rewrite <- N.Div0.div_div; by rewrite E12).
  rewrite Ed0, Em0, E12, E18, Em1, Em2. clear Ed0 Em0 Ed1 Em1 Ed2 Em2 E12 E18.
  destruct (N.ltb_spec c 2048) as [H2|H2]; [|destruct (N.ltb_spec c 65536) as [H3|H3]];
    cbn [app from_utf8].
  - replace (192 + c1 <? 128)%N with false by (symmetry; bool_lia).
    rewrite cont_range by lia.
    replace ((194 <=? 192 + c1) && (192 + c1 <=? 223))%N with true by (symmetry; bool_lia).
    cbn [andb]. destruct (from_utf8 rest); [|done]. cbn. do 2 f_equal. lia.
  - replace (224 + c2 <? 128)%N with false by (symmetry; bool_lia).
    replace ((194 <=? 224 + c2) && (224 + c2 <=? 223) && cont (128 + r1))%N with false
      by (symmetry; bool_lia).
    assert (second3 (224 + c2) (128 + r1) = true) as ->.
    { unfold second3. destruct (N.eqb_spec (224 + c2) 224); [bool_lia|].
      destruct (N.eqb_spec (224 + c2) 237); [bool_lia|apply cont_range; lia]. }
    rewrite cont_range by lia.
    replace ((224 <=? 224 + c2) && (224 + c2 <=? 239))%N with true by (symmetry; bool_lia).
    cbn [andb]. destruct (from_utf8 rest); [|done]. cbn. do 2 f_equal. lia.
  - replace (240 + c3 <? 128)%N with false by (symmetry; bool_lia).
    replace ((194 <=? 240 + c3) && (240 + c3 <=? 223) && cont (128 + r2))%N with false
      by (symmetry; bool_lia).
    replace ((224 <=? 240 + c3) && (240 + c3 <=? 239) && second3 (240 + c3) (128 + r2)
             && cont (128 + r1))%N with false by (symmetry; bool_lia).
    assert (second4 (240 + c3) (128 + r2) = true) as ->.
    { unfold second4. destruct (N.eqb_spec (240 + c3) 240); [bool_lia|].
      destruct (N.eqb_spec (240 + c3) 244); [bool_lia|apply cont_range; lia]. }
    rewrite !cont_range by lia.
    replace ((240 <=? 240 + c3) && (240 + c3 <=? 244))%N with true by (symmetry; bool_lia).
    cbn [andb]. destruct (from_utf8 rest); [|done]. cbn. do 2 f_equal. lia.
Qed.

Lemma from_utf8_as_bytes s : Forall scalar s → from_utf8 (as_bytes s) = Ok s.
Proof.
  induction 1 as [|c s Hc _ IH]; [done|].
  change (as_bytes (c :: s)) with (utf8_char c ++ as_bytes s).
  by rewrite from_utf8_char, IH.
Qed.

(** ** Encoded descriptors *)

Definition class_number (c : SubjectClass) : N :=
  match c with
  | CAnonymous => 1 | CUserSelf => 2 | CAccountSelf => 3 | CAccountOwnsResource => 4 | CSystem => 5
  end.
Definition class_name (c : SubjectClass) : str :=
  match c with
  | CAnonymous => lit "Anonymous" | CUserSelf => lit "UserSelf" | CAccountSelf => lit "AccountSelf"
  | CAccountOwnsResource => lit "AccountOwnsResource" | CSystem => lit "System"
  end.

(** [AuthRequirement]: packed enum values and strings. *)
Definition auth_fields (spec : AuthSpec) : list (N * bytes) :=
  (if bool_decide (allowed spec = []) then [] else [(1%N, class_number <$> allowed spec)]) ++
  map (λ s, (2%N, as_bytes s)) (spec_scopes spec).

(** [MethodOptions] with the [google.api.http] option and, when annotated, the
    [auth_requirement]; the descriptors of methods, services and files. *)
Record MethodD := mkMethod { md_name : str; md_input : bytes; md_output : bytes; md_http : bytes;
                             md_auth : option AuthSpec }.
Record ServiceD := mkService { sd_name : str; sd_methods : list MethodD }.
Record FileD := mkFile { fd_name : bytes; fd_package : str; fd_messages : list bytes;
                         fd_services : list ServiceD }.

Definition option_fields (m : MethodD) : list (N * bytes) :=
  (72295728%N, md_http m) ::
  match md_auth m with
  | Some spec => [(AUTH_REQUIREMENT_FIELD, encode_msg (auth_fields spec))]
  | None => []
  end.
Definition method_fields (m : MethodD) : list (N * bytes) :=
  [(1%N, as_bytes (md_name m)); (2%N, md_input m); (3%N, md_output m);
   (4%N, encode_msg (option_fields m))].
Definition service_fields (s : ServiceD) : list (N * bytes) :=
  (1%N, as_bytes (sd_name s)) :: map (λ m, (2%N, encode_msg (method_fields m))) (sd_methods s).
Definition file_fields (f : FileD) : list (N * bytes) :=
  [(1%N, fd_name f); (2%N, as_bytes (fd_package f))] ++
  map (λ b, (4%N, b)) (fd_messages f) ++
  map (λ s, (6%N, encode_msg (service_fields s))) (fd_services f) ++
  [(12%N, as_bytes (lit "proto3"))].
Definition encode_descriptor_set (files : list FileD) : bytes :=
  encode_msg (map (λ f, (1%N, encode_msg (file_fields f))) files).

(** The methods the build must find, with their annotations. *)
Definition service_rpcs (package : str) (s : ServiceD) : list (str * option AuthSpec) :=
  map (λ m, (lit "/" ++ package ++ lit "." ++ sd_name s ++ lit "/" ++ md_name m, md_auth m))
    (sd_methods s).
Definition file_rpcs (f : FileD) : list (str * option AuthSpec) :=
  if starts_with (lit "headlines.") (fd_package f)
  then concat (map (service_rpcs (fd_package f)) (fd_services f)) else [].
Definition rpc_entry (full : str) (spec : AuthSpec) : AuthEntry :=
  {| full_method := full; entry_allowed := class_name <$> allowed spec;
     entry_scopes := spec_scopes spec |}.
(** Every one becomes an entry, in order, unless one has no annotation. *)
Fixpoint collect (rpcs : list (str * option AuthSpec)) (entries : list AuthEntry) :
    Build (list AuthEntry) :=
  match rpcs with
  | [] => Built entries
  | (full, Some spec) :: rpcs => collect rpcs (entries ++ [rpc_entry full spec])
  | (full, None) :: _ => Failed (missing_annotation full)
  end.

(** Their texts are made of scalar values. *)
Definition method_wf (m : MethodD) : Prop :=
  Forall scalar (md_name m) ∧
  from_option (λ spec, Forall (Forall scalar) (spec_scopes spec)) True (md_auth m).
Definition service_wf (s : ServiceD) : Prop :=
  Forall scalar (sd_name s) ∧ Forall method_wf (sd_methods s).
Definition file_wf (f : FileD) : Prop :=
  Forall scalar (fd_package f) ∧ Forall service_wf (fd_services f).

Definition small (bs : bytes) : Prop := (N.of_nat (length bs) < 2 ^ 64)%N.

Lemma small_body fs f b : small (encode_msg fs) → (f, b) ∈ fs → small b.
Proof.
  unfold small. intros Hs Hin.
  assert (length b <= length (encode_msg fs))%nat; [|lia].
  clear Hs. induction fs as [|[f' b'] fs IH]; [by apply not_elem_of_nil in Hin|].
  change (encode_msg ((f', b') :: fs)) with (enc_field f' b' ++ encode_msg fs).
  rewrite length_app. apply elem_of_cons in Hin as [[= <- <-]|Hin].
  - unfold enc_field. rewrite !length_app. lia.
  - specialize (IH Hin). lia.
Qed.

Lemma collect_app a b entries :
  collect (a ++ b) entries = (entries ← collect a entries; collect b entries).
Proof.
  revert entries; induction a as [|[full [spec|]] a IH]; intros entries; [done| |done].
  cbn. apply IH.
Qed.

(** *** The requirement message *)

Lemma slice_from_app pre rest n :
  n = N.of_nat (length pre) → slice_from (pre ++ rest) n = Built rest.
Proof.
  intros ->. unfold slice_from. rewrite length_app.
  destruct (N.ltb_spec (N.of_nat (length pre + length rest)) (N.of_nat (length pre))); [lia|].
  by rewrite Nat2N.id, drop_app_length.
Qed.

Lemma packed_loop_encode fuel pre cs post out :
  (length cs < fuel)%nat →
  packed_loop fuel (pre ++ (class_number <$> cs) ++ post) (N.of_nat (length pre))
    (N.of_nat (length pre + length cs)) out
  = Built (mkReq (req_allowed out ++ (class_name <$> cs)) (req_scopes out)).
Proof.
  revert fuel pre out; induction cs as [|c cs IH]; intros fuel pre out Hf;
    (destruct fuel as [|fuel]; [cbn in Hf; lia|]); cbn [packed_loop].
  - destruct (N.ltb_spec (N.of_nat (length pre)) (N.of_nat (length pre + length (@nil SubjectClass))))
      as [Hlt|_]; [cbn in Hlt; lia|]. cbn. rewrite app_nil_r. by destruct out.
  - destruct (N.ltb_spec (N.of_nat (length pre)) (N.of_nat (length pre + length (c :: cs))))
      as [_|Hge]; [|cbn in Hge; lia].
    rewrite slice_from_app by done. cbn [mbind build_bind].
    assert (decode_varint ((class_number <$> c :: cs) ++ post) = Ok (class_number c, 1%nat)) as ->
      by by destruct c.
    cbn [try mbind build_bind].
    assert (subject_class_name (as_i32 (Z.of_N (class_number c))) = Ok (class_name c)) as -> by by destruct c.
    cbn [try mbind build_bind].
    specialize (IH fuel (pre ++ [class_number c]) (push_allowed out (class_name c))
      ltac:(cbn in Hf; lia)).
    rewrite <- app_assoc, length_app in IH. cbn [length] in IH.
    replace (N.of_nat (length pre) + N.of_nat 1)%N with (N.of_nat (length pre + 1)) by lia.
    replace (length pre + length (c :: cs))%nat with (length pre + 1 + length cs)%nat by (cbn; lia).
    etransitivity; [exact IH|]. cbn. by rewrite <- app_assoc.
Qed.

(** The header of a field, then its body. *)
Lemma requirement_step fuel pre f b post out :
  (f < 2 ^ 29)%N → small (pre ++ enc_field f b ++ post) → f = 1%N ∨ f = 2%N →
  requirement_loop (S fuel) (pre ++ enc_field f b ++ post) (N.of_nat (length pre)) out =
  let bs := pre ++ enc_field f b ++ post in
  let body := N.of_nat (length pre + length (encode_varint (f * 8 + 2)) +
                        length (encode_varint (N.of_nat (length b)))) in
  let end_ := N.of_nat (length (pre ++ enc_field f b)) in
  if (f =? 1)%N then
    out ← packed_loop (S (length bs)) bs body end_ out; requirement_loop fuel bs end_ out
  else
    s ← try (from_utf8 b); requirement_loop fuel bs end_ (push_scope out s).
Proof.
  intros Hf Hs H12. unfold small in Hs.
  assert (Hlen : length (enc_field f b) = (length (encode_varint (f * 8 + 2)) +
    length (encode_varint (N.of_nat (length b))) + length b)%nat)
    by (unfold enc_field; rewrite !length_app; lia).
  destruct (encode_varint_cons (f * 8 + 2)) as (c0 & cs0 & Hc0).
  assert (0 < length (encode_varint (f * 8 + 2)))%nat by (rewrite Hc0; cbn; lia).
  rewrite !length_app in Hs.
  cbn [requirement_loop].
  destruct (N.ltb_spec (N.of_nat (length pre)) (N.of_nat (length (pre ++ enc_field f b ++ post))))
    as [_|Hge]; [|rewrite !length_app in Hge; lia].
  rewrite slice_from_app by done. cbn [mbind build_bind].
  assert (Henc : enc_field f b ++ post = encode_varint (f * 8 + 2) ++
    encode_varint (N.of_nat (length b)) ++ b ++ post)
    by (unfold enc_field; by rewrite <- !app_assoc).
  rewrite Henc at 1. rewrite decode_encode_varint by lia. cbn [try mbind build_bind].
  destruct (tag_parts f Hf) as [-> ->].
  assert (Hslice : slice_from (pre ++ enc_field f b ++ post)
            (N.of_nat (length pre) + N.of_nat (length (encode_varint (f * 8 + 2)))) =
            Built (encode_varint (N.of_nat (length b)) ++ b ++ post)).
  { rewrite Henc, app_assoc. apply slice_from_app. rewrite length_app. lia. }
  assert (Hadd : checked_add (N.of_nat (length pre) + N.of_nat (length (encode_varint (f * 8 + 2))) +
             N.of_nat (length (encode_varint (N.of_nat (length b))))) (N.of_nat (length b)) =
           Built (N.of_nat (length (pre ++ enc_field f b)))).
  { unfold checked_add. rewrite length_app, Hlen.
    destruct (N.leb_spec (2 ^ 64) (N.of_nat (length pre) + N.of_nat (length (encode_varint (f * 8 + 2))) +
      N.of_nat (length (encode_varint (N.of_nat (length b)))) + N.of_nat (length b))); [lia|].
    f_equal. lia. }
  assert (Hend : (N.of_nat (length (pre ++ enc_field f b ++ post)) <?
                  N.of_nat (length (pre ++ enc_field f b)))%N = false).
  { apply N.ltb_ge. rewrite !length_app. lia. }
  assert (Hbody : (N.of_nat (length pre) + N.of_nat (length (encode_varint (f * 8 + 2))) +
             N.of_nat (length (encode_varint (N.of_nat (length b)))) =
           N.of_nat (length pre + length (encode_varint (f * 8 + 2)) +
                     length (encode_varint (N.of_nat (length b)))))%N) by lia.
  destruct H12 as [-> | ->]; cbv iota; rewrite Hslice; cbn [mbind build_bind];
    rewrite decode_encode_varint by lia; cbn [try mbind build_bind]; rewrite Hadd;
    cbn [mbind build_bind]; rewrite Hend, Hbody; [done|].
  change (2 =? 1)%N with false. cbv zeta iota.
  assert (take (N.to_nat (N.of_nat (length b)))
    (drop (N.to_nat (N.of_nat (length pre + length (encode_varint (2 * 8 + 2)) +
                     length (encode_varint (N.of_nat (length b))))))
       (pre ++ enc_field 2 b ++ post)) = b) as ->; [|done].
  rewrite !Nat2N.id, Henc, <- !drop_drop, !drop_app_length. apply take_app_length.
Qed.

Lemma requirement_scopes fuel pre scopes out :
  Forall (Forall scalar) scopes →
  small (pre ++ encode_msg (map (λ s, (2%N, as_bytes s)) scopes)) → (length scopes < fuel)%nat →
  requirement_loop fuel (pre ++ encode_msg (map (λ s, (2%N, as_bytes s)) scopes))
    (N.of_nat (length pre)) out
  = Built (mkReq (req_allowed out) (req_scopes out ++ scopes)).
Proof.
  intros Hs. revert fuel pre out; induction Hs as [|s scopes Hs _ IH]; intros fuel pre out Hsm Hf;
    (destruct fuel as [|fuel]; [cbn in Hf; lia|]).
  - cbn [map]. change (encode_msg []) with (@nil N). rewrite app_nil_r. cbn [requirement_loop].
    rewrite N.ltb_irrefl, app_nil_r. by destruct out.
  - cbn [map] in *.
    change (encode_msg ((2%N, as_bytes s) :: map (λ s, (2%N, as_bytes s)) scopes))
      with (enc_field 2 (as_bytes s) ++ encode_msg (map (λ s, (2%N, as_bytes s)) scopes)) in *.
    rewrite requirement_step by (done || by right). cbv zeta. change (2 =? 1)%N with false. cbv iota.
    rewrite from_utf8_as_bytes by done. cbn [try mbind build_bind].
    rewrite app_assoc in *. rewrite IH; [|done|cbn in Hf; lia].
    cbn. by rewrite <- app_assoc.
Qed.

Lemma requirement_decodes spec :
  Forall (Forall scalar) (spec_scopes spec) → small (encode_msg (auth_fields spec)) →
  decode_auth_requirement_message (encode_msg (auth_fields spec))
  = Built (mkReq (class_name <$> allowed spec) (spec_scopes spec)).
Proof.
  intros Hs Hsm. unfold decode_auth_requirement_message.
  pose proof (encode_msg_length (auth_fields spec)) as Hfuel.
  unfold auth_fields in *. rewrite length_app, length_map in Hfuel.
  case_bool_decide as Hc; cbn [app length] in *.
  - rewrite Hc. apply (requirement_scopes _ []); [done|done|lia].
  - set (scs := map (λ s, (2%N, as_bytes s)) (spec_scopes spec)) in *.
    set (cls := class_number <$> allowed spec) in *.
    change (encode_msg ((1%N, cls) :: scs)) with (enc_field 1 cls ++ encode_msg scs) in *.
    etransitivity; [apply (requirement_step _ [] 1 cls); [done|done|by left]|]. cbv zeta.
    change (1 =? 1)%N with true. cbv iota.
    assert (Hpacked : packed_loop (S (length ([] ++ enc_field 1 cls ++ encode_msg scs)))
      ([] ++ enc_field 1 cls ++ encode_msg scs)
      (N.of_nat (length (@nil N) + length (encode_varint (1 * 8 + 2)) +
                 length (encode_varint (N.of_nat (length cls)))))
      (N.of_nat (length ([] ++ enc_field 1 cls))) (mkReq [] [])
      = Built (mkReq (class_name <$> allowed spec) [])).
    { pose proof (packed_loop_encode
        (S (length ([] ++ enc_field 1 cls ++ encode_msg scs)))
        (encode_varint (1 * 8 + 2) ++ encode_varint (N.of_nat (length cls)))
        (allowed spec) (encode_msg scs) (mkReq [] [])) as Hp.
      unfold enc_field in *. cbn [app] in *. fold cls in Hp.
      rewrite <- !app_assoc in *. rewrite !length_app in *.
      assert (Hcl : length cls = length (allowed spec)) by apply length_fmap.
      etransitivity; [|apply Hp; lia]. cbn [length]. f_equal; f_equal; lia. }
    rewrite Hpacked. cbn [mbind build_bind app].
    etransitivity; [apply (requirement_scopes _ (enc_field 1 cls)); [done|done|]|done].
    pose proof (encode_msg_length scs) as Hl. unfold scs at 1 in Hl. rewrite length_map in Hl.
    rewrite length_app. unfold enc_field. destruct (encode_varint_cons (1 * 8 + 2)) as (c & cs & ->).
    cbn. lia.
Qed.

(** *** Options, methods, services, files *)

Lemma options_found m :
  method_wf m → small (encode_msg (option_fields m)) →
  scan_method_options_for_auth (encode_msg (option_fields m)) =
  Built ((λ spec, mkReq (class_name <$> allowed spec) (spec_scopes spec)) <$> md_auth m).
Proof.
  intros [_ Hs] Hsm. unfold scan_method_options_for_auth.
  rewrite for_fields_encode.
  2:{ split; [|done]. unfold option_fields. destruct (md_auth m); repeat constructor. }
  pose proof (small_body (option_fields m) AUTH_REQUIREMENT_FIELD) as Hb.
  unfold option_fields in *. destruct (md_auth m) as [spec|];
    cbn [fold_fields try mbind build_bind mret build_ret];
    change (72295728 =? AUTH_REQUIREMENT_FIELD)%N with false; cbv iota; [|done].
  change (AUTH_REQUIREMENT_FIELD =? AUTH_REQUIREMENT_FIELD)%N with true. cbv iota.
  rewrite requirement_decodes; [done|done|]. apply Hb; [done|set_solver].
Qed.

Lemma method_scanned m package svc entries :
  method_wf m → small (encode_msg (method_fields m)) →
  scan_method (encode_msg (method_fields m)) package svc entries =
  collect [(lit "/" ++ package ++ lit "." ++ svc ++ lit "/" ++ md_name m, md_auth m)] entries.
Proof.
  intros Hm Hsm. unfold scan_method.
  rewrite for_fields_encode by (split; [repeat constructor|done]).
  unfold method_fields at 1. cbn [fold_fields try mbind build_bind].
  rewrite from_utf8_as_bytes by apply Hm. cbn [try mbind build_bind fst snd mret build_ret].
  rewrite options_found; [|done|apply (small_body _ 4 _ Hsm); unfold method_fields; set_solver].
  cbn [mbind build_bind]. by destruct (md_auth m).
Qed.

Lemma for_each_collect {X} (enc : X → bytes) (rpcs : X → list (str * option AuthSpec)) f l entries :
  Forall (λ x, ∀ entries, f (enc x) entries = collect (rpcs x) entries) l →
  for_each f (map enc l) entries = collect (concat (map rpcs l)) entries.
Proof.
  intros Hl. revert entries; induction Hl as [|x l Hx _ IH]; intros entries; [done|].
  cbn. rewrite Hx, collect_app. by destruct (collect (rpcs x) entries); cbn.
Qed.

(** The loops that gather the bodies of one field. *)
Lemma fold_fields_gather {X A} on_field (f : N) (enc : X → bytes) (l : list X) (p : A) ms rest :
  (∀ p ms b, on_field (p, ms) f (Ok b) = Built (p, ms ++ [b])) →
  fold_fields on_field (p, ms) (map (λ x, (f, enc x)) l ++ rest) =
  fold_fields on_field (p, ms ++ map enc l) rest.
Proof.
  intros Hon. revert ms; induction l as [|x l IH]; intros ms; cbn; [by rewrite app_nil_r|].
  rewrite Hon. cbn. rewrite IH, <- app_assoc. done.
Qed.

Lemma service_scanned s package entries :
  service_wf s → small (encode_msg (service_fields s)) →
  scan_service (encode_msg (service_fields s)) package entries =
  collect (service_rpcs package s) entries.
Proof.
  intros [Hn Hms] Hsm. unfold scan_service. rewrite for_fields_encode.
  2:{ split; [|done]. constructor; [done|]. apply Forall_map, Forall_forall. done. }
  unfold service_fields at 1. cbn [fold_fields try mbind build_bind].
  rewrite from_utf8_as_bytes by done. cbn [try mbind build_bind fst snd mret build_ret].
  rewrite <- (app_nil_r (map _ _)).
  rewrite (fold_fields_gather _ 2 (λ m, encode_msg (method_fields m))) by done.
  cbn [fold_fields mbind build_bind app].
  rewrite (for_each_collect _ (λ m, [(lit "/" ++ package ++ lit "." ++ sd_name s ++ lit "/" ++
    md_name m, md_auth m)])).
  - f_equal. unfold service_rpcs. clear. induction (sd_methods s); cbn; [done|]. by f_equal.
  - rewrite Forall_forall in *. intros m Hm ens. apply method_scanned; [by apply Hms|].
    apply (small_body _ 2 _ Hsm). unfold service_fields. apply elem_of_cons; right.
    by apply (list_elem_of_fmap_2 (λ m, (2%N, encode_msg (method_fields m)))).
Qed.

Lemma file_scanned f entries :
  file_wf f → small (encode_msg (file_fields f)) →
  scan_file (encode_msg (file_fields f)) entries = collect (file_rpcs f) entries.
Proof.
  intros [Hp Hss] Hsm. unfold scan_file. rewrite for_fields_encode.
  2:{ split; [|done]. unfold file_fields. cbn [app]. constructor; [done|]. constructor; [done|].
      rewrite !Forall_app, !Forall_map, !Forall_forall. split_and!; try done.
      intros x Hx. apply list_elem_of_singleton in Hx as ->. done. }
  unfold file_fields at 1. cbn [app fold_fields try mbind build_bind mret build_ret].
  rewrite from_utf8_as_bytes by done. cbn [try mbind build_bind fst snd mret build_ret].
  assert (Hskip : ∀ (on : str * list bytes → N → result BuildError bytes → Build (str * list bytes))
            acc l rest, (∀ b, on acc 4%N (Ok b) = Built acc) →
            fold_fields on acc (map (λ b, (4%N, b)) l ++ rest) = fold_fields on acc rest).
  { intros on acc l rest Hon. induction l as [|b l IH]; [done|]. cbn. rewrite Hon. cbn. done. }
  rewrite Hskip by done.
  rewrite (fold_fields_gather _ 6 (λ s, encode_msg (service_fields s))) by done.
  cbn [fold_fields try mbind build_bind mret build_ret app].
  unfold file_rpcs. destruct (starts_with _ _); [|done]. cbn [negb].
  apply for_each_collect. rewrite Forall_forall in *. intros s Hs ens.
  apply service_scanned; [by apply Hss|]. apply (small_body _ 6 _ Hsm).
  unfold file_fields. rewrite !elem_of_app. right. right. left.
  by apply (list_elem_of_fmap_2 (λ s, (6%N, encode_msg (service_fields s)))).
Qed.

(** ** The annotations of [proto/headlines/v1]

    One service per file.  The request and reply types and the HTTP bindings are left
    empty: the table does not depend on them. *)

Definition rpc (name : string) (classes : list SubjectClass) (scopes : list string) : MethodD :=
  mkMethod (lit name) [] [] []
    (Some {| allowed := classes; spec_scopes := lit <$> scopes |}).
Definition ANY : list SubjectClass := [CAnonymous; CUserSelf; CAccountSelf; CSystem].
Definition OWNER : list SubjectClass := [CAccountOwnsResource; CSystem].
Definition SELF : list SubjectClass := [CUserSelf; CSystem].

Definition AccountService : ServiceD := mkService (lit "AccountService")
  [rpc "CreateAccount" [CAnonymous; CSystem] ["accounts.write"];
   rpc "GetAccount" ANY [];
   rpc "UpdateAccount" OWNER ["accounts.admin"];
   rpc "DeleteAccount" [CAccountSelf; CSystem] ["accounts.delete"];
   rpc "AddAccountKey" OWNER ["accounts.admin"];
   rpc "RevokeAccountKey" OWNER ["accounts.admin"]].
Definition UserService : ServiceD := mkService (lit "UserService")
  [rpc "CreateUser" [CAnonymous; CSystem] ["users.write"];
   rpc "GetUser" [CAnonymous; CUserSelf; CSystem] ["users.read"];
   rpc "UpdateUser" SELF ["users.admin"];
   rpc "DeleteUser" SELF ["users.delete"];
   rpc "AddUserKey" SELF ["users.admin"];
   rpc "RevokeUserKey" SELF ["users.admin"]].
Definition ArticleService : ServiceD := mkService (lit "ArticleService")
  [rpc "PublishArticle" OWNER ["articles.write"];
   rpc "GetArticle" ANY [];
   rpc "ListAccountArticles" ANY [];
   rpc "EditArticle" OWNER ["articles.write"];
   rpc "TombstoneArticle" OWNER ["articles.tombstone"];
   rpc "RedactArticleVersion" [CSystem] ["articles.redact"]].
Definition DraftService : ServiceD := mkService (lit "DraftService")
  [rpc "CreateDraft" OWNER ["drafts.write"];
   rpc "GetDraft" OWNER ["drafts.read"];
   rpc "UpdateDraft" OWNER ["drafts.write"];
   rpc "DeleteDraft" OWNER ["drafts.write"];
   rpc "ListAccountDrafts" OWNER ["drafts.read"];
   rpc "PublishDraft" OWNER ["articles.write"]].
Definition FollowService : ServiceD := mkService (lit "FollowService")
  [rpc "Follow" SELF ["follows.write"];
   rpc "Unfollow" SELF ["follows.write"];
   rpc "GetFollow" SELF ["follows.read"];
   rpc "ListUserFollows" SELF ["follows.read"];
   rpc "ListAccountFollowers" [CAccountSelf; CSystem] ["follows.read"]].
Definition EventService : ServiceD := mkService (lit "EventService")
  [rpc "RecordEvent" SELF ["events.write"];
   rpc "RecordEventBatch" SELF ["events.write"];
   rpc "ListEvents" [CSystem] ["events.read"]].
Definition AccountStreamService : ServiceD := mkService (lit "AccountStreamService")
  [rpc "StreamAccountArticles" [CSystem] ["articles.stream"]].
Definition FeedFollowService : ServiceD := mkService (lit "FeedFollowService")
  [rpc "GetFollowFeed" SELF ["feeds.follow.read"]].
Definition FeedRecommendationService : ServiceD := mkService (lit "FeedRecommendationService")
  [rpc "ReplaceRecommendationFeed" [CSystem] ["feeds.recommendation.write"];
   rpc "GetRecommendationFeed" SELF ["feeds.recommendation.read"]].
Definition NotificationService : ServiceD := mkService (lit "NotificationService")
  [rpc "SendNotification" [CSystem] ["notifications.send"];
   rpc "SendNotificationBatch" [CSystem] ["notifications.send"];
   rpc "ListUserNotifications" SELF ["notifications.read"];
   rpc "MarkNotificationRead" [CUserSelf] [];
   rpc "MarkAllUserNotificationsRead" SELF ["notifications.admin"];
   rpc "GetUserNotificationPreferences" SELF ["notifications.read"];
   rpc "UpdateUserNotificationPreferences" SELF ["notifications.admin"]].

(** [discover_proto_files] sorts the paths. *)
Definition headlines_files : list FileD :=
  (λ s, mkFile [] (lit "headlines.v1") [] [s]) <$>
  [AccountService; AccountStreamService; ArticleService; DraftService; EventService;
   FeedFollowService; FeedRecommendationService; FollowService; NotificationService; UserService].

(** [AUTH_TABLE]: what the build makes of the annotations. *)
Definition headlines_entries : Build (list AuthEntry) :=
  scan_descriptor_set (S (length headlines_files)) (encode_descriptor_set headlines_files).
Definition AUTH_TABLE : list (str * AuthSpec) := entry_spec <$> built_or [] headlines_entries.

(** ** Theorems *)

Lemma set_scanned fuel files :
  Forall file_wf files → small (encode_descriptor_set files) → (length files < fuel)%nat →
  scan_descriptor_set fuel (encode_descriptor_set files) =
  collect (concat (map file_rpcs files)) [].
Proof.
  intros Hwf Hsm Hfuel. unfold scan_descriptor_set, encode_descriptor_set, new_scanner.
  assert (Hloop : ∀ on, scan_loop fuel on []
      (mkScanner (encode_msg (map (λ f, (1%N, encode_msg (file_fields f))) files)) 0) =
      fold_fields on (@nil AuthEntry) (map (λ f, (1%N, encode_msg (file_fields f))) files)).
  { intros on. apply (scan_loop_fields _ _ _ []); [|done|by rewrite length_map].
    split; [|done]. apply Forall_map, Forall_forall. done. }
  rewrite Hloop. clear Hloop Hfuel fuel.
  assert (Hfiles : ∀ f, f ∈ files → small (encode_msg (file_fields f))).
  { intros f Hf. apply (small_body _ 1 _ Hsm).
    by apply (list_elem_of_fmap_2 (λ f, (1%N, encode_msg (file_fields f)))). }
  clear Hsm. generalize (@nil AuthEntry) as entries.
  induction Hwf as [|f files Hf _ IH]; intros entries; [done|].
  cbn [map concat fold_fields]. change (1 =? 1)%N with true. cbv iota.
  cbn [try mbind build_bind]. rewrite file_scanned by (done || apply Hfiles; set_solver).
  rewrite collect_app. destruct (collect (file_rpcs f) entries); [|done..].
  cbn [mbind build_bind]. apply IH. intros; apply Hfiles; set_solver.
Qed.

(** C35. The build script reads back every descriptor set: each method of a
    [headlines.] package becomes exactly one table entry with its classes and scopes, in
    the order of the files, and the build fails, naming it, at the first method without
    an annotation. *)
Theorem descriptors_become_table fuel files :
  Forall file_wf files → small (encode_descriptor_set files) → (length files < fuel)%nat →
  scan_descriptor_set fuel (encode_descriptor_set files) =
  collect (concat (map file_rpcs files)) [].
Proof. apply set_scanned. Qed.

Lemma class_of_class_name c : class_of_name (class_name c) = Some c.
Proof. by destruct c. Qed.

Lemma rpc_entry_spec full spec : entry_spec (rpc_entry full spec) = (full, spec).
Proof.
  unfold entry_spec, rpc_entry. cbn. destruct spec as [cs scs]. cbn. do 2 f_equal.
  induction cs as [|c cs IH]; cbn; [done|]. by rewrite class_of_class_name, IH.
Qed.

Lemma auth_table_entries :
  AUTH_TABLE = omap (λ r, pair r.1 <$> r.2) (concat (map file_rpcs headlines_files)).
Proof. vm_compute. reflexivity. Qed.

(** No method is repeated, so the generator of the map does not panic. *)
Lemma auth_table_keys : NoDup AUTH_TABLE.*1.
Proof. apply (bool_decide_unpack _). vm_compute. exact I. Qed.

Lemma table_lookup_elem table p spec : table_lookup table p = Some spec → (p, spec) ∈ table.
Proof.
  induction table as [|[m s] table IH]; [done|]. cbn. destruct (str_eqb m p) eqn:Hm.
  - apply str_eqb_eq in Hm as ->. intros [= ->]. set_solver.
  - intros Hl%IH. set_solver.
Qed.
Lemma table_lookup_NoDup table p spec :
  NoDup table.*1 → (p, spec) ∈ table → table_lookup table p = Some spec.
Proof.
  induction table as [|[m s] table IH]; cbn; intros Hnd Hin; [by apply not_elem_of_nil in Hin|].
  apply NoDup_cons in Hnd as [Hm Hnd]. apply elem_of_cons in Hin as [[= <- <-]|Hin].
  - assert (str_eqb p p = true) as -> by by apply str_eqb_eq. done.
  - destruct (str_eqb m p) eqn:He; [|by apply IH]. apply str_eqb_eq in He as ->.
    destruct Hm. by apply (list_elem_of_fmap_2 fst _ (p, spec)).
Qed.

(** The authorization layer lets a subject through to a method. *)
Definition reaches (subject : Subject) (path : str) : Prop :=
  ∃ spec, table_lookup AUTH_TABLE path = Some spec ∧ is_allowed subject spec = true.

Lemma reaches_filter subject path :
  reaches subject path ↔ path ∈ (filter (λ e, is_allowed subject e.2 = true) AUTH_TABLE).*1.
Proof.
  unfold reaches. rewrite list_elem_of_fmap. split.
  - intros (spec & Hl%table_lookup_elem & Ha). exists (path, spec).
    split; [done|]. by apply list_elem_of_filter.
  - intros ([m spec] & -> & [Ha Hin]%list_elem_of_filter). exists spec.
    split; [|done]. apply table_lookup_NoDup; [apply auth_table_keys|done].
Qed.

(** Who a subject is does not matter, only its class and scopes. *)
Lemma same_scopes_same_methods sys key scs :
  filter (λ e : str * AuthSpec, is_allowed (System sys key scs) e.2 = true) AUTH_TABLE =
  filter (λ e, is_allowed (System 0%N 0%N scs) e.2 = true) AUTH_TABLE.
Proof.
  assert (Heq : ∀ spec, is_allowed (System sys key scs) spec = is_allowed (System 0%N 0%N scs) spec)
    by reflexivity.
  apply filter_ext_elem. intros e _. rewrite Heq. reflexivity.
Qed.
Lemma accounts_same_methods account key :
  filter (λ e : str * AuthSpec, is_allowed (Account account key) e.2 = true) AUTH_TABLE =
  filter (λ e, is_allowed (Account 0%N 0%N) e.2 = true) AUTH_TABLE.
Proof.
  assert (Heq : ∀ spec, is_allowed (Account account key) spec = is_allowed (Account 0%N 0%N) spec)
    by reflexivity.
  apply filter_ext_elem. intros e _. rewrite Heq. reflexivity.
Qed.

Definition method_path (svc m : string) : str :=
  lit "/headlines.v1." ++ lit svc ++ lit "/" ++ lit m.
Definition public_reads : list str :=
  [method_path "AccountService" "GetAccount"; method_path "ArticleService" "GetArticle";
   method_path "ArticleService" "ListAccountArticles"].

(** C34. Which methods the annotations of the protocol files open: an anonymous
    caller reaches the three public reads, the two registrations and [GetUser] and nothing
    else; a system without scopes reaches the public reads only; and a system with every
    scope reaches every method but [MarkNotificationRead]. *)
Theorem table_opens path :
  (reaches Anonymous path ↔
    path ∈ public_reads ++ [method_path "AccountService" "CreateAccount";
                            method_path "UserService" "CreateUser";
                            method_path "UserService" "GetUser"]) ∧
  (∀ sys key, reaches (System sys key []) path ↔ path ∈ public_reads) ∧
  (∀ sys key, reaches (System sys key [lit "*"]) path ↔
    path ∈ AUTH_TABLE.*1 ∧ path ≠ method_path "NotificationService" "MarkNotificationRead").
Proof.
  split_and!; [|intros sys key..]; rewrite reaches_filter.
  - match goal with |- _ ∈ ?l ↔ _ => let v := eval vm_compute in l in change l with v end.
    unfold public_reads. set_solver.
  - rewrite same_scopes_same_methods.
    match goal with |- _ ∈ ?l ↔ _ => let v := eval vm_compute in l in change l with v end.
    unfold public_reads. set_solver.
  - assert (filter (λ e, is_allowed (System sys key [lit "*"]) e.2 = true) AUTH_TABLE =
            filter (λ e, e.1 ≠ method_path "NotificationService" "MarkNotificationRead") AUTH_TABLE)
      as ->.
    { etransitivity; [apply same_scopes_same_methods|]. vm_compute. reflexivity. }
    rewrite list_elem_of_fmap. split.
    + intros (e & -> & [Hne Hin]%list_elem_of_filter). split; [|exact Hne].
      apply list_elem_of_fmap. exists e. split; [reflexivity|exact Hin].
    + intros [(e & -> & Hin)%list_elem_of_fmap Hne]. exists e. split; [reflexivity|].
      apply list_elem_of_filter. split; [exact Hne|exact Hin].
Qed.

(** [GetUser] turns away the keys of accounts at the door, although the
    handler would answer them as it answers anonymous callers. *)
Theorem get_user_turns_accounts_away account key :
  reaches Anonymous (method_path "UserService" "GetUser") ∧
  ¬ reaches (Account account key) (method_path "UserService" "GetUser").
Proof.
  split; [apply reaches_filter, (bool_decide_unpack _); vm_compute; exact I|].
  intros Hr%reaches_filter. revert Hr. rewrite accounts_same_methods.
  apply (bool_decide_unpack _). vm_compute. exact I.
Qed.

(** ** Malformed input *)

Lemma bind_ends {A B} (m : Build A) (f : A → Build B) :
  m ≠ Diverges → (∀ a, f a ≠ Diverges) → (a ← m; f a) ≠ Diverges.
Proof. intros Hm Hf. destruct m; cbn; [apply Hf|done|done|done]. Qed.
Lemma try_ends {A} (r : result BuildError A) : try r ≠ Diverges.
Proof. by destruct r. Qed.
Lemma slice_from_ends bs n : slice_from bs n ≠ Diverges.
Proof. unfold slice_from. by destruct (_ <? _)%N. Qed.
Lemma checked_add_ends a b : checked_add a b ≠ Diverges.
Proof. unfold checked_add. by destruct (_ <=? _)%N. Qed.
#[local] Hint Resolve try_ends slice_from_ends checked_add_ends : ends.

(** Every item with a body moves the position on. *)
Lemma scan_next_progress s f w b s' :
  scan_next s = ScanItem f w (Ok b) s' →
  sc_bytes s' = sc_bytes s ∧ (sc_pos s < sc_pos s')%nat ∧ (sc_pos s < length (sc_bytes s))%nat.
Proof.
  unfold scan_next. destruct (Nat.leb_spec (length (sc_bytes s)) (sc_pos s)) as [|Hpos]; [done|].
  destruct (decode_varint (sc_rest s)) as [[tag n]|e] eqn:Ht; [|done].
  apply decode_varint_length in Ht as [Hn _].
  assert (Hfix : ∀ k, fixed_item (N.shiftr tag 3 mod 2 ^ 32) (N.land tag 7) k (advance n s) =
            ScanItem f w (Ok b) s' →
            sc_bytes s' = sc_bytes s ∧ (sc_pos s < sc_pos s')%nat ∧
            (sc_pos s < length (sc_bytes s))%nat).
  { intros k. unfold fixed_item. destruct (_ <? _)%nat; [done|]. intros [= _ _ _ <-]. cbn.
    split_and!; [done|lia..]. }
  destruct (N.land tag 7) as [|[[[]|[]|]|[[]|[]|]|]]; try done; try by apply Hfix.
  - destruct (decode_varint _) as [[x m]|]; [|done]. intros [= _ _ _ <-]. cbn.
    split_and!; [done|lia..].
  - destruct (decode_varint _) as [[len m]|]; [|done].
    destruct (_ <=? _)%N; [done|]. destruct (_ <? _)%N; [done|]. intros [= _ _ _ <-]. cbn.
    split_and!; [done|lia..].
Qed.

Section ends.
Context {A : Type} (on_field : A → N → result BuildError bytes → Build A).
Hypothesis on_body : ∀ acc f b, on_field acc f (Ok b) ≠ Diverges.
Hypothesis on_error : ∀ acc f e, ∃ e', on_field acc f (Err e) = Failed e'.

Lemma scan_loop_ends fuel acc s :
  (length (sc_bytes s) - sc_pos s < fuel)%nat → scan_loop fuel on_field acc s ≠ Diverges.
Proof.
  revert acc s; induction fuel as [|fuel IH]; intros acc s Hf; [lia|]. cbn [scan_loop].
  destruct (scan_next s) as [| |f w [b|e] s'] eqn:Hs; [done|done| |].
  - apply scan_next_progress in Hs as (Hb & Hp & Hl). apply bind_ends; [apply on_body|].
    intros acc'. apply IH. rewrite Hb. lia.
  - destruct (on_error acc f e) as [e' ->]. done.
Qed.
Lemma for_fields_ends acc bs : for_fields on_field acc bs ≠ Diverges.
Proof. apply scan_loop_ends. cbn. lia. Qed.
End ends.

Lemma packed_loop_ends fuel bs inner end_ out :
  (end_ - inner < N.of_nat fuel)%N → packed_loop fuel bs inner end_ out ≠ Diverges.
Proof.
  revert inner out; induction fuel as [|fuel IH]; intros inner out Hf; [lia|]. cbn [packed_loop].
  destruct (N.ltb_spec inner end_); [|done].
  apply bind_ends; [auto with ends|]. intros rest.
  destruct (decode_varint rest) as [[val n]|e] eqn:Hv; [|done].
  apply decode_varint_length in Hv as [Hn _]. cbn [try mbind build_bind].
  apply bind_ends; [auto with ends|]. intros name. apply IH. lia.
Qed.

Lemma checked_add_ge a b c : checked_add a b = Built c → c = (a + b)%N.
Proof. unfold checked_add. destruct (_ <=? _)%N; [done|]. by intros [= <-]. Qed.

Definition ends_above (cursor : N) (m : Build N) : Prop :=
  m ≠ Diverges ∧ ∀ c, m = Built c → (cursor <= c)%N.
Lemma bind_above {A} cursor (m : Build A) (f : A → Build N) :
  m ≠ Diverges → (∀ a, ends_above cursor (f a)) → ends_above cursor (a ← m; f a).
Proof. intros Hm Hf. destruct m; try done; cbn; [apply Hf|by split..]. Qed.

Lemma skip_wire_value_ge bs cursor w : ends_above cursor (skip_wire_value bs cursor w).
Proof.
  assert (Hadd : ∀ x, ends_above cursor (checked_add cursor x)).
  { intros x. split; [auto with ends|]. intros c ->%checked_add_ge. lia. }
  unfold skip_wire_value. destruct w as [|[[[]|[]|]|[[]|[]|]|]]; try (by split); try apply Hadd.
  - apply bind_above; [auto with ends|]. intros rest. apply bind_above; [auto with ends|].
    intros [x n]. apply Hadd.
  - apply bind_above; [auto with ends|]. intros rest. apply bind_above; [auto with ends|].
    intros [x n]. apply bind_above; [auto with ends|]. intros step. apply Hadd.
Qed.

Lemma requirement_loop_ends fuel bs cursor out :
  (N.of_nat (length bs) - cursor < N.of_nat fuel)%N → requirement_loop fuel bs cursor out ≠ Diverges.
Proof.
  revert cursor out; induction fuel as [|fuel IH]; intros cursor out Hf; [lia|].
  cbn [requirement_loop]. destruct (N.ltb_spec cursor (N.of_nat (length bs))); [|done].
  apply bind_ends; [auto with ends|]. intros rest.
  destruct (decode_varint rest) as [[tag n]|e] eqn:Ht; [|done].
  apply decode_varint_length in Ht as [Hn _]. cbn [try mbind build_bind].
  assert (Hskip : ∀ w, (c ← skip_wire_value bs (cursor + N.of_nat n) w;
                        requirement_loop fuel bs c out) ≠ Diverges).
  { intros w. destruct (skip_wire_value_ge bs (cursor + N.of_nat n) w) as [Hd Hge].
    destruct (skip_wire_value bs (cursor + N.of_nat n) w) as [c| | |]; try done. cbn [try mbind build_bind].
    apply IH. specialize (Hge c eq_refl). lia. }
  assert (Hlen : ∀ (k : N → N → Build AuthRequirementBytes),
    (∀ c len, (cursor < c)%N → (k c len) ≠ Diverges) →
    (rest ← slice_from bs (cursor + N.of_nat n); '(len, m) ← try (decode_varint rest);
     k (cursor + N.of_nat n + N.of_nat m)%N len) ≠ Diverges).
  { intros k Hk. apply bind_ends; [auto with ends|]. intros rest'.
    destruct (decode_varint rest') as [[len m]|] eqn:Hm; [|done]. cbn [try mbind build_bind]. apply Hk. lia. }
  destruct (N.shiftr tag 3 mod 2 ^ 32)%N as [|[|[]|]]; try apply Hskip;
    destruct (N.land tag 7) as [|[|[]|]]; try apply Hskip.
  - apply (Hlen (λ c len, end_ ← checked_add c len;
      if (N.of_nat (length bs) <? end_)%N then Failed (Message (lit "truncated string field"))
      else s ← try (from_utf8 (take (N.to_nat len) (drop (N.to_nat c) bs)));
           requirement_loop fuel bs end_ (push_scope out s))).
    intros c len Hc. destruct (checked_add c len) as [e| | |] eqn:He; try done; cbn [try mbind build_bind].
    + apply checked_add_ge in He. destruct (_ <? _)%N; [done|].
      apply bind_ends; [auto with ends|]. intros s. apply IH. lia.
    + by apply checked_add_ends in He.
  - apply (Hlen (λ c val, name ← try (subject_class_name (as_i32 (Z.of_N val)));
      requirement_loop fuel bs c (push_allowed out name))).
    intros c val Hc. apply bind_ends; [auto with ends|]. intros name. apply IH. lia.
  - apply (Hlen (λ c len, end_ ← checked_add c len;
      if (N.of_nat (length bs) <? end_)%N then Failed (Message (lit "truncated packed enum"))
      else out ← packed_loop (S (length bs)) bs c end_ out; requirement_loop fuel bs end_ out)).
    intros c len Hc. destruct (checked_add c len) as [e| | |] eqn:He; try done; cbn [try mbind build_bind].
    + apply checked_add_ge in He. destruct (N.ltb_spec (N.of_nat (length bs)) e); [done|].
      apply bind_ends; [apply packed_loop_ends; lia|]. intros out'. apply IH. lia.
    + by apply checked_add_ends in He.
Qed.

Lemma scan_options_ends bs : scan_method_options_for_auth bs ≠ Diverges.
Proof.
  unfold scan_method_options_for_auth. apply bind_ends.
  - apply for_fields_ends; [done|by eexists].
  - intros [body|]; [|done]. apply bind_ends; [|done].
    apply requirement_loop_ends. lia.
Qed.

Lemma scan_method_ends bs package svc entries : scan_method bs package svc entries ≠ Diverges.
Proof.
  unfold scan_method. apply bind_ends.
  - apply for_fields_ends; [|by eexists]. intros acc f b. cbn [try mbind build_bind].
    repeat case_match; try done; apply bind_ends; auto with ends; done.
  - intros [name options]. apply bind_ends.
    + destruct options; [apply scan_options_ends|done].
    + by intros [req|].
Qed.

Lemma for_each_ends {A} (f : bytes → A → Build A) l acc :
  (∀ x acc, f x acc ≠ Diverges) → for_each f l acc ≠ Diverges.
Proof.
  intros Hf. revert acc; induction l as [|x l IH]; intros acc; [done|].
  apply bind_ends; [apply Hf|intros; apply IH].
Qed.

Lemma scan_service_ends bs package entries : scan_service bs package entries ≠ Diverges.
Proof.
  unfold scan_service. apply bind_ends.
  - apply for_fields_ends; [|by eexists]. intros acc f b. cbn [try mbind build_bind].
    repeat case_match; try done; apply bind_ends; auto with ends; done.
  - intros [name methods]. apply for_each_ends. intros. apply scan_method_ends.
Qed.

(** Whatever the bytes of a file descriptor, scanning it ends: with entries, an
    error, or a panic. *)
Theorem file_scan_ends bs entries : scan_file bs entries ≠ Diverges.
Proof.
  unfold scan_file. apply bind_ends.
  - apply for_fields_ends; [|by eexists]. intros acc f b. cbn [try mbind build_bind].
    repeat case_match; try done; apply bind_ends; auto with ends; done.
  - intros [package services]. destruct (negb _); [done|].
    apply for_each_ends. intros. apply scan_service_ends.
Qed.

(** The outer loop does not end on a truncated tag: the error is an item of field 0, which
    is skipped, and the scanner does not move. *)
Theorem truncated_set_never_ends fuel : scan_descriptor_set fuel [128%N] = Diverges.
Proof.
  unfold scan_descriptor_set. generalize (@nil AuthEntry) as entries.
  induction fuel as [|fuel IH]; intros entries; [done|]. exact (IH entries).
Qed.

(** ** Witnesses *)

Definition toy_file : FileD :=
  mkFile [] (lit "headlines.v1") [] [mkService (lit "S") [rpc "M" SELF ["x.read"]]].

Example descriptors_become_table_witness :
  scan_descriptor_set 2 (encode_descriptor_set [toy_file]) =
  Built [rpc_entry (lit "/headlines.v1.S/M") {| allowed := SELF; spec_scopes := [lit "x.read"] |}].
Proof.
  apply (descriptors_become_table 2 [toy_file]).
  - apply Forall_singleton. split; [by apply scalar_ascii|].
    apply Forall_singleton. split; [by apply scalar_ascii|].
    apply Forall_singleton. split; [by apply scalar_ascii|].
    apply Forall_singleton. by apply scalar_ascii.
  - by vm_compute.
  - cbn. lia.
Defined.
