(* ===== verification/Errors.v ===== *)
(** * The central error type ([headlines-core/src/error.rs]) and the error
    types of the authentication traits ([headlines-core/src/auth.rs])

    Every failure a component returns is a [HeadlinesError]; one table maps it
    to a gRPC code and a stable reason, one function to the machine-readable
    metadata, and [status_from] assembles the wire-level status. *)

From S2P Require Import Prelude Libs Instances.

(** The variants of [tonic::Code] the source uses. *)
Inductive Code : Type :=
  | NotFound | FailedPrecondition | AlreadyExists | InvalidArgumentCode
  | ResourceExhausted | PermissionDenied | UnauthenticatedCode | Unimplemented
  | InternalCode.

#[global] Instance code_eq_dec : EqDecision Code.
Proof. solve_decision. Defined.

(** [usize] and [i32] fields are integers; the payload of [Internal] is the
    [Display] of its [anyhow::Error]. *)
Inductive HeadlinesError : Type :=
  | AccountNotFound (id : Uuid)
  | AccountDeleted (id : Uuid)
  | UserNotFound (id : Uuid)
  | UserDeleted (id : Uuid)
  | ArticleNotFound (id : Uuid)
  | ArticleTombstoned (id : Uuid)
  | DraftNotFound (id : Uuid)
  | DraftNotPublishable (id : Uuid) (reason : str)
  | FollowNotFound (user_id account_id : Uuid)
  | SelfFollowForbidden
  | KeyNotFound (key_id : Uuid)
  | KeyAlreadyRevoked (key_id : Uuid)
  | LastActiveKey
  | InvalidPublicKey (reason : str)
  | UnsupportedAlgorithm (algo : str)
  | RegistrationDisabled (surface : str)
  | ContentTooLarge (actual max : Z)
  | InvalidNodeTag (tag : str)
  | InvalidNodeAttr (tag attr : str)
  | EmptyUpdateMask
  | UnallowedMaskPath (path : str)
  | VersionNotFound (article_id : Uuid) (version : Z)
  | VersionAlreadyRedacted (article_id : Uuid) (version : Z)
  | FeedTooLarge (actual max : Z)
  | DuplicateArticleId (id : Uuid)
  | InvalidCursor (reason : str)
  | EventTypeMismatch (type_field properties_field : str)
  | EventTimestampOutOfRange (occurred_at : DateTime)
  | BatchTooLarge (actual max : Z)
  | UnauthorizedUserId (expected got : Uuid)
  | IdempotencyKeyMismatch (key : str)
  | NotImplementedInV1 (rpc : str)
  | InvalidArgument (field reason : str)
  | Unauthenticated (reason : str)
  | Internal (msg : str).

#[global] Instance headlines_error_eq_dec : EqDecision HeadlinesError.
Proof. solve_decision. Defined.

(** [HeadlinesError::code_and_reason] *)
Definition code_and_reason (e : HeadlinesError) : Code * str :=
  match e with
  | AccountNotFound _ => (NotFound, lit "ACCOUNT_NOT_FOUND")
  | UserNotFound _ => (NotFound, lit "USER_NOT_FOUND")
  | ArticleNotFound _ => (NotFound, lit "ARTICLE_NOT_FOUND")
  | DraftNotFound _ => (NotFound, lit "DRAFT_NOT_FOUND")
  | FollowNotFound _ _ => (NotFound, lit "FOLLOW_NOT_FOUND")
  | KeyNotFound _ => (NotFound, lit "KEY_NOT_FOUND")
  | VersionNotFound _ _ => (NotFound, lit "VERSION_NOT_FOUND")
  | AccountDeleted _ => (FailedPrecondition, lit "ACCOUNT_DELETED")
  | UserDeleted _ => (FailedPrecondition, lit "USER_DELETED")
  | ArticleTombstoned _ => (FailedPrecondition, lit "ARTICLE_TOMBSTONED")
  | DraftNotPublishable _ _ => (FailedPrecondition, lit "DRAFT_NOT_PUBLISHABLE")
  | LastActiveKey => (FailedPrecondition, lit "LAST_ACTIVE_KEY")
  | KeyAlreadyRevoked _ => (AlreadyExists, lit "KEY_ALREADY_REVOKED")
  | VersionAlreadyRedacted _ _ => (AlreadyExists, lit "VERSION_ALREADY_REDACTED")
  | InvalidPublicKey _ => (InvalidArgumentCode, lit "INVALID_PUBLIC_KEY")
  | UnsupportedAlgorithm _ => (InvalidArgumentCode, lit "UNSUPPORTED_ALGORITHM")
  | InvalidNodeTag _ => (InvalidArgumentCode, lit "INVALID_NODE_TAG")
  | InvalidNodeAttr _ _ => (InvalidArgumentCode, lit "INVALID_NODE_ATTR")
  | EmptyUpdateMask => (InvalidArgumentCode, lit "EMPTY_UPDATE_MASK")
  | UnallowedMaskPath _ => (InvalidArgumentCode, lit "UNALLOWED_MASK_PATH")
  | DuplicateArticleId _ => (InvalidArgumentCode, lit "DUPLICATE_ARTICLE_ID")
  | InvalidCursor _ => (InvalidArgumentCode, lit "INVALID_CURSOR")
  | EventTypeMismatch _ _ => (InvalidArgumentCode, lit "EVENT_TYPE_MISMATCH")
  | EventTimestampOutOfRange _ =>
    (InvalidArgumentCode, lit "EVENT_TIMESTAMP_OUT_OF_RANGE")
  | SelfFollowForbidden => (InvalidArgumentCode, lit "SELF_FOLLOW_FORBIDDEN")
  | IdempotencyKeyMismatch _ => (InvalidArgumentCode, lit "IDEMPOTENCY_KEY_MISMATCH")
  | InvalidArgument _ _ => (InvalidArgumentCode, lit "INVALID_ARGUMENT")
  | ContentTooLarge _ _ => (ResourceExhausted, lit "CONTENT_TOO_LARGE")
  | FeedTooLarge _ _ => (ResourceExhausted, lit "FEED_TOO_LARGE")
  | BatchTooLarge _ _ => (ResourceExhausted, lit "BATCH_TOO_LARGE")
  | RegistrationDisabled _ => (PermissionDenied, lit "REGISTRATION_DISABLED")
  | UnauthorizedUserId _ _ => (PermissionDenied, lit "UNAUTHORIZED_USER_ID")
  | Unauthenticated _ => (UnauthenticatedCode, lit "UNAUTHENTICATED")
  | NotImplementedInV1 _ => (Unimplemented, lit "NOT_IMPLEMENTED_IN_V1")
  | Internal _ => (InternalCode, lit "INTERNAL")
  end.

Definition reason (e : HeadlinesError) : str := (code_and_reason e).2.
Definition code (e : HeadlinesError) : Code := (code_and_reason e).1.

(** [ErrorInfo] and [tonic::Status] as the source builds them. *)
Record ErrorInfo := {
  ei_reason : str;
  ei_domain : str;
  ei_metadata : gmap str str;
}.
Record Status := {
  st_code : Code;
  st_message : str;
  st_details : ErrorInfo;
}.

Definition ERROR_DOMAIN : str := lit "headlines.v1".

Section rendering.
Context `{UuidLib, ChronoLib}.

(** The [#[error("...")]] formats ([Display]). *)
Definition error_display (e : HeadlinesError) : str :=
  match e with
  | AccountNotFound id => lit "account not found: " ++ uuid_display id
  | AccountDeleted id => lit "account deleted: " ++ uuid_display id
  | UserNotFound id => lit "user not found: " ++ uuid_display id
  | UserDeleted id => lit "user deleted: " ++ uuid_display id
  | ArticleNotFound id => lit "article not found: " ++ uuid_display id
  | ArticleTombstoned id => lit "article tombstoned: " ++ uuid_display id
  | DraftNotFound id => lit "draft not found: " ++ uuid_display id
  | DraftNotPublishable id reason =>
    lit "draft not publishable: " ++ uuid_display id ++ lit " (" ++ reason ++ lit ")"
  | FollowNotFound user_id account_id =>
    lit "follow not found: user_id=" ++ uuid_display user_id
    ++ lit ", account_id=" ++ uuid_display account_id
  | SelfFollowForbidden => lit "self-follow forbidden"
  | KeyNotFound key_id => lit "key not found: " ++ uuid_display key_id
  | KeyAlreadyRevoked key_id => lit "key already revoked: " ++ uuid_display key_id
  | LastActiveKey => lit "revoke would leave zero active keys"
  | InvalidPublicKey reason => lit "invalid public key: " ++ reason
  | UnsupportedAlgorithm algo => lit "unsupported algorithm: " ++ algo
  | RegistrationDisabled surface => lit "registration disabled for surface " ++ surface
  | ContentTooLarge actual max =>
    lit "content too large: " ++ dec_Z actual ++ lit " bytes (max " ++ dec_Z max ++ lit ")"
  | InvalidNodeTag tag => lit "invalid node tag: " ++ tag
  | InvalidNodeAttr tag attr => lit "invalid node attr " ++ attr ++ lit " on tag " ++ tag
  | EmptyUpdateMask => lit "update mask is empty"
  | UnallowedMaskPath path => lit "unallowed mask path: " ++ path
  | VersionNotFound article_id version =>
    lit "article version not found: article_id=" ++ uuid_display article_id
    ++ lit ", version=" ++ dec_Z version
  | VersionAlreadyRedacted article_id version =>
    lit "version already redacted: article_id=" ++ uuid_display article_id
    ++ lit ", version=" ++ dec_Z version
  | FeedTooLarge actual max =>
    lit "feed too large: " ++ dec_Z actual ++ lit " (max " ++ dec_Z max ++ lit ")"
  | DuplicateArticleId id => lit "duplicate article id in feed: " ++ uuid_display id
  | InvalidCursor reason => lit "invalid cursor: " ++ reason
  | EventTypeMismatch type_field properties_field =>
    lit "event type " ++ type_field ++ lit " does not match properties " ++ properties_field
  | EventTimestampOutOfRange occurred_at =>
    lit "event timestamp out of range: " ++ dt_display occurred_at
  | BatchTooLarge actual max =>
    lit "batch too large: " ++ dec_Z actual ++ lit " (max " ++ dec_Z max ++ lit ")"
  | UnauthorizedUserId expected got =>
    lit "unauthorized user id: expected " ++ uuid_display expected
    ++ lit ", got " ++ uuid_display got
  | IdempotencyKeyMismatch key => lit "idempotency key conflict: " ++ key
  | NotImplementedInV1 rpc => lit "rpc not implemented in v1: " ++ rpc
  | InvalidArgument field reason =>
    lit "invalid argument: field=" ++ field ++ lit ", reason=" ++ reason
  | Unauthenticated reason => lit "unauthenticated: " ++ reason
  | Internal msg => lit "internal: " ++ msg
  end.

(** [HeadlinesError::metadata] *)
Definition metadata (e : HeadlinesError) : gmap str str :=
  match e with
  | AccountNotFound id | AccountDeleted id =>
    {[ lit "account_id" := uuid_display id ]}
  | UserNotFound id | UserDeleted id => {[ lit "user_id" := uuid_display id ]}
  | ArticleNotFound id | ArticleTombstoned id | DuplicateArticleId id =>
    {[ lit "article_id" := uuid_display id ]}
  | DraftNotFound id => {[ lit "draft_id" := uuid_display id ]}
  | DraftNotPublishable id reason =>
    <[ lit "reason" := reason ]> {[ lit "draft_id" := uuid_display id ]}
  | FollowNotFound user_id account_id =>
    <[ lit "account_id" := uuid_display account_id ]>
      {[ lit "user_id" := uuid_display user_id ]}
  | KeyNotFound key_id | KeyAlreadyRevoked key_id =>
    {[ lit "key_id" := uuid_display key_id ]}
  | InvalidPublicKey reason => {[ lit "reason" := reason ]}
  | UnsupportedAlgorithm algo => {[ lit "algo" := algo ]}
  | RegistrationDisabled surface => {[ lit "surface" := surface ]}
  | ContentTooLarge actual max | FeedTooLarge actual max | BatchTooLarge actual max =>
    <[ lit "max" := dec_Z max ]> {[ lit "actual" := dec_Z actual ]}
  | InvalidNodeTag tag => {[ lit "tag" := tag ]}
  | InvalidNodeAttr tag attr => <[ lit "attr" := attr ]> {[ lit "tag" := tag ]}
  | UnallowedMaskPath path => {[ lit "path" := path ]}
  | VersionNotFound article_id version | VersionAlreadyRedacted article_id version =>
    <[ lit "version" := dec_Z version ]> {[ lit "article_id" := uuid_display article_id ]}
  | InvalidCursor reason => {[ lit "reason" := reason ]}
  | EventTypeMismatch type_field properties_field =>
    <[ lit "properties" := properties_field ]> {[ lit "type" := type_field ]}
  | EventTimestampOutOfRange occurred_at =>
    {[ lit "occurred_at" := to_rfc3339 occurred_at ]}
  | UnauthorizedUserId expected got =>
    <[ lit "got_user_id" := uuid_display got ]>
      {[ lit "expected_user_id" := uuid_display expected ]}
  | IdempotencyKeyMismatch key => {[ lit "idempotency_key" := key ]}
  | NotImplementedInV1 rpc => {[ lit "rpc" := rpc ]}
  | InvalidArgument field reason =>
    <[ lit "reason" := reason ]> {[ lit "field" := field ]}
  | Unauthenticated reason => {[ lit "reason" := reason ]}
  | SelfFollowForbidden | EmptyUpdateMask | LastActiveKey | Internal _ => ∅
  end.

(** [impl From<HeadlinesError> for tonic::Status] *)
Definition status_from (err : HeadlinesError) : Status :=
  let '(code, reason) := code_and_reason err in
  {| st_code := code;
     st_message := error_display err;
     st_details := {| ei_reason := reason; ei_domain := ERROR_DOMAIN;
                      ei_metadata := metadata err |} |}.
End rendering.

(** ** Errors of the authentication traits *)

Inductive TimeError : Type :=
  | OutsideHorizon | NonMonotonic | TimeInternal (msg : str).
Inductive VerifyError : Type :=
  | MalformedKey (msg : str) | MalformedSignature | BadSignature.
Inductive NonceError : Type :=
  | Replay | Capacity | NonceInternal (msg : str).
Inductive AuthError : Type :=
  | AuthUnauthenticated (msg : str)
  | AuthVerify (e : VerifyError)
  | AuthTime (e : TimeError)
  | AuthNonce (e : NonceError).

(** Their [Display]. *)
Definition verify_error_display (e : VerifyError) : str :=
  match e with
  | MalformedKey m => lit "malformed key: " ++ m
  | MalformedSignature => lit "malformed signature"
  | BadSignature => lit "verification failed"
  end.
Definition time_error_display (e : TimeError) : str :=
  match e with
  | OutsideHorizon => lit "timestamp out of horizon"
  | NonMonotonic => lit "timestamp not monotonic"
  | TimeInternal m => lit "internal time source error: " ++ m
  end.
Definition nonce_error_display (e : NonceError) : str :=
  match e with
  | Replay => lit "replay detected"
  | Capacity => lit "nonce store at capacity within horizon"
  | NonceInternal m => lit "internal nonce store error: " ++ m
  end.
Definition auth_error_display (e : AuthError) : str :=
  match e with
  | AuthUnauthenticated m => lit "unauthenticated: " ++ m
  | AuthVerify e => lit "verify error: " ++ verify_error_display e
  | AuthTime e => lit "time error: " ++ time_error_display e
  | AuthNonce e => lit "nonce error: " ++ nonce_error_display e
  end.

(** ** The wire contract of the error table *)

(** The variant of an error, without its payload. *)
Definition variant (e : HeadlinesError) : nat :=
  match e with
  | AccountNotFound _ => 0 | AccountDeleted _ => 1 | UserNotFound _ => 2
  | UserDeleted _ => 3 | ArticleNotFound _ => 4 | ArticleTombstoned _ => 5
  | DraftNotFound _ => 6 | DraftNotPublishable _ _ => 7 | FollowNotFound _ _ => 8
  | SelfFollowForbidden => 9 | KeyNotFound _ => 10 | KeyAlreadyRevoked _ => 11
  | LastActiveKey => 12 | InvalidPublicKey _ => 13 | UnsupportedAlgorithm _ => 14
  | RegistrationDisabled _ => 15 | ContentTooLarge _ _ => 16 | InvalidNodeTag _ => 17
  | InvalidNodeAttr _ _ => 18 | EmptyUpdateMask => 19 | UnallowedMaskPath _ => 20
  | VersionNotFound _ _ => 21 | VersionAlreadyRedacted _ _ => 22 | FeedTooLarge _ _ => 23
  | DuplicateArticleId _ => 24 | InvalidCursor _ => 25 | EventTypeMismatch _ _ => 26
  | EventTimestampOutOfRange _ => 27 | BatchTooLarge _ _ => 28
  | UnauthorizedUserId _ _ => 29 | IdempotencyKeyMismatch _ => 30
  | NotImplementedInV1 _ => 31 | InvalidArgument _ _ => 32 | Unauthenticated _ => 33
  | Internal _ => 34
  end.

(** A reason string from a variant number, used to see the table is injective. *)
Definition reason_table : list str :=
  lit <$> [ "ACCOUNT_NOT_FOUND"; "ACCOUNT_DELETED"; "USER_NOT_FOUND"; "USER_DELETED";
    "ARTICLE_NOT_FOUND"; "ARTICLE_TOMBSTONED"; "DRAFT_NOT_FOUND";
    "DRAFT_NOT_PUBLISHABLE"; "FOLLOW_NOT_FOUND"; "SELF_FOLLOW_FORBIDDEN";
    "KEY_NOT_FOUND"; "KEY_ALREADY_REVOKED"; "LAST_ACTIVE_KEY"; "INVALID_PUBLIC_KEY";
    "UNSUPPORTED_ALGORITHM"; "REGISTRATION_DISABLED"; "CONTENT_TOO_LARGE";
    "INVALID_NODE_TAG"; "INVALID_NODE_ATTR"; "EMPTY_UPDATE_MASK";
    "UNALLOWED_MASK_PATH"; "VERSION_NOT_FOUND"; "VERSION_ALREADY_REDACTED";
    "FEED_TOO_LARGE"; "DUPLICATE_ARTICLE_ID"; "INVALID_CURSOR"; "EVENT_TYPE_MISMATCH";
    "EVENT_TIMESTAMP_OUT_OF_RANGE"; "BATCH_TOO_LARGE"; "UNAUTHORIZED_USER_ID";
    "IDEMPOTENCY_KEY_MISMATCH"; "NOT_IMPLEMENTED_IN_V1"; "INVALID_ARGUMENT";
    "UNAUTHENTICATED"; "INTERNAL" ]%string.

Lemma reason_table_lookup e : reason_table !! variant e = Some (reason e).
Proof. by destruct e. Qed.

Lemma reason_table_NoDup : NoDup reason_table.
Proof. apply (bool_decide_unpack _). by vm_compute. Qed.

Lemma reason_inj e1 e2 : reason e1 = reason e2 → variant e1 = variant e2.
Proof.
  intros H. eapply NoDup_lookup; [apply reason_table_NoDup|apply reason_table_lookup|].
  rewrite H. apply reason_table_lookup.
Qed.

Lemma singleton_values_inj (k v v' : str) :
  ({[ k := v ]} : gmap str str) = {[ k := v' ]} → v = v'.
Proof.
  intros Hm. apply (f_equal (.!! k)) in Hm. rewrite !lookup_singleton_eq in Hm. congruence.
Qed.

Lemma pair_values_inj (a b x x' y y' : str) :
  a ≠ b → (<[ a := x ]> {[ b := y ]} : gmap str str) = <[ a := x' ]> {[ b := y' ]} →
  x = x' ∧ y = y'.
Proof.
  intros Hab Hm. pose proof (f_equal (.!! a) Hm) as Ha.
  pose proof (f_equal (.!! b) Hm) as Hb. simpl in Ha, Hb.
  rewrite !lookup_insert_eq in Ha. rewrite !lookup_insert_ne, !lookup_singleton_eq in Hb by done.
  split; congruence.
Qed.

(** The status on the wire loses nothing: reason, metadata and message
    together determine the error, payload included, so two errors with equal
    statuses are equal.  In particular no two variants share a reason string. *)
Theorem status_identifies_error `{UuidLaws, ChronoLaws} e1 e2 :
  status_from e1 = status_from e2 → e1 = e2.
Proof.
  intros Hs. unfold status_from in Hs.
  destruct (code_and_reason e1) as [c1 r1] eqn:E1, (code_and_reason e2) as [c2 r2] eqn:E2.
  injection Hs as -> Hmsg -> Hmeta.
  assert (Hv : variant e1 = variant e2).
  { apply reason_inj. unfold reason. by rewrite E1, E2. }
  clear E1 E2.
  destruct e1; destruct e2; try discriminate Hv; clear Hv; try done;
    cbn [metadata] in Hmeta;
    first
      [ apply pair_values_inj in Hmeta as [??]; [|by vm_compute]; by simplify_eq
      | apply singleton_values_inj in Hmeta; by simplify_eq
      | idtac ].
  apply app_inv_head in Hmsg. by subst.
Qed.

Lemma status_identifies_error_witness :
  AccountNotFound 5 = AccountNotFound 5 ∧
  @status_from toy_uuid toy_chrono (AccountNotFound 5) ≠
    @status_from toy_uuid toy_chrono (AccountNotFound 6).
Proof.
  split; [by apply (@status_identifies_error _ toy_uuid_laws _ toy_chrono_laws)|].
  intros H. apply (@status_identifies_error _ toy_uuid_laws _ toy_chrono_laws) in H.
  discriminate H.
Defined.
