(* ===== verification/TimeSource.v ===== *)
(** * The hybrid timestamp oracle ([headlines-auth/src/time/tso.rs],
    [headlines-auth/src/time/local_clock.rs])

    [InProcessTso] hands out timestamps with a compare-and-swap loop on one
    atomic word, validates timestamps seen on the wire, periodically flushes the
    physical part of the word to a store, and at boot waits for the wall clock
    to pass the stored value plus the flush interval.

    The concurrent callers of [issue] are a step relation on the shared word and
    one program counter per caller; the process lifetime (issue, flush, crash,
    boot) is a second step relation, with an arbitrary wall clock. *)

From S2P Require Import Prelude Tso Errors.

(** [InProcessTsoConfig] and its [Default]. *)
Record InProcessTsoConfig := { cfg_horizon_ms : Z; flush_interval_ms : Z }.
Definition default_config : InProcessTsoConfig :=
  {| cfg_horizon_ms := 30000; flush_interval_ms := 100 |}.

(** ** One iteration of [issue] *)

Definition exhausted : TimeError :=
  TimeInternal (lit "logical counter exhausted within the same physical_ms").

(** The value [issue] wants to install over [prev], from the wall reading. *)
Definition next_tso (wall_now_ms prev : Z) : result TimeError Tso :=
  let prev_tso := from_raw prev in
  let prev_ms := physical_ms prev_tso in
  let prev_logical := logical prev_tso in
  if prev_ms <? wall_now_ms then Ok (from_parts wall_now_ms 0)
  else if prev_logical =? Z.shiftl 1 18 - 1 then Err exhausted
  else Ok (from_parts prev_ms (prev_logical + 1)).

(** [issue] when no other thread intervenes: the exchange succeeds at once.
    Returns the result and the new value of [last]. *)
Definition issue (wall_now_ms last : Z) : result TimeError Tso * Z :=
  match next_tso wall_now_ms last with
  | Ok t => (Ok t, as_u64 t)
  | Err e => (Err e, last)
  end.

(** [validate_sync] *)
Definition validate_sync (wall_ms last horizon_ms : Z) (ts : Tso) : result TimeError () :=
  let stored_ms := physical_ms (from_raw last) in
  let now_ms := Z.max wall_ms stored_ms in
  let ts_ms := physical_ms ts in
  if now_ms <? ts_ms then Err NonMonotonic
  else if horizon_ms <? sat_sub now_ms ts_ms then Err OutsideHorizon
  else Ok ().

(** [LocalClock]: [now_ms] clamps the wall reading at 0. *)
Definition local_now_ms (timestamp_millis : Z) : Z := Z.max timestamp_millis 0.
Definition local_now (timestamp_millis : Z) : result TimeError Tso :=
  Ok (from_parts (local_now_ms timestamp_millis) 0).
Definition local_validate (timestamp_millis horizon : Z) (ts : Tso) : result TimeError () :=
  let now_ms := local_now_ms timestamp_millis in
  let ts_ms := physical_ms ts in
  if sat_add now_ms horizon <? ts_ms then Err NonMonotonic
  else if horizon <? sat_sub now_ms ts_ms then Err OutsideHorizon
  else Ok ().

(** ** Boot: [new_with_clock]

    The clock is read several times; [clock i] is the [i]-th reading.  The wait
    loop returns the number of the reading that let it leave. *)
Fixpoint wait_past (fuel : nat) (clock : nat → Z) (i : nat) (crash_floor : Z) : option nat :=
  match fuel with
  | O => None
  | S fuel =>
    let now := clock i in
    if crash_floor <? now then Some i
    else wait_past fuel clock (S i) crash_floor
  end.

(** The initial value of [last], from what the store held; [None] when [fuel]
    readings were not enough. *)
Definition new_with_clock (fuel : nat) (clock : nat → Z) (stored : Z)
    (config : InProcessTsoConfig) : option Z :=
  let crash_floor := sat_add stored (flush_interval_ms config) in
  let seed_from i :=
    let seed_ms := Z.max crash_floor (clock i) in
    as_u64 (from_parts seed_ms 0) in
  if 0 <? crash_floor then
    i ← wait_past fuel clock 0%nat crash_floor; Some (seed_from (S i))
  else Some (seed_from 0%nat).

(** ** Concurrent callers of [issue] *)

Inductive IssuePc : Type :=
  | AtStart                               (* before reading the clock *)
  | AtLoop (wall : Z)                     (* at the head of the loop *)
  | AtCas (wall prev : Z) (next : Tso)    (* before [compare_exchange] *)
  | Returned (r : result TimeError Tso).

(** The shared word, the callers, and (history) the values installed so far,
    oldest first. *)
Record IssueState := {
  is_last : Z;
  is_pcs : gmap nat IssuePc;
  is_issued : list Tso;
}.

Definition set_pc (i : nat) (pc : IssuePc) (s : IssueState) : IssueState :=
  {| is_last := is_last s; is_pcs := <[i := pc]> (is_pcs s); is_issued := is_issued s |}.

Inductive issue_step : IssueState → IssueState → Prop :=
  | step_call s i :
      is_pcs s !! i = None → issue_step s (set_pc i AtStart s)
  | step_read_clock s i wall :
      is_pcs s !! i = Some AtStart → 0 <= wall < PHYSICAL_BOUND →
      issue_step s (set_pc i (AtLoop wall) s)
  | step_load s i wall next :
      is_pcs s !! i = Some (AtLoop wall) → next_tso wall (is_last s) = Ok next →
      issue_step s (set_pc i (AtCas wall (is_last s) next) s)
  | step_exhausted s i wall e :
      is_pcs s !! i = Some (AtLoop wall) → next_tso wall (is_last s) = Err e →
      issue_step s (set_pc i (Returned (Err e)) s)
  | step_cas_won s i wall next :
      is_pcs s !! i = Some (AtCas wall (is_last s) next) →
      issue_step s
        {| is_last := as_u64 next;
           is_pcs := <[i := Returned (Ok next)]> (is_pcs s);
           is_issued := is_issued s ++ [next] |}
  | step_cas_lost s i wall prev next :
      is_pcs s !! i = Some (AtCas wall prev next) → prev ≠ is_last s →
      issue_step s (set_pc i (AtLoop wall) s).

Definition issue_init (last : Z) : IssueState :=
  {| is_last := last; is_pcs := ∅; is_issued := [] |}.

(** ** The lifetime of the oracle across crashes

    [life_stored] is the [tso_high_water] value, [life_last] the atomic word of
    the running process ([None] while it is down), [life_flush] the value the
    flush task has read and not yet written, [life_clock] the latest wall
    reading, [life_issued] (history) every timestamp any incarnation returned. *)
Record Life := {
  life_stored : Z;
  life_last : option Z;
  life_flush : option Z;
  life_clock : Z;
  life_issued : list Tso;
}.

(** The environment: [clock_moves c c'] is how the wall clock may move, and
    [safe s c] when a boot whose first clock reading is [c] is considered. *)
Inductive life_step (clock_moves : Z → Z → Prop) (safe : Life → Z → Prop)
    (config : InProcessTsoConfig) : Life → Life → Prop :=
  | life_set_clock s c :
      0 <= c < PHYSICAL_BOUND → clock_moves (life_clock s) c →
      life_step clock_moves safe config s
        {| life_stored := life_stored s; life_last := life_last s;
           life_flush := life_flush s; life_clock := c; life_issued := life_issued s |}
  | life_issue s last t last' :
      life_last s = Some last → issue (life_clock s) last = (Ok t, last') →
      life_step clock_moves safe config s
        {| life_stored := life_stored s; life_last := Some last';
           life_flush := life_flush s; life_clock := life_clock s;
           life_issued := life_issued s ++ [t] |}
  | life_flush_read s last :
      life_last s = Some last →
      life_step clock_moves safe config s
        {| life_stored := life_stored s; life_last := Some last;
           life_flush := Some (physical_ms (from_raw last));
           life_clock := life_clock s; life_issued := life_issued s |}
  | life_flush_write s cur :
      life_flush s = Some cur →
      life_step clock_moves safe config s
        {| life_stored := cur; life_last := life_last s; life_flush := None;
           life_clock := life_clock s; life_issued := life_issued s |}
  | life_flush_failed s cur :
      life_flush s = Some cur →
      life_step clock_moves safe config s
        {| life_stored := life_stored s; life_last := life_last s; life_flush := None;
           life_clock := life_clock s; life_issued := life_issued s |}
  | life_crash s last :
      life_last s = Some last →
      life_step clock_moves safe config s
        {| life_stored := life_stored s; life_last := None; life_flush := None;
           life_clock := life_clock s; life_issued := life_issued s |}
  | life_boot s fuel clock last c :
      life_last s = None → safe s (clock 0%nat) →
      (∀ i j, (i <= j)%nat → clock i <= clock j) → (∀ i, 0 <= clock i <= c) →
      c < PHYSICAL_BOUND → clock_moves (life_clock s) c →
      new_with_clock fuel clock (life_stored s) config = Some last →
      life_step clock_moves safe config s
        {| life_stored := life_stored s; life_last := Some last; life_flush := None;
           life_clock := c; life_issued := life_issued s |}.

Definition life_init (stored : Z) : Life :=
  {| life_stored := stored; life_last := None; life_flush := None;
     life_clock := 0; life_issued := [] |}.

(** What the padding relies on: every timestamp issued so far lies in the padded
    window of the stored value, or strictly before the wall clock. *)
Definition boot_safe (config : InProcessTsoConfig) (s : Life) (c : Z) : Prop :=
  ∀ t, t ∈ life_issued s →
    physical_ms t <= life_stored s + flush_interval_ms config ∨ physical_ms t < c.

(** A wall clock that never goes back, and restarts that take a millisecond. *)
Definition forward (c c' : Z) : Prop := c <= c'.
Definition downtime (s : Life) (c : Z) : Prop := life_clock s < c.

Definition increasing (l : list Tso) : Prop := StronglySorted tso_lt l.

(** ** One iteration *)

Lemma next_tso_greater wall prev t :
  0 <= wall < PHYSICAL_BOUND → is_u64 prev → next_tso wall prev = Ok t →
  prev < tso_raw t ∧ tso_wf t ∧ physical_ms t = Z.max wall (physical_ms (from_raw prev)).
Proof.
  intros Hw Hp. unfold next_tso.
  pose proof (physical_bounds (from_raw prev) Hp).
  pose proof (logical_bounds (from_raw prev)).
  pose proof (tso_parts_eq (from_raw prev)) as Hraw. cbn [from_raw tso_raw] in Hraw.
  destruct (Z.ltb_spec (physical_ms (from_raw prev)) wall).
  - intros [= <-]. split_and!; [|apply from_parts_wf|].
    + rewrite from_parts_raw, !Z.mod_small by done. unfold LOGICAL_BOUND in *. lia.
    + rewrite physical_from_parts, Z.mod_small by done. lia.
  - destruct (Z.eqb_spec (logical (from_raw prev)) (Z.shiftl 1 18 - 1)) as [|Hl]; [done|].
    change (Z.shiftl 1 18 - 1) with 262143 in Hl.
    intros [= <-]. split_and!; [|apply from_parts_wf|].
    + rewrite from_parts_raw, !Z.mod_small by (unfold LOGICAL_BOUND in *; lia). lia.
    + rewrite physical_from_parts, Z.mod_small by done. lia.
Qed.

Lemma next_tso_error wall prev e :
  next_tso wall prev = Err e →
  e = exhausted ∧ wall <= physical_ms (from_raw prev) ∧
  logical (from_raw prev) = LOGICAL_BOUND - 1.
Proof.
  unfold next_tso. destruct (Z.ltb_spec (physical_ms (from_raw prev)) wall); [done|].
  destruct (Z.eqb_spec (logical (from_raw prev)) (Z.shiftl 1 18 - 1)) as [Hl|]; [|done].
  intros [= <-]. split_and!; [done|done|]. by rewrite Hl.
Qed.

Lemma increasing_snoc l t :
  increasing l → (∀ u, u ∈ l → tso_lt u t) → increasing (l ++ [t]).
Proof.
  unfold increasing. induction 1 as [|x l Hl IH Hx]; intros Ht; simpl.
  - repeat constructor.
  - constructor; [apply IH; set_solver|].
    apply Forall_app. split; [done|]. constructor; [|constructor]. apply Ht. set_solver.
Qed.

(** ** Concurrent callers: the invariant *)

Record issue_inv (base : Z) (s : IssueState) : Prop := {
  inv_last : is_u64 (is_last s) ∧ base <= is_last s;
  inv_sorted : increasing (is_issued s);
  inv_issued : ∀ t, t ∈ is_issued s → base < tso_raw t <= is_last s ∧ tso_wf t;
  inv_loop : ∀ i w, is_pcs s !! i = Some (AtLoop w) → 0 <= w < PHYSICAL_BOUND;
  inv_cas : ∀ i w prev next, is_pcs s !! i = Some (AtCas w prev next) →
    0 <= w < PHYSICAL_BOUND ∧ next_tso w prev = Ok next;
  inv_returned : ∀ i t, is_pcs s !! i = Some (Returned (Ok t)) → t ∈ is_issued s;
  inv_distinct : ∀ i j t, is_pcs s !! i = Some (Returned (Ok t)) →
    is_pcs s !! j = Some (Returned (Ok t)) → i = j;
  inv_error : ∀ i e, is_pcs s !! i = Some (Returned (Err e)) → e = exhausted;
}.

(** Moving one caller to a counter that satisfies its own clause keeps the
    invariant, when nothing is installed. *)
Lemma issue_inv_set_pc base s i pc :
  issue_inv base s →
  (∀ w, pc = AtLoop w → 0 <= w < PHYSICAL_BOUND) →
  (∀ w prev next, pc = AtCas w prev next →
     0 <= w < PHYSICAL_BOUND ∧ next_tso w prev = Ok next) →
  (∀ r, pc = Returned r → r = Err exhausted) →
  issue_inv base (set_pc i pc s).
Proof.
  intros [] Hl Hc Hr. split; simpl; try done.
  - intros j w [[-> Heq]|[??]]%lookup_insert_Some; eauto.
  - intros j w p n [[-> Heq]|[??]]%lookup_insert_Some; eauto.
  - intros j t [[-> Heq]|[??]]%lookup_insert_Some; [|by eauto].
    by apply Hr in Heq.
  - intros j k t [[-> Heq]|[??]]%lookup_insert_Some; [by apply Hr in Heq|].
    intros [[-> Heq]|[??]]%lookup_insert_Some; [by apply Hr in Heq|by eauto].
  - intros j e [[-> Heq]|[??]]%lookup_insert_Some; [|by eauto].
    apply Hr in Heq. congruence.
Qed.

Lemma issue_inv_step base s s' : issue_inv base s → issue_step s s' → issue_inv base s'.
Proof.
  intros Hinv Hstep. pose proof Hinv as [[Hu Hb] Hs Hi Hl Hc Hr Hd He].
  destruct Hstep as [s i Hpc|s i w Hpc Hw|s i w n Hpc Hn|s i w e Hpc Hn|s i w n Hpc|s i w p n Hpc Hne];
    try (apply issue_inv_set_pc; [done|intros; simplify_eq; eauto..]; fail).
  - apply issue_inv_set_pc; [done|intros; simplify_eq; eauto..|].
    intros r [= <-]. f_equal. by apply next_tso_error in Hn as [-> _].
  - destruct (Hc _ _ _ _ Hpc) as [Hw Hn].
    destruct (next_tso_greater _ _ _ Hw Hu Hn) as (Hgt & Hwf & _).
    assert (Hnew : n ∉ is_issued s) by (intros Hin; apply Hi in Hin; lia).
    split; simpl; unfold as_u64.
    + split; [done|lia].
    + apply increasing_snoc; [done|]. intros t Ht%Hi. unfold tso_lt. lia.
    + intros t [Ht%Hi|Ht%list_elem_of_singleton]%elem_of_app; [split; [lia|tauto]|].
      subst. split; [lia|done].
    + intros j w' [[-> ?]|[??]]%lookup_insert_Some; [done|by eauto].
    + intros j w' p n' [[-> ?]|[??]]%lookup_insert_Some; [done|by eauto].
    + intros j t [[-> [= ->]]|[??]]%lookup_insert_Some; set_solver.
    + intros j k t [[-> Heq]|[? Hj]]%lookup_insert_Some
        [[-> Heq']|[? Hk]]%lookup_insert_Some; simplify_eq; try done; [| |by eauto].
      * apply Hr in Hk. done.
      * apply Hr in Hj. done.
    + intros j e [[-> ?]|[??]]%lookup_insert_Some; [done|by eauto].
  - apply issue_inv_set_pc; [done| |done..].
    intros w' [= <-]. by destruct (Hc _ _ _ _ Hpc).
Qed.

Lemma issue_inv_init base : is_u64 base → issue_inv base (issue_init base).
Proof.
  intros Hb. split; simpl; try (intros *; rewrite lookup_empty; done).
  - split; [done|lia].
  - constructor.
  - set_solver.
Qed.

Lemma issue_inv_reachable base s :
  is_u64 base → rtc issue_step (issue_init base) s → issue_inv base s.
Proof.
  intros Hb Hr. apply issue_inv_init in Hb.
  induction Hr as [|s s' s'' Hstep _ IH]; [done|].
  apply IH. by eapply issue_inv_step.
Qed.

(** One caller's next move, for a given wall reading; a scheduler for
    [issue_step]. *)
Definition issue_move (i : nat) (wall : Z) (pc : option IssuePc) (s : IssueState) :
    IssueState :=
  match pc with
  | None => set_pc i AtStart s
  | Some AtStart =>
    if (0 <=? wall) && (wall <? PHYSICAL_BOUND) then set_pc i (AtLoop wall) s else s
  | Some (AtLoop w) =>
    match next_tso w (is_last s) with
    | Ok next => set_pc i (AtCas w (is_last s) next) s
    | Err e => set_pc i (Returned (Err e)) s
    end
  | Some (AtCas w prev next) =>
    if prev =? is_last s then
      {| is_last := as_u64 next; is_pcs := <[i := Returned (Ok next)]> (is_pcs s);
         is_issued := is_issued s ++ [next] |}
    else set_pc i (AtLoop w) s
  | Some (Returned _) => s
  end.

Definition issue_exec (i : nat) (wall : Z) (s : IssueState) : IssueState :=
  issue_move i wall (is_pcs s !! i) s.

Lemma issue_exec_at i wall s pc :
  is_pcs s !! i = pc → issue_exec i wall s = issue_move i wall pc s.
Proof. by intros <-. Qed.

Lemma issue_exec_sound i wall s : rtc issue_step s (issue_exec i wall s).
Proof.
  unfold issue_exec, issue_move. destruct (is_pcs s !! i) as [pc|] eqn:Hpc.
  2:{ apply rtc_once. by constructor. }
  destruct pc as [|w|w prev next|r]; [| | |done].
  - destruct (_ && _) eqn:Hw; [|done]. apply andb_true_iff in Hw as [?%Z.leb_le ?%Z.ltb_lt].
    apply rtc_once. by econstructor.
  - destruct (next_tso w (is_last s)) eqn:Hn; apply rtc_once; by econstructor.
  - destruct (Z.eqb_spec prev (is_last s)) as [->|]; apply rtc_once; by econstructor.
Qed.

Definition issue_run (schedule : list (nat * Z)) (s : IssueState) : IssueState :=
  foldl (λ s '(i, wall), issue_exec i wall s) s schedule.

Lemma issue_run_sound schedule s : rtc issue_step s (issue_run schedule s).
Proof.
  revert s; induction schedule as [|[i w] l IH]; intros s; simpl; [done|].
  etrans; [apply issue_exec_sound|apply IH].
Qed.

(** C12. Whatever the interleaving of any number of concurrent [issue]
    calls and whatever the wall clock does (as long as it fits the 46-bit
    field), the timestamps handed out are strictly increasing in the order of
    the winning exchanges and above the starting value; no two callers get the
    same one; and the only error is the exhausted logical counter. *)
Theorem issue_strictly_increasing base s :
  is_u64 base → rtc issue_step (issue_init base) s →
  increasing (is_issued s) ∧
  (∀ t, t ∈ is_issued s → base < tso_raw t ∧ tso_wf t) ∧
  (∀ i t, is_pcs s !! i = Some (Returned (Ok t)) → t ∈ is_issued s) ∧
  (∀ i j t, is_pcs s !! i = Some (Returned (Ok t)) →
     is_pcs s !! j = Some (Returned (Ok t)) → i = j) ∧
  (∀ i e, is_pcs s !! i = Some (Returned (Err e)) → e = exhausted).
Proof.
  intros Hb Hr. destruct (issue_inv_reachable base s Hb Hr) as [? Hs Hi ? ? ? ? ?].
  split_and!; try done. intros t Ht. apply Hi in Ht. split; [lia|tauto].
Qed.

(** Two callers race on the same word; the second loses, reloads and wins. *)
Definition race : list (nat * Z) :=
  (λ i, (i, 5)) <$> [0; 1; 0; 1; 0; 1; 0; 1; 1; 1]%nat.

Lemma issue_strictly_increasing_witness :
  increasing (is_issued (issue_run race (issue_init 0))) ∧
  is_pcs (issue_run race (issue_init 0)) !! 0%nat = Some (Returned (Ok (from_parts 5 0))) ∧
  is_pcs (issue_run race (issue_init 0)) !! 1%nat = Some (Returned (Ok (from_parts 5 1))).
Proof.
  split; [|by vm_compute].
  apply (issue_strictly_increasing 0); [by vm_compute|apply issue_run_sound].
Defined.

(** A caller that runs without interference returns within four moves,
    from any state of the other callers: it returns exactly what the sequential
    [issue] computes, and leaves the word [issue] leaves. *)
Theorem issue_solo_returns i wall s :
  is_pcs s !! i = None → 0 <= wall < PHYSICAL_BOUND →
  let s' := issue_run (replicate 4 (i, wall)) s in
  is_pcs s' !! i = Some (Returned (issue wall (is_last s)).1) ∧
  is_last s' = (issue wall (is_last s)).2.
Proof.
  intros Hpc [Hw1 Hw2]. unfold issue. cbn [replicate issue_run foldl].
  rewrite (issue_exec_at _ _ s _ Hpc). cbn [issue_move].
  erewrite (issue_exec_at _ _ (set_pc i AtStart s)) by (apply lookup_insert_eq).
  cbn. apply Z.leb_le in Hw1 as ->. apply Z.ltb_lt in Hw2 as ->. cbn [andb].
  erewrite (issue_exec_at _ _ (set_pc i (AtLoop wall) _)) by (apply lookup_insert_eq). cbn.
  destruct (next_tso wall (is_last s)) as [t|e];
    erewrite issue_exec_at by (apply lookup_insert_eq); cbn;
    [rewrite Z.eqb_refl; cbn|]; by rewrite lookup_insert_eq.
Qed.

Lemma issue_solo_returns_witness :
  is_pcs (issue_run (replicate 4 (0%nat, 7)) (issue_init 0)) !! 0%nat =
    Some (Returned (Ok (from_parts 7 0))).
Proof.
  refine (proj1 (issue_solo_returns 0%nat 7 (issue_init 0) _ _));
    [by vm_compute|unfold PHYSICAL_BOUND; lia].
Defined.

(** ** Boot *)

Lemma wait_past_some fuel clock i floor j :
  wait_past fuel clock i floor = Some j →
  (i <= j < i + fuel)%nat ∧ floor < clock j ∧ ∀ k, (i <= k < j)%nat → clock k <= floor.
Proof.
  revert i; induction fuel as [|fuel IH]; intros i; simpl; [done|].
  destruct (Z.ltb_spec floor (clock i)).
  - intros [= ->]. split_and!; [lia..|]. lia.
  - intros (? & ? & Hk)%IH. split_and!; [lia|lia|done|]. intros k Hik.
    destruct (decide (k = i)) as [->|]; [lia|]. apply Hk. lia.
Qed.

Lemma wait_past_enough fuel clock i floor j :
  (i <= j < i + fuel)%nat → floor < clock j → is_Some (wait_past fuel clock i floor).
Proof.
  revert i; induction fuel as [|fuel IH]; intros i Hij Hj; simpl; [lia|].
  destruct (Z.ltb_spec floor (clock i)); [by eexists|].
  apply IH; [|done]. destruct (decide (i = j)) as [->|]; lia.
Qed.

(** Boot terminates as soon as some reading of the wall clock passes the
    stored value plus the flush interval (within that many readings), and not
    before; the seed it leaves in [last] has a zero logical part, and its
    physical part is the larger of the padded stored value and the clock reading
    taken after the wait. *)
Theorem new_with_clock_boots clock stored config j :
  let floor := sat_add stored (flush_interval_ms config) in
  0 < floor → floor < clock j →
  ∃ i, (i <= j)%nat ∧ floor < clock i ∧ (∀ k, (k < i)%nat → clock k <= floor) ∧
    (∀ fuel, (fuel <= i)%nat → new_with_clock fuel clock stored config = None) ∧
    ∀ fuel, (i < fuel)%nat →
      new_with_clock fuel clock stored config =
        Some (as_u64 (from_parts (Z.max floor (clock (S i))) 0)).
Proof.
  intros floor Hpos Hj.
  destruct (wait_past_enough (S j) clock 0 floor j ltac:(lia) Hj) as [i Hi].
  apply wait_past_some in Hi as (Hij & Hi & Hk).
  exists i. split_and!; [lia|done|intros; apply Hk; lia| |];
    intros fuel Hf; unfold new_with_clock; fold floor;
    (destruct (Z.ltb_spec 0 floor) as [_|]; [|lia]).
  - destruct (wait_past fuel clock 0 floor) as [k|] eqn:Hw; [|done].
    apply wait_past_some in Hw as (? & ? & _). specialize (Hk k). lia.
  - destruct (wait_past_enough fuel clock 0 floor i ltac:(lia) Hi) as [k Hw].
    rewrite Hw. apply wait_past_some in Hw as (? & ? & Hk').
    assert (k = i) as ->; [|done].
    destruct (Nat.lt_trichotomy k i) as [?|[?|?]]; [|done|];
      [specialize (Hk k)|specialize (Hk' i)]; lia.
Qed.

Lemma new_with_clock_boots_witness :
  new_with_clock 3 (λ i, 1099 + Z.of_nat i) 1000 default_config =
    Some (as_u64 (from_parts 1102 0)).
Proof.
  destruct (new_with_clock_boots (λ i, 1099 + Z.of_nat i) 1000 default_config 2)
    as (i & Hi & Hgt & _ & _ & Hrun); [by vm_compute|by vm_compute|].
  assert (i = 2%nat) as ->.
  { unfold sat_add, default_config, u64_max in Hgt. cbn in Hgt. lia. }
  apply (Hrun 3%nat). lia.
Defined.

(** ** The lifetime across crashes *)

Record life_inv (s : Life) : Prop := {
  li_last : ∀ last, life_last s = Some last →
    is_u64 last ∧ ∀ t, t ∈ life_issued s → tso_raw t <= last;
  li_sorted : increasing (life_issued s);
  li_wf : ∀ t, t ∈ life_issued s → tso_wf t;
  li_clock : 0 <= life_clock s < PHYSICAL_BOUND;
  li_stored : 0 <= life_stored s;
  li_flush : ∀ cur, life_flush s = Some cur → 0 <= cur;
}.

(** The seed of a completed boot is past the floor and past every reading up to
    the last one. *)
Lemma new_with_clock_seed fuel clock stored config c last :
  (∀ i j, (i <= j)%nat → clock i <= clock j) → (∀ i, 0 <= clock i <= c) →
  c < PHYSICAL_BOUND →
  new_with_clock fuel clock stored config = Some last →
  is_u64 last ∧
  ∃ seed, last = seed * LOGICAL_BOUND ∧ clock 0%nat <= seed <= c ∧
    (0 < sat_add stored (flush_interval_ms config) →
     sat_add stored (flush_interval_ms config) < seed).
Proof.
  intros Hmono Hc Hcb. unfold new_with_clock.
  set (floor := sat_add _ _).
  assert (Hseed : ∀ p, 0 <= p < PHYSICAL_BOUND →
    as_u64 (from_parts p 0) = p * LOGICAL_BOUND).
  { intros p Hp. unfold as_u64. rewrite from_parts_raw, Z.mod_small by done.
    rewrite Z.mod_0_l by done. lia. }
  destruct (Z.ltb_spec 0 floor) as [Hf|Hf].
  - destruct (wait_past fuel clock 0 floor) as [i|] eqn:Hw; [|done].
    intros <-%(inj Some). apply wait_past_some in Hw as (_ & Hi & _).
    pose proof (Hmono i (S i) ltac:(lia)). pose proof (Hmono 0%nat (S i) ltac:(lia)).
    pose proof (Hc (S i)).
    split; [apply from_parts_wf|]. exists (clock (S i)).
    rewrite Z.max_r by lia. rewrite Hseed by lia. split_and!; [done|lia..].
  - intros <-%(inj Some). split; [apply from_parts_wf|]. exists (clock 0%nat).
    pose proof (Hc 0%nat). rewrite Z.max_r by lia. rewrite Hseed by lia.
    split_and!; [done|lia..].
Qed.

(** A timestamp whose physical part is below a whole millisecond is below the
    first timestamp of that millisecond. *)
Lemma physical_below t p : physical_ms t < p → tso_raw t < p * LOGICAL_BOUND.
Proof.
  pose proof (tso_parts_eq t). pose proof (logical_bounds t).
  unfold LOGICAL_BOUND in *. lia.
Qed.

Lemma life_inv_step moves safe config s s' :
  (∀ s c, life_inv s → safe s c → boot_safe config s c) →
  0 < flush_interval_ms config →
  life_inv s → life_step moves safe config s s' → life_inv s'.
Proof.
  intros Hsafe Hflush Hinv Hstep. pose proof Hinv as [Hlast Hsort Hwf Hclk Hst Hfp].
  destruct Hstep as [s c Hc _|s last t last' Hl Ht|s last Hl|s cur Hcur|s cur Hcur
                    |s last Hl|s fuel clock last c Hl Hb Hm Hr Hcb _ Hn];
    try (split; simpl; done || eauto; fail).
  - destruct (Hlast _ Hl) as [Hu Hle]. unfold issue in Ht.
    destruct (next_tso _ last) as [t'|] eqn:Hnext; [|done]. simplify_eq.
    destruct (next_tso_greater _ _ _ Hclk Hu Hnext) as (Hgt & Hwft & _).
    split; simpl; try done.
    + intros ? [= <-]. split; [done|]. unfold as_u64.
      intros u [Hu'%Hle|Hu'%list_elem_of_singleton]%elem_of_app; [lia|by subst].
    + apply increasing_snoc; [done|]. intros u Hu'%Hle. unfold tso_lt. lia.
    + intros u [?%Hwf|Hu'%list_elem_of_singleton]%elem_of_app; [done|by subst].
  - split; simpl; [intros ? [= <-]; by apply Hlast|done..|]. intros ? [= <-].
    apply physical_bounds. by apply (Hlast _ Hl).
  - destruct (new_with_clock_seed _ _ _ _ _ _ Hm Hr Hcb Hn)
      as (Hu & seed & -> & Hseed & Hfl).
    split; simpl; try done.
    + intros ? [= <-]. split; [done|]. intros t Ht.
      apply Z.lt_le_incl, physical_below.
      destruct (Hsafe s _ Hinv Hb t Ht) as [Hp|Hp]; [|lia].
      pose proof (physical_bounds t (Hwf t Ht)).
      revert Hfl. unfold sat_add, u64_max, PHYSICAL_BOUND in *. lia.
    + pose proof (Hr 0%nat). lia.
Qed.

Lemma life_inv_init stored : 0 <= stored → life_inv (life_init stored).
Proof. intros. split; simpl; [done|constructor|set_solver|done|done|done]. Qed.

Lemma life_inv_reachable moves safe config stored s :
  (∀ s c, life_inv s → safe s c → boot_safe config s c) →
  0 < flush_interval_ms config → 0 <= stored →
  rtc (life_step moves safe config) (life_init stored) s → life_inv s.
Proof.
  intros Hsafe Hflush Hst Hr. apply life_inv_init in Hst.
  induction Hr as [|s s' s'' Hstep _ IH]; [done|].
  apply IH. by eapply life_inv_step.
Qed.

(** With a clock that only moves forward, nothing issued is ahead of it. *)
Lemma forward_behind config s s' :
  (∀ last, life_last s = Some last → physical_ms (from_raw last) <= life_clock s) ∧
  (∀ t, t ∈ life_issued s → physical_ms t <= life_clock s) →
  life_inv s → life_step forward downtime config s s' →
  (∀ last, life_last s' = Some last → physical_ms (from_raw last) <= life_clock s') ∧
  (∀ t, t ∈ life_issued s' → physical_ms t <= life_clock s').
Proof.
  intros [Hl Hi] [Hlast Hsort Hwf Hclk Hst Hfp] Hstep. unfold forward in *.
  destruct Hstep as [s c Hc Hf|s last t last' Hls Ht|s last Hls|s cur Hcur|s cur Hcur
                    |s last Hls|s fuel clock last c Hls Hb Hm Hr Hcb Hf Hn];
    simpl; try done.
  - split; [intros last Hs; specialize (Hl _ Hs)|intros t Ht; specialize (Hi _ Ht)]; lia.
  - destruct (Hlast _ Hls) as [Hu Hle]. unfold issue in Ht.
    destruct (next_tso _ last) as [t'|] eqn:Hnext; [|done]. simplify_eq.
    destruct (next_tso_greater _ _ _ Hclk Hu Hnext) as (_ & _ & Hp).
    specialize (Hl _ Hls).
    assert (physical_ms t <= life_clock s) as Ht by (rewrite Hp; lia).
    split; [intros ? [= <-]; by destruct t|].
    intros u [?%Hi|Hu'%list_elem_of_singleton]%elem_of_app; [done|by subst].
  - by split; [intros ? [= <-]; apply Hl|].
  - destruct (new_with_clock_seed _ _ _ _ _ _ Hm Hr Hcb Hn) as (_ & seed & -> & Hseed & _).
    split.
    + intros ? [= <-]. rewrite physical_ms_div. cbn [from_raw tso_raw].
      rewrite Z.div_mul by done. lia.
    + intros t Ht. specialize (Hi _ Ht). lia.
Qed.

(** C13. Across any number of crashes and restarts, with an arbitrary wall
    clock, interleaved with the flush task's reads, writes and failed writes, the
    timestamps issued by all incarnations together are strictly increasing,
    provided each restart finds every earlier timestamp inside the padded flush
    window or before the wall clock. *)
Theorem oracle_increasing_across_crashes config stored s :
  0 < flush_interval_ms config → 0 <= stored →
  rtc (life_step (λ _ _, True) (boot_safe config) config) (life_init stored) s →
  increasing (life_issued s).
Proof.
  intros Hf Hst Hr. by apply (life_inv_reachable _ _ _ _ _ (λ _ _ _ H, H) Hf Hst) in Hr as [].
Qed.

Lemma forward_safe config s :
  0 < flush_interval_ms config → 
  (∀ t, t ∈ life_issued s → physical_ms t <= life_clock s) →
  ∀ c, downtime s c → boot_safe config s c.
Proof. unfold downtime. intros Hf Hi c Hd t Ht. specialize (Hi t Ht). lia. Qed.

(** Steps whose boot condition follows from an invariant are steps under the
    stronger boot condition. *)
Lemma life_step_strengthen moves safe safe' config s s' :
  (∀ c, safe s c → safe' s c) →
  life_step moves safe config s s' → life_step (λ _ _, True) safe' config s s'.
Proof.
  intros Hs Hstep.
  destruct Hstep; [eapply life_set_clock|eapply life_issue|eapply life_flush_read
    |eapply life_flush_write|eapply life_flush_failed|eapply life_crash|eapply life_boot];
    eauto.
Qed.

Lemma forward_reachable config stored s :
  0 < flush_interval_ms config → 0 <= stored →
  rtc (life_step forward downtime config) (life_init stored) s →
  life_inv s ∧
  (∀ last, life_last s = Some last → physical_ms (from_raw last) <= life_clock s) ∧
  (∀ t, t ∈ life_issued s → physical_ms t <= life_clock s).
Proof.
  intros Hf Hst Hr. pose proof (life_inv_init stored Hst) as Hinv.
  assert ((∀ last, life_last (life_init stored) = Some last →
             physical_ms (from_raw last) <= life_clock (life_init stored)) ∧
          (∀ t, t ∈ life_issued (life_init stored) →
             physical_ms t <= life_clock (life_init stored))) as Hb.
  { split; [done|]. simpl. intros t Ht. by apply elem_of_nil in Ht. }
  induction Hr as [s|s s' s'' Hstep _ IH]; [done|]. apply IH.
  - destruct Hb as [Hb Hb'].
    eapply (life_inv_step (λ _ _, True) (boot_safe config)); [by intros|done|done|].
    eapply life_step_strengthen; [|done]. by apply forward_safe.
  - by eapply forward_behind.
Qed.

(** When the wall clock never goes back and a restart takes at least
    a millisecond of it, no condition on the flushes is needed: the timestamps
    are strictly increasing across crashes even if every flush fails. *)
Theorem oracle_increasing_forward_clock config stored s :
  0 < flush_interval_ms config → 0 <= stored →
  rtc (life_step forward downtime config) (life_init stored) s →
  increasing (life_issued s).
Proof. intros Hf Hst Hr. by apply forward_reachable in Hr as [[] _]. Qed.

(** A concrete life: boot, two issues, crash, boot, issue. *)
Definition life_at (stored : Z) (last : option Z) (clock : Z) (issued : list Tso) : Life :=
  {| life_stored := stored; life_last := last; life_flush := None; life_clock := clock;
     life_issued := issued |}.

Ltac life_env := first [exact I|unfold forward, downtime; cbn; lia|idtac].
Ltac life_boot c :=
  eapply rtc_l;
    [eapply (life_boot _ _ _ _ 2 (λ _, c) _ c);
      [reflexivity|life_env|done|intros ?; lia|by vm_compute|life_env|by vm_compute]|].
Ltac life_clock c :=
  eapply rtc_l; [eapply (life_set_clock _ _ _ _ c); [cbv; intuition discriminate|life_env]|].
Ltac life_issue :=
  eapply rtc_l; [eapply life_issue; [reflexivity|by vm_compute]|].
Ltac life_crash := eapply rtc_l; [eapply life_crash; reflexivity|].

Lemma oracle_increasing_across_crashes_witness :
  increasing [from_parts 1000 1; from_parts 1000 2; from_parts 2000 1].
Proof.
  apply (oracle_increasing_across_crashes default_config 0
    (life_at 0 (Some (as_u64 (from_parts 2000 1))) 2000
       [from_parts 1000 1; from_parts 1000 2; from_parts 2000 1]));
    [done|done|].
  life_boot 1000. { intros t Ht. by apply elem_of_nil in Ht. }
  life_issue. life_issue. life_crash.
  life_boot 2000.
  { intros t Ht. simpl in Ht. rewrite !elem_of_cons, elem_of_nil in Ht.
    right. destruct Ht as [->|[->|[]]]; by vm_compute. }
  life_issue. by vm_compute.
Defined.

Lemma oracle_increasing_forward_clock_witness :
  increasing [from_parts 1000 1; from_parts 1000 2; from_parts 2000 1].
Proof.
  apply (oracle_increasing_forward_clock default_config 0
    (life_at 0 (Some (as_u64 (from_parts 2000 1))) 2000
       [from_parts 1000 1; from_parts 1000 2; from_parts 2000 1]));
    [done|done|].
  life_boot 1000. life_issue. life_issue. life_crash. life_boot 2000. life_issue.
  by vm_compute.
Defined.

(** The padding alone does not make up for a clock that went back: a
    flush persists the physical part of the last issued timestamp, which lags the
    wall clock when the oracle was idle.  Here the flush completes at 5000, the
    process crashes at 5050, inside the 100 ms flush interval, and yet after the
    restart a timestamp is issued twice. *)
Theorem padding_window_is_not_enough :
  ∃ s1 s2 s3,
    let step := life_step (λ _ _, True) (λ _ _, True) default_config in
    rtc step (life_init 0) s1 ∧ life_flush s1 = None ∧ is_Some (life_last s1) ∧
    life_stored s1 = physical_ms (from_raw (default 0 (life_last s1))) ∧
    rtc step s1 s2 ∧ life_last s2 = None ∧
    life_clock s2 <= life_clock s1 + flush_interval_ms default_config ∧
    rtc step s2 s3 ∧ ¬ NoDup (life_issued s3).
Proof.
  exists (life_at 1000 (Some (as_u64 (from_parts 1000 0))) 5000 []),
    (life_at 1000 None 5050 [from_parts 5050 0]),
    (life_at 1000 (Some (as_u64 (from_parts 5050 0))) 5050
       [from_parts 5050 0; from_parts 5050 0]).
  cbv zeta. split_and!; try done.
  - life_boot 1000. life_clock 5000.
    eapply rtc_l; [eapply life_flush_read; reflexivity|].
    eapply rtc_l; [eapply life_flush_write; reflexivity|]. by vm_compute.
  - life_clock 5050. life_issue. life_crash. by vm_compute.
  - life_boot 2000. life_clock 5050. life_issue. by vm_compute.
  - apply (bool_decide_unpack _). by vm_compute.
Qed.
