(* ===== verification/Nonce.v ===== *)
(** * Replay protection ([headlines-auth/src/nonce.rs] with the time source's
    [validate])

    The in-memory nonce store: an LRU of [(key_id, nonce) ↦ ts] that drops
    expired entries on every insert and refuses to evict live ones.  The store
    is proved to behave as a bounded map, and the pipeline "validate the
    timestamp, then record the nonce" is a step relation in which requests
    interleave freely. *)

From S2P Require Import Prelude Libs Instances Tso Errors TimeSource.

Record NonceKey := mkNonceKey { nk_key_id : Uuid; nk_nonce : bytes }.
#[global] Instance nonce_key_eq_dec : EqDecision NonceKey.
Proof. solve_decision. Defined.

#[global] Program Instance nonce_key_countable : Countable NonceKey :=
  inj_countable' (λ k, (nk_key_id k, nk_nonce k)) (λ p, mkNonceKey p.1 p.2) _.
Next Obligation. by intros []. Qed.

Section store.
Context `{LruLib NonceKey Tso}.

(** [InMemoryNonceStore] *)
Record NonceStore := { ns_inner : Lru NonceKey Tso; ns_horizon_ms : Z }.

(** [with_config]; a zero capacity panics ([None]). *)
Definition with_config (capacity horizon_ms : Z) : option NonceStore :=
  if capacity =? 0 then None
  else Some {| ns_inner := lru_new capacity; ns_horizon_ms := horizon_ms |}.
Definition nonce_store_new : option NonceStore := with_config 100000 30000.

(** [evict_expired] *)
Definition expired (horizon now_ms : Z) (ts : Tso) : bool :=
  horizon <? sat_sub now_ms (physical_ms ts).
Definition evict_expired (horizon : Z) (cache : Lru NonceKey Tso) (now : Tso) :
    Lru NonceKey Tso :=
  let now_ms := physical_ms now in
  let to_drop :=
    omap (λ '(k, ts), if expired horizon now_ms ts then Some k else None)
      (lru_iter cache) in
  foldl (λ c k, lru_pop k c) cache to_drop.

(** [record]; the whole body runs under the store's lock. *)
Definition record (store : NonceStore) (key_id : Uuid) (nonce : bytes) (ts : Tso) :
    result NonceError () * NonceStore :=
  let key := mkNonceKey key_id nonce in
  let with_cache c := {| ns_inner := c; ns_horizon_ms := ns_horizon_ms store |} in
  let cache := evict_expired (ns_horizon_ms store) (ns_inner store) ts in
  let '(found, cache) := lru_get key cache in
  if bool_decide (is_Some found) then (Err Replay, with_cache cache)
  else if lru_cap cache <=? lru_len cache then (Err Capacity, with_cache cache)
  else (Ok (), with_cache (lru_put key ts cache)).

(** The live entries of a store as seen by a record at [ts]. *)
Definition live (store : NonceStore) (ts : Tso) : list (NonceKey * Tso) :=
  filter (λ e, expired (ns_horizon_ms store) (physical_ms ts) e.2 = false)
    (lru_iter (ns_inner store)).
End store.

Section store_laws.
Context `{LruLaws NonceKey Tso}.

Lemma fold_pop_iter ks c :
  lru_iter (foldl (λ c k, lru_pop k c) c ks) ≡ₚ filter (λ e, e.1 ∉ ks) (lru_iter c) ∧
  lru_cap (foldl (λ c k, lru_pop k c) c ks) = lru_cap c.
Proof.
  revert c; induction ks as [|k ks IH]; intros c; simpl.
  - split; [|done]. by rewrite filter_all by set_solver.
  - destruct (IH (lru_pop k c)) as [-> ->]. split; [|by rewrite lru_cap_pop].
    rewrite lru_iter_pop, list_filter_filter.
    erewrite list_filter_iff; [done|]. intros e. set_solver.
Qed.

Lemma key_unique c k t t' :
  (k, t) ∈ lru_iter c → (k, t') ∈ lru_iter c → t = t'.
Proof. intros Ht%lru_get_some Ht'%lru_get_some. congruence. Qed.

(** Eviction keeps exactly the live entries. *)
Lemma evict_expired_iter store ts :
  lru_iter (evict_expired (ns_horizon_ms store) (ns_inner store) ts) ≡ₚ live store ts ∧
  lru_cap (evict_expired (ns_horizon_ms store) (ns_inner store) ts) =
    lru_cap (ns_inner store).
Proof.
  unfold evict_expired, live.
  set (ks := omap _ _). destruct (fold_pop_iter ks (ns_inner store)) as [-> ->].
  split; [|done]. erewrite filter_ext_elem; [done|].
  intros [k t] Hin; simpl. unfold ks. rewrite list_elem_of_omap. split.
  - intros Hk. apply not_true_iff_false. intros Hex. apply Hk.
    exists (k, t). by rewrite Hex.
  - intros Hex ([k' t'] & Hin' & Hk). destruct (expired _ _ t') eqn:Hex'; [|done].
    injection Hk as ->. assert (t = t') as -> by (by eapply key_unique). congruence.
Qed.

Lemma elem_of_live store ts k t :
  (k, t) ∈ live store ts ↔
  (k, t) ∈ lru_iter (ns_inner store) ∧
  expired (ns_horizon_ms store) (physical_ms ts) t = false.
Proof. unfold live. rewrite list_elem_of_filter. naive_solver. Qed.

(** The functional behaviour of [record], on every branch. *)
Lemma record_cases store key_id nonce ts :
  let key := mkNonceKey key_id nonce in
  let n := Z.of_nat (length (live store ts)) in
  let '(r, store') := record store key_id nonce ts in
  ns_horizon_ms store' = ns_horizon_ms store ∧
  lru_cap (ns_inner store') = lru_cap (ns_inner store) ∧
  ((r = Err Replay ∧ key ∈ (live store ts).*1 ∧
      lru_iter (ns_inner store') ≡ₚ live store ts) ∨
   (r = Err Capacity ∧ key ∉ (live store ts).*1 ∧ lru_cap (ns_inner store) <= n ∧
      lru_iter (ns_inner store') ≡ₚ live store ts) ∨
   (r = Ok () ∧ key ∉ (live store ts).*1 ∧ n < lru_cap (ns_inner store) ∧
      lru_iter (ns_inner store') ≡ₚ (key, ts) :: live store ts)).
Proof.
  intros key n. unfold record. fold key.
  destruct (evict_expired_iter store ts) as [Hlive Hcap].
  set (c := evict_expired _ _ ts) in *.
  pose proof (lru_get_some key) as Hget. specialize (λ v, Hget v c).
  pose proof (lru_iter_get key c) as Hiter. pose proof (lru_cap_get key c) as Hcap'.
  destruct (lru_get key c) as [found c']. simpl in *.
  assert (Hlen : lru_len c' = n).
  { unfold n. by rewrite lru_len_iter, Hiter, Hlive. }
  assert (Hfound : is_Some found ↔ key ∈ (live store ts).*1).
  { rewrite <- Hlive, list_elem_of_fmap. unfold is_Some. split.
    - intros [v Hv]. apply Hget in Hv. by exists (key, v).
    - intros ([k v] & -> & Hv). exists v. by apply Hget. }
  destruct (bool_decide_reflect (is_Some found)) as [Hf|Hf].
  { simpl. split_and!; [done|congruence|]. left.
    split_and!; [done|tauto|by rewrite Hiter]. }
  destruct (Z.leb_spec (lru_cap c') (lru_len c')) as [Hle|Hlt]; simpl.
  - split_and!; [done|congruence|]. right; left.
    split_and!; [done|tauto|lia|by rewrite Hiter].
  - rewrite lru_cap_put. split_and!; [done|congruence|]. right; right.
    split_and!; [done|tauto|lia|].
    rewrite lru_iter_put; [by rewrite Hiter, Hlive|done|].
    rewrite Hiter, Hlive. tauto.
Qed.

(** *** The store as a bounded map *)

Definition view (store : NonceStore) : gmap NonceKey Tso :=
  list_to_map (lru_iter (ns_inner store)).

(** What a replay cache with horizon [h] and capacity [cap] promises. *)
Definition bounded_record (h cap : Z) (key : NonceKey) (ts : Tso)
    (m : gmap NonceKey Tso) : result NonceError () * gmap NonceKey Tso :=
  let m := filter (λ e, expired h (physical_ms ts) e.2 = false) m in
  if bool_decide (is_Some (m !! key)) then (Err Replay, m)
  else if cap <=? Z.of_nat (size m) then (Err Capacity, m)
  else (Ok (), <[key := ts]> m).

Lemma view_lookup store k t : view store !! k = Some t ↔ (k, t) ∈ lru_iter (ns_inner store).
Proof. unfold view. rewrite <- elem_of_list_to_map; [done|apply lru_keys]. Qed.

Lemma live_keys_NoDup store ts : NoDup (live store ts).*1.
Proof.
  unfold live. pose proof (lru_keys (ns_inner store)) as Hnd. revert Hnd.
  induction (lru_iter (ns_inner store)) as [|e l IH]; simpl; [done|].
  intros [He Hl]%NoDup_cons. rewrite filter_cons.
  destruct (decide _); simpl; [|by apply IH]. apply NoDup_cons. split; [|by apply IH].
  contradict He. apply list_elem_of_fmap in He as (e' & -> & He').
  apply list_elem_of_filter in He' as [_ He']. by apply list_elem_of_fmap_2.
Qed.

Lemma view_filter store ts :
  filter (λ e, expired (ns_horizon_ms store) (physical_ms ts) e.2 = false) (view store) =
  list_to_map (live store ts).
Proof.
  apply map_eq. intros k. apply option_eq. intros t.
  rewrite map_lookup_filter_Some, view_lookup. simpl.
  rewrite <- elem_of_list_to_map by apply live_keys_NoDup. by rewrite elem_of_live.
Qed.

(** The LRU store refines the bounded map: same result on every
    branch (replay, capacity, accepted) and same contents afterwards, so an
    entry inside the horizon is never evicted to make room. *)
Theorem record_refines_bounded_map store key_id nonce ts :
  let key := mkNonceKey key_id nonce in
  let abs := bounded_record (ns_horizon_ms store) (lru_cap (ns_inner store)) key ts
               (view store) in
  (record store key_id nonce ts).1 = abs.1 ∧
  view (record store key_id nonce ts).2 = abs.2.
Proof.
  intros key abs. unfold abs, bounded_record. rewrite view_filter.
  pose proof (live_keys_NoDup store ts) as Hnd.
  rewrite map_size_list_to_map by done.
  assert (Hkey : is_Some ((list_to_map (live store ts) : gmap NonceKey Tso) !! key) ↔
                 key ∈ (live store ts).*1).
  { rewrite <- not_eq_None_Some, <- not_elem_of_list_to_map.
    destruct (decide (key ∈ (live store ts).*1)); tauto. }
  pose proof (record_cases store key_id nonce ts) as Hc. cbv zeta in Hc.
  destruct (record store key_id nonce ts) as [r store'].
  destruct Hc as (_ & _ & [(-> & Hin & Hit)|[(-> & Hin & Hn & Hit)|(-> & Hin & Hn & Hit)]]).
  - rewrite bool_decide_eq_true_2 by tauto. split; [done|]. simpl.
    by apply list_to_map_proper; [apply lru_keys|].
  - rewrite bool_decide_eq_false_2 by tauto.
    apply Z.leb_le in Hn as ->. split; [done|]. simpl.
    by apply list_to_map_proper; [apply lru_keys|].
  - rewrite bool_decide_eq_false_2 by tauto.
    apply Z.leb_gt in Hn as ->. split; [done|]. simpl.
    change (<[key:=ts]> (list_to_map (live store ts))) with
      (list_to_map ((key, ts) :: live store ts) : gmap NonceKey Tso).
    by apply list_to_map_proper; [apply lru_keys|].
Qed.
End store_laws.

(** ** The pipeline: validate, then record

    A request first passes [validate_sync] against the time source, then its
    nonce is recorded; other requests run in between, the wall clock moves forward and
    back, and the two steps of a request may be any time apart.  The history
    [pl_accepted] lists the requests whose record succeeded, oldest first. *)

(** An acceptance: the key, nonce and timestamp, and the highest time the server had shown
    when it recorded them. *)
Record Acceptance := mkAcceptance { ac_entry : NonceKey * Tso; ac_high : Z }.
#[global] Instance acceptance_eq_dec : EqDecision Acceptance.
Proof. solve_decision. Defined.
(** The highest time is not past the timestamp by more than the horizon. *)
Definition in_time (horizon : Z) (a : Acceptance) : Prop :=
  ac_high a - physical_ms (ac_entry a).2 <= horizon.
#[global] Instance in_time_dec horizon a : Decision (in_time horizon a).
Proof. unfold in_time. apply _. Defined.

(** Of two acceptances under one key and nonce the later one is strictly newer, unless it came
    too late. *)
Definition accepted_once (horizon : Z) (l : list Acceptance) : Prop :=
  ∀ i j a b, (i < j)%nat → l !! i = Some a → l !! j = Some b →
    (ac_entry a).1 = (ac_entry b).1 →
    physical_ms (ac_entry a).2 < physical_ms (ac_entry b).2 ∨ ¬ in_time horizon b.

Lemma accepted_once_snoc horizon l b :
  accepted_once horizon l →
  (∀ a, a ∈ l → (ac_entry a).1 = (ac_entry b).1 →
     physical_ms (ac_entry a).2 < physical_ms (ac_entry b).2 ∨ ¬ in_time horizon b) →
  accepted_once horizon (l ++ [b]).
Proof.
  intros Hl Hnew i j a b' Hij Hi Hj Hk.
  apply lookup_snoc_Some in Hj as [[Hj Hlj]|[-> <-]].
  - rewrite lookup_app_l in Hi by lia. eapply (Hl i j); eauto.
  - rewrite lookup_app_l in Hi by lia. eapply Hnew; [by eapply list_elem_of_lookup_2|done].
Qed.
(** An acceptance in time repeats none before it. *)
Lemma accepted_once_new horizon earlier b later :
  accepted_once horizon (earlier ++ b :: later) → in_time horizon b → ac_entry b ∉ ac_entry <$> earlier.
Proof.
  intros Hl Hb (a & Heq & Ha)%list_elem_of_fmap. apply list_elem_of_lookup_1 in Ha as [i Hi].
  pose proof (lookup_lt_Some _ _ _ Hi).
  destruct (Hl i (length earlier) a b) as [Hlt|Hlate]; [done| | | | |done].
  - by rewrite lookup_app_l.
  - by rewrite lookup_app_r, Nat.sub_diag by lia.
  - by rewrite Heq.
  - rewrite Heq in Hlt. lia.
Qed.
(** When all came in time no two are the same. *)
Lemma accepted_once_NoDup horizon l :
  accepted_once horizon l → Forall (in_time horizon) l → NoDup (ac_entry <$> l).
Proof.
  intros Hl Hin. apply NoDup_alt. intros i j e Hi Hj. rewrite list_lookup_fmap in Hi, Hj.
  apply fmap_Some in Hi as (a & Ha & ->), Hj as (b & Hb & Heq). rewrite Forall_lookup in Hin.
  destruct (Nat.lt_trichotomy i j) as [Hij|[?|Hij]]; [exfalso|done|exfalso].
  - destruct (Hl i j a b Hij Ha Hb) as [Hlt|Hlate]; [by rewrite Heq| |by destruct Hlate; eapply Hin].
    rewrite Heq in Hlt. lia.
  - destruct (Hl j i b a Hij Hb Ha) as [Hlt|Hlate]; [by rewrite Heq| |by destruct Hlate; eapply Hin].
    rewrite Heq in Hlt. lia.
Qed.

Section pipeline.
Context `{LruLaws NonceKey Tso}.
Variable tso_horizon : Z.    (* of the time source *)

Record Pipeline := {
  pl_wall : Z;
  pl_last : Z;
  pl_high : Z;    (* the highest time so far; no variable of the code *)
  pl_store : NonceStore;
  pl_validated : list (NonceKey * Tso);
  pl_accepted : list Acceptance;
}.

(** The time [validate_sync] compares with. *)
Definition now_of (wall last : Z) : Z := Z.max wall (physical_ms (from_raw last)).
Definition pl_now (s : Pipeline) : Z := now_of (pl_wall s) (pl_last s).

(** The clock is set to anything; a request passes validation; one that has passed is
    recorded. *)
Definition at_time (wall last : Z) (s : Pipeline) : Pipeline :=
  {| pl_wall := wall; pl_last := last; pl_high := Z.max (pl_high s) (now_of wall last);
     pl_store := pl_store s; pl_validated := pl_validated s; pl_accepted := pl_accepted s |}.
Definition validated (e : NonceKey * Tso) (s : Pipeline) : Pipeline :=
  {| pl_wall := pl_wall s; pl_last := pl_last s; pl_high := pl_high s; pl_store := pl_store s;
     pl_validated := e :: pl_validated s; pl_accepted := pl_accepted s |}.
Definition recorded (e : NonceKey * Tso) (rest : list (NonceKey * Tso)) (s : Pipeline) : Pipeline :=
  let (r, store) := record (pl_store s) (nk_key_id e.1) (nk_nonce e.1) e.2 in
  {| pl_wall := pl_wall s; pl_last := pl_last s; pl_high := pl_high s; pl_store := store;
     pl_validated := rest;
     pl_accepted := if is_ok r then pl_accepted s ++ [mkAcceptance e (pl_high s)]
                    else pl_accepted s |}.
Inductive pipeline_step : Pipeline → Pipeline → Prop :=
  | pl_time s wall last : pipeline_step s (at_time wall last s)
  | pl_validate s e :
      validate_sync (pl_wall s) (pl_last s) tso_horizon e.2 = Ok () → pipeline_step s (validated e s)
  | pl_record s e rest :
      pl_validated s ≡ₚ e :: rest → pipeline_step s (recorded e rest s).

Definition pipeline_init (wall last : Z) (store : NonceStore) : Pipeline :=
  {| pl_wall := wall; pl_last := last; pl_high := now_of wall last; pl_store := store;
     pl_validated := []; pl_accepted := [] |}.

(** A scheduler: each action is taken when it is enabled, else skipped. *)
Inductive action : Type :=
  | Time (wall last : Z)
  | Validate (e : NonceKey * Tso)
  | Record_ (e : NonceKey * Tso).

Definition act (a : action) (s : Pipeline) : Pipeline :=
  match a with
  | Time wall last => at_time wall last s
  | Validate e =>
    if is_ok (validate_sync (pl_wall s) (pl_last s) tso_horizon e.2) then validated e s else s
  | Record_ e =>
    match take_out e (pl_validated s) with Some rest => recorded e rest s | None => s end
  end.

Definition run (l : list action) (s : Pipeline) : Pipeline := foldl (λ s a, act a s) s l.

Lemma act_sound a s : rtc pipeline_step s (act a s).
Proof.
  destruct a as [wall last|e|e]; simpl.
  - apply rtc_once, pl_time.
  - destruct (validate_sync _ _ _ _) as [[]|] eqn:Hv; [|done]. by apply rtc_once, pl_validate.
  - destruct (take_out _ _) as [rest|] eqn:Hl; [|done].
    apply take_out_Some in Hl. by apply rtc_once, pl_record.
Qed.
Lemma run_sound l s : rtc pipeline_step s (run l s).
Proof.
  revert s; induction l as [|a l IH]; intros s; [done|].
  etrans; [apply act_sound|apply IH].
Qed.

(** An accepted request is cached, or past the store's horizon. *)
Record pipeline_inv (nonce_horizon : Z) (s : Pipeline) : Prop := {
  pi_horizon : ns_horizon_ms (pl_store s) = nonce_horizon;
  pi_high : pl_now s <= pl_high s;
  pi_validated : ∀ e, e ∈ pl_validated s → physical_ms e.2 <= pl_high s;
  pi_accepted : ∀ a, a ∈ pl_accepted s →
    ac_entry a ∈ lru_iter (ns_inner (pl_store s)) ∨
    nonce_horizon < pl_high s - physical_ms (ac_entry a).2;
  pi_once : accepted_once nonce_horizon (pl_accepted s);
}.

Lemma validate_sync_ok wall last ts :
  validate_sync wall last tso_horizon ts = Ok () ↔
  physical_ms ts <= now_of wall last ∧ sat_sub (now_of wall last) (physical_ms ts) <= tso_horizon.
Proof.
  unfold validate_sync, now_of. cbv zeta.
  destruct (Z.ltb_spec (Z.max wall (physical_ms (from_raw last))) (physical_ms ts));
    [split; [done|lia]|].
  destruct (Z.ltb_spec tso_horizon
    (sat_sub (Z.max wall (physical_ms (from_raw last))) (physical_ms ts)));
    (split; [done|]); intros []; lia || done.
Qed.

(** What eviction at [ts] does to the cached-or-expired clause. *)
Lemma cached_or_expired store ts now e :
  0 <= ns_horizon_ms store → physical_ms ts <= now →
  e ∈ lru_iter (ns_inner store) →
  e ∈ live store ts ∨ ns_horizon_ms store < now - physical_ms e.2.
Proof.
  intros Hh Hts He. destruct e as [k t]. simpl.
  destruct (expired (ns_horizon_ms store) (physical_ms ts) t) eqn:Hex.
  - right. unfold expired in Hex. apply Z.ltb_lt in Hex. unfold sat_sub in Hex. lia.
  - left. by apply elem_of_live.
Qed.

Lemma recorded_inv nonce_horizon s e rest :
  0 <= nonce_horizon → pipeline_inv nonce_horizon s → pl_validated s ≡ₚ e :: rest →
  pipeline_inv nonce_horizon (recorded e rest s).
Proof.
  intros Hpos [Hh Hn Hv Ha Ho] Hp. destruct e as [key ts]. unfold recorded. cbn [fst snd].
  pose proof (record_cases (pl_store s) (nk_key_id key) (nk_nonce key) ts) as Hc. cbv zeta in Hc.
  replace (mkNonceKey _ _) with key in Hc by by destruct key.
  destruct (record (pl_store s) (nk_key_id key) (nk_nonce key) ts) as [r store'].
  assert (Hts : physical_ms ts <= pl_high s) by (apply (Hv (key, ts)); rewrite Hp; set_solver).
  assert (Hrest : ∀ e, e ∈ rest → physical_ms e.2 <= pl_high s).
  { intros e He. apply Hv. rewrite Hp. set_solver. }
  assert (Hkeep : ∀ a, a ∈ pl_accepted s →
    ac_entry a ∈ live (pl_store s) ts ∨ nonce_horizon < pl_high s - physical_ms (ac_entry a).2).
  { intros a Hin. destruct (Ha a Hin) as [He|?]; [|by right].
    rewrite <- Hh. apply cached_or_expired; [lia|done|done]. }
  destruct Hc as (Hh' & _ & Hc).
  destruct Hc as [(-> & _ & Hit)|[(-> & _ & _ & Hit)|(-> & Hnew & _ & Hit)]];
    (split; cbn; [congruence|exact Hn|exact Hrest| |]); try exact Ho;
    try (intros a Hin; destruct (Hkeep a Hin); [left; by rewrite Hit|by right]).
  - intros a [Hin| ->%list_elem_of_singleton]%elem_of_app.
    + destruct (Hkeep a Hin); [left; rewrite Hit; set_solver|by right].
    + left. cbn. rewrite Hit. set_solver.
  - apply accepted_once_snoc; [done|]. intros a Hin Hk. unfold in_time. cbn in *.
    destruct (Hkeep a Hin) as [Hlive|Hexp]; [|lia].
    destruct Hnew. rewrite <- Hk. by apply list_elem_of_fmap_2.
Qed.
Lemma pipeline_inv_step nonce_horizon s s' :
  0 <= nonce_horizon → pipeline_inv nonce_horizon s → pipeline_step s s' →
  pipeline_inv nonce_horizon s'.
Proof.
  intros Hpos Hinv Hstep. destruct Hstep as [s wall last|s e Hval|s e rest Hp].
  - destruct Hinv as [Hh Hn Hv Ha Ho].
    split; cbn [pl_high pl_store pl_validated pl_accepted at_time]; try done.
    + apply Z.le_max_r.
    + intros e He. specialize (Hv e He). lia.
    + intros a Hin. destruct (Ha a Hin); [by left|right; lia].
  - destruct Hinv as [Hh Hn Hv Ha Ho]. apply validate_sync_ok in Hval as [Hval _].
    split; cbn [pl_high pl_store pl_validated pl_accepted validated]; try done.
    intros e' [->|He]%elem_of_cons; [|by apply Hv]. etrans; [exact Hval|exact Hn].
  - by apply recorded_inv.
Qed.

Lemma pipeline_inv_init wall last store :
  pipeline_inv (ns_horizon_ms store) (pipeline_init wall last store).
Proof. split; cbn; [done|unfold pl_now; cbn; lia|set_solver|set_solver|]. by intros i j ??? Hi. Qed.
Lemma pipeline_inv_reachable nonce_horizon s s' :
  0 <= nonce_horizon → pipeline_inv nonce_horizon s → rtc pipeline_step s s' →
  pipeline_inv nonce_horizon s'.
Proof. intros Hpos Hinv Hr. induction Hr; [done|]. eauto using pipeline_inv_step. Qed.
Lemma accepted_distinct wall last store s :
  0 <= ns_horizon_ms store → rtc pipeline_step (pipeline_init wall last store) s →
  accepted_once (ns_horizon_ms store) (pl_accepted s).
Proof. intros Hpos Hr. eapply pi_once, pipeline_inv_reachable, Hr; [done|apply pipeline_inv_init]. Qed.

(** A record is in time when its timestamp is still within the time source's horizon and the
    clock is not behind its highest by more than the two horizons differ: always, when the
    clock is never set back and the record follows its validation at once. *)
Lemma prompt_in_time nonce_horizon now a :
  sat_sub now (physical_ms (ac_entry a).2) <= tso_horizon →
  ac_high a - now <= nonce_horizon - tso_horizon → in_time nonce_horizon a.
Proof. unfold in_time, sat_sub. lia. Qed.

(** C2. No signed request is accepted twice. In every interleaving of validations, records
    and movements of the clock, forward and back, with any delay between the two steps of a
    request: of two accepted requests with the same key and nonce the later one carries a
    strictly newer timestamp, unless the server had shown a time past that timestamp by more
    than the nonce store's horizon before it recorded it; so the requests accepted in time,
    as [(key_id, nonce, ts)], are pairwise distinct. *)
Theorem no_replay_accepted wall last store s :
  0 <= ns_horizon_ms store →
  rtc pipeline_step (pipeline_init wall last store) s →
  (∀ i j a b, (i < j)%nat → pl_accepted s !! i = Some a → pl_accepted s !! j = Some b →
     (ac_entry a).1 = (ac_entry b).1 → in_time (ns_horizon_ms store) b →
     physical_ms (ac_entry a).2 < physical_ms (ac_entry b).2) ∧
  (Forall (in_time (ns_horizon_ms store)) (pl_accepted s) → NoDup (ac_entry <$> pl_accepted s)).
Proof.
  intros Hpos Hr. pose proof (accepted_distinct wall last store s Hpos Hr) as Honce. split.
  - intros i j a b Hij Ha Hb Hk Hin. by destruct (Honce i j a b Hij Ha Hb Hk).
  - by apply accepted_once_NoDup.
Qed.
End pipeline.

(** ** Concrete runs *)

Definition toy_cache : LruLib NonceKey Tso := toy_lru NonceKey Tso.
#[local] Existing Instance toy_cache.

Lemma toy_cache_laws : LruLaws NonceKey Tso.
Proof. apply toy_lru_laws. Qed.

(** Replays of the request [(key 1, nonce n, ts)]. *)
Definition sent (n : N) (ms : Z) : NonceKey * Tso := (mkNonceKey 1 [n], from_parts ms 0).

Definition default_store : NonceStore :=
  default {| ns_inner := lru_new 1; ns_horizon_ms := 0 |} nonce_store_new.

Lemma record_refines_bounded_map_witness :
  (record default_store 1 [7]%N (from_parts 5 0)).1 =
  (bounded_record 30000 100000 (mkNonceKey 1 [7]%N) (from_parts 5 0) ∅).1.
Proof.
  destruct (@record_refines_bounded_map _ _ toy_cache_laws default_store 1 [7]%N
    (from_parts 5 0)) as [Hr _].
  rewrite Hr. by vm_compute.
Defined.

(** The clock goes forward and back, and a copy that passed validation is recorded last. *)
Definition busy_run : Pipeline :=
  run 30000
    [Time 1000000 0; Validate (sent 7 1000000); Record_ (sent 7 1000000);
     Time 1020000 0; Validate (sent 7 1000000); Validate (sent 8 1020000);
     Time 1010000 0; Record_ (sent 8 1020000); Record_ (sent 7 1000000)]
    (pipeline_init 0 0 default_store).

Lemma no_replay_accepted_witness :
  length (pl_accepted busy_run) = 2%nat ∧ NoDup (ac_entry <$> pl_accepted busy_run).
Proof.
  split; [by vm_compute|].
  refine (proj2 (@no_replay_accepted _ _ toy_cache_laws 30000 0 0 default_store _ _ _) _);
    [by vm_compute|apply run_sound|].
  apply (bool_decide_unpack _). by vm_compute.
Defined.

(** What is too late does get in again, in three ways. *)
Definition repeats (horizon : Z) (l : list action) : Prop :=
  ¬ NoDup (ac_entry <$> pl_accepted (run horizon l (pipeline_init 0 0 default_store))).

(** The server builds the nonce store with its default horizon of 30 s whatever
    [auth.time.horizon_seconds] is.  With 60 s configured, a captured request is accepted a
    second time 40 s later. *)
Theorem mismatched_horizons_admit_replay :
  nonce_store_new = Some default_store ∧
  repeats 60000
    [Time 1000000 0; Validate (sent 7 1000000); Record_ (sent 7 1000000);
     Time 1040000 0; Validate (sent 8 1040000); Record_ (sent 8 1040000);
     Validate (sent 7 1000000); Record_ (sent 7 1000000)].
Proof. split; [reflexivity|]. apply (bool_decide_unpack _). by vm_compute. Qed.

(** Validation and recording are two steps.  With equal horizons, a replay validated just
    before its timestamp expires and recorded after a newer request has evicted the original
    is accepted. *)
Theorem late_record_admits_replay :
  repeats 30000
    [Time 1000000 0; Validate (sent 7 1000000); Record_ (sent 7 1000000);
     Time 1029999 0; Validate (sent 7 1000000);
     Time 1030001 0; Validate (sent 8 1030001); Record_ (sent 8 1030001);
     Record_ (sent 7 1000000)].
Proof. apply (bool_decide_unpack _). by vm_compute. Qed.

(** The wall clock may be set back: when a newer request has evicted the original and the
    clock then goes back, the original is fresh again and no longer known. *)
Theorem clock_set_back_admits_replay :
  repeats 30000
    [Time 1000000 0; Validate (sent 7 1000000); Record_ (sent 7 1000000);
     Time 1040000 0; Validate (sent 8 1040000); Record_ (sent 8 1040000);
     Time 1010000 0; Validate (sent 7 1000000); Record_ (sent 7 1000000)].
Proof. apply (bool_decide_unpack _). by vm_compute. Qed.
