(* ===== verification/Wire.v ===== *)
(** * What is signed, and the [Authorization] header
    ([headlines-auth/src/strategy.rs], first half)

    The canonical string a client signs, the canonical form of the query string,
    the strict parser of the [Signature key_id=..., ...] header. *)

From S2P Require Import Prelude Libs Instances Tso.

(** [SignedRequestParts] *)
Record SignedRequestParts := {
  srp_method : str;
  srp_path : str;
  srp_canonical_query : str;
  srp_request_hash : bytes;
  srp_key_id : Uuid;
  srp_algo : str;
  srp_ts : Tso;
  srp_nonce : bytes;
  srp_signature : bytes;
}.

(** [hex_encode] *)
Definition HEX : str := lit "0123456789abcdef".
Definition hex_digit (n : N) : N := default 0%N (HEX !! N.to_nat n).
Definition hex_encode (b : bytes) : str :=
  b ≫= λ x, [hex_digit (N.shiftr x 4); hex_digit (N.land x 15)].

(** [canonicalize_query] *)
Definition query_pair (raw_pair : str) : str * str :=
  match split_once 61 raw_pair with
  | Some (k, v) => (k, v)
  | None => (raw_pair, [])
  end.
Definition query_pairs (raw : str) : list (str * str) :=
  query_pair <$> filter (λ p, p ≠ []) (split_on 38 raw).
Definition key_le (a b : str * str) : bool := str_leb a.1 b.1.
Definition render_query (pairs : list (str * str)) : str :=
  join [38%N] ((λ '(k, v), k ++ 61%N :: v) <$> pairs).
Definition canonicalize_query (raw : str) : str :=
  match raw with
  | [] => []
  | _ => render_query (sort_by key_le (query_pairs raw))
  end.

(** [ParsedAuthHeader], [ParseError] *)
Record ParsedAuthHeader := {
  pah_key_id : Uuid;
  pah_algo : str;
  pah_ts : Tso;
  pah_nonce : bytes;
  pah_signature : bytes;
}.

Inductive ParseError : Type :=
  | MissingScheme
  | MalformedPair (pair : str)
  | UnknownField (field : str)
  | MissingField (field : str)
  | MalformedKeyId (msg : str)
  | MalformedTs (msg : str)
  | MalformedBase64 (field : str)
  | NonUtf8.

(** The five [Option] locals of the parser. *)
Record Fields := {
  f_key_id : option Uuid;
  f_algo : option str;
  f_ts : option Tso;
  f_nonce : option bytes;
  f_sig : option bytes;
}.
Definition no_fields : Fields :=
  {| f_key_id := None; f_algo := None; f_ts := None; f_nonce := None; f_sig := None |}.

Definition set_key_id (x : Uuid) (f : Fields) : Fields :=
  {| f_key_id := Some x; f_algo := f_algo f; f_ts := f_ts f; f_nonce := f_nonce f;
     f_sig := f_sig f |}.
Definition set_algo (x : str) (f : Fields) : Fields :=
  {| f_key_id := f_key_id f; f_algo := Some x; f_ts := f_ts f; f_nonce := f_nonce f;
     f_sig := f_sig f |}.
Definition set_ts (x : Tso) (f : Fields) : Fields :=
  {| f_key_id := f_key_id f; f_algo := f_algo f; f_ts := Some x; f_nonce := f_nonce f;
     f_sig := f_sig f |}.
Definition set_nonce (x : bytes) (f : Fields) : Fields :=
  {| f_key_id := f_key_id f; f_algo := f_algo f; f_ts := f_ts f; f_nonce := Some x;
     f_sig := f_sig f |}.
Definition set_sig (x : bytes) (f : Fields) : Fields :=
  {| f_key_id := f_key_id f; f_algo := f_algo f; f_ts := f_ts f; f_nonce := f_nonce f;
     f_sig := Some x |}.

Definition KNOWN_FIELDS : list str :=
  [lit "key_id"; lit "algo"; lit "ts"; lit "nonce"; lit "sig"].

Section wire.
Context `{UuidLib, Base64Lib}.

(** [build_canonical_string] *)
Definition build_canonical_string (parts : SignedRequestParts) : str :=
  let hash_hex := hex_encode (srp_request_hash parts) in
  let nonce_b64 := b64_encode (srp_nonce parts) in
  lit "HEADLINES-SIGN-V1" ++ 10%N :: srp_method parts
  ++ 10%N :: srp_path parts
  ++ 10%N :: srp_canonical_query parts
  ++ 10%N :: hash_hex
  ++ 10%N :: uuid_display (srp_key_id parts)
  ++ 10%N :: dec_Z (as_u64 (srp_ts parts))
  ++ 10%N :: nonce_b64.

#[global] Arguments build_canonical_string : simpl never.

(** The body of the loop of [parse_authorization_header]. *)
Definition parse_pair (fields : Fields) (raw : str) : result ParseError Fields :=
  let pair := trim raw in
  if bool_decide (pair = []) then Err (MalformedPair (lit "empty pair"))
  else
    '(k, v) ← ok_or (MalformedPair pair) (split_once 61 pair);
    let k := trim k in
    let v := trim v in
    if negb (str_mem k KNOWN_FIELDS) then Err (UnknownField k)
    else if str_eqb k (lit "key_id") then
      parsed ← map_err MalformedKeyId (uuid_parse_str v);
      Ok (set_key_id parsed fields)
    else if str_eqb k (lit "algo") then Ok (set_algo v fields)
    else if str_eqb k (lit "ts") then
      raw_u64 ← map_err MalformedTs (parse_u64 v);
      Ok (set_ts (from_raw raw_u64) fields)
    else if str_eqb k (lit "nonce") then
      b ← map_err (λ _, MalformedBase64 (lit "nonce")) (b64_decode v);
      Ok (set_nonce b fields)
    else
      b ← map_err (λ _, MalformedBase64 (lit "sig")) (b64_decode v);
      Ok (set_sig b fields).

Fixpoint parse_pairs (fields : Fields) (raws : list str) : result ParseError Fields :=
  match raws with
  | [] => Ok fields
  | raw :: raws => fields ← parse_pair fields raw; parse_pairs fields raws
  end.

Definition finish (f : Fields) : result ParseError ParsedAuthHeader :=
  key_id ← ok_or (MissingField (lit "key_id")) (f_key_id f);
  algo ← ok_or (MissingField (lit "algo")) (f_algo f);
  ts ← ok_or (MissingField (lit "ts")) (f_ts f);
  nonce ← ok_or (MissingField (lit "nonce")) (f_nonce f);
  sig ← ok_or (MissingField (lit "sig")) (f_sig f);
  Ok {| pah_key_id := key_id; pah_algo := algo; pah_ts := ts; pah_nonce := nonce;
        pah_signature := sig |}.

(** [parse_authorization_header] *)
Definition parse_authorization_header (value : str) : result ParseError ParsedAuthHeader :=
  if negb (is_ascii_str value) then Err NonUtf8
  else
    body ← ok_or MissingScheme (strip_prefix (lit "Signature ") value);
    fields ← parse_pairs no_fields (split_on 44 body);
    finish fields.
End wire.

(** ** The canonical string *)

Definition unhex (c : N) : N := (if is_ascii_digit c then c - 48 else c - 87)%N.

Lemma hex_digit_spec n :
  (n < 16)%N →
  is_ascii_alphanumeric (hex_digit n) = true ∧ unhex (hex_digit n) = n.
Proof.
  intros Hn.
  assert (is_ascii_alphanumeric (hex_digit n) && (unhex (hex_digit n) =? n)%N = true)
    as [? ?%N.eqb_eq]%andb_true_iff; [|done].
  by apply (below_forallb (λ n, is_ascii_alphanumeric (hex_digit n) && (unhex (hex_digit n) =? n)%N) 16).
Qed.

Lemma byte_nibbles x :
  is_byte x → (N.shiftr x 4 < 16)%N ∧ (N.land x 15 < 16)%N ∧
  x = (16 * N.shiftr x 4 + N.land x 15)%N.
Proof.
  intros Hx.
  assert ((N.shiftr x 4 <? 16)%N && (N.land x 15 <? 16)%N
          && (x =? 16 * N.shiftr x 4 + N.land x 15)%N = true)
    as [[?%N.ltb_lt ?%N.ltb_lt]%andb_true_iff ?%N.eqb_eq]%andb_true_iff; [|done].
  by apply (below_forallb (λ x, (N.shiftr x 4 <? 16)%N && (N.land x 15 <? 16)%N
          && (x =? 16 * N.shiftr x 4 + N.land x 15)%N) 256).
Qed.

Lemma hex_encode_cons x b :
  hex_encode (x :: b) = hex_digit (N.shiftr x 4) :: hex_digit (N.land x 15) :: hex_encode b.
Proof. done. Qed.

Lemma hex_encode_inj a b :
  Forall is_byte a → Forall is_byte b → hex_encode a = hex_encode b → a = b.
Proof.
  intros Ha. revert b. induction Ha as [|x a Hx Ha IH]; intros b Hb;
    destruct Hb as [|y b Hy Hb]; rewrite ?hex_encode_cons; try done.
  intros [= H1 H2 H3]. f_equal; [|by apply IH].
  destruct (byte_nibbles x Hx) as (Hx1 & Hx2 & Ex), (byte_nibbles y Hy) as (Hy1 & Hy2 & Ey).
  apply (f_equal unhex) in H1. apply (f_equal unhex) in H2.
  rewrite !(λ n H, proj2 (hex_digit_spec n H)) in H1, H2 by done.
  by rewrite Ex, Ey, H1, H2.
Qed.

Lemma hex_encode_chars b :
  Forall is_byte b → Forall (λ c, is_ascii_alphanumeric c = true) (hex_encode b).
Proof.
  induction 1 as [|x b Hx Hb IH]; [constructor|]. rewrite hex_encode_cons.
  destruct (byte_nibbles x Hx) as (H1 & H2 & _).
  repeat constructor; [by apply hex_digit_spec..|done].
Qed.

(** A character outside a class does not occur in a string of that class. *)
Lemma not_in_class (P : N → bool) c s :
  Forall (λ c, P c = true) s → P c = false → c ∉ s.
Proof. rewrite Forall_forall. intros Hs Hc Hin%Hs. congruence. Qed.

Lemma dec_Z_digits z : 0 <= z → Forall (λ c, is_ascii_digit c = true) (dec_Z z).
Proof.
  intros Hz. unfold dec_Z. apply Z.ltb_ge in Hz as ->. by destruct (dec_N_spec (Z.to_N z)).
Qed.

(** The fields of a request that come from the HTTP layer hold no line feed, and
    the hash and the timestamp fit their types. *)
Record parts_wf (p : SignedRequestParts) : Prop := {
  pw_method : 10%N ∉ srp_method p;
  pw_path : 10%N ∉ srp_path p;
  pw_query : 10%N ∉ srp_canonical_query p;
  pw_hash : Forall is_byte (srp_request_hash p);
  pw_ts : tso_wf (srp_ts p);
}.

Section canonical.
Context `{UuidLaws, Base64Laws}.

Definition canonical_lines (p : SignedRequestParts) : list str :=
  [lit "HEADLINES-SIGN-V1"; srp_method p; srp_path p; srp_canonical_query p;
   hex_encode (srp_request_hash p); uuid_display (srp_key_id p);
   dec_Z (as_u64 (srp_ts p)); b64_encode (srp_nonce p)].

Lemma canonical_split p :
  parts_wf p → split_on 10 (build_canonical_string p) = canonical_lines p.
Proof.
  intros [Hm Hp Hq Hh Ht].
  change (build_canonical_string p) with (join [10%N] (canonical_lines p)).
  apply split_on_join; [done|]. unfold canonical_lines.
  repeat (apply Forall_cons; split); [|done|done|done| | | | |done].
  - by eapply (not_in_class (λ c, negb (c =? 10)%N)); [repeat constructor|].
  - eapply not_in_class; [by apply hex_encode_chars|done].
  - eapply not_in_class; [apply uuid_display_chars|done].
  - apply (not_in_class is_ascii_digit); [|done]. apply dec_Z_digits. apply Ht.
  - eapply not_in_class; [apply b64_encode_chars|done].
Qed.

(** C14. The canonical string is unambiguous: two well-formed requests with
    the same canonical string agree on the method, path, query, body hash, key,
    timestamp and nonce.  So a signature over it binds all of them. *)
Theorem canonical_string_injective p q :
  parts_wf p → parts_wf q → build_canonical_string p = build_canonical_string q →
  srp_method p = srp_method q ∧ srp_path p = srp_path q ∧
  srp_canonical_query p = srp_canonical_query q ∧
  srp_request_hash p = srp_request_hash q ∧ srp_key_id p = srp_key_id q ∧
  srp_ts p = srp_ts q ∧ srp_nonce p = srp_nonce q.
Proof.
  intros Hp Hq Heq. apply (f_equal (split_on 10)) in Heq.
  rewrite !canonical_split in Heq by done.
  injection Heq as Hm Hpa Hqu Hh Hk Ht Hn. split_and!; try done.
  - by apply hex_encode_inj; [apply Hp|apply Hq|].
  - by apply (inj uuid_display).
  - destruct (srp_ts p), (srp_ts q). f_equal. by apply (inj dec_Z).
  - by apply (inj b64_encode).
Qed.
End canonical.

Definition toy_request (path : string) : SignedRequestParts := {|
  srp_method := lit "POST"; srp_path := lit path; srp_canonical_query := [];
  srp_request_hash := replicate 32 171%N; srp_key_id := 9; srp_algo := lit "ed25519";
  srp_ts := from_parts 1000 3; srp_nonce := [1; 2; 3]%N; srp_signature := [] |}.

Lemma toy_request_wf path : 10%N ∉ lit path → parts_wf (toy_request path).
Proof.
  split; simpl; [|done|apply not_elem_of_nil|by repeat constructor|apply from_parts_wf].
  by apply (not_in_class (λ c, negb (c =? 10)%N)); [repeat constructor|].
Qed.

Lemma canonical_string_injective_witness :
  (@build_canonical_string toy_uuid toy_base64 (toy_request "/headlines.v1.A/Get") =
     @build_canonical_string toy_uuid toy_base64 (toy_request "/headlines.v1.A/Get")) ∧
  srp_path (toy_request "/headlines.v1.A/Get") = lit "/headlines.v1.A/Get".
Proof.
  assert (parts_wf (toy_request "/headlines.v1.A/Get")) as Hwf.
  { apply toy_request_wf, (not_in_class (λ c, negb (c =? 10)%N)); [repeat constructor|done]. }
  split; [done|].
  apply (@canonical_string_injective _ toy_uuid_laws _ toy_base64_laws
    (toy_request "/headlines.v1.A/Get") (toy_request "/headlines.v1.A/Get") Hwf Hwf eq_refl).
Defined.

(** ** The canonical query *)

Definition pair_wf (p : str * str) : Prop := 38%N ∉ p.1 ∧ 61%N ∉ p.1 ∧ 38%N ∉ p.2.

Lemma query_pairs_wf raw : Forall pair_wf (query_pairs raw).
Proof.
  unfold query_pairs. apply Forall_fmap, Forall_forall. intros w Hw.
  apply list_elem_of_filter in Hw as [_ Hw].
  pose proof (split_on_pieces 38 raw) as Hp. rewrite Forall_forall in Hp.
  specialize (Hp w Hw). simpl. unfold query_pair, pair_wf.
  destruct (split_once 61 w) as [[k v]|] eqn:Hs; simpl.
  - apply split_once_Some in Hs as [-> Hk]. set_solver.
  - apply split_once_None in Hs. set_solver.
Qed.

(** Parsing what was rendered gives the pairs back. *)
Lemma query_pairs_render pairs :
  Forall pair_wf pairs → query_pairs (render_query pairs) = pairs.
Proof.
  intros Hwf. destruct (decide (pairs = [])) as [->|Hne]; [done|].
  unfold query_pairs, render_query. rewrite split_on_join.
  - rewrite filter_all.
    + rewrite <- list_fmap_compose. rewrite <- (list_fmap_id pairs) at 2.
      apply list_fmap_ext. intros i [k v] Hi. simpl. unfold query_pair.
      rewrite Forall_lookup in Hwf. destruct (Hwf _ _ Hi) as (_ & Hk & _).
      by rewrite split_once_app.
    + intros w (p & -> & _)%list_elem_of_fmap. destruct p as [k v]. by destruct k.
  - by destruct pairs.
  - apply Forall_fmap. eapply Forall_impl; [exact Hwf|].
    intros [k v] (? & ? & ?); simpl in *. set_solver.
Qed.

Lemma key_le_total a b : key_le a b = false → key_le b a = true.
Proof. apply str_leb_total. Qed.
Lemma key_le_trans a b c : key_le a b = true → key_le b c = true → key_le a c = true.
Proof. apply str_leb_trans. Qed.

(** The canonical query lists exactly the pairs of the raw query, sorted
    by key, the values of one key in their original order; and canonicalising is
    idempotent, so client and server agree on it. *)
Theorem canonicalize_query_spec raw :
  let c := canonicalize_query raw in
  query_pairs c ≡ₚ query_pairs raw ∧
  StronglySorted (λ a b, str_leb a.1 b.1 = true) (query_pairs c) ∧
  (∀ k, filter (λ p, p.1 = k) (query_pairs c) = filter (λ p, p.1 = k) (query_pairs raw)) ∧
  canonicalize_query c = c.
Proof.
  intros c.
  assert (Hpairs : query_pairs c = sort_by key_le (query_pairs raw)).
  { unfold c, canonicalize_query. destruct raw as [|x raw]; [done|].
    apply query_pairs_render. rewrite sort_by_perm. apply query_pairs_wf. }
  assert (Hc : c = render_query (query_pairs c)).
  { rewrite Hpairs. unfold c, canonicalize_query. by destruct raw. }
  assert (Hsorted : StronglySorted (λ a b, key_le a b = true) (query_pairs c)).
  { rewrite Hpairs. apply sort_by_sorted; [apply key_le_total|apply key_le_trans]. }
  split_and!.
  - rewrite Hpairs. apply sort_by_perm.
  - exact Hsorted.
  - intros k. rewrite Hpairs. apply sort_by_stable. intros a b Ha Hb.
    unfold key_le. rewrite Ha, Hb. apply str_leb_refl.
  - transitivity (render_query (sort_by key_le (query_pairs c))).
    + unfold canonicalize_query. by destruct c.
    + by rewrite sort_by_id, <- Hc by done.
Qed.

(** ** The header *)

Inductive HeaderItem : Type :=
  | HKeyId (u : Uuid) | HAlgo (a : str) | HTs (t : Tso) | HNonce (b : bytes)
  | HSig (b : bytes).

#[global] Instance header_item_eq_dec : EqDecision HeaderItem.
Proof. solve_decision. Defined.

Definition item_kind (i : HeaderItem) : nat :=
  match i with HKeyId _ => 0 | HAlgo _ => 1 | HTs _ => 2 | HNonce _ => 3 | HSig _ => 4 end.

Definition apply_item (f : Fields) (i : HeaderItem) : Fields :=
  match i with
  | HKeyId u => set_key_id u f
  | HAlgo a => set_algo a f
  | HTs t => set_ts t f
  | HNonce b => set_nonce b f
  | HSig b => set_sig b f
  end.

(** Visible ASCII other than the comma: what a header value may hold. *)
Definition value_char (c : N) : bool := ((33 <=? c) && (c <=? 126) && negb (c =? 44))%N.

Definition item_wf (i : HeaderItem) : Prop :=
  match i with
  | HAlgo a => Forall (λ c, value_char c = true) a
  | HTs t => tso_wf t
  | _ => True
  end.

Lemma value_char_spec c :
  value_char c = true → is_whitespace c = false ∧ c ≠ 44%N ∧ (c <? 128)%N = true.
Proof.
  unfold value_char, is_whitespace. rewrite !andb_true_iff, !N.leb_le, negb_true_iff, N.eqb_neq.
  intros [[??] ?]. rewrite N.ltb_lt. split_and!; [|lia|lia].
  rewrite !orb_false_iff, !andb_false_iff, !N.leb_gt, !N.eqb_neq. lia.
Qed.

Lemma class_value_char (P : N → bool) s :
  (∀ c, P c = true → value_char c = true) →
  Forall (λ c, P c = true) s → Forall (λ c, value_char c = true) s.
Proof. intros HP Hs. eapply Forall_impl; eauto. Qed.

Lemma alnum_value_char c : is_ascii_alphanumeric c = true → value_char c = true.
Proof.
  unfold is_ascii_alphanumeric, is_ascii_digit, is_ascii_lowercase, is_ascii_uppercase, value_char.
  rewrite !orb_true_iff, !andb_true_iff, !N.leb_le, negb_true_iff, N.eqb_neq. lia.
Qed.

Lemma uuid_value_char c : uuid_char c = true → value_char c = true.
Proof.
  unfold uuid_char. rewrite orb_true_iff, N.eqb_eq.
  intros [?| ->]; [by apply alnum_value_char|done].
Qed.

Lemma b64_value_char c : b64_char c = true → value_char c = true.
Proof.
  unfold b64_char. rewrite !orb_true_iff, !N.eqb_eq.
  intros [[[?| ->]| ->]| ->]; [by apply alnum_value_char|done..].
Qed.

Lemma digit_value_char c : is_ascii_digit c = true → value_char c = true.
Proof. intros H. apply alnum_value_char. unfold is_ascii_alphanumeric. by rewrite H. Qed.

Lemma trim_space w : (∀ c, c ∈ w → is_whitespace c = false) → trim (32%N :: w) = trim w.
Proof. done. Qed.

(** Evaluates the comparisons of literals in the goal. *)
Ltac eval_str_tests :=
  repeat match goal with
  | |- context [str_eqb (lit ?a) (lit ?b)] =>
    let r := eval vm_compute in (str_eqb (lit a) (lit b)) in
    change (str_eqb (lit a) (lit b)) with r
  | |- context [str_mem (lit ?a) KNOWN_FIELDS] =>
    let r := eval vm_compute in (str_mem (lit a) KNOWN_FIELDS) in
    change (str_mem (lit a) KNOWN_FIELDS) with r
  end.

Section header.
Context `{UuidLaws, Base64Laws}.

Definition item_key (i : HeaderItem) : str :=
  match i with
  | HKeyId _ => lit "key_id" | HAlgo _ => lit "algo" | HTs _ => lit "ts"
  | HNonce _ => lit "nonce" | HSig _ => lit "sig"
  end.
Definition item_value (i : HeaderItem) : str :=
  match i with
  | HKeyId u => uuid_display u
  | HAlgo a => a
  | HTs t => dec_Z (as_u64 t)
  | HNonce b | HSig b => b64_encode b
  end.
Definition render_item (i : HeaderItem) : str := item_key i ++ 61%N :: item_value i.
Definition render_header (items : list HeaderItem) : str :=
  lit "Signature " ++ join (lit ", ") (render_item <$> items).

Lemma item_value_chars i :
  item_wf i → Forall (λ c, value_char c = true) (item_value i).
Proof.
  destruct i; simpl; intros Hwf.
  - by eapply class_value_char, uuid_display_chars; apply uuid_value_char.
  - done.
  - eapply class_value_char, dec_Z_digits; [apply digit_value_char|apply Hwf].
  - by eapply class_value_char, b64_encode_chars; apply b64_value_char.
  - by eapply class_value_char, b64_encode_chars; apply b64_value_char.
Qed.

Lemma render_item_chars i :
  item_wf i → Forall (λ c, value_char c = true) (render_item i).
Proof.
  intros Hwf. apply Forall_app. split; [destruct i; by repeat constructor|].
  constructor; [done|by apply item_value_chars].
Qed.

Lemma chars_trim w : Forall (λ c, value_char c = true) w → trim w = w.
Proof.
  intros Hw. apply trim_id. intros c Hc. rewrite Forall_forall in Hw.
  by apply value_char_spec, Hw.
Qed.

(** One rendered field, with or without a leading space, is read back. *)
Lemma parse_pair_item f i w :
  item_wf i → w = render_item i ∨ w = 32%N :: render_item i →
  parse_pair f w = Ok (apply_item f i).
Proof.
  intros Hwf Hw. pose proof (render_item_chars i Hwf) as Hr.
  assert (trim w = render_item i) as Htrim.
  { destruct Hw as [->| ->]; [by apply chars_trim|].
    change (trim (render_item i) = render_item i). by apply chars_trim. }
  unfold parse_pair. rewrite Htrim.
  rewrite bool_decide_eq_false_2 by (by destruct i).
  unfold render_item. rewrite split_once_app by (destruct i; by apply (bool_decide_unpack _)).
  cbn [ok_or mbind result_bind].
  rewrite (chars_trim (item_value i)) by by apply item_value_chars.
  assert (trim (item_key i) = item_key i) as -> by by destruct i.
  destruct i as [u|a|t|b|b]; cbn [item_key item_value apply_item]; eval_str_tests;
    cbn [negb]; [| | | |].
  - by rewrite uuid_roundtrip.
  - done.
  - rewrite parse_u64_dec by done. by destruct t.
  - by rewrite b64_roundtrip.
  - by rewrite b64_roundtrip.
Qed.

Lemma parse_pairs_items f items ws :
  Forall item_wf items →
  Forall2 (λ i w, w = render_item i ∨ w = 32%N :: render_item i) items ws →
  parse_pairs f ws = Ok (foldl apply_item f items).
Proof.
  intros Hwf Hws. revert f Hwf. induction Hws as [|i w items ws Hw _ IH]; intros f Hwf;
    simpl; [done|]. inversion Hwf; subst.
  rewrite (parse_pair_item f i w) by done. simpl. by apply IH.
Qed.

(** The pieces between the commas of a rendered header. *)
Lemma split_rendered items :
  items ≠ [] → Forall item_wf items →
  ∃ ws, split_on 44 (join (lit ", ") (render_item <$> items)) = ws ∧
    Forall2 (λ i w, w = render_item i ∨ w = 32%N :: render_item i) items ws.
Proof.
  intros Hne Hwf. eexists; split; [done|].
  assert (Hfresh : ∀ i, item_wf i → 44%N ∉ render_item i).
  { intros i Hi. by eapply not_in_class; [apply render_item_chars|]. }
  assert (Hgo : ∀ items w, Forall item_wf items → 44%N ∉ w →
    ∃ ws, split_on 44 (join (lit ", ") (w :: (render_item <$> items))) = w :: ws ∧
      Forall2 (λ i w, w = render_item i ∨ w = 32%N :: render_item i) items ws).
  { clear items Hne Hwf. intros items. induction items as [|i items IH]; intros w Hwf Hw.
    - exists []. split; [by apply split_on_fresh|constructor].
    - inversion Hwf; subst. cbn [fmap list_fmap].
      destruct (IH (32%N :: render_item i)) as (ws & Hws & Hall); [done|set_solver|].
      exists ((32%N :: render_item i) :: ws). split; [|constructor; [by right|done]].
      rewrite <- Hws, <- (split_on_app 44 w) by done. f_equal.
      cbn [join]. by destruct (render_item <$> items). }
  destruct items as [|i items]; [done|]. inversion Hwf; subst.
  destruct (Hgo items (render_item i)) as (ws & Hws & Hall); [done|by apply Hfresh|].
  cbn [fmap list_fmap]. rewrite Hws. constructor; [by left|done].
Qed.

Lemma parse_rendered items :
  items ≠ [] → Forall item_wf items →
  parse_authorization_header (render_header items) =
    finish (foldl apply_item no_fields items).
Proof.
  intros Hne Hwf. unfold parse_authorization_header.
  assert (is_ascii_str (render_header items) = true) as ->.
  { unfold is_ascii_str, render_header. apply forallb_of_Forall, Forall_app.
    split; [by repeat constructor|]. apply Forall_join; [by repeat constructor|].
    apply Forall_fmap. eapply Forall_impl; [exact Hwf|]. intros i Hi.
    eapply Forall_impl; [by apply render_item_chars|]. intros c Hc.
    by apply value_char_spec in Hc as (_ & _ & ->). }
  cbn [negb]. replace (strip_prefix _ _) with (Some (join (lit ", ") (render_item <$> items)))
    by (symmetry; by apply strip_prefix_some).
  cbn [ok_or mbind result_bind].
  destruct (split_rendered items Hne Hwf) as (ws & -> & Hws).
  by rewrite (parse_pairs_items _ _ _ Hwf Hws).
Qed.

(** Fields of different kinds are independent of their order. *)
Lemma apply_items_perm items items' f :
  items ≡ₚ items' → NoDup (item_kind <$> items) →
  foldl apply_item f items = foldl apply_item f items'.
Proof.
  intros Hp. revert f. induction Hp as [|i l l' _ IH|i j l|l l' l'' Hp1 IH1 _ IH2];
    intros f Hnd; simpl; [done| | |].
  - apply IH. by inversion Hnd.
  - f_equal. simpl in Hnd. apply NoDup_cons in Hnd as [Hne _].
    destruct i, j; try done; set_solver.
  - rewrite IH1 by done. apply IH2. by rewrite <- Hp1.
Qed.

Definition header_items (h : ParsedAuthHeader) : list HeaderItem :=
  [HKeyId (pah_key_id h); HAlgo (pah_algo h); HTs (pah_ts h); HNonce (pah_nonce h);
   HSig (pah_signature h)].

(** Parsing inverts rendering: a header with its five fields in any
    order is read back exactly.  In general the parser returns what the fields
    in the header, read left to right, leave, so a missing field is an error and
    of two fields of one name the later one counts. *)
Theorem authorization_header_roundtrip h items :
  items ≡ₚ header_items h →
  Forall (λ c, value_char c = true) (pah_algo h) → tso_wf (pah_ts h) →
  parse_authorization_header (render_header items) = Ok h ∧
  ∀ more, Forall item_wf more →
    parse_authorization_header (render_header (items ++ more)) =
      finish (foldl apply_item no_fields (header_items h ++ more)).
Proof.
  intros Hp Ha Ht.
  assert (Hwf : Forall item_wf items).
  { rewrite Hp. unfold header_items. rewrite !Forall_cons, Forall_nil. done. }
  assert (Hne : items ≠ []).
  { intros ->. by apply Permutation_nil in Hp. }
  assert (Hnd : NoDup (item_kind <$> items)).
  { rewrite Hp. apply (bool_decide_unpack _). by vm_compute. }
  split.
  - rewrite parse_rendered, (apply_items_perm items (header_items h)) by done.
    by destruct h.
  - intros more Hmore. rewrite parse_rendered; [|by destruct items|by apply Forall_app].
    by rewrite !foldl_app, (apply_items_perm items (header_items h)) by done.
Qed.
End header.

Definition toy_header : ParsedAuthHeader :=
  {| pah_key_id := 77; pah_algo := lit "ed25519"; pah_ts := from_parts 5 1;
     pah_nonce := [1; 0]%N; pah_signature := [2]%N |}.
Definition toy_items : list HeaderItem :=
  [HSig [2]%N; HAlgo (lit "ed25519"); HTs (from_parts 5 1); HNonce [1; 0]%N; HKeyId 77].

Lemma authorization_header_roundtrip_witness :
  @render_header toy_uuid toy_base64 toy_items =
    lit "Signature sig=AAB, algo=ed25519, ts=1310721, nonce=ABB, key_id=77" ∧
  @parse_authorization_header toy_uuid toy_base64
    (@render_header toy_uuid toy_base64 toy_items) = Ok toy_header.
Proof.
  split; [by vm_compute|].
  refine (proj1 (@authorization_header_roundtrip _ toy_uuid_laws _ toy_base64_laws
    toy_header toy_items _ _ _)).
  - apply (bool_decide_unpack _). by vm_compute.
  - unfold toy_header. simpl. by repeat constructor.
  - apply from_parts_wf.
Defined.
