(* ===== verification/Strategy.v ===== *)
(** * Signed-request authentication ([headlines-auth/src/strategy.rs] second half,
    [algo/mod.rs], [metrics.rs])

    The algorithm registry, the key resolver, and [authenticate]: resolve the
    key, match the algorithm, verify the signature over the canonical string,
    validate the timestamp, record the nonce.  The resolver, the time source and
    the nonce store are interfaces; the in-memory implementations are instances. *)

From S2P Require Import Prelude Libs Instances Tso Subject Errors TimeSource Nonce Wire.

(** ** Signature algorithms *)

(** [dyn SignatureAlgorithm]: its name and its [verify]. *)
Definition Verify := bytes → bytes → bytes → result VerifyError ().
Record SignatureAlgorithm := { alg_name : str; alg_verify : Verify }.

Section ed25519.
Context `{CryptoLib}.

(** [Ed25519::verify] *)
Definition ed25519_verify_impl (public_key canonical signature : bytes) :
    result VerifyError () :=
  if negb (bool_decide (length public_key = 32%nat)) then
    Err (MalformedKey (lit "expected 32 bytes, got " ++ dec_nat (length public_key)))
  else
    verifying_key ← map_err MalformedKey (verifying_key_from_bytes public_key);
    if negb (bool_decide (length signature = 64%nat)) then Err MalformedSignature
    else if ed25519_verify verifying_key canonical signature then Ok ()
    else Err BadSignature.

Definition Ed25519 : SignatureAlgorithm :=
  {| alg_name := lit "ed25519"; alg_verify := ed25519_verify_impl |}.
End ed25519.

(** [AlgorithmRegistry] *)
Definition AlgorithmRegistry := gmap str SignatureAlgorithm.
Definition registry_new : AlgorithmRegistry := ∅.
Definition registry_with (algo : SignatureAlgorithm) (r : AlgorithmRegistry) :
    AlgorithmRegistry := <[alg_name algo := algo]> r.
Definition registry_with_default `{CryptoLib} (r : AlgorithmRegistry) : AlgorithmRegistry :=
  <[lit "ed25519" := Ed25519]> r.
Definition registry_get (name : str) (r : AlgorithmRegistry) : option SignatureAlgorithm :=
  r !! name.

(** ** Key resolution *)

Record ResolvedKey := { rk_algo : str; rk_public_key : bytes; rk_subject : Subject }.
Inductive ResolveError : Type := ResolveNotFound | Revoked | ResolveInternal (msg : str).

(** [KeyResolver] *)
Class KeyResolver (R : Type) := resolve : R → Uuid → result ResolveError ResolvedKey.

(** [InMemoryKeyResolver] *)
Record KeyEntry :=
  { ke_algo : str; ke_public_key : bytes; ke_subject : Subject; ke_revoked : bool }.
Definition InMemoryKeyResolver := gmap Uuid KeyEntry.
Definition key_insert (key_id : Uuid) (algo : str) (public_key : bytes) (subject : Subject)
    (r : InMemoryKeyResolver) : InMemoryKeyResolver :=
  <[key_id := {| ke_algo := algo; ke_public_key := public_key; ke_subject := subject;
                 ke_revoked := false |}]> r.
Definition key_insert_revoked (key_id : Uuid) (algo : str) (public_key : bytes)
    (subject : Subject) (r : InMemoryKeyResolver) : InMemoryKeyResolver :=
  <[key_id := {| ke_algo := algo; ke_public_key := public_key; ke_subject := subject;
                 ke_revoked := true |}]> r.
#[global] Instance in_memory_resolve : KeyResolver InMemoryKeyResolver := λ r key_id,
  entry ← ok_or ResolveNotFound (r !! key_id);
  if ke_revoked entry then Err Revoked
  else Ok {| rk_algo := ke_algo entry; rk_public_key := ke_public_key entry;
             rk_subject := ke_subject entry |}.

(** ** The other interfaces *)

(** [TimeSource::validate] at one instant. *)
Class TimeSource (T : Type) := validate : T → Tso → result TimeError ().

(** The running [InProcessTso] as [validate] sees it: the wall reading, the
    atomic word, the horizon. *)
Record TsoNow := { tn_wall : Z; tn_last : Z; tn_horizon_ms : Z }.
#[global] Instance in_process_validate : TimeSource TsoNow := λ t ts,
  validate_sync (tn_wall t) (tn_last t) (tn_horizon_ms t) ts.
Record LocalNow := { ln_timestamp_millis : Z; ln_horizon : Z }.
#[global] Instance local_clock_validate : TimeSource LocalNow := λ t ts,
  local_validate (ln_timestamp_millis t) (ln_horizon t) ts.

(** [NonceStore::record] *)
Class NonceStoreI (N : Type) :=
  record_nonce : N → Uuid → bytes → Tso → result NonceError () * N.
#[global] Instance in_memory_record `{LruLib NonceKey Tso} : NonceStoreI NonceStore := record.

(** ** [SignedRequestStrategy::authenticate] *)

Definition unauth (s : string) : AuthError := AuthUnauthenticated (lit s).

Section authenticate.
Context `{UuidLib, Base64Lib} {R T N : Type} `{KeyResolver R, TimeSource T, NonceStoreI N}.

Record SignedRequestStrategy := {
  srs_resolver : R;
  srs_algos : AlgorithmRegistry;
  srs_time_source : T;
}.

Definition resolve_error (e : ResolveError) : AuthError :=
  match e with
  | ResolveNotFound => unauth "unknown_key"
  | Revoked => unauth "key revoked"
  | ResolveInternal e => AuthUnauthenticated (lit "resolver: " ++ e)
  end.
Definition verify_error (e : VerifyError) : AuthError :=
  match e with
  | BadSignature => unauth "bad_signature"
  | MalformedKey _ => unauth "malformed_key"
  | MalformedSignature => unauth "malformed_signature"
  end.
Definition time_error (e : TimeError) : AuthError :=
  match e with
  | OutsideHorizon => unauth "expired"
  | NonMonotonic => unauth "future_ts"
  | TimeInternal s => AuthUnauthenticated (lit "time: " ++ s)
  end.
Definition nonce_error (e : NonceError) : AuthError :=
  match e with
  | Replay => unauth "replay"
  | Capacity => unauth "nonce_store_full"
  | NonceInternal s => AuthUnauthenticated (lit "nonce: " ++ s)
  end.

(** Steps 1 to 6, which do not touch the nonce store. *)
Definition check_request (self : SignedRequestStrategy) (parts : SignedRequestParts) :
    result AuthError Subject :=
  resolved ← map_err resolve_error (resolve (srs_resolver self) (srp_key_id parts));
  if negb (str_eqb (srp_algo parts) (rk_algo resolved)) then Err (unauth "algo_mismatch")
  else
    algo ← ok_or (unauth "unsupported_algo") (registry_get (srp_algo parts) (srs_algos self));
    let canonical := build_canonical_string parts in
    _ ← map_err verify_error
          (alg_verify algo (rk_public_key resolved) (as_bytes canonical)
             (srp_signature parts));
    _ ← map_err time_error (validate (srs_time_source self) (srp_ts parts));
    Ok (rk_subject resolved).

(** [authenticate_inner] *)
Definition authenticate (self : SignedRequestStrategy) (nonce_store : N)
    (parts : SignedRequestParts) : result AuthError Subject * N :=
  match check_request self parts with
  | Err e => (Err e, nonce_store)
  | Ok subject =>
    let '(r, nonce_store) :=
      record_nonce nonce_store (srp_key_id parts) (srp_nonce parts) (srp_ts parts) in
    match r with
    | Err e => (Err (nonce_error e), nonce_store)
    | Ok () => (Ok subject, nonce_store)
    end
  end.

(** Everything a request must satisfy to be authenticated as [subject]. *)
Record authentic (self : SignedRequestStrategy) (parts : SignedRequestParts)
    (key : ResolvedKey) (algo : SignatureAlgorithm) : Prop := {
  au_key : resolve (srs_resolver self) (srp_key_id parts) = Ok key;
  au_algo : srp_algo parts = rk_algo key;
  au_enabled : srs_algos self !! srp_algo parts = Some algo;
  au_signature :
    alg_verify algo (rk_public_key key) (as_bytes (build_canonical_string parts))
      (srp_signature parts) = Ok ();
  au_fresh : validate (srs_time_source self) (srp_ts parts) = Ok ();
}.

Lemma check_request_ok self parts subject :
  check_request self parts = Ok subject ↔
  ∃ key algo, authentic self parts key algo ∧ subject = rk_subject key.
Proof.
  unfold check_request, registry_get. split.
  - destruct (resolve _ _) as [key|] eqn:Hk; simpl; [|done].
    destruct (str_eqb _ _) eqn:Ha; simpl; [|done]. apply str_eqb_eq in Ha.
    destruct (srs_algos self !! _) as [algo|] eqn:He; simpl; [|done].
    destruct (alg_verify _ _ _ _) as [[]|] eqn:Hv; simpl; [|done].
    destruct (validate _ _) as [[]|] eqn:Ht; simpl; [|done].
    intros [= <-]. by exists key, algo.
  - intros (key & algo & [-> Ha -> Hv Ht] & ->). simpl.
    apply str_eqb_eq in Ha as ->. simpl. rewrite Hv. simpl. by rewrite Ht.
Qed.

Lemma check_request_err self parts e :
  check_request self parts = Err e → ∃ msg, e = AuthUnauthenticated msg.
Proof.
  unfold check_request.
  destruct (resolve _ _) as [key|e1]; simpl; [|intros [= <-]; destruct e1; by eexists].
  destruct (str_eqb _ _); simpl; [|intros [= <-]; by eexists].
  destruct (registry_get _ _) as [algo|]; simpl; [|intros [= <-]; by eexists].
  destruct (alg_verify _ _ _ _) as [[]|e2]; simpl; [|intros [= <-]; destruct e2; by eexists].
  destruct (validate _ _) as [[]|e3]; simpl; [done|intros [= <-]; destruct e3; by eexists].
Qed.

(** C11. A request is authenticated, as the subject its key belongs to, exactly
    when the key resolves, its algorithm is the key's and enabled, the signature
    over the canonical string verifies under the key, the timestamp is valid and
    the nonce is recorded; every failure is [Unauthenticated]; and a request that
    fails any of the earlier checks leaves the nonce store as it was, so an
    unsigned request cannot use up a nonce. *)
Theorem authenticate_spec self store parts :
  let '(r, store') := authenticate self store parts in
  (∀ subject, r = Ok subject ↔
     ∃ key algo, authentic self parts key algo ∧ subject = rk_subject key ∧
       record_nonce store (srp_key_id parts) (srp_nonce parts) (srp_ts parts)
         = (Ok (), store')) ∧
  (∀ e, r = Err e → ∃ msg, e = AuthUnauthenticated msg) ∧
  (store' ≠ store → ∃ key algo, authentic self parts key algo).
Proof.
  unfold authenticate. pose proof (check_request_ok self parts) as Hok.
  pose proof (check_request_err self parts) as Herr.
  destruct (check_request self parts) as [subject|e].
  - destruct (proj1 (Hok subject) eq_refl) as (key & algo & Hauth & Hs).
    destruct (record_nonce _ _ _ _) as [[[]|e] store'] eqn:Hr; split_and!.
    + intros subject'. split.
      * intros [= <-]. by exists key, algo.
      * intros (key' & algo' & Hauth' & -> & _). f_equal.
        pose proof (au_key _ _ _ _ Hauth). pose proof (au_key _ _ _ _ Hauth'). congruence.
    + done.
    + by exists key, algo.
    + intros subject'. split; [done|]. by intros (? & ? & _ & _ & ?).
    + intros ? [= <-]. destruct e; by eexists.
    + by exists key, algo.
  - split_and!; [|intros ? [= <-]; by apply Herr|done].
    intros subject. split; [done|]. intros (key & algo & Hauth & -> & _).
    destruct (Hok (rk_subject key)) as [_ Hok']. discriminate Hok'. by exists key, algo.
Qed.
End authenticate.

(** ** [classify_auth_error] *)

Definition classify_auth_error (err : AuthError) : str :=
  match err with
  | AuthUnauthenticated s =>
    if str_contains (lit "unknown key") s || str_contains (lit "unknown_key") s then
      lit "unknown_key"
    else if str_contains (lit "algo") s then lit "algo_mismatch"
    else if str_contains (lit "subject") s then lit "subject_mismatch"
    else if str_contains (lit "nonce_store_full") s then lit "nonce_store_full"
    else lit "unauthenticated_other"
  | AuthVerify BadSignature => lit "bad_signature"
  | AuthVerify (MalformedKey _) => lit "malformed_key"
  | AuthVerify MalformedSignature => lit "malformed_signature"
  | AuthTime OutsideHorizon => lit "expired"
  | AuthTime NonMonotonic => lit "non_monotonic"
  | AuthTime (TimeInternal _) => lit "internal_time"
  | AuthNonce Replay => lit "replay"
  | AuthNonce Capacity => lit "nonce_store_full"
  | AuthNonce (NonceInternal _) => lit "internal_nonce"
  end.

(** What the metrics can ever see of the strategy: since every failure is
    an [Unauthenticated] string, the label of a failed authentication is one of
    five; a bad signature, a replay and an expired timestamp are all counted as
    [unauthenticated_other], and the labels of their own that the classifier and
    the documentation list are never produced. *)
Theorem strategy_labels `{UuidLib, Base64Lib, KeyResolver R, TimeSource T, NonceStoreI N}
    (self : SignedRequestStrategy) (store : N) parts :
  match (authenticate self store parts).1 with
  | Ok _ => True
  | Err e => classify_auth_error e ∈
      (lit <$> ["unknown_key"; "algo_mismatch"; "subject_mismatch"; "nonce_store_full";
                "unauthenticated_other"]%string)
  end ∧
  classify_auth_error (verify_error BadSignature) = lit "unauthenticated_other" ∧
  classify_auth_error (nonce_error Replay) = lit "unauthenticated_other" ∧
  classify_auth_error (time_error OutsideHorizon) = lit "unauthenticated_other" ∧
  classify_auth_error (nonce_error Capacity) = lit "nonce_store_full" ∧
  classify_auth_error (unauth "unsupported_algo") = lit "algo_mismatch".
Proof.
  split; [|split_and!; by vm_compute].
  assert (Hmsg : ∀ e : AuthError, (authenticate self store parts).1 = Err e →
                 ∃ msg, e = AuthUnauthenticated msg).
  { unfold authenticate. pose proof (check_request_err self parts) as Herr.
    destruct (check_request self parts) as [subject|e'].
    - destruct (record_nonce _ _ _ _) as [[[]|e'] store']; [done|].
      intros e [= <-]. destruct e'; by eexists.
    - intros e [= <-]. by apply Herr. }
  destruct (authenticate self store parts).1 as [|e]; [done|].
  destruct (Hmsg e eq_refl) as [msg ->]. unfold classify_auth_error.
  cbn [fmap list_fmap]. rewrite !elem_of_cons.
  destruct (_ || _); [by left|]. destruct (str_contains _ _); [by right; left|].
  destruct (str_contains _ _); [by right; right; left|].
  destruct (str_contains _ _); [by right; right; right; left|].
  by right; right; right; right; left.
Qed.
