(* ===== verification/Interceptor.v ===== *)
(** * The request pipeline in front of every service
    ([headlines-auth/src/interceptor.rs], [authorize.rs], the two layer stacks of
    [headlines-server/src/main.rs])

    The public listener strips the trusted-subject header, authenticates signed
    requests and lets unsigned ones through as anonymous; the trusted listener
    lifts the subject the REST gateway resolved; the authorization layer behind
    both checks the subject against the table entry of the RPC. *)

From S2P Require Import Prelude Libs Instances Tso Subject Errors TimeSource Nonce Wire Strategy.

(** ** HTTP requests

    A header value is kept as the text [HeaderValue::to_str] gives, if any.  The
    body either can be collected or fails while it is read.  The only extension
    the layers use is the [Subject]. *)
Abbreviation HeaderMap := (gmap str (list (option str))).
Record Request := {
  rq_method : str;
  rq_path : str;
  rq_query : option str;
  rq_headers : HeaderMap;
  rq_body : result () bytes;
  rq_subject : option Subject;
}.

Definition header_get (name : str) (h : HeaderMap) : option (option str) :=
  values ← h !! name; head values.
Definition with_headers (h : HeaderMap) (r : Request) : Request :=
  {| rq_method := rq_method r; rq_path := rq_path r; rq_query := rq_query r;
     rq_headers := h; rq_body := rq_body r; rq_subject := rq_subject r |}.
Definition with_subject (s : Subject) (r : Request) : Request :=
  {| rq_method := rq_method r; rq_path := rq_path r; rq_query := rq_query r;
     rq_headers := rq_headers r; rq_body := rq_body r; rq_subject := Some s |}.
Definition with_body (b : bytes) (r : Request) : Request :=
  {| rq_method := rq_method r; rq_path := rq_path r; rq_query := rq_query r;
     rq_headers := rq_headers r; rq_body := Ok b; rq_subject := rq_subject r |}.

(** What the client gets: the inner service's answer or a status built here. *)
Inductive Response (A : Type) : Type :=
  | FromService (a : A)
  | UnauthResponse (msg : str)
  | Deny (msg : str).
Arguments FromService {A} _.
Arguments UnauthResponse {A} _.
Arguments Deny {A} _.

Definition TRUSTED_SUBJECT_HEADER : str := lit "x-headlines-trusted-subject".
Definition AUTHORIZATION : str := lit "authorization".

(** ** Body hashing *)

Inductive BodyHashError : Type := CompressedFrame.

(** [BodyHasher] *)
Definition BodyHasher := bytes → result BodyHashError bytes.
Definition NoopBodyHasher : BodyHasher := λ _, Ok (replicate 32 0%N).

(** [ProtoBodyHasher::hash] *)
Definition ProtoBodyHasher `{CryptoLib} : BodyHasher := λ body_bytes,
  if (length body_bytes <? 5)%nat then Ok (sha256 body_bytes)
  else match body_bytes with
       | 0%N :: _ => Ok (sha256 (drop 5 body_bytes))
       | _ => Err CompressedFrame
       end.

(** [hash_proto_request] on the encoded message, and the gRPC framing of it. *)
Definition hash_proto_request `{CryptoLib} (encoded : bytes) : bytes := sha256 encoded.
Definition grpc_frame (compressed : N) (len : bytes) (payload : bytes) : bytes :=
  compressed :: len ++ payload.

(** ** The layers *)

Section layers.
Context `{UuidLib, Base64Lib} {N : Type}.
(** [DynAuthStrategy]: the strategy with its nonce store. *)
Variable strategy : N → SignedRequestParts → result AuthError Subject * N.
Variable hasher : BodyHasher.

(** The [SignedRequestParts] the interceptor builds. *)
Definition signed_parts (req : Request) (parsed : ParsedAuthHeader) (hash : bytes) :
    SignedRequestParts :=
  {| srp_method := rq_method req; srp_path := rq_path req;
     srp_canonical_query := canonicalize_query (default [] (rq_query req));
     srp_request_hash := hash;
     srp_key_id := pah_key_id parsed; srp_algo := pah_algo parsed;
     srp_ts := pah_ts parsed; srp_nonce := pah_nonce parsed;
     srp_signature := pah_signature parsed |}.

(** [AuthInterceptorService::call]: the response, the nonce store, and the
    labels recorded on the counter. *)
Definition auth_interceptor {A} (inner : Request → Response A) (store : N)
    (req : Request) : Response A * N * list str :=
  let req := with_headers (delete TRUSTED_SUBJECT_HEADER (rq_headers req)) req in
  let header_val := mjoin (header_get AUTHORIZATION (rq_headers req)) in
  match header_val with
  | None => (inner (with_subject Anonymous req), store, [])
  | Some value =>
    match parse_authorization_header value with
    | Err _ =>
      (UnauthResponse (lit "malformed_authorization_header"), store,
       [lit "malformed_header"])
    | Ok parsed =>
      match rq_body req with
      | Err _ => (UnauthResponse (lit "body_read_failed"), store, [lit "body_read_failed"])
      | Ok collected =>
        match hasher collected with
        | Err CompressedFrame =>
          (UnauthResponse (lit "compressed_frame_not_supported"), store,
           [lit "compressed_frame"])
        | Ok request_hash =>
          let req := with_body collected req in
          let '(r, store) := strategy store (signed_parts req parsed request_hash) in
          match r with
          | Ok subject => (inner (with_subject subject req), store, [lit "ok"])
          | Err e =>
            (UnauthResponse (auth_error_display e), store, [classify_auth_error e])
          end
        end
      end
    end
  end.

(** [TrustedSubjectInterceptorService::call]; [from_json] is the deserialiser
    [serde] derives for [Subject]. *)
Definition trusted_interceptor {A} (from_json : str → option Subject)
    (inner : Request → Response A) (req : Request) : Response A :=
  match header_get TRUSTED_SUBJECT_HEADER (rq_headers req) with
  | None => UnauthResponse (lit "missing_trusted_subject_header")
  | Some None => UnauthResponse (lit "malformed_trusted_subject_header")
  | Some (Some raw) =>
    match from_json raw with
    | None => UnauthResponse (lit "malformed_trusted_subject_header")
    | Some subject =>
      let req := with_headers (delete TRUSTED_SUBJECT_HEADER (rq_headers req)) req in
      inner (with_subject subject req)
    end
  end.

(** [AuthorizationService::call] *)
Definition authorization {A} (table : str → option AuthSpec)
    (inner : Request → Response A) (req : Request) : Response A :=
  let subject := default Anonymous (rq_subject req) in
  match table (rq_path req) with
  | None => Deny (lit "no auth spec for RPC")
  | Some spec =>
    if is_allowed subject spec then inner req
    else Deny (lit "subject not permitted for RPC")
  end.

(** The public and the trusted listener's stacks (main.rs). *)
Definition public_stack {A} (table : str → option AuthSpec) (service : Request → A)
    (store : N) (req : Request) : Response A * N * list str :=
  auth_interceptor (authorization table (λ r, FromService (service r))) store req.
Definition trusted_stack {A} (from_json : str → option Subject)
    (table : str → option AuthSpec) (service : Request → A) (req : Request) : Response A :=
  trusted_interceptor from_json (authorization table (λ r, FromService (service r))) req.

(** How a public request got its subject. *)
Inductive identified (store : N) (req : Request) : Subject → N → Prop :=
  | identified_anonymous :
      mjoin (header_get AUTHORIZATION (rq_headers req)) = None →
      identified store req Anonymous store
  | identified_signed value parsed body hash subject store' :
      mjoin (header_get AUTHORIZATION (rq_headers req)) = Some value →
      parse_authorization_header value = Ok parsed →
      rq_body req = Ok body → hasher body = Ok hash →
      strategy store (signed_parts req parsed hash) = (Ok subject, store') →
      identified store req subject store'.

(** Dropping the trusted header leaves the credentials alone; the layer that authorizes
    does not answer as the one that authenticates; and no failure is labelled a success. *)
Lemma authorization_header_kept (headers : HeaderMap) :
  header_get AUTHORIZATION (delete TRUSTED_SUBJECT_HEADER headers) = header_get AUTHORIZATION headers.
Proof. unfold header_get. by rewrite lookup_delete_ne by by vm_compute. Qed.
Lemma authorization_answers {A} table (service : Request → A) req msg :
  authorization table (λ r, FromService (service r)) req ≠ UnauthResponse msg.
Proof. unfold authorization. destruct (table _) as [spec|]; [by destruct (is_allowed _ _)|done]. Qed.
Lemma classify_not_ok e : classify_auth_error e ≠ lit "ok".
Proof. unfold classify_auth_error. by repeat case_match. Qed.

(** What the public stack records: nothing for a request without credentials, else one
    outcome, [ok] exactly when the layer that authenticates let it through. *)
Lemma public_stack_labels {A} table (service : Request → A) store req :
  let '(r, _, labels) := public_stack table service store req in
  match mjoin (header_get AUTHORIZATION (rq_headers req)) with
  | None => labels = [] ∧ ∀ msg, r ≠ UnauthResponse msg
  | Some _ => ∃ label, labels = [label] ∧ (label = lit "ok" ↔ ∀ msg, r ≠ UnauthResponse msg)
  end.
Proof.
  unfold public_stack, auth_interceptor. cbn [rq_headers with_headers rq_body].
  rewrite authorization_header_kept.
  assert (Hrefused : ∀ label msg, label ≠ lit "ok" → ∃ l, [label] = [l] ∧
    (l = lit "ok" ↔ ∀ msg', UnauthResponse (A := A) msg ≠ UnauthResponse msg')).
  { intros label msg Hl. exists label. split; [done|]. split; [done|].
    intros Hn. by destruct (Hn msg). }
  destruct (mjoin _) as [value|]; [|by split; [|intros; apply authorization_answers]].
  destruct (parse_authorization_header value) as [parsed|]; [|by apply Hrefused].
  destruct (rq_body req) as [body|]; [|by apply Hrefused].
  destruct (hasher body) as [hash|[]]; [|by apply Hrefused].
  destruct (strategy _ _) as [[subject|e] s']; [|apply Hrefused, classify_not_ok].
  exists (lit "ok"). split; [done|]. split; [|done]. intros _ msg. apply authorization_answers.
Qed.

(** A request the strategy turns down is answered with the strategy's message. *)
Lemma public_stack_refuses {A} table (service : Request → A) store req value parsed body hash e store' :
  mjoin (header_get AUTHORIZATION (rq_headers req)) = Some value →
  parse_authorization_header value = Ok parsed →
  rq_body req = Ok body → hasher body = Ok hash →
  strategy store (signed_parts req parsed hash) = (Err e, store') →
  public_stack table service store req =
    (UnauthResponse (auth_error_display e), store', [classify_auth_error e]).
Proof.
  intros Hv Hp Hb Hh Hs. unfold public_stack, auth_interceptor. cbn [rq_headers with_headers rq_body].
  rewrite authorization_header_kept, Hv, Hp, Hb, Hh.
  set (seen := with_body body _). change (signed_parts seen parsed hash) with (signed_parts req parsed hash).
  by rewrite Hs.
Qed.

(** The whole public stack: the service is reached by a permitted subject, identified as
    above, or the request stopped in front of it, having touched the strategy's state at
    most. *)
Lemma public_stack_cases table store req :
  let '(r, store', _) := public_stack table (λ r, r) store req in
  match r with
  | FromService seen =>
    ∃ subject spec,
      rq_subject seen = Some subject ∧ identified store req subject store' ∧
      table (rq_path req) = Some spec ∧ is_allowed subject spec = true ∧
      rq_headers seen !! TRUSTED_SUBJECT_HEADER = None ∧ rq_path seen = rq_path req
  | _ =>
    store' = store ∨
    ∃ value parsed body hash,
      mjoin (header_get AUTHORIZATION (rq_headers req)) = Some value ∧
      parse_authorization_header value = Ok parsed ∧
      rq_body req = Ok body ∧ hasher body = Ok hash ∧
      store' = (strategy store (signed_parts req parsed hash)).2
  end.
Proof.
  unfold public_stack, auth_interceptor. cbn [rq_headers with_headers rq_body].
  rewrite authorization_header_kept.
  assert (Hinner : ∀ subject r, rq_path r = rq_path req →
    rq_headers r = delete TRUSTED_SUBJECT_HEADER (rq_headers req) →
    match authorization table (λ r, FromService r) (with_subject subject r) with
    | FromService seen =>
      ∃ spec, rq_subject seen = Some subject ∧ table (rq_path req) = Some spec ∧
        is_allowed subject spec = true ∧
        rq_headers seen !! TRUSTED_SUBJECT_HEADER = None ∧ rq_path seen = rq_path req
    | _ => True
    end).
  { intros subject r Hp Hh. unfold authorization. simpl. rewrite Hp.
    destruct (table _) as [spec|]; [|done]. destruct (is_allowed _ _) eqn:Ha; [|done].
    exists spec. simpl. rewrite Hh, Hp. by rewrite lookup_delete_eq. }
  destruct (mjoin _) as [value|] eqn:Hv.
  - destruct (parse_authorization_header value) as [parsed|] eqn:Hparse; [|by left].
    destruct (rq_body req) as [body|] eqn:Hb; [|by left].
    destruct (hasher body) as [hash|[]] eqn:Hh; [|by left].
    set (seen := with_body body (with_headers (delete TRUSTED_SUBJECT_HEADER (rq_headers req)) req)).
    assert (Hparts : signed_parts seen parsed hash = signed_parts req parsed hash) by done.
    rewrite Hparts. destruct (strategy _ _) as [[subject|e] s'] eqn:Hs.
    + specialize (Hinner subject seen eq_refl eq_refl).
      destruct (authorization _ _ _) as [r|msg|msg].
      * destruct Hinner as (spec & ? & ? & ? & ? & ?). exists subject, spec.
        split_and!; try done. by econstructor.
      * right. exists value, parsed, body, hash. by rewrite Hs.
      * right. exists value, parsed, body, hash. by rewrite Hs.
    + right. exists value, parsed, body, hash. by rewrite Hs.
  - specialize (Hinner Anonymous (with_headers (delete TRUSTED_SUBJECT_HEADER (rq_headers req)) req) eq_refl eq_refl).
    destruct (authorization _ _ _) as [r|msg|msg]; [|by left|by left].
    destruct Hinner as (spec & ? & ? & ? & ? & ?). exists Anonymous, spec.
    split_and!; try done. by constructor.
Qed.

(** C3. On the public listener a service runs only for a request whose RPC
    has a table entry that permits the subject, and the subject is [Anonymous]
    when there is no readable [Authorization] header, else the one the strategy
    returned for exactly this method, path, query and body; the service never
    sees the trusted-subject header. *)
Theorem public_stack_guards_service table store req store' labels seen :
  public_stack table (λ r, r) store req = (FromService seen, store', labels) →
  ∃ subject spec,
    rq_subject seen = Some subject ∧ identified store req subject store' ∧
    table (rq_path req) = Some spec ∧ is_allowed subject spec = true ∧
    rq_headers seen !! TRUSTED_SUBJECT_HEADER = None ∧ rq_path seen = rq_path req.
Proof.
  intros Hr. pose proof (public_stack_cases table store req) as Hc. rewrite Hr in Hc. exact Hc.
Qed.

(** Nothing the client puts into the trusted-subject header has any
    effect on the public listener: response, nonce store and metrics are those
    of the request without it. *)
Theorem trusted_header_ignored {A} table (service : Request → A) store req values :
  public_stack table service store
    (with_headers (<[TRUSTED_SUBJECT_HEADER := values]> (rq_headers req)) req) =
  public_stack table service store
    (with_headers (delete TRUSTED_SUBJECT_HEADER (rq_headers req)) req).
Proof.
  unfold public_stack, auth_interceptor. cbn [rq_headers with_headers].
  rewrite delete_insert_eq, delete_delete_eq.
  reflexivity.
Qed.
End layers.

(** ** A signed request through the public stack *)

Section example.
#[local] Existing Instances toy_uuid toy_base64 toy_crypto toy_cache.

Definition example_key : bytes := replicate 32 5%N.
Definition example_subject : Subject := User 40 9.
Definition example_self : SignedRequestStrategy := {|
  srs_resolver := key_insert 9 (lit "ed25519") example_key example_subject ∅;
  srs_algos := registry_with_default registry_new;
  srs_time_source := {| tn_wall := 1000; tn_last := 0; tn_horizon_ms := 30000 |};
|}.
Definition example_body : bytes := grpc_frame 0 [0; 0; 0; 2]%N [8; 1]%N.
Definition example_table : str → option AuthSpec :=
  table_lookup [(lit "/headlines.v1.DraftService/GetDraft",
                 {| allowed := [CUserSelf; CSystem]; spec_scopes := [] |})].
Definition example_parts (sig : bytes) : SignedRequestParts := {|
  srp_method := lit "POST"; srp_path := lit "/headlines.v1.DraftService/GetDraft";
  srp_canonical_query := []; srp_request_hash := hash_proto_request [8; 1]%N;
  srp_key_id := 9; srp_algo := lit "ed25519"; srp_ts := from_parts 990 0;
  srp_nonce := [7]%N; srp_signature := sig |}.
Definition example_signature : bytes :=
  replicate 64 (byte_sum (example_key ++ as_bytes (build_canonical_string (example_parts [])))).
Definition example_request : Request := {|
  rq_method := lit "POST"; rq_path := lit "/headlines.v1.DraftService/GetDraft";
  rq_query := None;
  rq_headers :=
    <[AUTHORIZATION := [Some (render_header
        [HKeyId 9; HAlgo (lit "ed25519"); HTs (from_parts 990 0); HNonce [7]%N;
         HSig example_signature])]]>
    {[TRUSTED_SUBJECT_HEADER := [Some (lit "forged")]]};
  rq_body := Ok example_body; rq_subject := None |}.
Definition example_strategy := authenticate (N := NonceStore) example_self.
Definition example_result : Response Request * NonceStore * list str :=
  public_stack example_strategy ProtoBodyHasher example_table (λ r, r) default_store
    example_request.
Definition is_served {A} (r : Response A) : bool :=
  match r with FromService _ => true | _ => false end.
Definition example_seen : Request :=
  match example_result.1.1 with FromService r => r | _ => example_request end.

Lemma public_stack_guards_service_witness :
  rq_subject example_seen = Some example_subject ∧
  ∃ subject spec, rq_subject example_seen = Some subject ∧
    identified example_strategy ProtoBodyHasher default_store example_request subject
      example_result.1.2 ∧
    is_allowed subject spec = true ∧
    example_result.2 = [lit "ok"].
Proof.
  assert (is_served example_result.1.1 = true ∧ example_result.2 = [lit "ok"] ∧
          rq_subject example_seen = Some example_subject) as (Hs & Hl & Hsub)
    by by vm_compute.
  unfold example_seen in *. remember example_result as res eqn:Hrun.
  destruct res as [[[seen|msg|msg] store'] labels]; [|discriminate Hs..].
  cbn [fst snd] in *. split; [exact Hsub|].
  destruct (public_stack_guards_service _ _ _ _ _ _ _ _ (eq_sym Hrun))
    as (subject & spec & Hsub' & Hid & _ & Ha & _).
  exists subject, spec. split; [exact Hsub'|]. split; [exact Hid|]. by split.
Defined.
End example.
