(* ===== verification/SeedClient.v ===== *)
(** * The signing client ([headlines-server/src/seed/keys.rs] and [signed_request] of
    [seed/runner.rs])

    Key files, and requests signed the way the public listener checks them: an honest
    client is let in. *)

From S2P Require Import Prelude Tso Libs Instances Subject Errors TimeSource Nonce Wire Strategy Interceptor.

(** ** Signing keys *)

(** [ed25519_dalek::SigningKey]. *)
Class SignerLib `{CryptoLib} := {
  SigningKey : Type;
  signing_key_from_bytes : bytes → SigningKey;
  signing_key_to_bytes : SigningKey → bytes;
  verifying_key_bytes : SigningKey → bytes;
  ed25519_sign : SigningKey → bytes → bytes;
}.
(** What it signs verifies under its verifying key; the lengths of keys and signatures. *)
Class SignerLaws `{SignerLib} : Prop := {
  verifying_key_parses sk : ∃ vk, verifying_key_from_bytes (verifying_key_bytes sk) = Ok vk ∧
    ∀ msg, ed25519_verify vk msg (ed25519_sign sk msg) = true;
  verifying_key_length sk : length (verifying_key_bytes sk) = 32%nat;
  signature_length sk msg : length (ed25519_sign sk msg) = 64%nat;
  signing_key_length sk : length (signing_key_to_bytes sk) = 32%nat;
  signing_key_roundtrip sk : signing_key_from_bytes (signing_key_to_bytes sk) = sk;
}.

(** ** Key files

    A directory of key files by name. *)
Abbreviation Dir := (gmap str str).

Section keys.
Context `{Base64Lib, SignerLib}.

(** [LoadedKey] *)
Record LoadedKey := { lk_name : str; lk_signing_key : SigningKey; lk_public_b64 : str }.

Definition private_file (name : str) : str := name ++ lit ".private".
Definition public_file (name : str) : str := name ++ lit ".public".
Definition read_file (dir : Dir) (file : str) : result str str :=
  ok_or (lit "read " ++ file) (dir !! file).

(** [load_pair] *)
Definition load_pair (dir : Dir) (name : str) : result str LoadedKey :=
  priv_text ← read_file dir (private_file name);
  priv_bytes ← map_err (λ _, lit "decode private key " ++ private_file name)
                 (b64_decode (trim priv_text));
  if negb (bool_decide (length priv_bytes = 32%nat)) then
    Err (lit "expected 32 bytes for " ++ private_file name ++ lit ", got " ++
         dec_nat (length priv_bytes))
  else
    pub_text ← read_file dir (public_file name);
    Ok {| lk_name := name; lk_signing_key := signing_key_from_bytes priv_bytes;
          lk_public_b64 := trim pub_text |}.

(** The names of [load_kind]: the stems of the files with extension [private], sorted.  A
    file called [.private] has no extension. *)
Definition key_names (dir : Dir) : list str :=
  sort_by str_leb
    (filter (λ n, n ≠ []) (omap (strip_suffix (lit ".private")) (map_to_list dir).*1)).
(** [load_kind] *)
Definition load_kind (dir : Dir) : result str (list LoadedKey) :=
  try_map (load_pair dir) (key_names dir).

(** [ensure_keys]: the generator of a fresh key for each name. *)
Definition ensure_key (generate : str → SigningKey) (dir : Dir) (name : str) : Dir :=
  if bool_decide (is_Some (dir !! private_file name)) &&
     bool_decide (is_Some (dir !! public_file name)) then dir
  else
    let sk := generate name in
    <[public_file name := b64_encode (verifying_key_bytes sk) ++ [10%N]]>
      (<[private_file name := b64_encode (signing_key_to_bytes sk) ++ [10%N]]> dir).
Definition ensure_keys (generate : str → SigningKey) (dir : Dir) (names : list str) : Dir :=
  foldl (ensure_key generate) dir names.
End keys.

(** ** [signed_request] *)

Section signed_request.
Context `{UuidLib, Base64Lib, SignerLib}.

(** [Uuid::as_bytes]: sixteen bytes, the most significant first. *)
Definition uuid_bytes (u : Uuid) : bytes :=
  (λ i, N.land (N.shiftr u (8 * (15 - N.of_nat i))) 255) <$> seq 0 16.

(** [(timestamp_millis as u64) << 18] *)
Definition seed_ts (timestamp_millis : Z) : Z :=
  Z.land (Z.shiftl (timestamp_millis mod 18446744073709551616) 18) u64_max.

(** The string that is signed. *)
Definition seed_canonical (full_method : str) (request_hash : bytes) (key_id : Uuid) (ts : Z)
    (nonce : bytes) : str :=
  lit "HEADLINES-SIGN-V1" ++ [10%N] ++ lit "POST" ++ [10%N] ++ full_method ++ [10%N; 10%N] ++
  hex_encode request_hash ++ [10%N] ++ uuid_display key_id ++ [10%N] ++ dec_Z ts ++ [10%N] ++
  b64_encode nonce.

(** The [authorization] value of [signed_request], given the encoded message, the wall clock
    and the generated nonce. *)
Definition signed_header (encoded : bytes) (sk : SigningKey) (key_id : Uuid) (full_method : str)
    (timestamp_millis : Z) (nonce_id : Uuid) : str :=
  let request_hash := sha256 encoded in
  let ts := seed_ts timestamp_millis in
  let nonce := uuid_bytes nonce_id in
  let canonical := seed_canonical full_method request_hash key_id ts nonce in
  let sig := ed25519_sign sk (as_bytes canonical) in
  lit "Signature key_id=" ++ uuid_display key_id ++ lit ", algo=ed25519, ts=" ++ dec_Z ts ++
  lit ", nonce=" ++ b64_encode nonce ++ lit ", sig=" ++ b64_encode sig.
End signed_request.

(** ** Key files are generated once and read back *)

Section key_files.
Context `{Base64Laws, SignerLaws}.

Lemma private_ne_public a b : private_file a ≠ public_file b.
Proof.
  unfold private_file, public_file. intros He.
  assert (Hr : reverse (a ++ lit ".private") = reverse (b ++ lit ".public")) by by rewrite He.
  rewrite !reverse_app in Hr. by vm_compute (reverse (lit _)) in Hr.
Qed.

Lemma ensure_key_other gen dir name file :
  file ≠ private_file name → file ≠ public_file name →
  ensure_key gen dir name !! file = dir !! file.
Proof.
  intros Hpr Hpu. unfold ensure_key. destruct (_ && _); [done|].
  by rewrite !lookup_insert_ne by congruence.
Qed.

Definition has_pair (dir : Dir) (name : str) : Prop :=
  is_Some (dir !! private_file name) ∧ is_Some (dir !! public_file name).

Lemma ensure_key_kept gen dir name : has_pair dir name → ensure_key gen dir name = dir.
Proof.
  intros [Hpr Hpu]. unfold ensure_key. by rewrite !bool_decide_eq_true_2.
Qed.

Lemma ensure_keys_pair gen dir names name :
  has_pair dir name →
  ensure_keys gen dir names !! private_file name = dir !! private_file name ∧
  ensure_keys gen dir names !! public_file name = dir !! public_file name.
Proof.
  revert dir; induction names as [|n names IH]; intros dir Hp; [done|]. cbn.
  assert (Hsame : ensure_key gen dir n !! private_file name = dir !! private_file name ∧
                  ensure_key gen dir n !! public_file name = dir !! public_file name).
  { destruct (decide (n = name)) as [->|Hn]; [by rewrite ensure_key_kept|].
    split; apply ensure_key_other; try apply private_ne_public;
      try (intros He; by eapply private_ne_public); intros He%app_inv_tail; congruence. }
  destruct Hsame as [Hs1 Hs2]. rewrite <- Hs1, <- Hs2. apply IH.
  destruct Hp. split; by rewrite ?Hs1, ?Hs2.
Qed.

Lemma trim_line b : trim (b64_encode b ++ [10%N]) = b64_encode b.
Proof.
  pose proof (b64_encode_chars b) as Hc.
  assert (Hw : ∀ c, c ∈ b64_encode b → is_whitespace c = false).
  { intros c Hin. rewrite Forall_forall in Hc. apply value_char_spec, b64_value_char, Hc, Hin. }
  unfold trim. destruct (b64_encode b) as [|c s] eqn:Hs; [done|].
  cbn [app trim_start]. rewrite (Hw c) by set_solver.
  rewrite app_comm_cons, reverse_app, reverse_singleton. cbn [app trim_start].
  change (is_whitespace 10) with true. cbv iota. rewrite trim_start_id.
  - apply reverse_involutive.
  - intros d Hd. apply Hw. apply elem_of_reverse. destruct (reverse (c :: s)); [done|].
    injection Hd as ->. set_solver.
Qed.

Lemma generated_loads gen dir name :
  dir !! private_file name = Some (b64_encode (signing_key_to_bytes (gen name)) ++ [10%N]) →
  dir !! public_file name = Some (b64_encode (verifying_key_bytes (gen name)) ++ [10%N]) →
  load_pair dir name =
  Ok {| lk_name := name; lk_signing_key := gen name;
        lk_public_b64 := b64_encode (verifying_key_bytes (gen name)) |}.
Proof.
  intros Hpr Hpu. unfold load_pair, read_file. rewrite Hpr, Hpu. cbn [ok_or mbind result_bind].
  rewrite !trim_line, b64_roundtrip. cbn [map_err mbind result_bind].
  rewrite bool_decide_eq_true_2 by apply signing_key_length. cbn [negb].
  by rewrite signing_key_roundtrip.
Qed.

(** Generating the missing keys of a list of names: a name with both files keeps
    them; any other name of the list, also one with only one of the two files, gets a
    fresh pair that loads as generated, the published key being that of the signing key;
    files of other names are not touched. *)
Theorem keys_generated_and_loaded gen dir names :
  (∀ name, has_pair dir name →
    load_pair (ensure_keys gen dir names) name = load_pair dir name) ∧
  (∀ name, name ∈ names → ¬ has_pair dir name →
    load_pair (ensure_keys gen dir names) name =
    Ok {| lk_name := name; lk_signing_key := gen name;
          lk_public_b64 := b64_encode (verifying_key_bytes (gen name)) |}) ∧
  (∀ file, (∀ name, name ∈ names → file ≠ private_file name ∧ file ≠ public_file name) →
    ensure_keys gen dir names !! file = dir !! file).
Proof.
  split_and!.
  - intros name Hp. destruct (ensure_keys_pair gen dir names name Hp) as [Hpr Hpu].
    unfold load_pair, read_file. by rewrite Hpr, Hpu.
  - intros name Hin Hno. revert dir Hin Hno.
    induction names as [|n names IH]; intros dir Hin Hno; [by apply not_elem_of_nil in Hin|].
    cbn. destruct (decide (n = name)) as [->|Hn].
    + assert (Hk : ensure_key gen dir name =
        <[public_file name := b64_encode (verifying_key_bytes (gen name)) ++ [10%N]]>
          (<[private_file name := b64_encode (signing_key_to_bytes (gen name)) ++ [10%N]]> dir)).
      { unfold ensure_key. do 2 case_bool_decide; try done. by destruct Hno. }
      assert (Hpriv : ensure_key gen dir name !! private_file name =
                Some (b64_encode (signing_key_to_bytes (gen name)) ++ [10%N])).
      { rewrite Hk, lookup_insert_ne by (intros He; by eapply private_ne_public).
        apply lookup_insert_eq. }
      assert (Hpub : ensure_key gen dir name !! public_file name =
                Some (b64_encode (verifying_key_bytes (gen name)) ++ [10%N])).
      { rewrite Hk. apply lookup_insert_eq. }
      destruct (ensure_keys_pair gen (ensure_key gen dir name) names name) as [Hpr Hpu];
        [split; by eexists|].
      apply generated_loads; etransitivity; [exact Hpr|done|exact Hpu|done].
    + apply elem_of_cons in Hin as [->|Hin]; [done|]. apply IH; [done|].
      intros [Hpr Hpu]. apply Hno. split.
      * rewrite ensure_key_other in Hpr; [done| |apply private_ne_public].
        intros He%app_inv_tail. congruence.
      * rewrite ensure_key_other in Hpu; [done|intros He; by eapply private_ne_public|].
        intros He%app_inv_tail. congruence.
  - intros file. revert dir. induction names as [|n names IH]; intros dir Hf; [done|]. cbn.
    etransitivity; [apply IH; intros; apply Hf; set_solver|].
    apply ensure_key_other; apply Hf; set_solver.
Qed.
End key_files.

(** ** Signed requests are accepted *)

Section accepted.
Context `{UuidLaws, Base64Laws, SignerLaws}.

Lemma seed_ts_parts ms : seed_ts ms = as_u64 (from_parts ms 0).
Proof.
  unfold seed_ts, as_u64. rewrite from_parts_raw, land_u64_max.
  change (Z.shiftl (ms mod 18446744073709551616) 18) with
    (Z.shiftl (ms mod 18446744073709551616) LOGICAL_BITS). rewrite shiftl_bits.
  change (0 mod LOGICAL_BOUND) with 0. rewrite Z.add_0_r.
  change 18446744073709551616 with (PHYSICAL_BOUND * LOGICAL_BOUND).
  rewrite Zmult_mod_distr_r. f_equal.
  rewrite <- Znumtheory.Zmod_div_mod; [done|done|done|by exists LOGICAL_BOUND].
Qed.

Definition seed_header_items (key_id : Uuid) (ms : Z) (nonce sig : bytes) : list HeaderItem :=
  [HKeyId key_id; HAlgo (lit "ed25519"); HTs (from_parts ms 0); HNonce nonce; HSig sig].

(** What the server reads in the header. *)
Definition seed_parsed (key_id : Uuid) (ms : Z) (nonce sig : bytes) : ParsedAuthHeader :=
  {| pah_key_id := key_id; pah_algo := lit "ed25519"; pah_ts := from_parts ms 0;
     pah_nonce := nonce; pah_signature := sig |}.

Definition seed_signature (encoded : bytes) (sk : SigningKey) (key_id : Uuid) (path : str)
    (ms : Z) (nonce_id : Uuid) : bytes :=
  ed25519_sign sk (as_bytes (seed_canonical path (sha256 encoded) key_id (seed_ts ms)
    (uuid_bytes nonce_id))).

Lemma signed_header_parses encoded sk key_id path ms nonce_id :
  parse_authorization_header (signed_header encoded sk key_id path ms nonce_id) =
  Ok (seed_parsed key_id ms (uuid_bytes nonce_id)
        (seed_signature encoded sk key_id path ms nonce_id)).
Proof.
  assert (Hr : signed_header encoded sk key_id path ms nonce_id =
    render_header (seed_header_items key_id ms (uuid_bytes nonce_id)
      (seed_signature encoded sk key_id path ms nonce_id))).
  { unfold signed_header, render_header, seed_header_items, render_item, seed_signature.
    cbn [fmap list_fmap item_key item_value join]. rewrite <- seed_ts_parts.
    cbv zeta. rewrite <- !app_assoc. reflexivity. }
  rewrite Hr. rewrite parse_rendered; [done|done|].
  unfold seed_header_items. rewrite !Forall_cons, Forall_nil. cbn [item_wf].
  split_and!; try done; [by repeat constructor|apply from_parts_wf].
Qed.

Lemma seed_canonical_matches encoded sk key_id path ms nonce_id :
  let sig := seed_signature encoded sk key_id path ms nonce_id in
  build_canonical_string
    {| srp_method := lit "POST"; srp_path := path; srp_canonical_query := [];
       srp_request_hash := sha256 encoded; srp_key_id := key_id; srp_algo := lit "ed25519";
       srp_ts := from_parts ms 0; srp_nonce := uuid_bytes nonce_id; srp_signature := sig |}
  = seed_canonical path (sha256 encoded) key_id (seed_ts ms) (uuid_bytes nonce_id).
Proof.
  intros sig. unfold build_canonical_string, seed_canonical. cbn. rewrite seed_ts_parts.
  reflexivity.
Qed.

(** What the server asks its strategy to check. *)
Definition client_parts (encoded : bytes) (sk : SigningKey) (key_id : Uuid) (path : str) (ms : Z)
    (nonce_id : Uuid) : SignedRequestParts :=
  {| srp_method := lit "POST"; srp_path := path; srp_canonical_query := [];
     srp_request_hash := sha256 encoded; srp_key_id := key_id; srp_algo := lit "ed25519";
     srp_ts := from_parts ms 0; srp_nonce := uuid_bytes nonce_id;
     srp_signature := seed_signature encoded sk key_id path ms nonce_id |}.

(** The interceptor asks about exactly these parts, and passes the request on when the
    strategy agrees. *)
Lemma signed_request_enters {N : Type} (strategy : N → SignedRequestParts → result AuthError Subject * N)
    store store' encoded len sk key_id subject ms nonce_id rq :
  strategy store (client_parts encoded sk key_id (rq_path rq) ms nonce_id) = (Ok subject, store') →
  rq_method rq = lit "POST" → rq_query rq = None →
  rq_body rq = Ok (grpc_frame 0 len encoded) → length len = 4%nat →
  header_get AUTHORIZATION (rq_headers rq) =
    Some (Some (signed_header encoded sk key_id (rq_path rq) ms nonce_id)) →
  ∃ seen, (∀ A (inner : Request → Response A),
      auth_interceptor strategy ProtoBodyHasher inner store rq = (inner seen, store', [lit "ok"])) ∧
    rq_subject seen = Some subject ∧ rq_path seen = rq_path rq ∧ rq_body seen = rq_body rq.
Proof.
  intros Hstrategy Hm Hq Hb Hlen Hh.
  assert (Hhash : ProtoBodyHasher (grpc_frame 0 len encoded) = Ok (sha256 encoded)).
  { unfold ProtoBodyHasher, grpc_frame. cbn [length]. rewrite length_app, Hlen.
    change (S (4 + length encoded) <? 5)%nat with (length encoded <? 0)%nat.
    destruct (Nat.ltb_spec (length encoded) 0); [lia|].
    cbn [drop]. by rewrite <- Hlen, drop_app_length. }
  eexists. split.
  - intros A inner. unfold auth_interceptor.
    cbn [rq_headers with_headers rq_body rq_path rq_method rq_query].
    rewrite authorization_header_kept, Hh. cbn [mjoin option_join]. rewrite signed_header_parses, Hb, Hhash.
    assert (Hparts : signed_parts (with_body (grpc_frame 0 len encoded)
                (with_headers (delete TRUSTED_SUBJECT_HEADER (rq_headers rq)) rq))
              (seed_parsed key_id ms (uuid_bytes nonce_id)
                 (seed_signature encoded sk key_id (rq_path rq) ms nonce_id)) (sha256 encoded) =
            client_parts encoded sk key_id (rq_path rq) ms nonce_id).
    { unfold signed_parts, client_parts. cbn. by rewrite Hm, Hq. }
    rewrite Hparts, Hstrategy. reflexivity.
  - split_and!; [done|done|by rewrite Hb].
Qed.

Context {R T N : Type} `{KeyResolver R, TimeSource T, NonceStoreI N}.

(** The strategy agrees. *)
Lemma client_authenticated (self : SignedRequestStrategy) store store' encoded sk key_id subject path
    ms nonce_id :
  srs_algos self !! lit "ed25519" = Some Ed25519 →
  resolve (srs_resolver self) key_id =
    Ok {| rk_algo := lit "ed25519"; rk_public_key := verifying_key_bytes sk; rk_subject := subject |} →
  validate (srs_time_source self) (from_parts ms 0) = Ok () →
  record_nonce store key_id (uuid_bytes nonce_id) (from_parts ms 0) = (Ok (), store') →
  authenticate self store (client_parts encoded sk key_id path ms nonce_id) = (Ok subject, store').
Proof.
  intros Halgo Hkey Htime Hnonce.
  assert (Hcheck : check_request self (client_parts encoded sk key_id path ms nonce_id) = Ok subject).
  { rewrite check_request_ok.
    exists {| rk_algo := lit "ed25519"; rk_public_key := verifying_key_bytes sk; rk_subject := subject |},
      Ed25519.
    split; [|done]. split; [done|done|done| |done].
    cbn [alg_verify Ed25519 rk_public_key]. unfold client_parts.
    rewrite seed_canonical_matches. unfold ed25519_verify_impl, seed_signature. cbn [srp_signature].
    rewrite (bool_decide_eq_true_2 (length (verifying_key_bytes sk) = 32%nat))
      by apply verifying_key_length. cbn [negb].
    destruct (verifying_key_parses sk) as (vk & -> & Hvk). cbn [map_err mbind result_bind].
    rewrite bool_decide_eq_true_2 by apply signature_length. cbn [negb]. by rewrite Hvk. }
  unfold authenticate. rewrite Hcheck. cbn [srp_key_id srp_nonce srp_ts client_parts].
  by rewrite Hnonce.
Qed.

(** An honest client is let in: a request signed by the seed client, sent with
    the message it signed, is passed on by the public listener as the subject its key
    belongs to, its nonce recorded, whenever the key resolves to the client's verifying
    key, Ed25519 is enabled, the wall clock of the client is acceptable to the server and
    the generated nonce is new. *)
Theorem signed_request_is_let_in {A} (self : SignedRequestStrategy) (inner : Request → Response A)
    store store' encoded len sk key_id subject path ms nonce_id rq :
  srs_algos self !! lit "ed25519" = Some Ed25519 →
  resolve (srs_resolver self) key_id =
    Ok {| rk_algo := lit "ed25519"; rk_public_key := verifying_key_bytes sk; rk_subject := subject |} →
  validate (srs_time_source self) (from_parts ms 0) = Ok () →
  record_nonce store key_id (uuid_bytes nonce_id) (from_parts ms 0) = (Ok (), store') →
  rq_method rq = lit "POST" → rq_path rq = path → rq_query rq = None →
  rq_body rq = Ok (grpc_frame 0 len encoded) → length len = 4%nat →
  header_get AUTHORIZATION (rq_headers rq) =
    Some (Some (signed_header encoded sk key_id path ms nonce_id)) →
  ∃ seen, auth_interceptor (authenticate self) ProtoBodyHasher inner store rq =
            (inner seen, store', [lit "ok"]) ∧
    rq_subject seen = Some subject ∧ rq_path seen = path ∧ rq_body seen = rq_body rq.
Proof.
  intros Halgo Hkey Htime Hnonce Hm <- Hq Hb Hlen Hh.
  destruct (signed_request_enters (authenticate self) store store' encoded len sk key_id subject ms nonce_id rq)
    as (seen & Hseen & Hs); [by apply client_authenticated|done..|]. by exists seen.
Qed.
End accepted.

(** ** A request of the seed client *)

Section example.
#[local] Existing Instances toy_uuid toy_base64 toy_crypto toy_cache.

(** Keys are one byte, repeated. *)
Definition toy_signer : SignerLib := {|
  SigningKey := N;
  signing_key_from_bytes b := default 0%N (head b);
  signing_key_to_bytes sk := replicate 32 sk;
  verifying_key_bytes sk := replicate 32 sk;
  ed25519_sign sk msg := replicate 64 (byte_sum (replicate 32 sk ++ msg));
|}.
#[local] Existing Instance toy_signer.
Lemma toy_signer_laws : SignerLaws.
Proof.
  split; intros; [|by cbn..]. eexists. split; [reflexivity|]. intros msg. by apply bool_decide_eq_true_2.
Qed.

Definition seed_message : bytes := [8; 1]%N.
Definition seed_path : str := lit "/headlines.v1.DraftService/GetDraft".
Definition seed_example : Request := {|
  rq_method := lit "POST"; rq_path := seed_path; rq_query := None;
  rq_headers := {[ AUTHORIZATION := [Some (signed_header seed_message 5%N 9 seed_path 990 77)] ]};
  rq_body := Ok (grpc_frame 0 [0; 0; 0; 2]%N seed_message); rq_subject := None |}.

Example signed_request_is_let_in_witness :
  ∃ seen, auth_interceptor (authenticate example_self) ProtoBodyHasher FromService default_store
      seed_example =
    (FromService seen,
     (record default_store 9 (uuid_bytes 77) (from_parts 990 0)).2, [lit "ok"]) ∧
    rq_subject seen = Some example_subject ∧ rq_path seen = seed_path ∧
    rq_body seen = rq_body seed_example.
Proof.
  apply (@signed_request_is_let_in toy_uuid toy_uuid_laws toy_base64 toy_base64_laws
    toy_crypto toy_signer toy_signer_laws _ _ _ _ _ _ _ example_self FromService default_store _
    seed_message [0; 0; 0; 2]%N 5%N 9 example_subject seed_path 990 77).
  - reflexivity.
  - reflexivity.
  - reflexivity.
  - reflexivity.
  - reflexivity.
  - reflexivity.
  - reflexivity.
  - reflexivity.
  - reflexivity.
  - by vm_compute.
Defined.

(** Half a pair is replaced, its private key included. *)
Example half_pair_is_replaced :
  let dir : Dir := {[ private_file (lit "a") := lit "KEY" ]} in
  ensure_keys (λ _, 7%N) dir [lit "a"] !! private_file (lit "a") ≠ dir !! private_file (lit "a").
Proof. intros dir. apply (bool_decide_unpack _). by vm_compute. Qed.
End example.
