(* ===== verification/Db.v ===== *)
(** * The database and the effects of the repositories
    ([migrations/00000000000000_initial/up.sql], [headlines-store/src/lib.rs],
    [TxError] of the repositories)

    The tables as finite maps keyed by their primary key; SQL statements as
    functions of the database, with the constraint violations of the schema; and
    the monad the repositories and services run in.  A statement may fail at any
    point, with or without its effect; other requests may change the database
    before any statement outside a transaction; the clock and the generated ids
    come from the environment.  Transactions are atomic and isolated. *)

From S2P Require Import Prelude Libs Errors.

(** ** Rows *)

Record AccountRow := mkAccount {
  acc_id : Uuid;
  acc_short_name : str;
  acc_author_name : str;
  acc_author_url : option str;
  acc_status : str;
  acc_deleted_at : option DateTime;
  acc_created_at : DateTime;
  acc_updated_at : DateTime;
}.
(** A row of [account_keys], [user_keys] or [system_keys]. *)
Record KeyRow := mkKey {
  key_owner : Uuid;
  key_key_id : Uuid;
  key_algo : str;
  key_public_key : str;
  key_status : str;
  key_created_at : DateTime;
  key_revoked_at : option DateTime;
}.
Record UserRow := mkUser {
  usr_id : Uuid;
  usr_display_name : option str;
  usr_status : str;
  usr_deleted_at : option DateTime;
  usr_created_at : DateTime;
}.
Record ArticleRow := mkArticle {
  art_id : Uuid;
  art_account_id : Uuid;
  art_state : str;
  art_created_at : DateTime;
}.
Record ArticleLiveRow := mkLive {
  live_article_id : Uuid;
  live_current_version : Z;
  live_published_at : DateTime;
  live_updated_at : DateTime;
}.
Record ArticleTombstoneRow := mkTomb {
  tomb_article_id : Uuid;
  tomb_reason : option str;
  tomb_tombstoned_at : DateTime;
}.
Record ArticleVersionRow := mkVersion {
  ver_article_id : Uuid;
  ver_version : Z;
  ver_title : str;
  ver_author_name : option str;
  ver_author_url : option str;
  ver_content : option Json;
  ver_redacted_at : option DateTime;
  ver_redaction_reason : option str;
  ver_created_at : DateTime;
}.
Record DraftRow := mkDraft {
  dr_id : Uuid;
  dr_account_id : Uuid;
  dr_title : str;
  dr_author_name : option str;
  dr_author_url : option str;
  dr_content : Json;
  dr_created_at : DateTime;
  dr_updated_at : DateTime;
}.
Record FollowRow := mkFollow {
  fol_user_id : Uuid;
  fol_account_id : Uuid;
  fol_status : str;
  fol_created_at : DateTime;
  fol_unfollowed_at : option DateTime;
}.
Record SystemRow := mkSystem { sys_id : Uuid; sys_name : str; sys_status : str }.
Record EventRow := mkEvent {
  ev_id : Uuid;
  ev_user_id : Uuid;
  ev_article_id : option Uuid;
  ev_type : str;
  ev_occurred_at : DateTime;
  ev_received_at : DateTime;
  ev_surface : str;
  ev_properties : Json;
}.

(** ** The tables *)

Record Db := mkDb {
  accounts : gmap Uuid AccountRow;
  account_keys : gmap (Uuid * Uuid) KeyRow;
  articles : gmap Uuid ArticleRow;
  articles_live : gmap Uuid ArticleLiveRow;
  articles_tombstone : gmap Uuid ArticleTombstoneRow;
  article_versions : gmap (Uuid * Z) ArticleVersionRow;
  drafts : gmap Uuid DraftRow;
  users : gmap Uuid UserRow;
  user_keys : gmap (Uuid * Uuid) KeyRow;
  follows : gmap (Uuid * Uuid) FollowRow;
  feed_recommendation : gmap (Uuid * Z) Uuid;
  systems : gmap Uuid SystemRow;
  system_scopes : gset (Uuid * str);
  system_keys : gmap (Uuid * Uuid) KeyRow;
  tso_high_water : option Z;
  events : gmap Uuid EventRow;
}.

Definition empty_db : Db :=
  mkDb ∅ ∅ ∅ ∅ ∅ ∅ ∅ ∅ ∅ ∅ ∅ ∅ ∅ ∅ None ∅.

Definition set_accounts t (d : Db) : Db :=
  mkDb t (account_keys d) (articles d) (articles_live d) (articles_tombstone d)
    (article_versions d) (drafts d) (users d) (user_keys d) (follows d)
    (feed_recommendation d) (systems d) (system_scopes d) (system_keys d)
    (tso_high_water d) (events d).
Definition set_account_keys t (d : Db) : Db :=
  mkDb (accounts d) t (articles d) (articles_live d) (articles_tombstone d)
    (article_versions d) (drafts d) (users d) (user_keys d) (follows d)
    (feed_recommendation d) (systems d) (system_scopes d) (system_keys d)
    (tso_high_water d) (events d).
Definition set_articles t (d : Db) : Db :=
  mkDb (accounts d) (account_keys d) t (articles_live d) (articles_tombstone d)
    (article_versions d) (drafts d) (users d) (user_keys d) (follows d)
    (feed_recommendation d) (systems d) (system_scopes d) (system_keys d)
    (tso_high_water d) (events d).
Definition set_articles_live t (d : Db) : Db :=
  mkDb (accounts d) (account_keys d) (articles d) t (articles_tombstone d)
    (article_versions d) (drafts d) (users d) (user_keys d) (follows d)
    (feed_recommendation d) (systems d) (system_scopes d) (system_keys d)
    (tso_high_water d) (events d).
Definition set_articles_tombstone t (d : Db) : Db :=
  mkDb (accounts d) (account_keys d) (articles d) (articles_live d) t
    (article_versions d) (drafts d) (users d) (user_keys d) (follows d)
    (feed_recommendation d) (systems d) (system_scopes d) (system_keys d)
    (tso_high_water d) (events d).
Definition set_article_versions t (d : Db) : Db :=
  mkDb (accounts d) (account_keys d) (articles d) (articles_live d) (articles_tombstone d)
    t (drafts d) (users d) (user_keys d) (follows d)
    (feed_recommendation d) (systems d) (system_scopes d) (system_keys d)
    (tso_high_water d) (events d).
Definition set_drafts t (d : Db) : Db :=
  mkDb (accounts d) (account_keys d) (articles d) (articles_live d) (articles_tombstone d)
    (article_versions d) t (users d) (user_keys d) (follows d)
    (feed_recommendation d) (systems d) (system_scopes d) (system_keys d)
    (tso_high_water d) (events d).
Definition set_users t (d : Db) : Db :=
  mkDb (accounts d) (account_keys d) (articles d) (articles_live d) (articles_tombstone d)
    (article_versions d) (drafts d) t (user_keys d) (follows d)
    (feed_recommendation d) (systems d) (system_scopes d) (system_keys d)
    (tso_high_water d) (events d).
Definition set_user_keys t (d : Db) : Db :=
  mkDb (accounts d) (account_keys d) (articles d) (articles_live d) (articles_tombstone d)
    (article_versions d) (drafts d) (users d) t (follows d)
    (feed_recommendation d) (systems d) (system_scopes d) (system_keys d)
    (tso_high_water d) (events d).
Definition set_follows t (d : Db) : Db :=
  mkDb (accounts d) (account_keys d) (articles d) (articles_live d) (articles_tombstone d)
    (article_versions d) (drafts d) (users d) (user_keys d) t
    (feed_recommendation d) (systems d) (system_scopes d) (system_keys d)
    (tso_high_water d) (events d).
Definition set_feed_recommendation t (d : Db) : Db :=
  mkDb (accounts d) (account_keys d) (articles d) (articles_live d) (articles_tombstone d)
    (article_versions d) (drafts d) (users d) (user_keys d) (follows d)
    t (systems d) (system_scopes d) (system_keys d)
    (tso_high_water d) (events d).
Definition set_system_keys t (d : Db) : Db :=
  mkDb (accounts d) (account_keys d) (articles d) (articles_live d) (articles_tombstone d)
    (article_versions d) (drafts d) (users d) (user_keys d) (follows d)
    (feed_recommendation d) (systems d) (system_scopes d) t
    (tso_high_water d) (events d).
Definition set_tso_high_water t (d : Db) : Db :=
  mkDb (accounts d) (account_keys d) (articles d) (articles_live d) (articles_tombstone d)
    (article_versions d) (drafts d) (users d) (user_keys d) (follows d)
    (feed_recommendation d) (systems d) (system_scopes d) (system_keys d)
    t (events d).
Definition set_events t (d : Db) : Db :=
  mkDb (accounts d) (account_keys d) (articles d) (articles_live d) (articles_tombstone d)
    (article_versions d) (drafts d) (users d) (user_keys d) (follows d)
    (feed_recommendation d) (systems d) (system_scopes d) (system_keys d)
    (tso_high_water d) t.

(** ** Statements *)

(** [diesel::result::Error]: a missing row for [first], a violated constraint of
    the named table, or a failure of the connection or the server. *)
Inductive DieselError : Type :=
  | DNotFound
  | DUnique (table : str)
  | DForeignKey (table : str)
  | DCheck (table : str)
  | DFailure (msg : str).

(** Its [Display]; and the time a [timestamptz] column gives back of a bound one. *)
Class DieselLib := {
  diesel_display : DieselError → str;
  timestamptz : DateTime → DateTime;
}.
(** The resolution of the type is a microsecond. *)
Class TimestamptzLaws `{DieselLib} : Prop := {
  timestamptz_micros : ∀ t, timestamptz t mod 1000 = 0;
  timestamptz_near : ∀ t, Z.abs (timestamptz t - t) < 1000;
  timestamptz_kept : ∀ t, t mod 1000 = 0 → timestamptz t = t;
}.

Definition Stmt (A : Type) := Db → result DieselError A * Db.

(** A query that only reads. *)
Definition query {A} (f : Db → A) : Stmt A := λ db, (Ok (f db), db).
(** [.first()] of a filter on the primary key. *)
Definition first_row {A} (f : Db → option A) : Stmt A := λ db, (ok_or DNotFound (f db), db).
(** A statement that changes the database and cannot violate a constraint. *)
Definition execute (f : Db → Db) : Stmt () := λ db, (Ok (), f db).
(** An [INSERT], with its constraints in the order checked. *)
Definition insert_stmt (violations : Db → list (bool * DieselError)) (f : Db → Db) : Stmt () :=
  λ db, match filter (λ v, v.1 = true) (violations db) with
        | (_, e) :: _ => (Err e, db)
        | [] => (Ok (), f db)
        end.

(** [RETURNING] after an insert; after an update of one row, which reports a missing
    row; and the row count of a [DELETE]. *)
Definition returning {A} (q : Stmt ()) (g : Db → A) : Stmt A :=
  λ db, match q db with
        | (Ok _, db') => (Ok (g db'), db')
        | (Err e, db') => (Err e, db')
        end.
Definition update_returning {A} (f : Db → Db) (row : Db → option A) : Stmt A :=
  λ db, (ok_or DNotFound (row (f db)), f db).
Definition execute_count (count : Db → nat) (f : Db → Db) : Stmt nat :=
  λ db, (Ok (count db), f db).

Definition present {K A} `{Countable K} (m : gmap K A) (k : K) : bool :=
  bool_decide (is_Some (m !! k)).

Definition insert_account (r : AccountRow) : Stmt () :=
  insert_stmt (λ d, [(present (accounts d) (acc_id r), DUnique (lit "accounts"))])
    (λ d, set_accounts (<[acc_id r := r]> (accounts d)) d).
Definition insert_account_key (r : KeyRow) : Stmt () :=
  insert_stmt (λ d,
    [(present (account_keys d) (key_owner r, key_key_id r), DUnique (lit "account_keys"));
     (negb (present (accounts d) (key_owner r)), DForeignKey (lit "account_keys"))])
    (λ d, set_account_keys (<[(key_owner r, key_key_id r) := r]> (account_keys d)) d).
Definition insert_article (r : ArticleRow) : Stmt () :=
  insert_stmt (λ d,
    [(present (articles d) (art_id r), DUnique (lit "articles"));
     (negb (present (accounts d) (art_account_id r)), DForeignKey (lit "articles"))])
    (λ d, set_articles (<[art_id r := r]> (articles d)) d).
Definition insert_article_live (r : ArticleLiveRow) : Stmt () :=
  insert_stmt (λ d,
    [(live_current_version r <? 1, DCheck (lit "articles_live"));
     (present (articles_live d) (live_article_id r), DUnique (lit "articles_live"));
     (negb (present (articles d) (live_article_id r)), DForeignKey (lit "articles_live"))])
    (λ d, set_articles_live (<[live_article_id r := r]> (articles_live d)) d).
Definition insert_article_tombstone (r : ArticleTombstoneRow) : Stmt () :=
  insert_stmt (λ d,
    [(present (articles_tombstone d) (tomb_article_id r), DUnique (lit "articles_tombstone"));
     (negb (present (articles d) (tomb_article_id r)),
      DForeignKey (lit "articles_tombstone"))])
    (λ d, set_articles_tombstone (<[tomb_article_id r := r]> (articles_tombstone d)) d).
Definition insert_article_version (r : ArticleVersionRow) : Stmt () :=
  insert_stmt (λ d,
    [(ver_version r <? 1, DCheck (lit "article_versions"));
     (present (article_versions d) (ver_article_id r, ver_version r),
      DUnique (lit "article_versions"));
     (negb (present (articles d) (ver_article_id r)), DForeignKey (lit "article_versions"))])
    (λ d, set_article_versions
            (<[(ver_article_id r, ver_version r) := r]> (article_versions d)) d).
Definition insert_draft (r : DraftRow) : Stmt () :=
  insert_stmt (λ d,
    [(present (drafts d) (dr_id r), DUnique (lit "drafts"));
     (negb (present (accounts d) (dr_account_id r)), DForeignKey (lit "drafts"))])
    (λ d, set_drafts (<[dr_id r := r]> (drafts d)) d).
Definition insert_user (r : UserRow) : Stmt () :=
  insert_stmt (λ d, [(present (users d) (usr_id r), DUnique (lit "users"))])
    (λ d, set_users (<[usr_id r := r]> (users d)) d).
Definition insert_user_key (r : KeyRow) : Stmt () :=
  insert_stmt (λ d,
    [(present (user_keys d) (key_owner r, key_key_id r), DUnique (lit "user_keys"));
     (negb (present (users d) (key_owner r)), DForeignKey (lit "user_keys"))])
    (λ d, set_user_keys (<[(key_owner r, key_key_id r) := r]> (user_keys d)) d).
Definition insert_follow (r : FollowRow) : Stmt () :=
  insert_stmt (λ d,
    [(present (follows d) (fol_user_id r, fol_account_id r), DUnique (lit "follows"));
     (negb (present (users d) (fol_user_id r)), DForeignKey (lit "follows"));
     (negb (present (accounts d) (fol_account_id r)), DForeignKey (lit "follows"))])
    (λ d, set_follows (<[(fol_user_id r, fol_account_id r) := r]> (follows d)) d).
Definition insert_event (r : EventRow) : Stmt () :=
  insert_stmt (λ d,
    [(negb (str_mem (ev_type r)
              (lit <$> ["IMPRESSION"%string; "OPEN"%string; "DWELL"%string; "LIKE"%string;
                        "UNLIKE"%string; "SHARE"%string])), DCheck (lit "events"));
     (present (events d) (ev_id r), DUnique (lit "events"))])
    (λ d, set_events (<[ev_id r := r]> (events d)) d).

(** The rows of a table that satisfy a condition, in no particular order. *)
Definition rows_where {K A} `{Countable K} (P : A → bool) (t : gmap K A) : list A :=
  filter (λ r, P r = true) (map_to_list t).*2.

Lemma elem_of_rows_where {K A} `{Countable K} (P : A → bool) (t : gmap K A) r :
  r ∈ rows_where P t ↔ P r = true ∧ ∃ k, t !! k = Some r.
Proof.
  unfold rows_where. rewrite list_elem_of_filter. f_equiv.
  rewrite list_elem_of_fmap. split.
  - intros ([k r'] & -> & Hk%elem_of_map_to_list). by exists k.
  - intros [k Hk]. exists (k, r). by rewrite elem_of_map_to_list.
Qed.

Lemma alter_as_insert {K A} `{Countable K} (f : A → A) (m : gmap K A) k r :
  m !! k = Some r → alter f k m = <[k := f r]> m.
Proof.
  intros Hr. apply map_eq. intros i. destruct (decide (i = k)) as [->|Hi].
  - by rewrite lookup_alter_eq, lookup_insert_eq, Hr.
  - by rewrite lookup_alter_ne, lookup_insert_ne.
Qed.

(** What holds of every row holds after an insert and an update. *)
Lemma insert_forall {K A} `{Countable K} (Q : K → A → Prop) (m : gmap K A) k x :
  (∀ i r, m !! i = Some r → Q i r) → Q k x → ∀ i r, <[k := x]> m !! i = Some r → Q i r.
Proof. intros Hm Hx i r [[<- <-]|[_ Hr]]%lookup_insert_Some; auto. Qed.
Lemma alter_forall {K A} `{Countable K} (Q : K → A → Prop) (f : A → A) (m : gmap K A) k :
  (∀ i r, m !! i = Some r → Q i r) → (∀ r, Q k r → Q k (f r)) →
  ∀ i r, alter f k m !! i = Some r → Q i r.
Proof.
  intros Hm Hf i r. destruct (decide (i = k)) as [->|Hi].
  - rewrite lookup_alter_eq. intros (x & Hx & ->)%fmap_Some. auto.
  - rewrite lookup_alter_ne by done. auto.
Qed.
(** A row survives an insert under another key and is updated by an update. *)
Lemma insert_keeps {K A} `{Countable K} (Q : A → Prop) (m : gmap K A) i k x :
  m !! k = None → (∃ r, m !! i = Some r ∧ Q r) → ∃ r, <[k := x]> m !! i = Some r ∧ Q r.
Proof.
  intros Hk (r & Hr & HQ). exists r. split; [|done]. rewrite lookup_insert_ne; [done|congruence].
Qed.
Lemma alter_keeps {K A} `{Countable K} (Q : A → Prop) (f : A → A) (m : gmap K A) i k :
  (∀ r, Q r → Q (f r)) → (∃ r, m !! i = Some r ∧ Q r) → ∃ r, alter f k m !! i = Some r ∧ Q r.
Proof.
  intros Hf (r & Hr & HQ). destruct (decide (i = k)) as [->|Hi].
  - exists (f r). rewrite lookup_alter_eq, Hr. auto.
  - exists r. by rewrite lookup_alter_ne.
Qed.

Lemma rows_where_NoDup {K A} `{Countable K} (P : A → bool) (t : gmap K A) (key : A → K) :
  (∀ k r, t !! k = Some r → key r = k) → NoDup (rows_where P t).
Proof.
  intros Hkey. unfold rows_where. apply NoDup_filter.
  apply (NoDup_fmap_1 key). rewrite <- list_fmap_compose.
  rewrite (list_fmap_ext (key ∘ snd) fst); [apply NoDup_fst_map_to_list|].
  intros i [k r] Hi. apply list_elem_of_lookup_2, elem_of_map_to_list in Hi. by apply Hkey.
Qed.

Lemma rows_where_length {K A} `{Countable K} (P : A → bool) (t : gmap K A) :
  (length (rows_where P t) <= size t)%nat.
Proof.
  unfold rows_where. etrans; [apply length_filter|]. by rewrite length_fmap, length_map_to_list.
Qed.

(** ** The monad *)

(** What the outside decides, per tick: whether and how the operation fails
    (and, for a failing statement, whether it still took effect), the wall clock,
    generated ids, and what other requests do to the database. The clock is read at the
    microseconds a column keeps: the repositories only bind its readings to columns. *)
Record Env := {
  fault : nat → option (str * bool);
  now_at : nat → DateTime;
  fresh_at : nat → Uuid;
  others : nat → Db → Db;
}.
Record World := mkWorld { w_db : Db; w_tick : nat }.

Definition M (E A : Type) : Type := Env → World → result E A * World.

#[export] Instance M_ret {E} : MRet (M E) := λ A a env w, (Ok a, w).
#[export] Instance M_bind {E} : MBind (M E) := λ A B f m env w,
  match m env w with
  | (Ok a, w) => f a env w
  | (Err e, w) => (Err e, w)
  end.

Definition throw {E A} (e : E) : M E A := λ _ w, (Err e, w).
Definition lift {E A} (r : result E A) : M E A := λ _ w, (r, w).
Definition map_errM {E F A} (f : E → F) (m : M E A) : M F A := λ env w,
  match m env w with
  | (Ok a, w) => (Ok a, w)
  | (Err e, w) => (Err (f e), w)
  end.

(** [.optional()] *)
Definition optional {A} (m : M DieselError A) : M DieselError (option A) := λ env w,
  match m env w with
  | (Ok a, w) => (Ok (Some a), w)
  | (Err DNotFound, w) => (Ok None, w)
  | (Err e, w) => (Err e, w)
  end.

(** One statement. *)
Definition stmt {A} (q : Stmt A) : M DieselError A := λ env w,
  let db := others env (w_tick w) (w_db w) in
  let t := S (w_tick w) in
  match fault env (w_tick w) with
  | Some (msg, applied) =>
    (Err (DFailure msg), mkWorld (if applied then (q db).2 else db) t)
  | None =>
    match q db with
    | (Ok a, db') => (Ok a, mkWorld db' t)
    | (Err e, _) => (Err e, mkWorld db t)
    end
  end.

(** [Utc::now()], [Uuid::now_v7()] *)
Definition utc_now {E} : M E DateTime := λ env w,
  (Ok (now_at env (w_tick w)), mkWorld (w_db w) (S (w_tick w))).
Definition new_uuid {E} : M E Uuid := λ env w,
  (Ok (fresh_at env (w_tick w)), mkWorld (w_db w) (S (w_tick w))).

(** [Db::get], with [map_err(HeadlinesError::Internal)] *)
Definition get_conn : M HeadlinesError () := λ env w,
  let w' := mkWorld (w_db w) (S (w_tick w)) in
  match fault env (w_tick w) with
  | Some _ => (Err (Internal (lit "acquire diesel-async connection from deadpool")), w')
  | None => (Ok (), w')
  end.

(** [TxError] *)
Inductive TxError : Type :=
  | TxDomain (e : HeadlinesError)
  | TxDiesel (e : DieselError).

(** Inside a transaction no other request intervenes. *)
Definition isolated (env : Env) : Env :=
  {| fault := fault env; now_at := now_at env; fresh_at := fresh_at env;
     others := λ _ db, db |}.

(** [conn.transaction]: BEGIN, the body, then COMMIT, or ROLLBACK on an error. *)
Definition transaction {A} (body : M TxError A) : M TxError A := λ env w,
  let db := others env (w_tick w) (w_db w) in
  match fault env (w_tick w) with
  | Some (msg, _) => (Err (TxDiesel (DFailure msg)), mkWorld db (S (w_tick w)))
  | None =>
    match body (isolated env) (mkWorld db (S (w_tick w))) with
    | (Err e, w') => (Err e, mkWorld db (S (w_tick w')))
    | (Ok a, w') =>
      match fault env (w_tick w') with
      | Some (msg, applied) =>
        (Err (TxDiesel (DFailure msg)), mkWorld (if applied then w_db w' else db) (S (w_tick w')))
      | None => (Ok a, mkWorld (w_db w') (S (w_tick w')))
      end
    end
  end.

Section errors.
Context `{DieselLib}.

(** [map_err(|e| HeadlinesError::Internal(anyhow!("{ctx}: {e}")))] *)
Definition internal (ctx : string) (e : DieselError) : HeadlinesError :=
  Internal (lit ctx ++ lit ": " ++ diesel_display e).
(** [tx_internal] *)
Definition tx_internal (ctx : string) (e : DieselError) : TxError := TxDomain (internal ctx e).
(** [From<TxError> for HeadlinesError] *)
Definition from_tx (e : TxError) : HeadlinesError :=
  match e with
  | TxDomain d => d
  | TxDiesel e => internal "tx" e
  end.

(** A statement whose failure is reported as [Internal] with a context. *)
Definition run {A} (ctx : string) (q : Stmt A) : M HeadlinesError A :=
  map_errM (internal ctx) (stmt q).
Definition run_opt {A} (ctx : string) (q : Stmt A) : M HeadlinesError (option A) :=
  map_errM (internal ctx) (optional (stmt q)).
(** A statement with a column that defaults to the server's [now()]. *)
Definition run_now {A} (ctx : string) (q : DateTime → Stmt A) : M HeadlinesError A :=
  λ env w, run ctx (q (now_at env (w_tick w))) env w.
(** The same inside a transaction. *)
Definition tx_run {A} (ctx : string) (q : Stmt A) : M TxError A :=
  map_errM (tx_internal ctx) (stmt q).
Definition tx_run_opt {A} (ctx : string) (q : Stmt A) : M TxError (option A) :=
  map_errM (tx_internal ctx) (optional (stmt q)).
Definition tx {A} (body : M TxError A) : M HeadlinesError A :=
  map_errM from_tx (transaction body).
End errors.

(** [ok_or] in the monad. *)
Definition some_or {E A} (e : E) (o : option A) : M E A :=
  match o with Some a => mret a | None => throw e end.

(** [Vec] loop with [?]: run in order, stop at the first error. *)
Fixpoint mapM_ {E A B} (f : A → M E B) (l : list A) : M E (list B) :=
  match l with
  | [] => mret []
  | x :: l => y ← f x; ys ← mapM_ f l; mret (y :: ys)
  end.

(** ** Reasoning: what a successful run did *)

Lemma bind_ok {E A B} (m : M E A) (f : A → M E B) env w b w' :
  (m ≫= f) env w = (Ok b, w') →
  ∃ a w1, m env w = (Ok a, w1) ∧ f a env w1 = (Ok b, w').
Proof.
  unfold mbind, M_bind. destruct (m env w) as [[a|e] w1]; [|done]. eauto.
Qed.

Lemma map_errM_ok {E F A} (f : E → F) (m : M E A) env w a w' :
  map_errM f m env w = (Ok a, w') → m env w = (Ok a, w').
Proof. unfold map_errM. by destruct (m env w) as [[?|?] ?]; intros; simplify_eq. Qed.

Lemma stmt_ok {A} (q : Stmt A) env w a w' :
  stmt q env w = (Ok a, w') →
  q (others env (w_tick w) (w_db w)) = (Ok a, w_db w') ∧ w_tick w' = S (w_tick w).
Proof.
  unfold stmt. destruct (fault _ _) as [[??]|]; [done|].
  destruct (q _) as [[?|?] ?]; intros; by simplify_eq.
Qed.

Lemma optional_ok {A} (m : M DieselError A) env w o w' :
  optional m env w = (Ok o, w') →
  (∃ a, o = Some a ∧ m env w = (Ok a, w')) ∨ (o = None ∧ m env w = (Err DNotFound, w')).
Proof.
  unfold optional. destruct (m env w) as [[a|[]] w1]; intros; simplify_eq; eauto.
Qed.

Section inversion.
Context `{DieselLib}.

(** Statements inside a transaction see only the transaction. *)
Lemma tx_run_ok {A} ctx (q : Stmt A) env w a w' :
  tx_run ctx q (isolated env) w = (Ok a, w') → q (w_db w) = (Ok a, w_db w').
Proof. by intros Hr%map_errM_ok%stmt_ok; destruct Hr. Qed.

Lemma tx_run_opt_ok {A} ctx (q : Db → option A) env w o w' :
  tx_run_opt ctx (first_row q) (isolated env) w = (Ok o, w') →
  o = q (w_db w) ∧ w_db w' = w_db w.
Proof.
  intros [(a & -> & [Hr _]%stmt_ok)|[-> Hr]]%map_errM_ok%optional_ok.
  - unfold first_row in Hr. simpl in Hr. by destruct (q (w_db w)); simplify_eq/=.
  - revert Hr. unfold stmt, first_row. simpl. destruct (fault _ _) as [[e []]|]; simpl;
      destruct (q (w_db w)); simpl; intros; by simplify_eq/=.
Qed.

Lemma tx_query_ok {A} ctx (q : Db → A) env w a w' :
  tx_run ctx (query q) (isolated env) w = (Ok a, w') → a = q (w_db w) ∧ w_db w' = w_db w.
Proof. intros Hr%tx_run_ok. unfold query in Hr. by simplify_eq/=. Qed.

Lemma tx_first_ok {A} ctx (q : Db → option A) env w a w' :
  tx_run ctx (first_row q) (isolated env) w = (Ok a, w') →
  q (w_db w) = Some a ∧ w_db w' = w_db w.
Proof.
  intros Hr%tx_run_ok. unfold first_row in Hr. by destruct (q (w_db w)); simplify_eq/=.
Qed.

Lemma tx_execute_ok ctx f env w a w' :
  tx_run ctx (execute f) (isolated env) w = (Ok a, w') → w_db w' = f (w_db w).
Proof. intros Hr%tx_run_ok. unfold execute in Hr. by simplify_eq/=. Qed.

Lemma tx_insert_ok ctx viol f env w a w' :
  tx_run ctx (insert_stmt viol f) (isolated env) w = (Ok a, w') →
  w_db w' = f (w_db w) ∧ Forall (λ v, v.1 = false) (viol (w_db w)).
Proof.
  intros Hr%tx_run_ok. unfold insert_stmt in Hr.
  destruct (filter _ _) as [|[b e] l] eqn:Hf; [|done]. simplify_eq/=. split; [done|].
  apply Forall_forall. intros [[] e'] Hv; [|done].
  exfalso. apply (not_elem_of_nil (true, e')). rewrite <- Hf.
  by apply list_elem_of_filter.
Qed.

Lemma some_or_ok {E A} (e : E) (o : option A) env w a w' :
  some_or e o env w = (Ok a, w') → o = Some a ∧ w' = w.
Proof. destruct o; cbn; [|unfold throw; done]. by intros [= -> ->]. Qed.
End inversion.

(** ** Reasoning: invariants that survive failures and other requests *)

Definition preserves {E A} (P : Db → Prop) (m : M E A) : Prop :=
  ∀ env w, (∀ n db, P db → P (others env n db)) → P (w_db w) → P (w_db (m env w).2).

Definition stmt_preserves {A} (P : Db → Prop) (q : Stmt A) : Prop :=
  ∀ db, P db → P (q db).2.

Section preservation.
Context `{DieselLib}.
Variable P : Db → Prop.

Lemma preserves_ret {E A} (a : A) : preserves (E := E) P (mret a).
Proof. by intros env w. Qed.
Lemma preserves_throw {E A} (e : E) : preserves (A := A) P (throw e).
Proof. by intros env w. Qed.
Lemma preserves_lift {E A} (r : result E A) : preserves P (lift r).
Proof. by intros env w. Qed.
Lemma preserves_bind {E A B} (m : M E A) (f : A → M E B) :
  preserves P m → (∀ a, preserves P (f a)) → preserves P (m ≫= f).
Proof.
  intros Hm Hf env w Ho Hw. specialize (Hm env w Ho Hw). unfold mbind, M_bind.
  destruct (m env w) as [[a|e] w1]; [|done]. by apply Hf.
Qed.
Lemma preserves_map_err {E F A} (f : E → F) (m : M E A) :
  preserves P m → preserves P (map_errM f m).
Proof.
  intros Hm env w Ho Hw. specialize (Hm env w Ho Hw). unfold map_errM.
  by destruct (m env w) as [[a|e] w1].
Qed.
Lemma preserves_optional {A} (m : M DieselError A) :
  preserves P m → preserves P (optional m).
Proof.
  intros Hm env w Ho Hw. specialize (Hm env w Ho Hw). unfold optional.
  by destruct (m env w) as [[a|[]] w1].
Qed.
Lemma preserves_stmt {A} (q : Stmt A) : stmt_preserves P q → preserves P (stmt q).
Proof.
  intros Hq env w Ho Hw. unfold stmt.
  assert (Hdb : P (others env (w_tick w) (w_db w))) by by apply Ho.
  specialize (Hq _ Hdb). destruct (fault _ _) as [[e []]|]; [done..|].
  by destruct (q _) as [[?|?] ?].
Qed.
Lemma preserves_run {A} ctx (q : Stmt A) : stmt_preserves P q → preserves P (run ctx q).
Proof. intros. by apply preserves_map_err, preserves_stmt. Qed.
Lemma preserves_run_opt {A} ctx (q : Stmt A) :
  stmt_preserves P q → preserves P (run_opt ctx q).
Proof. intros. by apply preserves_map_err, preserves_optional, preserves_stmt. Qed.
Lemma preserves_run_now {A} ctx (q : DateTime → Stmt A) :
  (∀ now, stmt_preserves P (q now)) → preserves P (run_now ctx q).
Proof. intros Hq env w. by apply preserves_run. Qed.
Lemma preserves_tx_run {A} ctx (q : Stmt A) : stmt_preserves P q → preserves P (tx_run ctx q).
Proof. intros. by apply preserves_map_err, preserves_stmt. Qed.
Lemma preserves_tx_run_opt {A} ctx (q : Stmt A) :
  stmt_preserves P q → preserves P (tx_run_opt ctx q).
Proof. intros. by apply preserves_map_err, preserves_optional, preserves_stmt. Qed.
Lemma preserves_conn : preserves P get_conn.
Proof. intros env w Ho Hw. unfold get_conn. by destruct (fault _ _). Qed.
Lemma preserves_now {E} : preserves (E := E) P utc_now.
Proof. by intros env w. Qed.
Lemma preserves_uuid {E} : preserves (E := E) P new_uuid.
Proof. by intros env w. Qed.
Lemma preserves_some_or {E A} (e : E) (o : option A) : preserves P (some_or e o).
Proof. intros env w ??. by destruct o. Qed.
Lemma preserves_mapM {E A B} (f : A → M E B) l :
  (∀ x, preserves P (f x)) → preserves P (mapM_ f l).
Proof.
  intros Hf. induction l as [|x l IH]; [apply preserves_ret|].
  apply preserves_bind; [done|]. intros y. apply preserves_bind; [done|].
  intros ys. apply preserves_ret.
Qed.

(** A transaction keeps an invariant when its body, run alone to its end, does:
    a body that stops half-way is rolled back. *)
Lemma preserves_tx {A} (body : M TxError A) :
  (∀ env w a w', P (w_db w) → body (isolated env) w = (Ok a, w') → P (w_db w')) →
  preserves P (tx body).
Proof.
  intros Hbody. apply preserves_map_err. intros env w Ho Hw. unfold transaction.
  assert (Hdb : P (others env (w_tick w) (w_db w))) by by apply Ho.
  destruct (fault _ _) as [[??]|]; [done|].
  destruct (body _ _) as [[a|e] w'] eqn:Hb; [|done].
  apply Hbody in Hb; [|done].
  by destruct (fault _ _) as [[? []]|].
Qed.

Lemma preserves_tx_stepwise {A} (body : M TxError A) :
  preserves P body → preserves P (tx body).
Proof.
  intros Hbody. apply preserves_tx. intros env w a w' Hw Hr.
  specialize (Hbody (isolated env) w ltac:(done) Hw). by rewrite Hr in Hbody.
Qed.

Lemma query_preserves {A} (f : Db → A) : stmt_preserves P (query f).
Proof. by intros db. Qed.
Lemma execute_preserves f : (∀ d, P d → P (f d)) → stmt_preserves P (execute f).
Proof. intros Hf db. apply Hf. Qed.
Lemma execute_count_preserves n f : (∀ d, P d → P (f d)) → stmt_preserves P (execute_count n f).
Proof. intros Hf db. apply Hf. Qed.
Lemma insert_preserves viol f :
  (∀ d, P d → Forall (λ v, v.1 = false) (viol d) → P (f d)) →
  stmt_preserves P (insert_stmt viol f).
Proof.
  intros Hf db Hdb. unfold insert_stmt. destruct (filter _ _) as [|[b e] l] eqn:Hl; [|done].
  apply Hf; [done|]. apply Forall_forall. intros [[] e] Hv; [|done].
  exfalso. apply (not_elem_of_nil (true, e)). rewrite <- Hl. by apply list_elem_of_filter.
Qed.
Lemma returning_preserves {A} q (g : Db → A) :
  stmt_preserves P q → stmt_preserves P (returning q g).
Proof.
  intros Hq db Hdb. specialize (Hq db Hdb). unfold returning.
  by destruct (q db) as [[?|?] ?].
Qed.
Lemma update_returning_preserves {A} f (row : Db → option A) :
  (∀ d, P d → P (f d)) → stmt_preserves P (update_returning f row).
Proof. intros Hf db. apply Hf. Qed.
Lemma first_row_preserves {A} (f : Db → option A) : stmt_preserves P (first_row f).
Proof. by intros db. Qed.
End preservation.

Create HintDb preserve.
#[export] Hint Resolve preserves_ret preserves_throw preserves_lift preserves_conn
  preserves_now preserves_uuid preserves_some_or query_preserves first_row_preserves
  preserves_run preserves_run_opt preserves_tx_run preserves_tx_run_opt preserves_mapM
  execute_preserves execute_count_preserves returning_preserves
  update_returning_preserves : preserve.

(** Works through a handler: binds, branches, and leaves from the hint base. *)
Ltac preserve :=
  repeat first
    [ assumption
    | solve [eauto 2 with preserve]
    | solve [eauto 5 using preserves_tx_run, preserves_run, execute_preserves, execute_count_preserves]
    | apply preserves_bind; [|intros ?]
    | match goal with
      | |- preserves _ (match ?x with _ => _ end) => destruct x
      | |- preserves _ (if ?b then _ else _) => destruct b
      | |- preserves _ (let _ := _ in _) => cbv zeta
      end ].

(** Inverts a successful run of a transaction body, bind by bind. *)
Ltac tx_inv H :=
  repeat match type of H with
  | (_ ≫= _) _ _ = (Ok _, _) =>
    let a := fresh "a" in let w := fresh "w" in let Hm := fresh "Hm" in
    apply bind_ok in H as (a & w & Hm & H); cbv beta in H; tx_leaf Hm
  | (if ?b then _ else _) _ _ = (Ok _, _) =>
    let Hb := fresh "Hb" in destruct b eqn:Hb; try discriminate H
  | (let _ := _ in _) _ _ = (Ok _, _) => cbv zeta in H
  end; tx_leaf H
with tx_leaf H :=
  lazymatch type of H with
  | tx_run _ _ _ _ = _ =>
    first [ apply tx_query_ok in H as [? ?] | apply tx_first_ok in H as [? ?]
          | apply tx_execute_ok in H | apply tx_insert_ok in H as [? ?] ]
  | tx_run_opt _ _ _ _ = _ => apply tx_run_opt_ok in H as [? ?]
  | some_or _ _ _ _ = _ => apply some_or_ok in H as [? ?]
  | mret _ _ _ = _ => unfold mret, M_ret in H; simplify_eq
  | throw _ _ _ = _ => discriminate H
  | _ => idtac
  end.

Lemma present_false {K A} `{Countable K} (m : gmap K A) k :
  present m k = false → m !! k = None.
Proof. unfold present. rewrite bool_decide_eq_false, <- eq_None_not_Some. done. Qed.
Lemma present_true {K A} `{Countable K} (m : gmap K A) k :
  present m k = true ↔ is_Some (m !! k).
Proof. unfold present. by rewrite bool_decide_eq_true. Qed.

(** The facts a committed transaction leaves: the final database as an expression
    of the initial one, and the constraints that held. *)
Ltac tx_facts H :=
  tx_inv H; simplify_eq/=;
  repeat match goal with Hd : w_db ?w = _ |- _ => rewrite Hd in *; clear Hd end;
  repeat match goal with
  | Hv : Forall (λ v, v.1 = false) _ |- _ =>
    rewrite ?Forall_cons, Forall_nil in Hv; cbn in Hv; destruct_and? Hv
  | Hp : present _ _ = false |- _ => apply present_false in Hp
  | Hp : negb (present _ _) = false |- _ =>
    apply negb_false_iff in Hp; rewrite present_true in Hp
  end.

(** ** Reasoning: runs without failures or other requests *)

Lemma no_violation (l : list (bool * DieselError)) :
  Forall (λ v, v.1 = false) l → filter (λ v, v.1 = true) l = [].
Proof.
  induction 1 as [|[[] e] l Hv _ IH]; [done|done|]. by rewrite filter_cons_False.
Qed.
Lemma first_violation (l : list (bool * DieselError)) e :
  filter (λ v, v.1 = true) ((true, e) :: l) = (true, e) :: filter (λ v, v.1 = true) l.
Proof. by rewrite filter_cons_True. Qed.
Lemma skip_violation (l : list (bool * DieselError)) e :
  filter (λ v, v.1 = true) ((false, e) :: l) = filter (λ v, v.1 = true) l.
Proof. by rewrite filter_cons_False. Qed.
Lemma no_more_violations : filter (λ v : bool * DieselError, v.1 = true) [] = [].
Proof. done. Qed.
Lemma present_some {K A} `{Countable K} (m : gmap K A) k a :
  m !! k = Some a → present m k = true.
Proof. intros Hm. unfold present. rewrite Hm. by apply bool_decide_eq_true_2. Qed.
Lemma present_none {K A} `{Countable K} (m : gmap K A) k : m !! k = None → present m k = false.
Proof. intros Hm. unfold present. rewrite Hm. by apply bool_decide_eq_false_2; intros []. Qed.

Definition quiet (env : Env) : Prop :=
  (∀ n, fault env n = None) ∧ (∀ n db, others env n db = db).

(** The clock of the world ticks; a statement's effect. *)
Definition tick (w : World) : World := mkWorld (w_db w) (S (w_tick w)).
Definition on_db (f : Db → Db) (w : World) : World := mkWorld (f (w_db w)) (w_tick w).

Lemma w_db_tick w : w_db (tick w) = w_db w.
Proof. done. Qed.
Lemma w_db_on_db f w : w_db (on_db f w) = f (w_db w).
Proof. done. Qed.

(** Computes projections of rows, databases and worlds, and nothing else. *)
Ltac db_simpl :=
  cbn [
    acc_id acc_short_name acc_author_name acc_author_url acc_status acc_deleted_at
    acc_created_at acc_updated_at key_owner key_key_id key_algo key_public_key
    key_status key_created_at key_revoked_at usr_id usr_display_name usr_status
    usr_deleted_at usr_created_at art_id art_account_id art_state art_created_at
    live_article_id live_current_version live_published_at live_updated_at
    tomb_article_id tomb_reason tomb_tombstoned_at ver_article_id ver_version
    ver_title ver_author_name ver_author_url ver_content ver_redacted_at
    ver_redaction_reason ver_created_at dr_id dr_account_id dr_title dr_author_name
    dr_author_url dr_content dr_created_at dr_updated_at fol_user_id fol_account_id
    fol_status fol_created_at fol_unfollowed_at sys_id sys_name sys_status ev_id
    ev_user_id ev_article_id ev_type ev_occurred_at ev_received_at ev_surface
    ev_properties accounts account_keys articles articles_live articles_tombstone
    article_versions drafts users user_keys follows feed_recommendation systems
    system_scopes system_keys tso_high_water events w_db w_tick set_accounts
    set_account_keys set_articles set_articles_live set_articles_tombstone
    set_article_versions set_drafts set_users set_user_keys set_follows
    set_feed_recommendation set_system_keys set_tso_high_water set_events tick on_db ].

(** Decides the constraints of an insert from the lookups in the context. *)
Ltac decide_present :=
  match goal with
  | |- context [present ?m ?k] =>
    first
      [ rewrite (proj2 (present_true m k)) by (simplify_map_eq; first [done | by eexists])
      | rewrite (present_none m k) by (simplify_map_eq; done) ]
  end.
Ltac constraints :=
  repeat first [ rewrite first_violation | rewrite skip_violation
               | rewrite no_more_violations | progress db_simpl
               | progress cbn [negb] | decide_present ].

Section quiet_runs.
Context `{DieselLib}.
Variables (env : Env) (Hq : quiet env).

Lemma bind_run {E A B} (m : M E A) (f : A → M E B) w :
  (m ≫= f) env w = match m env w with (Ok a, w) => f a env w | (Err e, w) => (Err e, w) end.
Proof. done. Qed.
Lemma stmt_quiet {A} (q : Stmt A) w :
  stmt q env w =
  match q (w_db w) with
  | (Ok a, db) => (Ok a, mkWorld db (S (w_tick w)))
  | (Err e, _) => (Err e, mkWorld (w_db w) (S (w_tick w)))
  end.
Proof. destruct Hq as [Hf Ho]. unfold stmt. by rewrite Hf, Ho. Qed.
Lemma conn_quiet w : get_conn env w = (Ok (), mkWorld (w_db w) (S (w_tick w))).
Proof. destruct Hq as [Hf Ho]. unfold get_conn. by rewrite Hf. Qed.
Lemma run_quiet {A} ctx (q : Stmt A) w :
  run ctx q env w =
  match q (w_db w) with
  | (Ok a, db) => (Ok a, mkWorld db (S (w_tick w)))
  | (Err e, _) => (Err (internal ctx e), mkWorld (w_db w) (S (w_tick w)))
  end.
Proof. unfold run, map_errM. rewrite stmt_quiet. by destruct (q (w_db w)) as [[?|?] ?]. Qed.
Lemma tx_run_quiet {A} ctx (q : Stmt A) w :
  tx_run ctx q env w =
  match q (w_db w) with
  | (Ok a, db) => (Ok a, mkWorld db (S (w_tick w)))
  | (Err e, _) => (Err (tx_internal ctx e), mkWorld (w_db w) (S (w_tick w)))
  end.
Proof. unfold tx_run, map_errM. rewrite stmt_quiet. by destruct (q (w_db w)) as [[?|?] ?]. Qed.
Lemma run_opt_quiet {A} ctx (f : Db → option A) w :
  run_opt ctx (first_row f) env w = (Ok (f (w_db w)), mkWorld (w_db w) (S (w_tick w))).
Proof.
  unfold run_opt, map_errM, optional. rewrite stmt_quiet. unfold first_row.
  by destruct (f (w_db w)).
Qed.
Lemma tx_run_opt_quiet {A} ctx (f : Db → option A) w :
  tx_run_opt ctx (first_row f) env w = (Ok (f (w_db w)), mkWorld (w_db w) (S (w_tick w))).
Proof.
  unfold tx_run_opt, map_errM, optional. rewrite stmt_quiet. unfold first_row.
  by destruct (f (w_db w)).
Qed.
Lemma tx_quiet {A} (body : M TxError A) w :
  tx body env w =
  match body (isolated env) (mkWorld (w_db w) (S (w_tick w))) with
  | (Ok a, w') => (Ok a, mkWorld (w_db w') (S (w_tick w')))
  | (Err e, w') => (Err (from_tx e), mkWorld (w_db w) (S (w_tick w')))
  end.
Proof.
  destruct Hq as [Hf Ho]. unfold tx, map_errM, transaction. rewrite Hf, Ho.
  destruct (body _ _) as [[?|?] ?]; [by rewrite Hf|done].
Qed.

(** The same as rewriting rules for a bind: none of them exposes the definition of
    the bind that remains. *)
Lemma bind_ret {E A B} (a : A) (f : A → M E B) w : (mret a ≫= f) env w = f a env w.
Proof. done. Qed.
Lemma bind_lift_ok {E A B} (a : A) (f : A → M E B) w : (lift (Ok a) ≫= f) env w = f a env w.
Proof. done. Qed.
Lemma bind_lift_err {E A B} e (f : A → M E B) w : (lift (Err e) ≫= f) env w = (Err e, w).
Proof. done. Qed.
Lemma bind_throw {E A B} e (f : A → M E B) w : (throw e ≫= f) env w = (Err e, w).
Proof. done. Qed.
Lemma bind_some {E A B} e (a : A) (f : A → M E B) w :
  (some_or e (Some a) ≫= f) env w = f a env w.
Proof. done. Qed.
Lemma bind_none {E A B} e (f : A → M E B) w : (some_or e None ≫= f) env w = (Err e, w).
Proof. done. Qed.
Lemma bind_now {E B} (f : DateTime → M E B) w :
  (utc_now ≫= f) env w = f (now_at env (w_tick w)) env (tick w).
Proof. done. Qed.
Lemma bind_uuid {E B} (f : Uuid → M E B) w :
  (new_uuid ≫= f) env w = f (fresh_at env (w_tick w)) env (tick w).
Proof. done. Qed.
Lemma bind_conn {B} (f : () → M HeadlinesError B) w :
  (get_conn ≫= f) env w = f () env (tick w).
Proof. by rewrite bind_run, conn_quiet. Qed.
Lemma bind_run_query {A B} ctx (q : Db → A) (f : A → M HeadlinesError B) w :
  (run ctx (query q) ≫= f) env w = f (q (w_db w)) env (tick w).
Proof. by rewrite bind_run, run_quiet. Qed.
Lemma bind_run_first {A B} ctx (q : Db → option A) (f : A → M HeadlinesError B) w :
  (run ctx (first_row q) ≫= f) env w =
  match q (w_db w) with
  | Some a => f a env (tick w)
  | None => (Err (internal ctx DNotFound), tick w)
  end.
Proof. rewrite bind_run, run_quiet. unfold first_row. by destruct (q (w_db w)). Qed.
Lemma bind_run_opt {A B} ctx (q : Db → option A) (f : option A → M HeadlinesError B) w :
  (run_opt ctx (first_row q) ≫= f) env w = f (q (w_db w)) env (tick w).
Proof. by rewrite bind_run, run_opt_quiet. Qed.
Lemma bind_run_execute {B} ctx g (f : () → M HeadlinesError B) w :
  (run ctx (execute g) ≫= f) env w = f () env (tick (on_db g w)).
Proof. by rewrite bind_run, run_quiet. Qed.
Lemma bind_run_insert {B} ctx viol g (f : () → M HeadlinesError B) w :
  (run ctx (insert_stmt viol g) ≫= f) env w =
  match filter (λ v, v.1 = true) (viol (w_db w)) with
  | (_, e) :: _ => (Err (internal ctx e), tick w)
  | [] => f () env (tick (on_db g w))
  end.
Proof.
  rewrite bind_run, run_quiet. unfold insert_stmt. by destruct (filter _ _) as [|[??] ?].
Qed.
Lemma bind_run_stmt {A B} ctx (q : Stmt A) (f : A → M HeadlinesError B) w :
  (run ctx q ≫= f) env w =
  match q (w_db w) with
  | (Ok a, db) => f a env (tick (on_db (λ _, db) w))
  | (Err e, _) => (Err (internal ctx e), tick w)
  end.
Proof. rewrite bind_run, run_quiet. by destruct (q (w_db w)) as [[?|?] ?]. Qed.
Lemma bind_run_now {A B} ctx (q : DateTime → Stmt A) (f : A → M HeadlinesError B) w :
  (run_now ctx q ≫= f) env w =
  match q (now_at env (w_tick w)) (w_db w) with
  | (Ok a, db) => f a env (tick (on_db (λ _, db) w))
  | (Err e, _) => (Err (internal ctx e), tick w)
  end.
Proof.
  rewrite bind_run. unfold run_now. rewrite run_quiet. by destruct (q _ (w_db w)) as [[?|?] ?].
Qed.
Lemma bind_tx_first {A B} ctx (q : Db → option A) (f : A → M TxError B) w :
  (tx_run ctx (first_row q) ≫= f) env w =
  match q (w_db w) with
  | Some a => f a env (tick w)
  | None => (Err (tx_internal ctx DNotFound), tick w)
  end.
Proof. rewrite bind_run, tx_run_quiet. unfold first_row. by destruct (q (w_db w)). Qed.
Lemma bind_tx_query {A B} ctx (q : Db → A) (f : A → M TxError B) w :
  (tx_run ctx (query q) ≫= f) env w = f (q (w_db w)) env (tick w).
Proof. by rewrite bind_run, tx_run_quiet. Qed.
Lemma bind_tx_opt {A B} ctx (q : Db → option A) (f : option A → M TxError B) w :
  (tx_run_opt ctx (first_row q) ≫= f) env w = f (q (w_db w)) env (tick w).
Proof. by rewrite bind_run, tx_run_opt_quiet. Qed.
Lemma bind_tx_execute {B} ctx g (f : () → M TxError B) w :
  (tx_run ctx (execute g) ≫= f) env w = f () env (tick (on_db g w)).
Proof. by rewrite bind_run, tx_run_quiet. Qed.
Lemma bind_tx_insert {B} ctx viol g (f : () → M TxError B) w :
  (tx_run ctx (insert_stmt viol g) ≫= f) env w =
  match filter (λ v, v.1 = true) (viol (w_db w)) with
  | (_, e) :: _ => (Err (tx_internal ctx e), tick w)
  | [] => f () env (tick (on_db g w))
  end.
Proof.
  rewrite bind_run, tx_run_quiet. unfold insert_stmt. by destruct (filter _ _) as [|[??] ?].
Qed.
Lemma tx_insert_tail ctx viol g w :
  tx_run ctx (insert_stmt viol g) env w =
  match filter (λ v, v.1 = true) (viol (w_db w)) with
  | (_, e) :: _ => (Err (tx_internal ctx e), tick w)
  | [] => (Ok (), tick (on_db g w))
  end.
Proof. rewrite tx_run_quiet. unfold insert_stmt. by destruct (filter _ _) as [|[??] ?]. Qed.
Lemma tx_execute_tail ctx g w : tx_run ctx (execute g) env w = (Ok (), tick (on_db g w)).
Proof. by rewrite tx_run_quiet. Qed.
Lemma run_execute_tail ctx g w : run ctx (execute g) env w = (Ok (), tick (on_db g w)).
Proof. by rewrite run_quiet. Qed.
Lemma bind_tx {A B} (body : M TxError A) (f : A → M HeadlinesError B) w :
  (tx body ≫= f) env w =
  match body (isolated env) (tick w) with
  | (Ok a, w') => f a env (tick w')
  | (Err e, w') => (Err (from_tx e), tick (on_db (λ _, w_db w) w'))
  end.
Proof. rewrite bind_run, tx_quiet. by destruct (body _ _) as [[?|?] ?]. Qed.
Lemma tx_tail {A} (body : M TxError A) w :
  tx body env w =
  match body (isolated env) (tick w) with
  | (Ok a, w') => (Ok a, tick w')
  | (Err e, w') => (Err (from_tx e), tick (on_db (λ _, w_db w) w'))
  end.
Proof. rewrite tx_quiet. by destruct (body _ _) as [[?|?] ?]. Qed.
End quiet_runs.

Lemma isolated_quiet env : quiet env → quiet (isolated env).
Proof. by intros [Hf Ho]; split. Qed.
#[export] Hint Resolve isolated_quiet : preserve.

(** Runs a handler of a quiet environment, one bind at a time. *)
Ltac quiet_step :=
  first
    [ rewrite bind_ret | rewrite bind_lift_ok | rewrite bind_lift_err | rewrite bind_throw
    | rewrite bind_some | rewrite bind_none | rewrite bind_now | rewrite bind_uuid
    | rewrite bind_conn by auto with preserve
    | rewrite bind_run_query by auto with preserve
    | rewrite bind_run_first by auto with preserve
    | rewrite bind_run_opt by auto with preserve
    | rewrite bind_run_execute by auto with preserve
    | rewrite bind_run_insert by auto with preserve
    | rewrite bind_tx_first by auto with preserve
    | rewrite bind_tx_query by auto with preserve
    | rewrite bind_tx_opt by auto with preserve
    | rewrite bind_tx_execute by auto with preserve
    | rewrite bind_tx_insert by auto with preserve
    | rewrite tx_insert_tail by auto with preserve
    | rewrite tx_execute_tail by auto with preserve
    | rewrite run_execute_tail by auto with preserve
    | rewrite bind_tx by auto with preserve
    | rewrite tx_tail by auto with preserve ];
  cbv beta iota zeta; repeat first [rewrite w_db_tick | rewrite w_db_on_db].

(** A read leaves the database of a quiet run as it is. *)
Lemma reads_quiet {E A} env (m : M E A) w :
  quiet env → (∀ P, preserves P m) → w_db (m env w).2 = w_db w.
Proof.
  intros [_ Ho] Hm. apply (Hm (λ d, d = w_db w)); [|done]. intros n d Hd. by rewrite Ho.
Qed.

(** A read-only computation of a quiet run: its value, with the database unchanged. *)
Definition reads {E A} (m : M E A) (env : Env) (w : World) (v : result E A) : Prop :=
  ∃ w', m env w = (v, w') ∧ w_db w' = w_db w.

Lemma bind_reads {E A B} (m : M E A) (f : A → M E B) env w v (g : A → result E B) :
  reads m env w v →
  (∀ a w', w_db w' = w_db w → reads (f a) env w' (g a)) →
  reads (m ≫= f) env w (v ≫= g).
Proof.
  intros (w1 & Hm & Hd) Hf. unfold reads. rewrite bind_run, Hm.
  destruct v as [a|e]; [|by exists w1].
  destruct (Hf a w1 Hd) as (w2 & Hr & Hd2). exists w2. rewrite <- Hd. auto.
Qed.

(** A transaction is all or nothing, whatever fails: it leaves the database as it was
    and reports an error, or it leaves what its body committed. *)
Lemma tx_all_or_nothing `{DieselLib} {A} (body : M TxError A) env w :
  (∀ n d, others env n d = d) →
  let (r, w') := tx body env w in
  (w_db w' = w_db w ∧ ∃ e, r = Err e) ∨
  (∃ a w1, body (isolated env) (tick w) = (Ok a, w1) ∧ w_db w' = w_db w1 ∧
     ∀ b, r = Ok b → b = a ∧ w' = tick w1).
Proof.
  intros Ho. unfold tx, map_errM, transaction. rewrite Ho.
  destruct (fault env _) as [[??]|]; [by left; eauto|].
  change (mkWorld (w_db w) (S (w_tick w))) with (tick w).
  destruct (body (isolated env) (tick w)) as [[a|e] w1] eqn:Hb; [|by left; eauto].
  destruct (fault env (w_tick w1)) as [[? []]|]; [|by left; eauto|].
  - right. exists a, w1. split_and!; [done..|]. by intros b.
  - right. exists a, w1. split_and!; [done..|]. by intros b [= <-].
Qed.

(** ** Concrete instances for the examples *)

Definition toy_diesel : DieselLib :=
  {| diesel_display e :=
       match e with
       | DNotFound => lit "Record not found"
       | DUnique t => lit "duplicate key in " ++ t
       | DForeignKey t => lit "foreign key of " ++ t
       | DCheck t => lit "check of " ++ t
       | DFailure m => m
       end;
     timestamptz t := t - t mod 1000 |}.
Lemma toy_timestamptz_laws : @TimestamptzLaws toy_diesel.
Proof.
  split; cbn; intros t; pose proof (Z.mod_pos_bound t 1000 ltac:(lia)).
  - rewrite Zminus_mod_idemp_r, Z.sub_diag. done.
  - lia.
  - lia.
Qed.

(** A clock that advances by a microsecond per tick, ids counted from 100. *)
Definition toy_env : Env :=
  {| fault := λ _, None; now_at := λ n, Z.of_nat n * 1000;
     fresh_at := λ n, N.of_nat (100 + n); others := λ _ db, db |}.
Lemma toy_env_quiet : quiet toy_env.
Proof. done. Qed.

Definition toy_account (id : Uuid) : AccountRow :=
  mkAccount id (lit "acct") (lit "Ann") None (lit "active") None 0 0.
Definition toy_db : Db := set_accounts (<[1%N := toy_account 1%N]> ∅) empty_db.
