(* ===== verification/Paging.v ===== *)
(** * Keyset pagination (the cursor code of every repository in
    [headlines-store/src/repo])

    Page sizes are clamped; a page token is the base64url of a JSON cursor holding
    the last row's timestamp and id; a page is the first [limit] rows strictly
    after the cursor, one more row being fetched to know whether to hand out a
    token.  Following the tokens visits every row exactly once. *)

From S2P Require Import Prelude Libs Instances Errors Db.

(** [PageToken] *)
Abbreviation PageToken := str.

Definition DEFAULT_PAGE_SIZE : Z := 50.
Definition MIN_PAGE_SIZE : Z := 1.
Definition MAX_PAGE_SIZE : Z := 200.

(** [clamp_page_size] *)
Definition clamp_page_size (raw : Z) : Z :=
  if raw <=? 0 then DEFAULT_PAGE_SIZE else Z.min (Z.max raw MIN_PAGE_SIZE) MAX_PAGE_SIZE.
(** The drafts repository has its own sizes. *)
Definition draft_page_size (page_size : Z) : Z :=
  if page_size <=? 0 then 20 else Z.min page_size 100.

(** The sort key of a row: its timestamp, then its id. *)
Definition Key : Type := DateTime * Uuid.

Section codec.
Context `{ChronoLib, Base64Lib, SerdeLib}.

(** [encode_cursor]; [field] is the cursor struct's name for the timestamp. *)
Definition encode_cursor (field : str) (k : Key) : PageToken :=
  b64url_encode (cursor_to_vec field (to_rfc3339 k.1) k.2).

(** [decode_cursor] *)
Definition decode_cursor (field : str) (raw : str) : result HeadlinesError (str * Uuid) :=
  bytes ← map_err (λ e, InvalidCursor (lit "base64: " ++ e)) (b64url_decode raw);
  map_err (λ e, InvalidCursor (lit "json: " ++ e)) (cursor_from_slice field bytes).

(** The optional cursor of a list call. *)
Definition page_cursor (field : str) (page_token : PageToken) :
    result HeadlinesError (option Key) :=
  if bool_decide (page_token = []) then Ok None
  else
    '(c, i) ← decode_cursor field page_token;
    dt ← map_err (λ e, InvalidCursor (lit "rfc3339: " ++ e)) (parse_from_rfc3339 c);
    Ok (Some (dt, i)).
End codec.

(** [(t1, i1) < (t2, i2)] as SQL compares it. *)
Definition key_ltb (a b : Key) : bool :=
  (a.1 <? b.1) || ((a.1 =? b.1) && (a.2 <? b.2)%N).
Definition key_leb (a b : Key) : bool := negb (key_ltb b a).

Inductive Direction : Type := Asc | Desc.
Definition precedes (dir : Direction) (a b : Key) : bool :=
  match dir with Asc => key_ltb a b | Desc => key_ltb b a end.

Section page.
Context {A : Type} (dir : Direction) (key : A → Key).

(** [ORDER BY] the key in the direction. *)
Definition row_le (a b : A) : bool := negb (precedes dir (key b) (key a)).
Definition order_rows (rows : list A) : list A := sort_by row_le rows.

(** The keyset condition. *)
Definition after_cursor (cursor : option Key) (r : A) : bool :=
  match cursor with None => true | Some c => precedes dir c (key r) end.

(** [WHERE keyset ORDER BY key LIMIT limit + 1] *)
Definition keyset_rows (cursor : option Key) (limit : Z) (rows : list A) : list A :=
  take (Z.to_nat (limit + 1))
    (order_rows (filter (λ r, after_cursor cursor r = true) rows)).

(** [has_more], [truncate] and the key the next token is made of. *)
Definition cut_page (limit : Z) (rows : list A) : list A * option Key :=
  let has_more := limit <? as_i32 (Z.of_nat (length rows)) in
  if has_more then
    let rows := take (Z.to_nat limit) rows in
    (rows, key <$> last rows)
  else (rows, None).
End page.

Section token.
Context `{ChronoLib, Base64Lib, SerdeLib}.
Definition next_token (field : str) (k : option Key) : PageToken :=
  match k with Some k => encode_cursor field k | None => [] end.

(** The recommendation feed's cursor holds the row's position; a row's key is the
    position with no tie-breaker. *)
Definition encode_position (position : Z) : PageToken := b64url_encode (position_to_vec position).
Definition decode_position (raw : str) : result HeadlinesError Z :=
  bytes ← map_err (λ e, InvalidCursor (lit "base64: " ++ e)) (b64url_decode raw);
  map_err (λ e, InvalidCursor (lit "json: " ++ e)) (position_from_slice bytes).
Definition position_cursor (page_token : PageToken) : result HeadlinesError (option Key) :=
  if bool_decide (page_token = []) then Ok None
  else p ← decode_position page_token; Ok (Some (p, 0%N)).
End token.

(** A cursor codec: the parser of a list call's token, and how a token is made. *)
Record CursorCodec := {
  parse_token : PageToken → result HeadlinesError (option Key);
  make_token : Key → PageToken;
}.
Definition page_token (c : CursorCodec) (k : option Key) : PageToken :=
  match k with Some k => make_token c k | None => [] end.

(** What a listing relies on: the empty token starts at the front, tokens are not
    empty and are decoded to the keys they were made from, for the keys in use. *)
Class CodecLaws (c : CursorCodec) (ok : Key → Prop) : Prop := {
  parse_first : parse_token c [] = Ok None;
  make_nonempty : ∀ k, make_token c k ≠ [];
  parse_make : ∀ k, ok k → parse_token c (make_token c k) = Ok (Some k);
}.
Definition time_codec `{ChronoLib, Base64Lib, SerdeLib} (field : str) : CursorCodec :=
  {| parse_token := page_cursor field; make_token := encode_cursor field |}.
Definition position_codec `{Base64Lib, SerdeLib} : CursorCodec :=
  {| parse_token := position_cursor; make_token := λ k, encode_position k.1 |}.

(** ** The order *)

Definition key_lt (a b : Key) : Prop := key_ltb a b = true.

Lemma key_ltb_spec a b :
  key_ltb a b = true ↔ a.1 < b.1 ∨ (a.1 = b.1 ∧ (a.2 < b.2)%N).
Proof.
  unfold key_ltb. rewrite orb_true_iff, andb_true_iff, Z.ltb_lt, Z.eqb_eq, N.ltb_lt. done.
Qed.

Lemma key_ltb_trans a b c : key_ltb a b = true → key_ltb b c = true → key_ltb a c = true.
Proof. rewrite !key_ltb_spec. lia. Qed.
Lemma key_ltb_irrefl a : key_ltb a a = false.
Proof. apply not_true_iff_false. rewrite key_ltb_spec. lia. Qed.
Lemma key_ltb_total a b : key_ltb a b = false → key_ltb b a = false → a = b.
Proof.
  rewrite <- !not_true_iff_false, !key_ltb_spec. destruct a, b; simpl. intros.
  f_equal; lia.
Qed.
Lemma key_ltb_asym a b : key_ltb a b = true → key_ltb b a = false.
Proof. rewrite <- not_true_iff_false, !key_ltb_spec. lia. Qed.

Lemma precedes_trans dir a b c :
  precedes dir a b = true → precedes dir b c = true → precedes dir a c = true.
Proof. destruct dir; simpl; eauto using key_ltb_trans. Qed.
Lemma precedes_irrefl dir a : precedes dir a a = false.
Proof. destruct dir; apply key_ltb_irrefl. Qed.
Lemma precedes_total dir a b :
  precedes dir a b = false → precedes dir b a = false → a = b.
Proof. destruct dir; simpl; intros; [by apply key_ltb_total|symmetry; by apply key_ltb_total]. Qed.
Lemma precedes_asym dir a b : precedes dir a b = true → precedes dir b a = false.
Proof. destruct dir; simpl; apply key_ltb_asym. Qed.

Section sorted.
Context {A : Type} (dir : Direction) (key : A → Key).
Local Abbreviation le := (row_le dir key).
Local Abbreviation sorted := (StronglySorted (λ a b, row_le dir key a b = true)).

Lemma row_le_total a b : le a b = false → le b a = true.
Proof.
  unfold row_le. rewrite negb_false_iff, negb_true_iff. apply precedes_asym.
Qed.

Lemma row_le_trans a b c : le a b = true → le b c = true → le a c = true.
Proof.
  unfold row_le. rewrite !negb_true_iff. intros Hab Hbc.
  apply not_true_iff_false. intros Hca.
  destruct (precedes dir (key a) (key b)) eqn:Hx.
  - rewrite (precedes_trans dir (key c) (key a) (key b)) in Hbc by done. done.
  - rewrite (precedes_total _ _ _ Hab Hx) in Hbc. congruence.
Qed.

Lemma order_rows_sorted rows : sorted (order_rows dir key rows).
Proof. apply sort_by_sorted; [apply row_le_total|apply row_le_trans]. Qed.

Lemma order_rows_perm rows : order_rows dir key rows ≡ₚ rows.
Proof. apply sort_by_perm. Qed.

Lemma StronglySorted_filter (R : A → A → Prop) (P : A → Prop) `{∀ x, Decision (P x)} l :
  StronglySorted R l → StronglySorted R (filter P l).
Proof.
  induction 1 as [|x l Hl IH Hx]; [constructor|]. rewrite filter_cons.
  destruct (decide (P x)); [|done]. constructor; [done|].
  rewrite Forall_forall in Hx |- *. intros y [_ Hy]%list_elem_of_filter. by apply Hx.
Qed.

(** Sorting and filtering commute when no two rows share a key. *)
Lemma order_rows_filter (P : A → Prop) `{∀ x, Decision (P x)} rows :
  (∀ a b, a ∈ rows → b ∈ rows → key a = key b → a = b) →
  order_rows dir key (filter P rows) = filter P (order_rows dir key rows).
Proof.
  intros Hinj. eapply (StronglySorted_unique_strong (λ a b, le a b = true)).
  - intros a b Ha Hb Hab Hba. unfold row_le in *. rewrite negb_true_iff in *.
    rewrite order_rows_perm in Ha. apply list_elem_of_filter in Ha as [_ Ha].
    apply list_elem_of_filter in Hb as [_ Hb]. rewrite order_rows_perm in Hb.
    apply Hinj; [done..|]. by eapply precedes_total.
  - apply order_rows_sorted.
  - apply StronglySorted_filter, order_rows_sorted.
  - by rewrite !order_rows_perm.
Qed.

(** With distinct keys the order is strict. *)
Definition strict (l : list A) : Prop :=
  StronglySorted (λ a b, precedes dir (key a) (key b) = true) l.

Lemma order_rows_strict rows :
  NoDup rows → (∀ a b, a ∈ rows → b ∈ rows → key a = key b → a = b) →
  strict (order_rows dir key rows).
Proof.
  intros Hnd Hinj. assert (Hnd' : NoDup (order_rows dir key rows)) by by rewrite order_rows_perm.
  assert (Hinj' : ∀ a b, a ∈ order_rows dir key rows → b ∈ order_rows dir key rows →
            key a = key b → a = b).
  { intros a b. rewrite !order_rows_perm. apply Hinj. }
  pose proof (order_rows_sorted rows) as Hs. clear Hnd Hinj.
  induction Hs as [|x l Hl IH Hx]; [constructor|]. apply NoDup_cons in Hnd' as [Hnx Hnd].
  constructor; [apply IH; set_solver|].
  rewrite Forall_forall in Hx |- *. intros y Hy. specialize (Hx y Hy).
  destruct (precedes dir (key x) (key y)) eqn:Hxy; [done|].
  unfold row_le in Hx. rewrite negb_true_iff in Hx.
  assert (x = y) as ->; [|done]. apply Hinj'; [set_solver..|]. by eapply precedes_total.
Qed.

(** The strictly ordered arrangement of the rows is the listing. *)
Lemma order_rows_unique rows l :
  (∀ a b, a ∈ rows → b ∈ rows → key a = key b → a = b) →
  strict l → l ≡ₚ rows → order_rows dir key rows = l.
Proof.
  intros Hinj Hs Hp. eapply (StronglySorted_unique_strong (λ a b, le a b = true)).
  - intros a b Ha Hb Hab Hba. unfold row_le in *. rewrite negb_true_iff in *.
    rewrite order_rows_perm in Ha. rewrite Hp in Hb. apply Hinj; [done..|].
    by eapply precedes_total.
  - apply order_rows_sorted.
  - clear Hp. induction Hs as [|x l Hl IH Hx]; constructor; [done|].
    rewrite Forall_forall in Hx |- *. intros y Hy. unfold row_le.
    by rewrite (precedes_asym dir (key x) (key y)) by auto.
  - by rewrite order_rows_perm.
Qed.

Lemma strict_NoDup l : strict l → NoDup l.
Proof.
  induction 1 as [|x l Hl IH Hx]; constructor; [|done]. intros Hin.
  rewrite Forall_forall in Hx. specialize (Hx x Hin). by rewrite precedes_irrefl in Hx.
Qed.

(** What lies strictly after the [n]-th row is what is left of the list. *)
Lemma after_is_drop l n x :
  strict l → l !! n = Some x →
  filter (λ r, after_cursor dir key (Some (key x)) r = true) l = drop (S n) l.
Proof.
  intros Hs. revert n. induction Hs as [|y l Hl IH Hy]; intros n; [done|].
  rewrite Forall_forall in Hy. destruct n as [|n]; simpl.
  - intros [= ->]. rewrite filter_cons_False by (by rewrite precedes_irrefl).
    rewrite drop_0. apply filter_all. intros z Hz. by apply Hy.
  - intros Hn. rewrite filter_cons_False; [by apply IH|].
    rewrite (precedes_asym dir (key y) (key x)); [done|].
    apply Hy. by eapply list_elem_of_lookup_2.
Qed.
(** Every cursor, of a row or not, stands somewhere in the list. *)
Lemma after_some_drop l cursor :
  strict l → ∃ n, filter (λ r, after_cursor dir key cursor r = true) l = drop n l.
Proof.
  intros Hs. induction Hs as [|x l Hl [n Hn] Hx]; [by exists 0%nat|].
  rewrite filter_cons. destruct (decide _) as [Hc|Hc]; [|by exists (S n)].
  exists 0%nat. simpl. f_equal. apply filter_all. intros y Hy.
  rewrite Forall_forall in Hx. specialize (Hx y Hy). destruct cursor as [c|]; [|done].
  simpl in *. by eapply precedes_trans.
Qed.
End sorted.

(** ** Walking the pages *)

Section walk.
Context {A : Type} (dir : Direction) (key : A → Key) (limit : Z) (rows : list A).

(** One page of the rows. *)
Definition fetch (cursor : option Key) : list A * option Key :=
  cut_page key limit (keyset_rows dir key cursor limit rows).

Lemma keyset_rows_elem cursor l r : r ∈ keyset_rows dir key cursor l rows → r ∈ rows.
Proof.
  intros Hr%elem_of_take. destruct Hr as (i & Hi & _).
  apply list_elem_of_lookup_2 in Hi. rewrite order_rows_perm in Hi.
  by apply list_elem_of_filter in Hi as [_ ?].
Qed.
(** A page has only rows of the listing. *)
Lemma fetch_elem cursor r : r ∈ (fetch cursor).1 → r ∈ rows.
Proof.
  unfold fetch, cut_page. intros Hr. apply (keyset_rows_elem cursor limit).
  destruct (_ <? _); [|done]. simpl in Hr.
  apply elem_of_take in Hr as (i & Hi & _). by apply list_elem_of_lookup_2 in Hi.
Qed.

(** A cursor stands before the position [n] of the listing. *)
Definition resumes_at (cursor : option Key) (n : nat) : Prop :=
  filter (λ r, after_cursor dir key cursor r = true) (order_rows dir key rows) =
  drop n (order_rows dir key rows).

(** The page at a cursor: the rows from its position on. *)
Lemma fetch_position n cursor :
  1 <= limit < i32_max →
  (∀ a b, a ∈ rows → b ∈ rows → key a = key b → a = b) →
  resumes_at cursor n →
  let rest := drop n (order_rows dir key rows) in
  fetch cursor =
  if limit <? Z.of_nat (length rest)
  then (take (Z.to_nat limit) rest, key <$> rest !! Nat.pred (Z.to_nat limit))
  else (rest, None).
Proof.
  intros Hlim Hinj Hcur rest. unfold fetch, keyset_rows.
  assert (Hrest : order_rows dir key (filter (λ r, after_cursor dir key cursor r = true) rows)
                  = rest) by (by rewrite order_rows_filter).
  rewrite Hrest. unfold cut_page. rewrite length_take.
  set (len := length rest). unfold i32_max in *.
  rewrite as_i32_id by (unfold is_i32, i32_min, i32_max; lia).
  destruct (Z.ltb_spec limit (Z.of_nat len)) as [Hlt|Hge].
  - destruct (Z.ltb_spec limit (Z.of_nat (Z.to_nat (limit + 1) `min` len))); [|lia].
    rewrite take_take. replace (Z.to_nat limit `min` Z.to_nat (limit + 1))%nat
      with (Z.to_nat limit) by lia.
    f_equal. f_equal. rewrite last_lookup, length_take.
    rewrite lookup_take_lt by lia. f_equal. lia.
  - destruct (Z.ltb_spec limit (Z.of_nat (Z.to_nat (limit + 1) `min` len))); [lia|].
    by rewrite take_ge by lia.
Qed.
End walk.

(** ** Following the tokens *)

Section tokens.
Context `{ChronoLaws, Base64Laws, SerdeLaws}.

Lemma encode_cursor_nonempty field k : encode_cursor field k ≠ [].
Proof. intros Hk%b64url_encode_nil. by apply cursor_nonempty in Hk. Qed.

#[export] Instance time_codec_laws field : CodecLaws (time_codec field) (λ _, True).
Proof.
  split; [done|apply encode_cursor_nonempty|]. intros k _. simpl.
  unfold page_cursor. rewrite bool_decide_eq_false_2 by apply encode_cursor_nonempty.
  unfold decode_cursor, encode_cursor. rewrite b64url_roundtrip. simpl.
  rewrite cursor_roundtrip. simpl. rewrite rfc3339_roundtrip. simpl. by destruct k.
Qed.

#[export] Instance position_codec_laws :
  CodecLaws position_codec (λ k, is_i32 k.1 ∧ k.2 = 0%N).
Proof.
  assert (∀ p, encode_position p ≠ []) as Hne.
  { intros p Hp%b64url_encode_nil. by apply position_nonempty in Hp. }
  split; [done|intros k; apply Hne|]. intros [p i] [Hp Hi]. simpl in Hp, Hi. subst i. simpl.
  unfold position_cursor. rewrite bool_decide_eq_false_2 by apply Hne.
  unfold decode_position, encode_position. rewrite b64url_roundtrip. simpl.
  by rewrite position_roundtrip.
Qed.
End tokens.

Section tokens_walk.
Context (codec : CursorCodec) {ok : Key → Prop} `{!CodecLaws codec ok}.

Section walk.
Context {A : Type} (dir : Direction) (key : A → Key).
Context (limit : Z) (rows : list A).

(** A client that follows the tokens until it gets an empty one; [None] when it has asked
    for [fuel] further pages and still holds a token. *)
Fixpoint walk (fuel : nat) (token : PageToken) : option (result HeadlinesError (list A)) :=
  match parse_token codec token with
  | Err e => Some (Err e)
  | Ok cursor =>
    let '(items, next) := fetch dir key limit rows cursor in
    let token := page_token codec next in
    if bool_decide (token = []) then Some (Ok items)
    else match fuel with
         | O => None
         | S fuel =>
           match walk fuel token with
           | Some more => Some (more ← more; Ok (items ++ more))
           | None => None
           end
         end
  end.

(** A page that is not the last hands out the key of its last row, where the next resumes. *)
Lemma page_resumes n cursor :
  1 <= limit < i32_max → NoDup rows → (∀ a b, a ∈ rows → b ∈ rows → key a = key b → a = b) →
  resumes_at dir key rows cursor n → limit < Z.of_nat (length rows - n) →
  ∃ x, x ∈ rows ∧
    fetch dir key limit rows cursor =
      (take (Z.to_nat limit) (drop n (order_rows dir key rows)), Some (key x)) ∧
    resumes_at dir key rows (Some (key x)) (n + Z.to_nat limit).
Proof.
  intros Hlim Hnd Hinj Hcur Hlt.
  assert (Hlen : length (order_rows dir key rows) = length rows) by by rewrite order_rows_perm.
  rewrite (fetch_position dir key limit rows n cursor Hlim Hinj Hcur), length_drop, Hlen.
  rewrite (proj2 (Z.ltb_lt _ _) Hlt).
  destruct (lookup_lt_is_Some_2 (drop n (order_rows dir key rows)) (Nat.pred (Z.to_nat limit)))
    as [x Hx]; [rewrite length_drop; lia|].
  rewrite Hx. exists x. rewrite lookup_drop in Hx. split_and!.
  - apply list_elem_of_lookup_2 in Hx. by rewrite order_rows_perm in Hx.
  - done.
  - replace (n + Z.to_nat limit)%nat with (S (n + Nat.pred (Z.to_nat limit))) by lia.
    apply after_is_drop; [by apply order_rows_strict|done].
Qed.

Lemma walk_from fuel n cursor token :
  1 <= limit < i32_max → NoDup rows → (∀ r, r ∈ rows → ok (key r)) →
  (∀ a b, a ∈ rows → b ∈ rows → key a = key b → a = b) →
  resumes_at dir key rows cursor n →
  parse_token codec token = Ok cursor →
  Z.of_nat (length rows) <= Z.of_nat n + limit * (Z.of_nat fuel + 1) →
  walk fuel token = Some (Ok (drop n (order_rows dir key rows))).
Proof.
  intros Hlim Hnd Hok Hinj. revert n cursor token.
  assert (Hlen : length (order_rows dir key rows) = length rows) by by rewrite order_rows_perm.
  induction fuel as [|fuel IH]; intros n cursor token Hcur Htok Hfuel; cbn [walk]; rewrite Htok;
    (destruct (Z.lt_ge_cases limit (Z.of_nat (length rows - n))) as [Hlt|Hge];
     [|rewrite (fetch_position dir key limit rows n cursor Hlim Hinj Hcur), length_drop, Hlen;
       by rewrite (proj2 (Z.ltb_ge _ _) Hge)]); [lia|].
  destruct (page_resumes n cursor Hlim Hnd Hinj Hcur Hlt) as (x & Hx & -> & Hnext).
  cbn [page_token]. rewrite bool_decide_eq_false_2 by apply make_nonempty.
  rewrite (IH (n + Z.to_nat limit)%nat (Some (key x))); [|done| |lia].
  - cbn. by rewrite <- drop_drop, take_drop.
  - by apply parse_make, Hok.
Qed.

(** With fewer pages than the rows fill the walk still holds a token. *)
Lemma walk_short fuel n cursor token :
  1 <= limit < i32_max → NoDup rows → (∀ r, r ∈ rows → ok (key r)) →
  (∀ a b, a ∈ rows → b ∈ rows → key a = key b → a = b) →
  resumes_at dir key rows cursor n →
  parse_token codec token = Ok cursor →
  Z.of_nat n + limit * (Z.of_nat fuel + 1) < Z.of_nat (length rows) →
  walk fuel token = None.
Proof.
  intros Hlim Hnd Hok Hinj. revert n cursor token.
  induction fuel as [|fuel IH]; intros n cursor token Hcur Htok Hfuel;
    destruct (page_resumes n cursor Hlim Hnd Hinj Hcur ltac:(lia)) as (x & Hx & Hfetch & Hnext);
    cbn [walk]; rewrite Htok, Hfetch; cbn [page_token];
    rewrite bool_decide_eq_false_2 by apply make_nonempty; [done|].
  rewrite (IH (n + Z.to_nat limit)%nat (Some (key x))); [done|exact Hnext| |lia].
  by apply parse_make, Hok.
Qed.

(** C17. Following the page tokens from the first page, with any page size,
    visits every row exactly once, in the listing's order, and ends: the walk is handed an
    empty token after as many pages as the rows fill, and not before; each token is decoded
    to the cursor it was made from. *)
Theorem walk_visits_every_row fuel :
  1 <= limit < i32_max → NoDup rows → (∀ r, r ∈ rows → ok (key r)) →
  (∀ a b, a ∈ rows → b ∈ rows → key a = key b → a = b) →
  walk fuel [] =
    (if Z.of_nat (length rows) <=? limit * (Z.of_nat fuel + 1)
     then Some (Ok (order_rows dir key rows)) else None) ∧
  order_rows dir key rows ≡ₚ rows ∧
  StronglySorted (λ a b, precedes dir (key a) (key b) = true) (order_rows dir key rows).
Proof.
  intros Hlim Hnd Hok Hinj. split_and!.
  - destruct (Z.leb_spec (Z.of_nat (length rows)) (limit * (Z.of_nat fuel + 1))).
    + apply (walk_from fuel 0 None []); [done..|by apply filter_all|apply parse_first|lia].
    + apply (walk_short fuel 0 None []); [done..|by apply filter_all|apply parse_first|lia].
  - apply order_rows_perm.
  - by apply order_rows_strict.
Qed.
End walk.
End tokens_walk.

(** An order on rows carries over to what is shown of them. *)
Lemma omap_sorted {A B} (g : A → option B) (R : A → A → Prop) (S : B → B → Prop) l :
  (∀ a b x y, a ∈ l → b ∈ l → R a b → g a = Some x → g b = Some y → S x y) →
  StronglySorted R l → StronglySorted S (omap g l).
Proof.
  intros HRS Hl. induction Hl as [|a l Hl IH Ha]; [constructor|]. cbn.
  assert (IH' : StronglySorted S (omap g l)).
  { apply IH. intros b c x y ??. apply HRS; set_solver. }
  destruct (g a) as [x|] eqn:Hg; [|done]. constructor; [done|].
  apply Forall_forall. intros y (b & Hb & Hy)%list_elem_of_omap.
  rewrite Forall_forall in Ha. eapply (HRS a b); [set_solver..|by apply Ha|done|done].
Qed.

(** ** Walking a listing operation *)

(** A client that follows the tokens of a listing operation; [None] when it has asked for
    [fuel] further pages and still holds a token. *)
Fixpoint walk_listing {E A} (fuel : nat)
    (listing : PageToken → M E (list A * PageToken)) (token : PageToken) :
    M E (option (list A)) :=
  '(items, next) ← listing token;
  if bool_decide (next = []) then mret (Some items)
  else match fuel with
       | O => mret None
       | S fuel => more ← walk_listing fuel listing next; mret (app items <$> more)
       end.

(** A listing operation that serves pages of [rows], shown through [g]. *)
Definition serves {A B} (env : Env) (db : Db)
    (listing : PageToken → M HeadlinesError (list B * PageToken)) (g : A → option B)
    (codec : CursorCodec) (dir : Direction) (key : A → Key) (limit : Z) (rows : list A) : Prop :=
  ∀ token w, w_db w = db →
    ∃ t, listing token env w =
      (match parse_token codec token with
       | Err e => Err e
       | Ok cursor =>
         let '(items, next) := fetch dir key limit rows cursor in
         Ok (omap g items, page_token codec next)
       end, mkWorld db t).

Section listing.
Context (codec : CursorCodec) {ok : Key → Prop} `{!CodecLaws codec ok}.
Context {A B : Type} (env : Env) (db : Db).
Context (listing : PageToken → M HeadlinesError (list B * PageToken)) (g : A → option B).
Context (dir : Direction) (key : A → Key) (limit : Z) (rows : list A).

(** What the client has of a walk of the rows. *)
Definition walked (o : option (result HeadlinesError (list A))) :
    result HeadlinesError (option (list B)) :=
  match o with
  | Some (Ok l) => Ok (Some (omap g l))
  | Some (Err e) => Err e
  | None => Ok None
  end.
Lemma walk_listing_serves fuel token w :
  serves env db listing g codec dir key limit rows → w_db w = db →
  ∃ t, walk_listing fuel listing token env w =
    (walked (walk codec dir key limit rows fuel token), mkWorld db t).
Proof.
  intros Hs. revert token w. induction fuel as [|fuel IH]; intros token w Hw;
    cbn [walk_listing walk]; rewrite bind_run; destruct (Hs token w Hw) as [t ->];
    destruct (parse_token codec token) as [cursor|e]; try (by eexists); cbn;
    destruct (fetch _ _ _ _ cursor) as [items next]; case_bool_decide as Hnext; try (by eexists).
  rewrite bind_run. destruct (IH (page_token codec next) (mkWorld db t) eq_refl) as [t' ->].
  destruct (walk _ _ _ _ _ fuel _) as [[more|e]|]; eexists; [|done..].
  cbn. by rewrite omap_app.
Qed.

(** Walking such an operation from any cursor shows the rows after it, each once, in
    order. *)
Lemma walk_listing_from fuel token cursor w :
  serves env db listing g codec dir key limit rows → w_db w = db →
  1 <= limit < i32_max → NoDup rows → (∀ r, r ∈ rows → ok (key r)) →
  (∀ a b, a ∈ rows → b ∈ rows → key a = key b → a = b) → (length rows <= fuel)%nat →
  parse_token codec token = Ok cursor →
  ∃ t, walk_listing fuel listing token env w =
    (Ok (Some (omap g (filter (λ r, after_cursor dir key cursor r = true) (order_rows dir key rows)))),
     mkWorld db t).
Proof.
  intros Hs Hw Hlim Hnd Hok Hinj Hf Htok.
  destruct (walk_listing_serves fuel token w Hs Hw) as [t Ht]. exists t. rewrite Ht.
  destruct (after_some_drop dir key (order_rows dir key rows) cursor) as [n Hn];
    [by apply order_rows_strict|].
  by rewrite (walk_from codec dir key limit rows fuel n cursor token), Hn by (done || nia).
Qed.

Lemma walk_listing_all fuel w :
  serves env db listing g codec dir key limit rows → w_db w = db →
  1 <= limit < i32_max → NoDup rows → (∀ r, r ∈ rows → ok (key r)) →
  (∀ a b, a ∈ rows → b ∈ rows → key a = key b → a = b) → (length rows <= fuel)%nat →
  ∃ t, walk_listing fuel listing [] env w =
    (Ok (Some (omap g (order_rows dir key rows))), mkWorld db t).
Proof.
  intros. destruct (walk_listing_from fuel [] None w) as [t Ht]; try done.
  { apply parse_first. }
  exists t. rewrite Ht. by rewrite filter_all.
Qed.
End listing.

(** A handler that shows each page of a listing through [f] and its errors through [inj] is
    walked like the listing. *)
Definition answers {E A} (env : Env) (db : Db) (m : PageToken → M E (list A * PageToken))
    (page : PageToken → result E (list A * PageToken)) : Prop :=
  ∀ token w, w_db w = db → ∃ t, m token env w = (page token, mkWorld db t).
Definition shown_page {E F A B} (inj : E → F) (f : A → B)
    (p : result E (list A * PageToken)) : result F (list B * PageToken) :=
  match p with Ok (items, next) => Ok (f <$> items, next) | Err e => Err (inj e) end.
Lemma walk_listing_shown {E F A B} (inj : E → F) (f : A → B) env db listing handler page fuel token w w0 :
  answers env db listing page → answers env db handler (λ token, shown_page inj f (page token)) →
  w_db w = db → w_db w0 = db →
  ∃ t, walk_listing fuel handler token env w =
    (match (walk_listing fuel listing token env w0).1 with
     | Ok o => Ok ((λ l : list A, f <$> l) <$> o)
     | Err e => Err (inj e)
     end, mkWorld db t).
Proof.
  intros Hl Hh. revert token w w0. induction fuel as [|fuel IH]; intros token w w0 Hw Hw0;
    cbn [walk_listing]; rewrite !bind_run;
    destruct (Hl token w0 Hw0) as [t0 ->], (Hh token w Hw) as [t ->];
    unfold shown_page; destruct (page token) as [[items next]|e]; try (by eexists);
    case_bool_decide; try (by eexists).
  rewrite !bind_run. destruct (IH next (mkWorld db t) (mkWorld db t0) eq_refl eq_refl) as [t' ->].
  destruct (walk_listing fuel listing next env (mkWorld db t0)) as [[[more|]|e] w'];
    eexists; cbn; [|done..]. by rewrite fmap_app.
Qed.

(** The listing operations that answer in one query. *)
Lemma keyset_listing_serves `{DieselLib} {A B} env db codec dir (key : A → Key) limit rows
    (f : A → result HeadlinesError B) ctx (q : option Key → Stmt (list A)) :
  quiet env →
  (∀ cursor, q cursor db = (Ok (keyset_rows dir key cursor limit rows), db)) →
  (∀ r, r ∈ rows → is_ok (f r) = true) →
  serves env db
    (λ token,
       cursor ← lift (parse_token codec token);
       get_conn;;
       rows ← run ctx (q cursor);
       let '(rows, next) := cut_page key limit rows in
       items ← lift (try_map f rows);
       mret (items, page_token codec next))
    (λ r, match f r with Ok b => Some b | Err _ => None end) codec dir key limit rows.
Proof.
  intros Hq Hquery Hf token w Hw.
  destruct (parse_token codec token) as [cursor|e];
    [|exists (w_tick w); destruct w; by simplify_eq/=].
  rewrite bind_lift_ok, bind_conn, bind_run_stmt by done. rewrite w_db_tick, Hw, Hquery.
  change (cut_page key limit (keyset_rows dir key cursor limit rows))
    with (fetch dir key limit rows cursor).
  pose proof (fetch_elem dir key limit rows cursor) as Hin.
  destruct (fetch dir key limit rows cursor) as [page next]. simpl in Hin.
  assert (try_map f page = Ok (omap (λ r, match f r with Ok b => Some b | Err _ => None end) page))
    as ->; [|eexists; reflexivity].
  clear -Hin Hf. induction page as [|r page IH]; [done|]. simpl.
  specialize (Hf r (Hin r ltac:(set_solver))) as Hr. destruct (f r) as [b|]; [|done]. simpl.
  rewrite IH; [done|set_solver].
Qed.

(** The same for the operations that show the rows as they are. *)
Lemma plain_listing_serves `{DieselLib} {A} env db codec dir (key : A → Key) limit rows
    ctx (q : option Key → Stmt (list A)) :
  quiet env →
  (∀ cursor, q cursor db = (Ok (keyset_rows dir key cursor limit rows), db)) →
  serves env db
    (λ token,
       cursor ← lift (parse_token codec token);
       get_conn;;
       rows ← run ctx (q cursor);
       let '(rows, next) := cut_page key limit rows in
       mret (rows, page_token codec next))
    Some codec dir key limit rows.
Proof.
  intros Hq Hquery token w Hw.
  destruct (keyset_listing_serves env db codec dir key limit rows Ok ctx q Hq Hquery
    (λ _ _, eq_refl) token w Hw) as [t Ht].
  exists t. etrans; [|exact Ht]. destruct (parse_token codec token) as [cursor|e]; [|done].
  rewrite !bind_lift_ok, !bind_conn, !bind_run_stmt by done. rewrite !w_db_tick, Hw, Hquery.
  destruct (cut_page key limit _) as [page next].
  assert (∀ l : list A, try_map (E := HeadlinesError) Ok l = Ok l) as ->; [|done].
  intros l. induction l as [|x l IH]; [done|]. simpl. by rewrite IH.
Qed.

Definition toy_rows : list Key := [(5, 1%N); (7, 2%N); (5, 3%N); (9, 4%N); (1, 5%N)].

Lemma walk_visits_every_row_witness :
  let pages fuel :=
    walk (@time_codec toy_chrono toy_base64 toy_serde (lit "c")) Desc (λ k : Key, k) 2 toy_rows fuel [] in
  pages 2%nat = Some (Ok [(9, 4%N); (7, 2%N); (5, 3%N); (5, 1%N); (1, 5%N)]) ∧ pages 1%nat = None.
Proof.
  intros pages. unfold pages.
  assert (Hw := λ fuel, walk_visits_every_row _ Desc (λ k : Key, k) 2 toy_rows fuel
    (CodecLaws0 := @time_codec_laws _ toy_chrono_laws _ toy_base64_laws _ toy_serde_laws (lit "c"))
    ltac:(unfold i32_max; lia) ltac:(apply (bool_decide_unpack _); by vm_compute)
    ltac:(by intros) ltac:(by intros)).
  split; rewrite (proj1 (Hw _)); by vm_compute.
Defined.

(** The page sizes the repositories use are in range. *)
Lemma clamp_page_size_range raw : 1 <= clamp_page_size raw <= MAX_PAGE_SIZE.
Proof.
  unfold clamp_page_size, DEFAULT_PAGE_SIZE, MIN_PAGE_SIZE, MAX_PAGE_SIZE.
  destruct (Z.leb_spec raw 0); lia.
Qed.
Lemma draft_page_size_range raw : 1 <= draft_page_size raw <= 100.
Proof. unfold draft_page_size. destruct (Z.leb_spec raw 0); lia. Qed.
