(* ===== verification/Articles.v ===== *)
(** * The article repository ([headlines-store/src/repo/articles.rs],
    [headlines-core/src/repo/articles.rs])

    The table family [articles] / [articles_live] / [articles_tombstone] /
    [article_versions], the six operations on it, the invariant the family is
    documented to keep, and that every operation keeps it whatever fails. *)

From S2P Require Import Prelude Libs Instances Errors Db Paging.

(** ** Domain types *)

Inductive ArticleState : Type := Live | Tombstone.

Record ArticleSummary := {
  as_id : Uuid;
  as_account_id : Uuid;
  as_state : ArticleState;
  as_created_at : DateTime;
  as_current_version : option Z;
  as_title : option str;
  as_author_name : option str;
  as_author_url : option str;
  as_redacted : bool;
  as_published_at : option DateTime;
  as_updated_at : option DateTime;
  as_tombstone_reason : option str;
  as_tombstoned_at : option DateTime;
}.
Record Article := { a_summary : ArticleSummary; a_content : option Json }.
Record NewArticle := {
  na_id : Uuid;
  na_account_id : Uuid;
  na_title : str;
  na_author_name : str;
  na_author_url : str;
  na_content : Json;
}.
Record ArticleEdit := {
  ae_title : option str;
  ae_author_name : option str;
  ae_author_url : option str;
  ae_content : option Json;
}.

(** [parse_state] *)
Definition parse_state (raw : str) : result HeadlinesError ArticleState :=
  if str_eqb raw (lit "live") then Ok Live
  else if str_eqb raw (lit "tombstone") then Ok Tombstone
  else Err (Internal (lit "unknown articles.state value in DB: " ++ raw)).

(** The summary of a live article: [version_to_summary_pieces] and the struct
    literal around it. *)
Definition live_summary (a : ArticleRow) (l : ArticleLiveRow) (v : ArticleVersionRow) :
    ArticleSummary :=
  {| as_id := art_id a; as_account_id := art_account_id a; as_state := Live;
     as_created_at := art_created_at a;
     as_current_version := Some (ver_version v);
     as_title := Some (ver_title v);
     as_author_name := Some (or_default (ver_author_name v));
     as_author_url := Some (or_default (ver_author_url v));
     as_redacted := bool_decide (is_Some (ver_redacted_at v));
     as_published_at := Some (live_published_at l);
     as_updated_at := Some (live_updated_at l);
     as_tombstone_reason := None; as_tombstoned_at := None |}.
Definition tombstone_summary (a : ArticleRow) (t : ArticleTombstoneRow) : ArticleSummary :=
  {| as_id := art_id a; as_account_id := art_account_id a; as_state := Tombstone;
     as_created_at := art_created_at a;
     as_current_version := None; as_title := None; as_author_name := None;
     as_author_url := None; as_redacted := false;
     as_published_at := None; as_updated_at := None;
     as_tombstone_reason := tomb_reason t;
     as_tombstoned_at := Some (tomb_tombstoned_at t) |}.

(** The statements the operations share. *)
Definition select_article (id : Uuid) : Db → option ArticleRow := λ d, articles d !! id.
Definition select_live (id : Uuid) : Db → option ArticleLiveRow := λ d, articles_live d !! id.
Definition select_tombstone (id : Uuid) : Db → option ArticleTombstoneRow :=
  λ d, articles_tombstone d !! id.
Definition select_version (id : Uuid) (v : Z) : Db → option ArticleVersionRow :=
  λ d, article_versions d !! (id, v).

(** [UPDATE .. SET] on one row, when it is there. *)
Definition update_article (f : ArticleRow → ArticleRow) (id : Uuid) (d : Db) : Db :=
  set_articles (alter f id (articles d)) d.
Definition update_live (f : ArticleLiveRow → ArticleLiveRow) (id : Uuid) (d : Db) : Db :=
  set_articles_live (alter f id (articles_live d)) d.
Definition update_version (f : ArticleVersionRow → ArticleVersionRow) (id : Uuid) (v : Z)
    (d : Db) : Db :=
  set_article_versions (alter f (id, v) (article_versions d)) d.

Definition with_state (s : str) (a : ArticleRow) : ArticleRow :=
  mkArticle (art_id a) (art_account_id a) s (art_created_at a).
Definition with_current (v : Z) (now : DateTime) (l : ArticleLiveRow) : ArticleLiveRow :=
  mkLive (live_article_id l) v (live_published_at l) now.
Definition with_updated_at (now : DateTime) (l : ArticleLiveRow) : ArticleLiveRow :=
  mkLive (live_article_id l) (live_current_version l) (live_published_at l) now.
Definition redacted_row (now : DateTime) (reason : str) (v : ArticleVersionRow) :
    ArticleVersionRow :=
  mkVersion (ver_article_id v) (ver_version v) (ver_title v) (ver_author_name v)
    (ver_author_url v) None (Some now) (Some reason) (ver_created_at v).

Section repo.
Context `{DieselLib, ChronoLib, Base64Lib, SerdeLib}.

(** The view of one article row: the body of [get] after the state is known, and
    of the loop of [list_by_account]; [ctx_*] are the error contexts. *)
Definition hydrate (ctx_live ctx_version ctx_tomb : string) (a : ArticleRow) :
    M HeadlinesError (ArticleSummary * option Json) :=
  state ← lift (parse_state (art_state a));
  match state with
  | Live =>
    l ← run ctx_live (first_row (select_live (art_id a)));
    v ← run ctx_version (first_row (select_version (art_id a) (live_current_version l)));
    mret (live_summary a l v, ver_content v)
  | Tombstone =>
    t ← run ctx_tomb (first_row (select_tombstone (art_id a)));
    mret (tombstone_summary a t, None)
  end.

(** [get] *)
Definition article_get (id : Uuid) : M HeadlinesError Article :=
  get_conn;;
  a ← run_opt "select articles" (first_row (select_article id));
  a ← some_or (ArticleNotFound id) a;
  '(s, c) ← hydrate "select articles_live for live article"
              "select current article_versions" "select articles_tombstone" a;
  mret {| a_summary := s; a_content := c |}.

(** The transaction of [publish]. *)
Definition publish_tx (new : NewArticle) (now : DateTime) : M TxError () :=
  tx_run "insert articles"
    (insert_article (mkArticle (na_id new) (na_account_id new) (lit "live") now));;
  tx_run "insert articles_live" (insert_article_live (mkLive (na_id new) 1 now now));;
  tx_run "insert article_versions"
    (insert_article_version
       (mkVersion (na_id new) 1 (na_title new) (non_empty (na_author_name new))
          (non_empty (na_author_url new)) (Some (na_content new)) None None now)).

(** [publish] *)
Definition article_publish (new : NewArticle) : M HeadlinesError Article :=
  get_conn;;
  now ← utc_now;
  tx (publish_tx new now);;
  article_get (na_id new).

(** [list_by_account] *)
Definition article_list_by_account (account_id : Uuid) (include_tombstoned : bool)
    (page_size : Z) (page_token : PageToken) :
    M HeadlinesError (list ArticleSummary * PageToken) :=
  let limit := clamp_page_size page_size in
  cursor ← lift (page_cursor (lit "c") page_token);
  get_conn;;
  rows ← run "list articles" (query (λ d,
    keyset_rows Desc (λ a, (art_created_at a, art_id a)) cursor limit
      (rows_where (λ a, bool_decide (art_account_id a = account_id)
                        && (include_tombstoned || str_eqb (art_state a) (lit "live")))
         (articles d))));
  let '(rows, next) := cut_page (λ a, (art_created_at a, art_id a)) limit rows in
  items ← mapM_ (hydrate "select articles_live in list" "select article_versions in list"
                   "select articles_tombstone in list") rows;
  mret (items.*1, next_token (lit "c") next).

(** The next version's row in [edit]. *)
Definition edited_version (edit : ArticleEdit) (id : Uuid) (next_v : Z)
    (cur : ArticleVersionRow) (now : DateTime) : ArticleVersionRow :=
  let title := default (ver_title cur) (ae_title edit) in
  let author_name := or_default (union (ae_author_name edit) (ver_author_name cur)) in
  let author_url := or_default (union (ae_author_url edit) (ver_author_url cur)) in
  let content := default (JArray []) (union (ae_content edit) (ver_content cur)) in
  mkVersion id next_v title (non_empty author_name) (non_empty author_url) (Some content)
    None None now.

(** The transaction of [edit]; [+ 1] on an [i32] wraps in a release build. *)
Definition edit_tx (id : Uuid) (edit : ArticleEdit) (now : DateTime) : M TxError () :=
  a ← tx_run_opt "select articles" (first_row (select_article id));
  a ← some_or (TxDomain (ArticleNotFound id)) a;
  if str_eqb (art_state a) (lit "tombstone") then throw (TxDomain (ArticleTombstoned id))
  else
    l ← tx_run "select articles_live" (first_row (select_live id));
    cur ← tx_run "select current article_versions"
            (first_row (select_version id (live_current_version l)));
    let next_v := as_i32 (live_current_version l + 1) in
    tx_run "insert next article_versions"
      (insert_article_version (edited_version edit id next_v cur now));;
    tx_run "update articles_live" (execute (update_live (with_current next_v now) id)).

(** [edit] *)
Definition article_edit (id : Uuid) (edit : ArticleEdit) : M HeadlinesError Article :=
  get_conn;;
  now ← utc_now;
  tx (edit_tx id edit now);;
  article_get id.

(** The transaction of [tombstone]. *)
Definition tombstone_tx (id : Uuid) (reason : option str) (now : DateTime) : M TxError () :=
  a ← tx_run_opt "select articles" (first_row (select_article id));
  a ← some_or (TxDomain (ArticleNotFound id)) a;
  if str_eqb (art_state a) (lit "tombstone") then throw (TxDomain (ArticleTombstoned id))
  else
    tx_run "update articles.state" (execute (update_article (with_state (lit "tombstone")) id));;
    tx_run "insert articles_tombstone" (insert_article_tombstone (mkTomb id reason now));;
    tx_run "delete articles_live"
      (execute (λ d, set_articles_live (delete id (articles_live d)) d)).

(** [tombstone] *)
Definition article_tombstone (id : Uuid) (reason : option str) : M HeadlinesError Article :=
  get_conn;;
  now ← utc_now;
  tx (tombstone_tx id reason now);;
  article_get id.

(** The transaction of [redact_version]. *)
Definition redact_tx (aid : Uuid) (v : Z) (reason : str) (now : DateTime) : M TxError () :=
  a ← tx_run_opt "select articles" (first_row (select_article aid));
  a ← some_or (TxDomain (ArticleNotFound aid)) a;
  row ← tx_run_opt "select article_versions" (first_row (select_version aid v));
  row ← some_or (TxDomain (VersionNotFound aid v)) row;
  if bool_decide (is_Some (ver_redacted_at row)) then
    throw (TxDomain (VersionAlreadyRedacted aid v))
  else
    tx_run "redact article_versions" (execute (update_version (redacted_row now reason) aid v));;
    if str_eqb (art_state a) (lit "live") then
      l ← tx_run "select articles_live for redact bump" (first_row (select_live aid));
      if live_current_version l =? v then
        tx_run "bump articles_live.updated_at" (execute (update_live (with_updated_at now) aid))
      else mret ()
    else mret ().

(** [redact_version] *)
Definition article_redact_version (article_id : Uuid) (version : Z) (redaction_reason : str) :
    M HeadlinesError () :=
  get_conn;;
  now ← utc_now;
  tx (redact_tx article_id version redaction_reason now).
End repo.

(** ** What the transactions do when they commit *)

Section committed.
Context `{DieselLib, ChronoLib, Base64Lib, SerdeLib}.

Definition new_article (new : NewArticle) (now : DateTime) : ArticleRow :=
  mkArticle (na_id new) (na_account_id new) (lit "live") now.
Definition new_live (new : NewArticle) (now : DateTime) : ArticleLiveRow :=
  mkLive (na_id new) 1 now now.
Definition first_version (new : NewArticle) (now : DateTime) : ArticleVersionRow :=
  mkVersion (na_id new) 1 (na_title new) (non_empty (na_author_name new))
    (non_empty (na_author_url new)) (Some (na_content new)) None None now.

(** The three rows of a new article. *)
Definition publish_rows (a : ArticleRow) (l : ArticleLiveRow) (v : ArticleVersionRow)
    (d : Db) : Db :=
  let id := art_id a in
  let d := set_articles (<[id := a]> (articles d)) d in
  let d := set_articles_live (<[id := l]> (articles_live d)) d in
  set_article_versions (<[(id, 1) := v]> (article_versions d)) d.
Definition published (new : NewArticle) (now : DateTime) (d : Db) : Db :=
  publish_rows (new_article new now) (new_live new now) (first_version new now) d.

Lemma publish_tx_ok new now env w w' :
  publish_tx new now (isolated env) w = (Ok (), w') →
  articles (w_db w) !! na_id new = None ∧ w_db w' = published new now (w_db w).
Proof.
  intros Hr. unfold publish_tx in Hr. tx_facts Hr. done.
Qed.

Definition edited (id : Uuid) (row : ArticleVersionRow) (now : DateTime) (d : Db) : Db :=
  update_live (with_current (ver_version row) now) id
    (set_article_versions (<[(id, ver_version row) := row]> (article_versions d)) d).

Lemma edit_tx_ok id edit now env w w' :
  edit_tx id edit now (isolated env) w = (Ok (), w') →
  ∃ a l cur,
    articles (w_db w) !! id = Some a ∧ art_state a ≠ lit "tombstone" ∧
    articles_live (w_db w) !! id = Some l ∧
    article_versions (w_db w) !! (id, live_current_version l) = Some cur ∧
    let v := as_i32 (live_current_version l + 1) in
    1 <= v ∧ article_versions (w_db w) !! (id, v) = None ∧
    w_db w' = edited id (edited_version edit id v cur now) now (w_db w).
Proof.
  intros Hr. unfold edit_tx in Hr. tx_facts Hr.
  apply str_eqb_neq in Hb. apply Z.ltb_ge in H3. by exists a0, a1, a2.
Qed.

Definition tombstoned (id : Uuid) (reason : option str) (now : DateTime) (d : Db) : Db :=
  let d := update_article (with_state (lit "tombstone")) id d in
  let d := set_articles_tombstone (<[id := mkTomb id reason now]> (articles_tombstone d)) d in
  set_articles_live (delete id (articles_live d)) d.

Lemma tombstone_tx_ok id reason now env w w' :
  tombstone_tx id reason now (isolated env) w = (Ok (), w') →
  ∃ a, articles (w_db w) !! id = Some a ∧ art_state a ≠ lit "tombstone" ∧
    w_db w' = tombstoned id reason now (w_db w).
Proof.
  intros Hr. unfold tombstone_tx in Hr. tx_facts Hr. apply str_eqb_neq in Hb. by exists a0.
Qed.

Definition redacted (id : Uuid) (v : Z) (reason : str) (now : DateTime) (bump : bool)
    (d : Db) : Db :=
  let d := update_version (redacted_row now reason) id v d in
  if bump then update_live (with_updated_at now) id d else d.

Lemma redact_tx_ok id v reason now env w w' :
  redact_tx id v reason now (isolated env) w = (Ok (), w') →
  ∃ a row, articles (w_db w) !! id = Some a ∧
    article_versions (w_db w) !! (id, v) = Some row ∧ ver_redacted_at row = None ∧
    w_db w' = redacted id v reason now
      (str_eqb (art_state a) (lit "live")
       && bool_decide (live_current_version <$> articles_live (w_db w) !! id = Some v))
      (w_db w).
Proof.
  intros Hr. unfold redact_tx in Hr. tx_facts Hr;
    apply bool_decide_eq_false, eq_None_not_Some in Hb;
    exists a0, a2; (split; [done|split; [done|split; [done|]]]);
    rewrite ?Hb0; unfold redacted, select_live in *; cbn [andb].
  - apply Z.eqb_eq in Hb1 as <-. simpl in *. by rewrite H11, bool_decide_eq_true_2.
  - apply Z.eqb_neq in Hb1. simpl in *.
    rewrite H11, bool_decide_eq_false_2 by (simpl; congruence). done.
  - done.
Qed.
End committed.

(** ** The table-family invariant *)

(** The rows of one article id: absent everywhere, or an [articles] row with a
    contiguous version history [1..n] in which a version's content is null exactly
    when it is redacted, and either live at version [n] or tombstoned. *)
Definition family_absent (d : Db) (id : Uuid) : Prop :=
  articles d !! id = None ∧ articles_live d !! id = None ∧
  articles_tombstone d !! id = None ∧ ∀ v, article_versions d !! (id, v) = None.

Record family_present (d : Db) (id : Uuid) (a : ArticleRow) (n : Z) : Prop := {
  fp_article : articles d !! id = Some a ∧ art_id a = id;
  fp_count : 1 <= n <= i32_max;
  fp_history : ∀ v, is_Some (article_versions d !! (id, v)) ↔ 1 <= v <= n;
  fp_versions : ∀ v r, article_versions d !! (id, v) = Some r →
    ver_article_id r = id ∧ ver_version r = v ∧
    (ver_content r = None ↔ is_Some (ver_redacted_at r));
  fp_state :
    (art_state a = lit "live" ∧ articles_tombstone d !! id = None ∧
     ∃ l, articles_live d !! id = Some l ∧ live_article_id l = id ∧
       live_current_version l = n) ∨
    (art_state a = lit "tombstone" ∧ articles_live d !! id = None ∧
     is_Some (articles_tombstone d !! id));
}.

Definition family_ok (d : Db) (id : Uuid) : Prop :=
  family_absent d id ∨ ∃ a n, family_present d id a n.
Definition family_inv (d : Db) : Prop := ∀ id, family_ok d id.

(** The rows of an id decide its clause. *)
Lemma family_ok_frame d d' id :
  articles d' !! id = articles d !! id → articles_live d' !! id = articles_live d !! id →
  articles_tombstone d' !! id = articles_tombstone d !! id →
  (∀ v, article_versions d' !! (id, v) = article_versions d !! (id, v)) →
  family_ok d id → family_ok d' id.
Proof.
  intros Ha Hl Ht Hv [(?&?&?&Hnone)|(a & n & [? ? Hh Hr Hs])].
  - left. unfold family_absent. rewrite Ha, Hl, Ht. split_and!; [done..|].
    intros v. by rewrite Hv.
  - right. exists a, n. split; [by rewrite Ha|done| | |by rewrite Hl, Ht].
    + intros v. by rewrite Hv.
    + intros v. rewrite Hv. apply Hr.
Qed.

(** Changing the rows of one id touches no other. *)
Lemma family_inv_at d d' id :
  (∀ i, i ≠ id → articles d' !! i = articles d !! i ∧
     articles_live d' !! i = articles_live d !! i ∧
     articles_tombstone d' !! i = articles_tombstone d !! i ∧
     ∀ v, article_versions d' !! (i, v) = article_versions d !! (i, v)) →
  family_ok d' id → family_inv d → family_inv d'.
Proof.
  intros Hframe Hid Hinv i. destruct (decide (i = id)) as [->|Hne]; [done|].
  destruct (Hframe i Hne) as (?&?&?&?). by apply (family_ok_frame d).
Qed.

Lemma family_live d id a l :
  family_ok d id → articles d !! id = Some a → articles_live d !! id = Some l →
  family_present d id a (live_current_version l) ∧ art_state a = lit "live" ∧
  articles_tombstone d !! id = None ∧ live_article_id l = id.
Proof.
  intros [(Hn&_)|(a' & n & Hp)] Ha Hl; [congruence|].
  pose proof Hp as [[Ha' _] _ _ _ Hs]. assert (a' = a) as -> by congruence.
  destruct Hs as [(? & ? & l' & Hl' & ? & <-)|(_ & Hnone & _)]; [|congruence].
  assert (l' = l) as -> by congruence. done.
Qed.

(** The rows of an article at its publication. *)
Record fresh_rows (a : ArticleRow) (l : ArticleLiveRow) (v : ArticleVersionRow) : Prop := {
  fr_state : art_state a = lit "live";
  fr_live : live_article_id l = art_id a ∧ live_current_version l = 1;
  fr_version : ver_article_id v = art_id a ∧ ver_version v = 1;
  fr_content : is_Some (ver_content v) ∧ ver_redacted_at v = None;
}.

Lemma new_rows_fresh new now :
  fresh_rows (new_article new now) (new_live new now) (first_version new now).
Proof. by split. Qed.

Lemma publish_rows_family a l v d :
  fresh_rows a l v → articles d !! art_id a = None → family_inv d →
  family_inv (publish_rows a l v d).
Proof.
  intros [Hst [Hl1 Hl2] [Hv1 Hv2] [[c Hc] Hred]] Hnone Hinv.
  destruct (Hinv (art_id a)) as [(_ & _ & Ht & Hv)|(a' & n & [[??] _ _ _ _])]; [|congruence].
  apply (family_inv_at d _ (art_id a)); [|right|done].
  - intros i Hi. simpl. rewrite !lookup_insert_ne by done. split_and!; [done..|].
    intros v'. rewrite lookup_insert_ne; [done|congruence].
  - exists a, 1. split; simpl.
    + by rewrite lookup_insert_eq.
    + unfold i32_max. lia.
    + intros v'. destruct (decide (v' = 1)) as [->|Hne].
      * rewrite lookup_insert_eq. split; [lia|by eexists].
      * rewrite lookup_insert_ne, Hv by congruence. split; [by intros []|lia].
    + intros v' r. destruct (decide (v' = 1)) as [->|Hne].
      * rewrite lookup_insert_eq. intros [= <-]. rewrite Hc, Hred. split_and!; [done..|].
        split; [done|by intros []].
      * by rewrite lookup_insert_ne, Hv by congruence.
    + left. split_and!; [done|done|]. eexists. by rewrite lookup_insert_eq.
Qed.

Lemma published_family new now d :
  articles d !! na_id new = None → family_inv d → family_inv (published new now d).
Proof. intros. by apply publish_rows_family; [apply new_rows_fresh|..]. Qed.

Lemma edited_family d id row now n a l :
  family_inv d → articles d !! id = Some a → articles_live d !! id = Some l →
  n = live_current_version l + 1 → n <= i32_max →
  ver_article_id row = id → ver_version row = n → is_Some (ver_content row) →
  ver_redacted_at row = None →
  family_inv (edited id row now d).
Proof.
  intros Hinv Ha Hl Hn Hmax Hrid Hrv [c Hc] Hred.
  destruct (family_live d id a l (Hinv id) Ha Hl) as ([_ Hcount Hh Hr _] & Hst & Ht & Hlid).
  apply (family_inv_at d _ id); [|right|done].
  - intros i Hi. simpl. rewrite lookup_alter_ne by done. split_and!; [done..|].
    intros v. rewrite lookup_insert_ne; [done|congruence].
  - exists a, n. rewrite Hn in *. split; simpl; rewrite ?Hrv.
    + split; [done|]. destruct (Hinv id) as [(?&_)|(a' & ? & [[??] _ _ _ _])]; congruence.
    + lia.
    + intros v. destruct (decide (v = live_current_version l + 1)) as [->|Hne].
      * rewrite lookup_insert_eq. split; [lia|by eexists].
      * rewrite lookup_insert_ne, Hh by congruence. lia.
    + intros v r. destruct (decide (v = live_current_version l + 1)) as [->|Hne].
      * rewrite lookup_insert_eq. intros [= <-]. rewrite Hc, Hred. split_and!; [done..|].
        split; [done|by intros []].
      * rewrite lookup_insert_ne by congruence. apply Hr.
    + left. split_and!; [done|done|]. rewrite lookup_alter_eq, Hl. simpl. by eexists.
Qed.

Lemma tombstoned_family d id reason now a :
  family_inv d → articles d !! id = Some a → art_state a ≠ lit "tombstone" →
  family_inv (tombstoned id reason now d).
Proof.
  intros Hinv Ha Hst.
  destruct (Hinv id) as [(?&_)|(a' & n & [[Ha' Hid] Hcount Hh Hr Hs])]; [congruence|].
  assert (a' = a) as -> by congruence.
  apply (family_inv_at d _ id); [|right|done].
  - intros i Hi. simpl.
    by rewrite lookup_alter_ne, lookup_insert_ne, lookup_delete_ne by done.
  - exists (with_state (lit "tombstone") a), n. split; simpl; [|done|done|done|].
    + by rewrite lookup_alter_eq, Ha.
    + right. by rewrite lookup_delete_eq, lookup_insert_eq.
Qed.

Lemma redacted_family d id v reason now bump row :
  family_inv d → article_versions d !! (id, v) = Some row →
  family_inv (redacted id v reason now bump d).
Proof.
  intros Hinv Hrow.
  destruct (Hinv id) as [(_&_&_&Hnone)|(a & n & [Ha Hcount Hh Hr Hs])]; [congruence|].
  apply (family_inv_at d _ id); [|right|done].
  - intros i Hi. destruct bump; simpl; rewrite ?lookup_alter_ne by done;
      (split_and!; [done..|]); intros v'; by rewrite lookup_alter_ne by congruence.
  - exists a, n.
    assert (Hv : ∀ v', article_versions (redacted id v reason now bump d) !! (id, v') =
                   (if decide (v' = v) then redacted_row now reason else λ r, r) <$>
                     article_versions d !! (id, v')).
    { intros v'. transitivity (alter (redacted_row now reason) (id, v) (article_versions d)
                                !! (id, v')); [by destruct bump|].
      destruct (decide (v' = v)) as [->|Hne]; [by rewrite lookup_alter_eq|].
      rewrite lookup_alter_ne by congruence. by destruct (article_versions d !! (id, v')). }
    split; [by destruct bump|done| | |].
    + intros v'. rewrite Hv, fmap_is_Some. apply Hh.
    + intros v' r. rewrite Hv. intros (r' & Hr' & ->)%fmap_Some.
      destruct (Hr _ _ Hr') as (? & ? & ?).
      destruct (decide (v' = v)); [|done]. simpl. split_and!; [done..|].
      split; [by eexists|done].
    + destruct bump; simpl; [|done]. destruct Hs as [(?&?& l & Hl & ?&?)|(?&Hl&?)]; [left|right].
      * split_and!; [done..|]. exists (with_updated_at now l).
        rewrite lookup_alter_eq, Hl. simpl. by split_and!.
      * by rewrite lookup_alter_eq, Hl.
Qed.

(** ** Committed changes

    What a request can do to the family: the abstract specification the
    operations refine. *)
Inductive article_change : Db → Db → Prop :=
  | change_publish a l v d :
      fresh_rows a l v → articles d !! art_id a = None →
      article_change d (publish_rows a l v d)
  | change_edit id edit now d a l cur :
      articles d !! id = Some a → art_state a ≠ lit "tombstone" →
      articles_live d !! id = Some l →
      article_versions d !! (id, live_current_version l) = Some cur →
      1 <= as_i32 (live_current_version l + 1) →
      article_versions d !! (id, as_i32 (live_current_version l + 1)) = None →
      article_change d
        (edited id (edited_version edit id (as_i32 (live_current_version l + 1)) cur now) now d)
  | change_tombstone id reason now d a :
      articles d !! id = Some a → art_state a ≠ lit "tombstone" →
      article_change d (tombstoned id reason now d)
  | change_redact id v reason now d a row :
      articles d !! id = Some a → article_versions d !! (id, v) = Some row →
      ver_redacted_at row = None →
      article_change d
        (redacted id v reason now
           (str_eqb (art_state a) (lit "live")
            && bool_decide (live_current_version <$> articles_live d !! id = Some v)) d).

Lemma redacted_versions id v reason now bump d :
  article_versions (redacted id v reason now bump d) =
  alter (redacted_row now reason) (id, v) (article_versions d).
Proof. by destruct bump. Qed.

Lemma change_family d d' : family_inv d → article_change d d' → family_inv d'.
Proof.
  intros Hinv Hch.
  destruct Hch as [ar lr vr d Hrows Hnone|id edit now d a l cur Ha Hst Hl Hc Hv Hnone
                  |id reason now d a Ha Hst|id v reason now d a row Ha Hrow Hred].
  - by apply publish_rows_family.
  - destruct (family_live _ id a l (Hinv id) Ha Hl) as ([_ Hcount _ _ _] & _).
    set (n := as_i32 (live_current_version l + 1)) in *.
    assert (Hn : n = live_current_version l + 1 ∧ n <= i32_max).
    { unfold n, as_i32, i32_max in *.
      destruct (decide (live_current_version l = 2147483647)) as [Hmax|Hmax].
      - rewrite Hmax in Hv. by vm_compute in Hv.
      - rewrite Z.mod_small by lia. lia. }
    eapply edited_family; [done|done|done|apply Hn|apply Hn|done|done|by eexists|done].
  - by eapply tombstoned_family.
  - by eapply redacted_family.
Qed.

(** An article with its tombstone row [t] and the version history [1..n]. *)
Definition tombstoned_at (id : Uuid) (t : ArticleTombstoneRow) (n : Z) (d : Db) : Prop :=
  family_inv d ∧ articles_tombstone d !! id = Some t ∧ articles_live d !! id = None ∧
  ∀ v, is_Some (article_versions d !! (id, v)) ↔ 1 <= v <= n.

Lemma change_tombstoned id t n d d' :
  tombstoned_at id t n d → article_change d d' → tombstoned_at id t n d'.
Proof.
  intros (Hinv & Ht & Hl & Hh) Hch.
  split; [by eapply change_family|].
  assert (Hst : ∀ a, articles d !! id = Some a → art_state a = lit "tombstone").
  { intros a Ha. destruct (Hinv id) as [(?&_)|(a' & ? & [[??] _ _ _ Hs])]; [congruence|].
    destruct Hs as [(_ & ? & _)|(? & _)]; congruence. }
  assert (Hpres : is_Some (articles d !! id)).
  { destruct (Hinv id) as [(_&_&?&_)|(a' & ? & [[? _] _ _ _ _])]; [congruence|by eexists]. }
  destruct Hch as [ar lr vr d Hrows Hnone|i edit now d a l cur Ha Hsa Hli Hc Hv Hnone
                  |i reason now d a Ha Hsa|i v reason now d a row Ha Hrow Hred].
  - destruct (decide (art_id ar = id)) as [<-|Hne]; [destruct Hpres; congruence|]. simpl.
    rewrite !lookup_insert_ne by done. split_and!; [done..|]. intros v.
    by rewrite lookup_insert_ne by congruence.
  - destruct (decide (i = id)) as [->|Hne]; [congruence|]. simpl.
    rewrite lookup_alter_ne by done. split_and!; [done..|]. intros v.
    by rewrite lookup_insert_ne by congruence.
  - destruct (decide (i = id)) as [->|Hne]; [by destruct Hsa; apply Hst|]. simpl.
    by rewrite lookup_insert_ne, lookup_delete_ne by done.
  - rewrite redacted_versions. split_and!.
    + by destruct (_ && _).
    + destruct (_ && _); simpl; [|done]. by destruct (decide (i = id)) as [->|Hne];
        rewrite ?lookup_alter_eq, ?lookup_alter_ne, Hl by done.
    + intros v'. rewrite <- Hh. destruct (decide ((i, v) = (id, v'))) as [[= -> ->]|Hne];
        [by rewrite lookup_alter_eq, fmap_is_Some|by rewrite lookup_alter_ne by done].
Qed.

(** The version row [r], as it was or redacted since. *)
Definition version_kept (id : Uuid) (v : Z) (r : ArticleVersionRow) (d : Db) : Prop :=
  family_inv d ∧
  ∃ r', article_versions d !! (id, v) = Some r' ∧
    (r' = r ∨ (ver_redacted_at r = None ∧ ∃ now reason, r' = redacted_row now reason r)).

Lemma change_version id v r d d' :
  version_kept id v r d → article_change d d' → version_kept id v r d'.
Proof.
  intros (Hinv & r' & Hr' & Hor) Hch.
  split; [by eapply change_family|].
  destruct Hch as [ar lr vr d Hrows Hnone|i edit now d a l cur Ha Hsa Hli Hc Hv Hnone
                  |i reason now d a Ha Hsa|i v' reason now d a row Ha Hrow Hred].
  - exists r'. split; [|done]. simpl. rewrite lookup_insert_ne; [done|]. intros [= Hid <-].
    destruct (Hinv (art_id ar)) as [(_&_&_&Hn)|(? & ? & [[??] _ _ _ _])]; [|congruence].
    rewrite Hid in Hn. by rewrite Hn in Hr'.
  - exists r'. split; [|done]. simpl. rewrite lookup_insert_ne; [done|].
    intros [= -> <-]. congruence.
  - by exists r'.
  - rewrite redacted_versions. destruct (decide ((i, v') = (id, v))) as [[= -> ->]|Hne].
    + assert (row = r') as -> by congruence. rewrite lookup_alter_eq, Hr'. simpl.
      eexists. split; [done|]. right. destruct Hor as [->|(? & ? & ? & ->)]; [|done].
      split; [done|]. by eexists _, _.
    + exists r'. by rewrite lookup_alter_ne.
Qed.

(** The repository's interface as data. *)
Inductive ArticleOp : Type :=
  | OpPublish (new : NewArticle)
  | OpGet (id : Uuid)
  | OpList (account_id : Uuid) (include_tombstoned : bool) (page_size : Z) (token : PageToken)
  | OpEdit (id : Uuid) (edit : ArticleEdit)
  | OpTombstone (id : Uuid) (reason : option str)
  | OpRedact (id : Uuid) (version : Z) (reason : str).

Inductive ArticleReply : Type :=
  | ReplyArticle (a : Article)
  | ReplyPage (items : list ArticleSummary) (next : PageToken)
  | ReplyUnit.

Section preserved.
Context `{DieselLib, ChronoLib, Base64Lib, SerdeLib}.

Definition article_op (op : ArticleOp) : M HeadlinesError ArticleReply :=
  match op with
  | OpPublish new => a ← article_publish new; mret (ReplyArticle a)
  | OpGet id => a ← article_get id; mret (ReplyArticle a)
  | OpList account_id all size token =>
    '(items, next) ← article_list_by_account account_id all size token;
    mret (ReplyPage items next)
  | OpEdit id edit => a ← article_edit id edit; mret (ReplyArticle a)
  | OpTombstone id reason => a ← article_tombstone id reason; mret (ReplyArticle a)
  | OpRedact id version reason => article_redact_version id version reason;; mret ReplyUnit
  end.

Lemma hydrate_preserves P c1 c2 c3 a : preserves P (hydrate c1 c2 c3 a).
Proof. unfold hydrate. preserve. Qed.
#[local] Hint Resolve hydrate_preserves : preserve.

Lemma article_get_preserves P id : preserves P (article_get id).
Proof. unfold article_get. preserve. Qed.
#[local] Hint Resolve article_get_preserves : preserve.

Lemma article_list_preserves P account_id all size token :
  preserves P (article_list_by_account account_id all size token).
Proof. unfold article_list_by_account. preserve. Qed.

Lemma article_tx_preserves P :
  (∀ d d', P d → article_change d d' → P d') →
  (∀ new now, preserves P (tx (publish_tx new now))) ∧
  (∀ id edit now, preserves P (tx (edit_tx id edit now))) ∧
  (∀ id reason now, preserves P (tx (tombstone_tx id reason now))) ∧
  (∀ id v reason now, preserves P (tx (redact_tx id v reason now))).
Proof.
  intros HP. split_and!; intros; apply preserves_tx; intros env w [] w' Hinv Hr.
  - apply publish_tx_ok in Hr as [? ->]. eapply HP; [done|]. by apply change_publish; [apply new_rows_fresh|].
  - apply edit_tx_ok in Hr as (a & l & cur & ? & ? & ? & ? & ? & ? & ->).
    eapply HP; [done|]. by eapply change_edit.
  - apply tombstone_tx_ok in Hr as (a & ? & ? & ->). eapply HP; [done|]. by eapply change_tombstone.
  - apply redact_tx_ok in Hr as (a & row & ? & ? & ? & ->). eapply HP; [done|].
    by eapply change_redact.
Qed.

(** Every operation, run to its end or failing anywhere, changes the database by
    an [article_change] or not at all. *)
Lemma article_op_preserves P op :
  (∀ d d', P d → article_change d d' → P d') → preserves P (article_op op).
Proof.
  intros (Hp & He & Ht & Hr)%article_tx_preserves.
  destruct op; unfold article_op, article_publish, article_edit, article_tombstone,
    article_redact_version, article_list_by_account; preserve.
Qed.

(** C15. The documented table-family invariant survives every repository
    operation, for any input: if any statement, BEGIN or COMMIT fails at any point
    (and even if a failing COMMIT took effect), and whatever invariant-preserving
    requests run between the operation's own statements and transactions. *)
Theorem article_operations_keep_family op : preserves family_inv (article_op op).
Proof. apply article_op_preserves. intros d d'. apply change_family. Qed.

(** Tombstoning is one-way: once an article has its tombstone row, no
    operation changes or removes it, makes the article live again, or gives it
    another version. *)
Theorem tombstone_is_final op id t n :
  preserves (tombstoned_at id t n) (article_op op).
Proof. apply article_op_preserves. intros d d'. apply change_tombstoned. Qed.

(** Version history is append-only: after any operation a version row is
    what it was, or, if it was not redacted yet, its redaction, which keeps
    everything but the content; a redacted row never changes again, so its content
    never comes back. *)
Theorem version_history_append_only op id v r :
  preserves (version_kept id v r) (article_op op).
Proof. apply article_op_preserves. intros d d'. apply change_version. Qed.
End preserved.

(** ** The operations without failures *)

(** What a reader should see of an article. *)
Definition article_view (d : Db) (id : Uuid) : result HeadlinesError Article :=
  match articles d !! id, articles_live d !! id, articles_tombstone d !! id with
  | None, _, _ => Err (ArticleNotFound id)
  | Some a, Some l, _ =>
    match article_versions d !! (id, live_current_version l) with
    | Some v => Ok {| a_summary := live_summary a l v; a_content := ver_content v |}
    | None => Err (Internal [])
    end
  | Some a, None, Some t => Ok {| a_summary := tombstone_summary a t; a_content := None |}
  | Some a, None, None => Err (Internal [])
  end.

Lemma article_view_ok d id :
  family_inv d → is_Some (articles d !! id) → ∃ v, article_view d id = Ok v.
Proof.
  intros Hinv [a Ha]. unfold article_view. rewrite Ha.
  destruct (Hinv id) as [(?&_)|(a' & n & [[Ha' _] Hc Hh _ Hs])]; [congruence|].
  destruct Hs as [(_ & _ & l & Hl & _ & <-)|(_ & Hl & [t Ht])]; rewrite Hl.
  - destruct (proj2 (Hh (live_current_version l)) ltac:(lia)) as [v Hv]. rewrite Hv. by eexists.
  - rewrite Ht. by eexists.
Qed.

Section functional.
Context `{DieselLib, ChronoLib, Base64Lib, SerdeLib}.
Variables (env : Env) (Hq : quiet env).

Lemma hydrate_quiet c1 c2 c3 a w :
  family_inv (w_db w) → articles (w_db w) !! art_id a = Some a →
  ∃ t, hydrate c1 c2 c3 a env w =
    (match article_view (w_db w) (art_id a) with
     | Ok v => Ok (a_summary v, a_content v)
     | Err e => Err e
     end, mkWorld (w_db w) t).
Proof.
  intros Hinv Ha. unfold article_view. rewrite Ha.
  destruct (Hinv (art_id a)) as [(?&_)|(a' & n & [[Ha' _] Hc Hh _ Hs])]; [congruence|].
  assert (a' = a) as -> by congruence. unfold hydrate.
  destruct Hs as [(Hst & Ht & l & Hl & _ & <-)|(Hst & Hl & [t Ht])]; rewrite Hst, Hl;
    [change (parse_state (lit "live")) with (Ok (E := HeadlinesError) Live)
    |change (parse_state (lit "tombstone")) with (Ok (E := HeadlinesError) Tombstone)];
    repeat quiet_step.
  - destruct (proj2 (Hh (live_current_version l)) ltac:(lia)) as [v Hv].
    unfold select_live. rewrite Hl. quiet_step. unfold select_version. rewrite Hv. by eexists.
  - unfold select_tombstone. rewrite Ht. by eexists.
Qed.

Lemma article_get_quiet id w :
  family_inv (w_db w) →
  ∃ t, article_get id env w = (article_view (w_db w) id, mkWorld (w_db w) t).
Proof.
  intros Hinv. unfold article_get. do 2 quiet_step. unfold select_article.
  destruct (articles (w_db w) !! id) as [a|] eqn:Ha; quiet_step.
  - assert (art_id a = id) as Hid.
    { destruct (Hinv id) as [(?&_)|(a' & n & [[??] _ _ _ _])]; congruence. }
    rewrite bind_run.
    match goal with |- context [hydrate ?a ?b ?c _ env ?w] =>
      destruct (hydrate_quiet a b c _ w Hinv ltac:(by rewrite Hid)) as [t ->] end.
    rewrite !w_db_tick, Hid. destruct (article_view _ _) as [[]|e] eqn:Hv; by eexists.
  - unfold article_view. rewrite Ha. by eexists.
Qed.

(** The summaries of a page's rows. *)
Definition row_summary (d : Db) (a : ArticleRow) : option ArticleSummary :=
  match article_view d (art_id a) with
  | Ok v => Some (a_summary v)
  | Err _ => None
  end.

Lemma hydrate_all_quiet c1 c2 c3 rows w :
  family_inv (w_db w) → Forall (λ a, articles (w_db w) !! art_id a = Some a) rows →
  ∃ items t, mapM_ (hydrate c1 c2 c3) rows env w = (Ok items, mkWorld (w_db w) t) ∧
    items.*1 = omap (row_summary (w_db w)) rows.
Proof.
  intros Hinv Hrows. revert w Hinv Hrows.
  induction rows as [|a rows IH]; intros w Hinv Hrows; [by destruct w; eexists [], _|].
  apply Forall_cons in Hrows as [Ha Hrows]. simpl mapM_. rewrite bind_run.
  destruct (hydrate_quiet c1 c2 c3 a w Hinv Ha) as [t ->].
  destruct (article_view_ok (w_db w) (art_id a) Hinv (ex_intro _ _ Ha)) as [v Hv].
  rewrite Hv. rewrite bind_run.
  destruct (IH (mkWorld (w_db w) t) Hinv Hrows) as (items & t' & -> & Hitems).
  eexists (_ :: items), t'. split; [done|]. simpl. unfold row_summary at 1.
  rewrite Hv. by f_equal.
Qed.
End functional.

(** ** The specification the operations refine *)

Section spec.
Context `{DieselLib, ChronoLib, Base64Lib, SerdeLib}.

Definition reply_view (d : Db) (id : Uuid) : result HeadlinesError ArticleReply * Db :=
  (ReplyArticle <$> article_view d id, d).

Definition page_of (account_id : Uuid) (include_tombstoned : bool) (d : Db) : list ArticleRow :=
  rows_where (λ a, bool_decide (art_account_id a = account_id)
                   && (include_tombstoned || str_eqb (art_state a) (lit "live"))) (articles d).

(** The reply and the new database, as a function of the time and the database. *)
Definition article_spec (now : DateTime) (op : ArticleOp) (d : Db) :
    result HeadlinesError ArticleReply * Db :=
  match op with
  | OpPublish new =>
    if present (articles d) (na_id new) then
      (Err (internal "insert articles" (DUnique (lit "articles"))), d)
    else if negb (present (accounts d) (na_account_id new)) then
      (Err (internal "insert articles" (DForeignKey (lit "articles"))), d)
    else reply_view (published new now d) (na_id new)
  | OpGet id => reply_view d id
  | OpList account_id all size token =>
    match page_cursor (lit "c") token with
    | Err e => (Err e, d)
    | Ok cursor =>
      let '(rows, next) := fetch Desc (λ a, (art_created_at a, art_id a))
                             (clamp_page_size size) (page_of account_id all d) cursor in
      (Ok (ReplyPage (omap (row_summary d) rows) (next_token (lit "c") next)), d)
    end
  | OpEdit id edit =>
    match articles d !! id with
    | None => (Err (ArticleNotFound id), d)
    | Some a =>
      match articles_live d !! id with
      | None => (Err (ArticleTombstoned id), d)
      | Some l =>
        match article_versions d !! (id, live_current_version l) with
        | None => (Err (Internal []), d)
        | Some cur =>
          if live_current_version l =? i32_max then
            (Err (internal "insert next article_versions" (DCheck (lit "article_versions"))), d)
          else
            reply_view
              (edited id (edited_version edit id (live_current_version l + 1) cur now) now d) id
        end
      end
    end
  | OpTombstone id reason =>
    match articles d !! id, articles_live d !! id with
    | None, _ => (Err (ArticleNotFound id), d)
    | Some _, None => (Err (ArticleTombstoned id), d)
    | Some _, Some _ => reply_view (tombstoned id reason now d) id
    end
  | OpRedact id v reason =>
    match articles d !! id, article_versions d !! (id, v) with
    | None, _ => (Err (ArticleNotFound id), d)
    | Some _, None => (Err (VersionNotFound id v), d)
    | Some _, Some row =>
      if bool_decide (is_Some (ver_redacted_at row)) then (Err (VersionAlreadyRedacted id v), d)
      else (Ok ReplyUnit,
            redacted id v reason now
              (bool_decide (live_current_version <$> articles_live d !! id = Some v)) d)
    end
  end.

Variables (env : Env) (Hq : quiet env).

(** The shape of the refinement: from a world with the invariant, the handler's
    reply and the database it leaves. *)
Definition refines {A} (m : M HeadlinesError A) (w : World)
    (out : result HeadlinesError A * Db) : Prop :=
  ∃ t, m env w = (out.1, mkWorld out.2 t).

(** The read that ends every write, against the database the transaction left. *)
Lemma reply_get id w :
  family_inv (w_db w) →
  refines (a ← article_get id; mret (ReplyArticle a)) w (reply_view (w_db w) id).
Proof.
  intros Hinv. unfold refines. rewrite bind_run.
  destruct (article_get_quiet env Hq id w Hinv) as [t ->]. exists t.
  unfold reply_view. cbn [fst snd]. by destruct (article_view _ _).
Qed.

(** A write: the transaction, then the read. *)
Lemma refine_write (body : DateTime → M TxError ()) id w d' :
  let now := now_at env (S (w_tick w)) in
  (∃ t, body now (isolated env) (tick (tick (tick w))) = (Ok (), mkWorld d' t)) →
  family_inv d' →
  refines (a ← (get_conn;; now ← utc_now; tx (body now);; article_get id);
           mret (ReplyArticle a)) w (reply_view d' id).
Proof.
  intros now [t Hb] Hinv. unfold refines. rewrite bind_run. repeat quiet_step.
  subst now. cbn [w_tick tick] in *. rewrite Hb. by apply (reply_get id (tick (mkWorld d' t))).
Qed.

Lemma refine_failed (body : DateTime → M TxError ()) id w e :
  let now := now_at env (S (w_tick w)) in
  (∃ w', body now (isolated env) (tick (tick (tick w))) = (Err e, w')) →
  refines (a ← (get_conn;; now ← utc_now; tx (body now);; article_get id);
           mret (ReplyArticle a)) w (Err (from_tx e), w_db w).
Proof.
  intros now [w' Hb]. unfold refines. rewrite bind_run. repeat quiet_step.
  subst now. cbn [w_tick tick] in *. rewrite Hb. by eexists.
Qed.

Lemma refine_publish new w :
  family_inv (w_db w) →
  refines (article_op (OpPublish new)) w
    (article_spec (now_at env (S (w_tick w))) (OpPublish new) (w_db w)).
Proof.
  intros Hinv. unfold article_op, article_publish, article_spec.
  destruct (articles (w_db w) !! na_id new) as [a|] eqn:Ha;
    [|destruct (accounts (w_db w) !! na_account_id new) as [c|] eqn:Hc];
    constraints.
  - eapply (refine_failed _ _ _ (tx_internal _ _)). unfold publish_tx, insert_article.
    quiet_step. constraints. by eexists.
  - destruct (Hinv (na_id new)) as [(_ & Hl & _ & Hv)|(? & ? & [[??] _ _ _ _])]; [|congruence].
    eapply refine_write; [|by apply published_family].
    unfold publish_tx, insert_article, insert_article_live, insert_article_version.
    do 3 (quiet_step; constraints; change (1 <? 1) with false; constraints).
    by eexists.
  - eapply (refine_failed _ _ _ (tx_internal _ _)). unfold publish_tx, insert_article.
    quiet_step. constraints. by eexists.
Qed.

(** What the invariant says of an article that is there. *)
Lemma family_cases d id a :
  family_inv d → articles d !! id = Some a →
  (∃ l cur, art_state a = lit "live" ∧ articles_live d !! id = Some l ∧
     article_versions d !! (id, live_current_version l) = Some cur ∧
     article_versions d !! (id, live_current_version l + 1) = None ∧
     1 <= live_current_version l <= i32_max ∧ articles_tombstone d !! id = None) ∨
  (art_state a = lit "tombstone" ∧ articles_live d !! id = None).
Proof.
  intros Hinv Ha.
  destruct (Hinv id) as [(?&_)|(a' & n & [[Ha' _] Hc Hh _ Hs])]; [congruence|].
  assert (a' = a) as -> by congruence.
  destruct Hs as [(? & ? & l & Hl & _ & <-)|(? & ? & _)]; [left|by right].
  destruct (proj2 (Hh (live_current_version l)) ltac:(lia)) as [cur Hcur].
  exists l, cur. split_and!; [done..| |lia|lia|done].
  apply eq_None_not_Some. rewrite Hh. lia.
Qed.

(** Decides a test of the state column. *)
Ltac known_state Hst :=
  rewrite Hst;
  change (str_eqb (lit "live") (lit "tombstone")) with false;
  change (str_eqb (lit "tombstone") (lit "tombstone")) with true;
  change (str_eqb (lit "tombstone") (lit "live")) with false;
  change (str_eqb (lit "live") (lit "live")) with true;
  cbv iota.

Lemma refine_edit id edit w :
  family_inv (w_db w) →
  refines (article_op (OpEdit id edit)) w
    (article_spec (now_at env (S (w_tick w))) (OpEdit id edit) (w_db w)).
Proof.
  intros Hinv. unfold article_op, article_edit, article_spec.
  destruct (articles (w_db w) !! id) as [a|] eqn:Ha.
  - destruct (family_cases _ id a Hinv Ha) as
      [(l & cur & Hst & Hl & Hcur & Hnext & Hmax & Ht)|[Hst Hl]]; rewrite Hl.
    + rewrite Hcur. destruct (Z.eqb_spec (live_current_version l) i32_max) as [Hfull|Hroom].
      * eapply (refine_failed (edit_tx id edit) _ _ (tx_internal _ _)).
        unfold edit_tx, select_article, select_live, select_version, insert_article_version.
        quiet_step. rewrite Ha. quiet_step. known_state Hst. quiet_step. rewrite Hl.
        quiet_step. rewrite Hcur. quiet_step. rewrite Hfull.
        change (ver_version _ <? 1) with true. constraints. by eexists.
      * eapply (refine_write (edit_tx id edit)).
        2: { apply (change_family (w_db w)); [done|].
             assert (Hi : as_i32 (live_current_version l + 1) = live_current_version l + 1).
             { apply as_i32_id. unfold is_i32, i32_min, i32_max in *. lia. }
             rewrite <- Hi at 1. eapply change_edit; rewrite ?Hi; try done; [by rewrite Hst|lia]. }
        unfold edit_tx, select_article, select_live, select_version, insert_article_version.
        quiet_step. rewrite Ha. quiet_step. known_state Hst. quiet_step. rewrite Hl.
        quiet_step. rewrite Hcur. quiet_step.
        rewrite as_i32_id by (unfold is_i32, i32_min, i32_max in *; lia).
        cbn [edited_version ver_version ver_article_id].
        destruct (Z.ltb_spec (live_current_version l + 1) 1); [lia|].
        constraints. quiet_step. by eexists.
    + eapply (refine_failed (edit_tx id edit) _ _ (TxDomain _)).
      unfold edit_tx, select_article. quiet_step. rewrite Ha. quiet_step. known_state Hst. by eexists.
  - eapply (refine_failed (edit_tx id edit) _ _ (TxDomain _)).
    unfold edit_tx, select_article. quiet_step. rewrite Ha. quiet_step. by eexists.
Qed.

Lemma refine_tombstone id reason w :
  family_inv (w_db w) →
  refines (article_op (OpTombstone id reason)) w
    (article_spec (now_at env (S (w_tick w))) (OpTombstone id reason) (w_db w)).
Proof.
  intros Hinv. unfold article_op, article_tombstone, article_spec.
  destruct (articles (w_db w) !! id) as [a|] eqn:Ha.
  - destruct (family_cases _ id a Hinv Ha) as
      [(l & cur & Hst & Hl & _ & _ & _ & Ht)|[Hst Hl]]; rewrite Hl.
    + eapply (refine_write (tombstone_tx id reason));
        [|eapply tombstoned_family; [done|done|by rewrite Hst]].
      unfold tombstone_tx, select_article, insert_article_tombstone.
      quiet_step. rewrite Ha. quiet_step. known_state Hst. do 2 quiet_step.
      unfold update_article. constraints. quiet_step. by eexists.
    + eapply (refine_failed (tombstone_tx id reason) _ _ (TxDomain _)).
      unfold tombstone_tx, select_article. quiet_step. rewrite Ha. quiet_step. known_state Hst.
      by eexists.
  - eapply (refine_failed (tombstone_tx id reason) _ _ (TxDomain _)).
    unfold tombstone_tx, select_article. quiet_step. rewrite Ha. quiet_step. by eexists.
Qed.

Lemma update_version_live f id v d : articles_live (update_version f id v d) = articles_live d.
Proof. done. Qed.

Lemma refine_redact id v reason w :
  family_inv (w_db w) →
  refines (article_op (OpRedact id v reason)) w
    (article_spec (now_at env (S (w_tick w))) (OpRedact id v reason) (w_db w)).
Proof.
  intros Hinv. unfold refines, article_op, article_redact_version, article_spec.
  rewrite bind_run. repeat quiet_step. unfold redact_tx, select_article, select_version, select_live.
  quiet_step. cbn [w_tick tick]. destruct (articles (w_db w) !! id) as [a|] eqn:Ha; quiet_step;
    [|by eexists].
  quiet_step. destruct (article_versions (w_db w) !! (id, v)) as [row|] eqn:Hrow; quiet_step;
    [|by eexists].
  destruct (bool_decide (is_Some (ver_redacted_at row))) eqn:Hred; [by eexists|].
  quiet_step. destruct (family_cases _ id a Hinv Ha) as
    [(l & cur & Hst & Hl & _)|[Hst Hl]]; known_state Hst; rewrite Hl; cbn [fmap option_fmap option_map].
  - quiet_step. rewrite update_version_live, Hl.
    destruct (Z.eqb_spec (live_current_version l) v) as [Heq|Hne].
    + quiet_step. rewrite bool_decide_eq_true_2 by (by f_equal/=). by eexists.
    + rewrite bool_decide_eq_false_2 by (by intros [= ?]). by eexists.
  - rewrite bool_decide_eq_false_2 by done. by eexists.
Qed.

Lemma refine_list account_id all size token w :
  family_inv (w_db w) →
  refines (article_op (OpList account_id all size token)) w
    (article_spec (now_at env (S (w_tick w))) (OpList account_id all size token) (w_db w)).
Proof.
  intros Hinv. unfold refines, article_op, article_list_by_account, article_spec.
  rewrite bind_run. cbv zeta. destruct (page_cursor _ token) as [cursor|e]; quiet_step; [|by destruct w; eexists].
  do 2 quiet_step. fold (page_of account_id all (w_db w)).
  match goal with |- context [cut_page ?k ?l ?r] =>
    change (cut_page k l r) with (fetch Desc k l (page_of account_id all (w_db w)) cursor) end.
  destruct (fetch _ _ _ _ cursor) as [rows next] eqn:Hf.
  assert (Hrows : Forall (λ a, articles (w_db w) !! art_id a = Some a) rows).
  { apply Forall_forall. intros a Ha.
    assert (a ∈ page_of account_id all (w_db w)) as [_ [k Hk]]%elem_of_rows_where.
    { by apply (fetch_elem Desc (λ a, (art_created_at a, art_id a)) (clamp_page_size size) _ cursor);
        rewrite Hf. }
    destruct (Hinv k) as [(?&_)|(a' & n & [[??] _ _ _ _])]; congruence. }
  rewrite bind_run.
  match goal with |- context [mapM_ (hydrate ?a ?b ?c) rows env ?w] =>
    destruct (hydrate_all_quiet env Hq a b c rows w Hinv Hrows) as (items & t & -> & Hitems) end.
  exists t. cbn. by rewrite Hitems.
Qed.

Lemma articles_refine_spec op w :
  family_inv (w_db w) →
  refines (article_op op) w (article_spec (now_at env (S (w_tick w))) op (w_db w)).
Proof.
  intros Hinv. destruct op as [new|id|account_id all size token|id edit|id reason|id v reason].
  - by apply refine_publish.
  - by apply reply_get.
  - by apply refine_list.
  - by apply refine_edit.
  - by apply refine_tombstone.
  - by apply refine_redact.
Qed.

(** C16. Refinement: with no failures and no other requests in between, every
    repository operation from a database with the invariant replies and changes the
    database as the specification says, on every branch: not found, already
    tombstoned, unknown version, already redacted, duplicate id, unknown account, a
    full version counter and a bad page token included. *)
Theorem article_operations_refine op w :
  family_inv (w_db w) →
  ∃ t, article_op op env w =
    ((article_spec (now_at env (S (w_tick w))) op (w_db w)).1,
     mkWorld (article_spec (now_at env (S (w_tick w))) op (w_db w)).2 t).
Proof. apply articles_refine_spec. Qed.
End spec.

(** ** What the specification says to a caller *)

Section caller.
Context `{DieselLib, ChronoLib, Base64Lib, SerdeLib}.
Variables (env : Env) (Hq : quiet env).

Lemma edited_version_content edit id v cur now :
  ver_content (edited_version edit id v cur now) =
  Some (default (JArray []) (union (ae_content edit) (ver_content cur))).
Proof. done. Qed.

Lemma reply_inv (m : M HeadlinesError Article) w r w' :
  (a ← m; mret (ReplyArticle a)) env w = (ReplyArticle <$> r, w') → m env w = (r, w').
Proof.
  rewrite bind_run. destruct (m env w) as [[a|e] w1]; destruct r; cbn; unfold mret, M_ret;
    intros; by simplify_eq.
Qed.

(** A write whose reply is the new view. *)
Lemma write_ran op w d' id :
  family_inv (w_db w) →
  article_spec (now_at env (S (w_tick w))) op (w_db w) = reply_view d' id →
  ∃ t, article_op op env w = (ReplyArticle <$> article_view d' id, mkWorld d' t).
Proof.
  intros Hinv Hs. destruct (articles_refine_spec env Hq op w Hinv) as [t Ht].
  exists t. by rewrite Ht, Hs.
Qed.

Lemma view_live d id a l v :
  articles d !! id = Some a → articles_live d !! id = Some l →
  article_versions d !! (id, live_current_version l) = Some v →
  article_view d id = Ok {| a_summary := live_summary a l v; a_content := ver_content v |}.
Proof. intros Ha Hl Hv. unfold article_view. by rewrite Ha, Hl, Hv. Qed.

Lemma publish_ran new w :
  let now := now_at env (S (w_tick w)) in
  family_inv (w_db w) → articles (w_db w) !! na_id new = None →
  is_Some (accounts (w_db w) !! na_account_id new) →
  ∃ t, article_publish new env w =
    (Ok {| a_summary := live_summary (new_article new now) (new_live new now)
                          (first_version new now);
           a_content := Some (na_content new) |}, mkWorld (published new now (w_db w)) t).
Proof.
  intros now Hinv Hnew [c Hc].
  destruct (write_ran (OpPublish new) w (published new now (w_db w)) (na_id new) Hinv)
    as [t Hp%reply_inv]; [cbn [article_spec]; by constraints|].
  exists t. rewrite Hp. f_equal.
  apply (view_live _ _ (new_article new now) (new_live new now) (first_version new now));
    apply lookup_insert_eq.
Qed.

(** A publication that succeeded. *)
Lemma publish_ok new a w w1 :
  let now := now_at env (S (w_tick w)) in
  family_inv (w_db w) → article_publish new env w = (Ok a, w1) →
  a = {| a_summary := live_summary (new_article new now) (new_live new now)
                        (first_version new now);
         a_content := Some (na_content new) |} ∧
  family_inv (w_db w1) ∧ article_view (w_db w1) (na_id new) = Ok a.
Proof.
  intros now Hinv Hrun.
  destruct (articles_refine_spec env Hq (OpPublish new) w Hinv) as [t Hs].
  cbn [article_op article_spec] in Hs. rewrite bind_run, Hrun in Hs.
  destruct (articles (w_db w) !! na_id new) as [x|] eqn:Hnew;
    [by rewrite (proj2 (present_true _ _)) in Hs by by eexists|].
  destruct (accounts (w_db w) !! na_account_id new) as [x|] eqn:Hacc;
    [|by rewrite (present_none _ _ Hnew), (present_none _ _ Hacc) in Hs].
  destruct (publish_ran new w Hinv Hnew (ex_intro _ _ Hacc)) as [t' Hp].
  rewrite Hp in Hrun. injection Hrun as <- <-.
  split_and!; [done|by apply published_family|].
  apply (view_live _ _ (new_article new now) (new_live new now) (first_version new now));
    apply lookup_insert_eq.
Qed.

Lemma edit_ran id edit w a l cur :
  let now := now_at env (S (w_tick w)) in
  let v := live_current_version l + 1 in
  let row := edited_version edit id v cur now in
  family_inv (w_db w) → articles (w_db w) !! id = Some a →
  articles_live (w_db w) !! id = Some l →
  article_versions (w_db w) !! (id, live_current_version l) = Some cur →
  live_current_version l ≠ i32_max →
  ∃ t, article_edit id edit env w =
    (Ok {| a_summary := live_summary a (with_current v now l) row;
           a_content := ver_content row |}, mkWorld (edited id row now (w_db w)) t).
Proof.
  intros now v row Hinv Ha Hl Hcur Hmax.
  destruct (write_ran (OpEdit id edit) w (edited id row now (w_db w)) id Hinv)
    as [t Hp%reply_inv].
  { cbn [article_spec]. rewrite Ha, Hl, Hcur. by rewrite (proj2 (Z.eqb_neq _ _) Hmax). }
  exists t. rewrite Hp. f_equal. apply view_live.
  - done.
  - unfold edited, update_live. db_simpl. by rewrite lookup_alter_eq, Hl.
  - apply lookup_insert_eq.
Qed.

Lemma or_default_union o s : or_default (union o (non_empty s)) = default s o.
Proof. destruct o; [by destruct (non_empty s)|]. rewrite (left_id_L None union). apply or_default_non_empty. Qed.

(** Publishing a new article and then editing it replies with the live
    article at version 2: the fields the edit sets, and the published ones for the
    rest; the publication time of the first call and the update time of the second. *)
Theorem publish_then_edit new edit w :
  family_inv (w_db w) → articles (w_db w) !! na_id new = None →
  is_Some (accounts (w_db w) !! na_account_id new) →
  ∃ a w1 w2,
    (article_publish new;; article_edit (na_id new) edit) env w = (Ok a, w2) ∧
    (article_publish new env w).2 = w1 ∧
    a_content a = Some (default (na_content new) (ae_content edit)) ∧
    a_summary a =
      {| as_id := na_id new; as_account_id := na_account_id new; as_state := Live;
         as_created_at := now_at env (S (w_tick w)); as_current_version := Some 2;
         as_title := Some (default (na_title new) (ae_title edit));
         as_author_name := Some (default (na_author_name new) (ae_author_name edit));
         as_author_url := Some (default (na_author_url new) (ae_author_url edit));
         as_redacted := false;
         as_published_at := Some (now_at env (S (w_tick w)));
         as_updated_at := Some (now_at env (S (w_tick w1)));
         as_tombstone_reason := None; as_tombstoned_at := None |} ∧
    article_view (w_db w2) (na_id new) = Ok a.
Proof.
  intros Hinv Hnew Hacc. destruct (publish_ran new w Hinv Hnew Hacc) as [t Hp].
  set (now := now_at env (S (w_tick w))) in *. set (d1 := published new now (w_db w)) in *.
  assert (Hl1 : articles_live d1 !! na_id new = Some (new_live new now))
    by apply lookup_insert_eq.
  assert (Ha1 : articles d1 !! na_id new = Some (new_article new now)) by apply lookup_insert_eq.
  assert (Hv1 : article_versions d1 !! (na_id new, 1) = Some (first_version new now))
    by apply lookup_insert_eq.
  destruct (edit_ran (na_id new) edit (mkWorld d1 t) _ _ _
              ltac:(by apply published_family) Ha1 Hl1 Hv1 ltac:(done)) as [t2 He].
  eexists _, _, _. rewrite bind_run, Hp, He. split; [done|]. split; [done|].
  split; [unfold edited_version; cbn; by destruct (ae_content edit)|]. split.
  - unfold live_summary. cbn -[or_default non_empty union now].
    by rewrite !or_default_non_empty, !or_default_union.
  - apply view_live; [done| |apply lookup_insert_eq].
    unfold edited, update_live. db_simpl. rewrite lookup_alter_eq. by rewrite Hl1.
Qed.

(** After the current version of a live article is redacted, a reader gets
    the article without its content, marked redacted, still live at the same version,
    and with the redaction as its update time. *)
Theorem redacted_content_is_hidden id v reason w a l :
  family_inv (w_db w) → articles (w_db w) !! id = Some a →
  articles_live (w_db w) !! id = Some l → live_current_version l = v →
  (∀ r, article_versions (w_db w) !! (id, v) = Some r → ver_redacted_at r = None) →
  ∃ b w',
    (article_redact_version id v reason;; article_get id) env w = (Ok b, w') ∧
    a_content b = None ∧ as_redacted (a_summary b) = true ∧
    as_state (a_summary b) = Live ∧ as_current_version (a_summary b) = Some v ∧
    as_updated_at (a_summary b) = Some (now_at env (S (w_tick w))).
Proof.
  intros Hinv Ha Hl Hv Hred. set (now := now_at env (S (w_tick w))).
  destruct (family_live _ id a l (Hinv id) Ha Hl) as ([_ Hc Hh Hrows _] & Hst & Ht & _).
  destruct (proj2 (Hh v) ltac:(lia)) as [r Hr]. specialize (Hred r Hr).
  destruct (Hrows v r Hr) as (_ & Hver & _).
  destruct (articles_refine_spec env Hq (OpRedact id v reason) w Hinv) as [t Hrun].
  cbn [article_spec] in Hrun. rewrite Ha, Hr, Hred in Hrun.
  rewrite bool_decide_eq_false_2 in Hrun by (by intros []).
  rewrite Hl, bool_decide_eq_true_2 in Hrun by (by f_equal/=). cbn [fst snd] in Hrun.
  set (d1 := redacted id v reason _ true (w_db w)) in *.
  assert (Hinv1 : family_inv d1) by by eapply redacted_family.
  destruct (article_get_quiet env Hq id (mkWorld d1 t) Hinv1) as [t' Hg].
  assert (Hredact : article_redact_version id v reason env w = (Ok (), mkWorld d1 t)).
  { revert Hrun. unfold article_op. rewrite bind_run.
    destruct (article_redact_version id v reason env w) as [[[]|e] w1]; [|done].
    unfold mret, M_ret. intros; by simplify_eq. }
  rewrite bind_run, Hredact, Hg. cbn [w_db].
  rewrite (view_live d1 id a (with_updated_at now l) (redacted_row now reason r)).
  - eexists _, _. split; [done|]. cbn. by rewrite Hver.
  - done.
  - unfold d1, redacted, update_live, update_version. db_simpl. by rewrite lookup_alter_eq, Hl.
  - unfold d1. rewrite redacted_versions. cbn [with_updated_at live_current_version].
    by rewrite Hv, lookup_alter_eq, Hr.
Qed.
End caller.

(** ** Examples *)

Lemma family_inv_none d :
  articles d = ∅ → articles_live d = ∅ → articles_tombstone d = ∅ → article_versions d = ∅ →
  family_inv d.
Proof. intros Ha Hl Ht Hv id. left. unfold family_absent. by rewrite Ha, Hl, Ht, Hv. Qed.

Definition toy_article : NewArticle :=
  {| na_id := 7%N; na_account_id := 1%N; na_title := lit "First"; na_author_name := lit "Ann";
     na_author_url := []; na_content := JArray [] |}.
Definition toy_edit : ArticleEdit :=
  {| ae_title := Some (lit "Second"); ae_author_name := None; ae_author_url := None;
     ae_content := None |}.
Definition toy_published : Db := published toy_article 0 toy_db.

Lemma toy_db_family : family_inv toy_db.
Proof. by apply family_inv_none. Qed.
Lemma toy_published_family : family_inv toy_published.
Proof. apply published_family; [done|apply toy_db_family]. Qed.

Lemma toy_published_rows :
  articles toy_published !! 7%N = Some (new_article toy_article 0) ∧
  articles_live toy_published !! 7%N = Some (new_live toy_article 0) ∧
  article_versions toy_published !! (7%N, 1) = Some (first_version toy_article 0).
Proof. split_and!; apply lookup_insert_eq. Qed.

Lemma article_operations_refine_witness :
  ∃ t, @article_op toy_diesel toy_chrono toy_base64 toy_serde (OpEdit 7%N toy_edit) toy_env
         (mkWorld toy_published 0) =
    ((@article_spec toy_diesel toy_chrono toy_base64 toy_serde 1000 (OpEdit 7%N toy_edit)
        toy_published).1,
     mkWorld (@article_spec toy_diesel toy_chrono toy_base64 toy_serde 1000
                (OpEdit 7%N toy_edit) toy_published).2 t).
Proof.
  exact (@article_operations_refine toy_diesel toy_chrono toy_base64 toy_serde toy_env
           toy_env_quiet (OpEdit 7%N toy_edit) (mkWorld toy_published 0) toy_published_family).
Defined.

Lemma publish_then_edit_witness :
  ∃ a w2,
    (@article_publish toy_diesel toy_article;; @article_edit toy_diesel 7%N toy_edit)
      toy_env (mkWorld toy_db 0) = (Ok a, w2) ∧
    as_title (a_summary a) = Some (lit "Second") ∧ a_content a = Some (JArray []).
Proof.
  destruct (@publish_then_edit toy_diesel toy_chrono toy_base64 toy_serde toy_env toy_env_quiet
    toy_article toy_edit (mkWorld toy_db 0) toy_db_family (lookup_empty _)
    (ex_intro _ (toy_account 1%N) (lookup_insert_eq _ _ _))) as (a & w1 & w2 & Hrun & _ & Hc & Hs & _).
  exists a, w2. rewrite Hs, Hc. split; [exact Hrun|]. by split.
Defined.

Lemma redacted_content_is_hidden_witness :
  ∃ b w', (@article_redact_version toy_diesel 7%N 1 (lit "spam");; @article_get toy_diesel 7%N)
            toy_env (mkWorld toy_published 0) = (Ok b, w') ∧
          a_content b = None ∧ as_redacted (a_summary b) = true.
Proof.
  destruct toy_published_rows as (Ha & Hl & Hv).
  destruct (@redacted_content_is_hidden toy_diesel toy_chrono toy_base64 toy_serde toy_env
    toy_env_quiet 7%N 1 (lit "spam") (mkWorld toy_published 0) _ _ toy_published_family
    Ha Hl eq_refl) as (b & w' & Hrun & Hc & Hr & _).
  { intros r Hr. apply (eq_trans (eq_sym Hr)) in Hv. by injection Hv as ->. }
  by exists b, w'.
Defined.
