(* ===== verification/Drafts.v ===== *)
(** * The draft repository ([headlines-store/src/repo/drafts.rs],
    [headlines-core/src/repo/drafts.rs])

    Mutable drafts and their atomic hand-over to the article family at
    publication. *)

From S2P Require Import Prelude Libs Instances Errors Db Paging Articles.

Record Draft := {
  d_id : Uuid;
  d_account_id : Uuid;
  d_title : str;
  d_author_name : str;
  d_author_url : str;
  d_content : Json;
  d_created_at : DateTime;
  d_updated_at : DateTime;
}.
Record DraftSummary := {
  ds_id : Uuid;
  ds_account_id : Uuid;
  ds_title : str;
  ds_created_at : DateTime;
  ds_updated_at : DateTime;
}.
Record NewDraft := {
  nd_id : Uuid;
  nd_account_id : Uuid;
  nd_title : str;
  nd_author_name : str;
  nd_author_url : str;
  nd_content : Json;
}.
Record DraftUpdate := {
  du_title : option str;
  du_author_name : option str;
  du_author_url : option str;
  du_content : option Json;
}.

(** [From<DraftRow> for Draft] *)
Definition draft_from_row (r : DraftRow) : Draft :=
  {| d_id := dr_id r; d_account_id := dr_account_id r; d_title := dr_title r;
     d_author_name := or_default (dr_author_name r);
     d_author_url := or_default (dr_author_url r);
     d_content := dr_content r; d_created_at := dr_created_at r;
     d_updated_at := dr_updated_at r |}.
Definition draft_summary (r : DraftRow) : DraftSummary :=
  {| ds_id := dr_id r; ds_account_id := dr_account_id r; ds_title := dr_title r;
     ds_created_at := dr_created_at r; ds_updated_at := dr_updated_at r |}.

Definition select_draft (id : Uuid) : Db → option DraftRow := λ d, drafts d !! id.
Definition update_draft (f : DraftRow → DraftRow) (id : Uuid) (d : Db) : Db :=
  set_drafts (alter f id (drafts d)) d.
Definition delete_draft (id : Uuid) (d : Db) : Db := set_drafts (delete id (drafts d)) d.

(** The column updates of [update]. *)
Definition with_title (t : str) (r : DraftRow) : DraftRow :=
  mkDraft (dr_id r) (dr_account_id r) t (dr_author_name r) (dr_author_url r) (dr_content r)
    (dr_created_at r) (dr_updated_at r).
Definition with_author_name (an : option str) (r : DraftRow) : DraftRow :=
  mkDraft (dr_id r) (dr_account_id r) (dr_title r) an (dr_author_url r) (dr_content r)
    (dr_created_at r) (dr_updated_at r).
Definition with_author_url (au : option str) (r : DraftRow) : DraftRow :=
  mkDraft (dr_id r) (dr_account_id r) (dr_title r) (dr_author_name r) au (dr_content r)
    (dr_created_at r) (dr_updated_at r).
Definition with_content (c : Json) (r : DraftRow) : DraftRow :=
  mkDraft (dr_id r) (dr_account_id r) (dr_title r) (dr_author_name r) (dr_author_url r) c
    (dr_created_at r) (dr_updated_at r).
Definition draft_touched (now : DateTime) (r : DraftRow) : DraftRow :=
  mkDraft (dr_id r) (dr_account_id r) (dr_title r) (dr_author_name r) (dr_author_url r)
    (dr_content r) (dr_created_at r) now.

Record ArticlePieces := {
  ap_id : Uuid;
  ap_account_id : Uuid;
  ap_title : str;
  ap_author_name : str;
  ap_author_url : str;
  ap_content : Json;
  ap_published_at : DateTime;
  ap_updated_at : DateTime;
  ap_created_at : DateTime;
}.

Definition new_draft_row (new : NewDraft) (now : DateTime) : DraftRow :=
  mkDraft (nd_id new) (nd_account_id new) (nd_title new) (non_empty (nd_author_name new))
    (non_empty (nd_author_url new)) (nd_content new) now now.

Section repo.
Context `{DieselLib, ChronoLib, Base64Lib, SerdeLib}.

(** [create] *)
Definition draft_create (new : NewDraft) : M HeadlinesError Draft :=
  get_conn;;
  now ← utc_now;
  row ← run "insert drafts"
          (returning (insert_draft (new_draft_row new now)) (λ _, new_draft_row new now));
  mret (draft_from_row row).

(** [get] *)
Definition draft_get (id : Uuid) : M HeadlinesError Draft :=
  get_conn;;
  row ← run_opt "select drafts" (first_row (select_draft id));
  some_or (DraftNotFound id) (draft_from_row <$> row).

(** One masked [UPDATE] of [update]. *)
Definition update_field {A} (ctx : string) (o : option A) (f : A → DraftRow → DraftRow)
    (id : Uuid) : M TxError () :=
  match o with
  | Some x => tx_run ctx (execute (update_draft (f x) id))
  | None => mret ()
  end.

(** The transaction of [update]. *)
Definition draft_update_tx (id : Uuid) (upd : DraftUpdate) (now : DateTime) :
    M TxError DraftRow :=
  existing ← tx_run_opt "select drafts for update" (first_row (select_draft id));
  if bool_decide (existing = None) then throw (TxDomain (DraftNotFound id))
  else
    update_field "update drafts.title" (du_title upd) with_title id;;
    update_field "update drafts.author_name" (du_author_name upd)
      (λ an, with_author_name (non_empty an)) id;;
    update_field "update drafts.author_url" (du_author_url upd)
      (λ au, with_author_url (non_empty au)) id;;
    update_field "update drafts.content" (du_content upd) with_content id;;
    tx_run "update drafts.updated_at" (execute (update_draft (draft_touched now) id));;
    tx_run "re-select drafts after update" (first_row (select_draft id)).

(** [update] *)
Definition draft_update (id : Uuid) (update : DraftUpdate) : M HeadlinesError Draft :=
  get_conn;;
  now ← utc_now;
  row ← tx (draft_update_tx id update now);
  mret (draft_from_row row).

(** [delete] *)
Definition draft_delete (id : Uuid) : M HeadlinesError () :=
  get_conn;;
  n ← run "delete drafts"
        (execute_count (λ d, if present (drafts d) id then 1%nat else 0%nat) (delete_draft id));
  if bool_decide (n = 0%nat) then throw (DraftNotFound id) else mret ().

(** [list_by_account] *)
Definition draft_list_by_account (account_id : Uuid) (page_size : Z) (page_token : PageToken) :
    M HeadlinesError (list DraftSummary * PageToken) :=
  let limit := draft_page_size page_size in
  cursor ← lift (page_cursor (lit "u") page_token);
  get_conn;;
  rows ← run "list drafts" (query (λ d,
    keyset_rows Desc (λ r, (dr_updated_at r, dr_id r)) cursor limit
      (rows_where (λ r, bool_decide (dr_account_id r = account_id)) (drafts d))));
  let '(rows, next) := cut_page (λ r, (dr_updated_at r, dr_id r)) limit rows in
  mret (draft_summary <$> rows, next_token (lit "u") next).

Definition draft_article (row : DraftRow) (now : DateTime) : ArticleRow :=
  mkArticle (dr_id row) (dr_account_id row) (lit "live") now.
Definition draft_live (row : DraftRow) (now : DateTime) : ArticleLiveRow :=
  mkLive (dr_id row) 1 now now.
Definition draft_version (row : DraftRow) (now : DateTime) : ArticleVersionRow :=
  mkVersion (dr_id row) 1 (dr_title row) (dr_author_name row) (dr_author_url row)
    (Some (dr_content row)) None None now.

(** The transaction of [publish]. *)
Definition draft_publish_tx (id : Uuid) (now : DateTime) : M TxError ArticlePieces :=
  row ← tx_run_opt "select drafts for publish" (first_row (select_draft id));
  row ← some_or (TxDomain (DraftNotFound id)) row;
  tx_run "insert articles" (insert_article (draft_article row now));;
  tx_run "insert articles_live" (insert_article_live (draft_live row now));;
  tx_run "insert article_versions" (insert_article_version (draft_version row now));;
  tx_run "delete drafts after publish" (execute (delete_draft id));;
  mret {| ap_id := dr_id row; ap_account_id := dr_account_id row; ap_title := dr_title row;
          ap_author_name := or_default (dr_author_name row);
          ap_author_url := or_default (dr_author_url row); ap_content := dr_content row;
          ap_published_at := now; ap_updated_at := now; ap_created_at := now |}.

(** The [Article] assembled from the pieces. *)
Definition article_of_pieces (p : ArticlePieces) : Article :=
  {| a_summary :=
       {| as_id := ap_id p; as_account_id := ap_account_id p; as_state := Live;
          as_created_at := ap_created_at p; as_current_version := Some 1;
          as_title := Some (ap_title p); as_author_name := Some (ap_author_name p);
          as_author_url := Some (ap_author_url p); as_redacted := false;
          as_published_at := Some (ap_published_at p);
          as_updated_at := Some (ap_updated_at p);
          as_tombstone_reason := None; as_tombstoned_at := None |};
     a_content := Some (ap_content p) |}.

(** [publish] *)
Definition draft_publish (id : Uuid) : M HeadlinesError Article :=
  get_conn;;
  now ← utc_now;
  result ← tx (draft_publish_tx id now);
  mret (article_of_pieces result).
End repo.

(** ** The repository's interface as data *)

Inductive DraftOp : Type :=
  | DCreate (new : NewDraft)
  | DGet (id : Uuid)
  | DUpdate (id : Uuid) (update : DraftUpdate)
  | DDelete (id : Uuid)
  | DList (account_id : Uuid) (page_size : Z) (token : PageToken)
  | DPublish (id : Uuid).

Inductive DraftReply : Type :=
  | DReplyDraft (d : Draft)
  | DReplyPage (items : list DraftSummary) (next : PageToken)
  | DReplyArticle (a : Article)
  | DReplyUnit.

(** Every draft is stored under its id. *)
Definition drafts_keyed (d : Db) : Prop := ∀ id r, drafts d !! id = Some r → dr_id r = id.

(** The masked fields of an update, in the order they are written. *)
Definition apply_field {A} (o : option A) (f : A → DraftRow → DraftRow) : DraftRow → DraftRow :=
  match o with Some x => f x | None => λ r, r end.
Definition merged_draft (upd : DraftUpdate) (now : DateTime) (r : DraftRow) : DraftRow :=
  draft_touched now
    (apply_field (du_content upd) with_content
       (apply_field (du_author_url upd) (λ au, with_author_url (non_empty au))
          (apply_field (du_author_name upd) (λ an, with_author_name (non_empty an))
             (apply_field (du_title upd) with_title r)))).

Lemma set_drafts_id d : set_drafts (drafts d) d = d.
Proof. by destruct d. Qed.
Lemma update_draft_id f id d : (∀ r, f r = r) → update_draft f id d = d.
Proof.
  intros Hf. unfold update_draft. rewrite <- (set_drafts_id d) at 3. f_equal. apply map_eq.
  intros i. destruct (decide (i = id)) as [->|Hi]; [|by rewrite lookup_alter_ne].
  rewrite lookup_alter_eq. destruct (drafts d !! id); [|done]. cbn. by rewrite Hf.
Qed.
Lemma update_draft_compose f g id d :
  update_draft f id (update_draft g id d) = update_draft (λ r, f (g r)) id d.
Proof.
  unfold update_draft. transitivity (set_drafts (alter f id (alter g id (drafts d))) d); [done|].
  f_equal. apply map_eq. intros i. destruct (decide (i = id)) as [->|Hi].
  - rewrite !lookup_alter_eq. by destruct (drafts d !! id).
  - by rewrite !lookup_alter_ne.
Qed.
Lemma drafts_update f id d : drafts (update_draft f id d) !! id = f <$> drafts d !! id.
Proof. apply lookup_alter_eq. Qed.

Lemma family_inv_drafts t d : family_inv d → family_inv (set_drafts t d).
Proof. intros Hinv id. by apply (family_ok_frame d). Qed.

Section spec.
Context `{DieselLib, ChronoLib, Base64Lib, SerdeLib}.

Definition draft_op (op : DraftOp) : M HeadlinesError DraftReply :=
  match op with
  | DCreate new => d ← draft_create new; mret (DReplyDraft d)
  | DGet id => d ← draft_get id; mret (DReplyDraft d)
  | DUpdate id upd => d ← draft_update id upd; mret (DReplyDraft d)
  | DDelete id => draft_delete id;; mret DReplyUnit
  | DList account_id size token =>
    '(items, next) ← draft_list_by_account account_id size token; mret (DReplyPage items next)
  | DPublish id => a ← draft_publish id; mret (DReplyArticle a)
  end.

Definition draft_published (row : DraftRow) (now : DateTime) (d : Db) : Db :=
  publish_rows (draft_article row now) (draft_live row now) (draft_version row now) d.

(** The reply and the new database, as a function of the time and the database. *)
Definition draft_spec (now : DateTime) (op : DraftOp) (d : Db) :
    result HeadlinesError DraftReply * Db :=
  match op with
  | DCreate new =>
    if present (drafts d) (nd_id new) then
      (Err (internal "insert drafts" (DUnique (lit "drafts"))), d)
    else if negb (present (accounts d) (nd_account_id new)) then
      (Err (internal "insert drafts" (DForeignKey (lit "drafts"))), d)
    else (Ok (DReplyDraft (draft_from_row (new_draft_row new now))),
          set_drafts (<[nd_id new := new_draft_row new now]> (drafts d)) d)
  | DGet id =>
    match drafts d !! id with
    | Some r => (Ok (DReplyDraft (draft_from_row r)), d)
    | None => (Err (DraftNotFound id), d)
    end
  | DUpdate id upd =>
    match drafts d !! id with
    | Some r => (Ok (DReplyDraft (draft_from_row (merged_draft upd now r))),
                 set_drafts (<[id := merged_draft upd now r]> (drafts d)) d)
    | None => (Err (DraftNotFound id), d)
    end
  | DDelete id =>
    match drafts d !! id with
    | Some _ => (Ok DReplyUnit, delete_draft id d)
    | None => (Err (DraftNotFound id), d)
    end
  | DList account_id size token =>
    match page_cursor (lit "u") token with
    | Err e => (Err e, d)
    | Ok cursor =>
      let '(rows, next) :=
        fetch Desc (λ r, (dr_updated_at r, dr_id r)) (draft_page_size size)
          (rows_where (λ r, bool_decide (dr_account_id r = account_id)) (drafts d)) cursor in
      (Ok (DReplyPage (draft_summary <$> rows) (next_token (lit "u") next)), d)
    end
  | DPublish id =>
    match drafts d !! id with
    | None => (Err (DraftNotFound id), d)
    | Some row =>
      if present (articles d) id then
        (Err (internal "insert articles" (DUnique (lit "articles"))), d)
      else if negb (present (accounts d) (dr_account_id row)) then
        (Err (internal "insert articles" (DForeignKey (lit "articles"))), d)
      else
        let d' := delete_draft id (draft_published row now d) in
        (DReplyArticle <$> article_view d' id, d')
    end
  end.

(** What a committed publication did, and what its transaction returned. *)
Lemma draft_publish_tx_ok id now env w p w' :
  draft_publish_tx id now (isolated env) w = (Ok p, w') →
  ∃ row, drafts (w_db w) !! id = Some row ∧ articles (w_db w) !! dr_id row = None ∧
    w_db w' = delete_draft id (draft_published row now (w_db w)) ∧
    p = {| ap_id := dr_id row; ap_account_id := dr_account_id row; ap_title := dr_title row;
           ap_author_name := or_default (dr_author_name row);
           ap_author_url := or_default (dr_author_url row); ap_content := dr_content row;
           ap_published_at := now; ap_updated_at := now; ap_created_at := now |}.
Proof.
  intros Hr. unfold draft_publish_tx in Hr. tx_facts Hr. by eexists.
Qed.

Lemma draft_rows_fresh row now :
  fresh_rows (draft_article row now) (draft_live row now) (draft_version row now).
Proof. by split. Qed.

(** Every operation changes the article family as a publication does or not at all,
    and otherwise only the drafts. *)
Lemma draft_op_preserves P op :
  (∀ d d', P d → article_change d d' → P d') → (∀ t d, P d → P (set_drafts t d)) →
  preserves P (draft_op op).
Proof.
  intros Harticles Hdrafts.
  assert (Hupd : ∀ f id d, P d → P (update_draft f id d)) by (intros; by apply Hdrafts).
  assert (Hfield : ∀ A ctx (o : option A) f id, preserves P (update_field ctx o f id)).
  { intros A ctx [x|] f id; unfold update_field; preserve. }
  destruct op as [new|id|id upd|id|acct size token|id]; unfold draft_op, draft_create, draft_get,
    draft_update, draft_delete, draft_list_by_account, draft_publish; preserve.
  - apply preserves_run, returning_preserves, insert_preserves. intros d Hd _. by apply Hdrafts.
  - apply preserves_tx_stepwise. unfold draft_update_tx. preserve.
  - apply preserves_tx. intros env w p w' Hw Hr.
    apply draft_publish_tx_ok in Hr as (row & Hrow & Hnone & -> & _). apply Hdrafts.
    eapply Harticles; [done|]. by apply change_publish; [apply draft_rows_fresh|].
Qed.

(** ** Refinement *)

Variables (env : Env) (Hq : quiet env).

Lemma update_field_quiet {A} ctx (o : option A) f id w :
  ∃ t, update_field ctx o f id (isolated env) w =
    (Ok (), mkWorld (update_draft (apply_field o f) id (w_db w)) t).
Proof.
  destruct o as [x|]; cbn [update_field apply_field].
  - rewrite tx_execute_tail by auto with preserve. by eexists.
  - exists (w_tick w). rewrite update_draft_id by done. by destruct w.
Qed.

Lemma draft_update_tx_quiet id upd now w :
  ∃ t, draft_update_tx id upd now (isolated env) w =
    match drafts (w_db w) !! id with
    | Some r => (Ok (merged_draft upd now r),
                 mkWorld (update_draft (merged_draft upd now) id (w_db w)) t)
    | None => (Err (TxDomain (DraftNotFound id)), mkWorld (w_db w) t)
    end.
Proof.
  unfold draft_update_tx. quiet_step. unfold select_draft.
  destruct (drafts (w_db w) !! id) as [r|] eqn:Hr; [|by eexists].
  rewrite bool_decide_eq_false_2 by done.
  do 4 (rewrite bind_run;
    match goal with |- context [update_field ?c ?o ?f ?i (isolated env) ?w] =>
      destruct (update_field_quiet c o f i w) as [? ->] end).
  quiet_step. rewrite tx_run_quiet by auto with preserve. unfold first_row. cbn [w_db tick on_db].
  rewrite !update_draft_compose, drafts_update, Hr. by eexists.
Qed.

Lemma update_as_insert f id d r :
  drafts d !! id = Some r → update_draft f id d = set_drafts (<[id := f r]> (drafts d)) d.
Proof. intros Hr. unfold update_draft. by rewrite (alter_as_insert _ _ _ _ Hr). Qed.

Definition draft_refines (op : DraftOp) (w : World) : Prop :=
  refines env (draft_op op) w (draft_spec (now_at env (S (w_tick w))) op (w_db w)).

Lemma refine_draft_publish id w :
  family_inv (w_db w) → drafts_keyed (w_db w) → draft_refines (DPublish id) w.
Proof.
  intros Hinv Hkey. unfold draft_refines, refines, draft_op, draft_publish, draft_spec.
  rewrite bind_run. repeat quiet_step. cbn [w_tick tick]. unfold draft_publish_tx, select_draft.
  quiet_step. destruct (drafts (w_db w) !! id) as [row|] eqn:Hrow; quiet_step; [|by eexists].
  pose proof (Hkey _ _ Hrow) as Hid.
  destruct (articles (w_db w) !! id) as [a|] eqn:Ha;
    [|destruct (accounts (w_db w) !! dr_account_id row) as [c|] eqn:Hc];
    unfold insert_article, insert_article_live, insert_article_version, draft_article,
      draft_live, draft_version in *; constraints.
  - quiet_step. rewrite Hid. constraints. by eexists.
  - destruct (Hinv id) as [(_ & Hl & _ & Hv)|(? & ? & [[??] _ _ _ _])]; [|congruence].
    rewrite Hid. do 3 (quiet_step; constraints; change (1 <? 1) with false; constraints).
    quiet_step. eexists. set (now := now_at env _). symmetry.
    rewrite (view_live _ id (draft_article row now) (draft_live row now) (draft_version row now));
      unfold draft_published, publish_rows, delete_draft, draft_article, draft_live,
        draft_version; db_simpl; rewrite Hid; [done|apply lookup_insert_eq..].
  - quiet_step. rewrite Hid. constraints. by eexists.
Qed.

Lemma refine_draft_create new w : draft_refines (DCreate new) w.
Proof.
  unfold draft_refines, refines, draft_op, draft_create, draft_spec.
  rewrite bind_run. do 2 quiet_step. cbn [w_tick tick].
  rewrite bind_run_stmt by done. unfold returning, insert_draft, insert_stmt. db_simpl.
  destruct (drafts (w_db w) !! nd_id new) as [r|] eqn:Hr;
    [|destruct (accounts (w_db w) !! nd_account_id new) as [c|] eqn:Hc];
    unfold new_draft_row; constraints; by eexists.
Qed.

Lemma refine_draft_update id upd w : draft_refines (DUpdate id upd) w.
Proof.
  unfold draft_refines, refines, draft_op, draft_update, draft_spec.
  rewrite bind_run. repeat quiet_step. cbn [w_tick tick].
  destruct (draft_update_tx_quiet id upd (now_at env (S (w_tick w))) (tick (tick (tick w))))
    as [t ->]. rewrite !w_db_tick.
  destruct (drafts (w_db w) !! id) as [r|] eqn:Hr; [|by eexists].
  rewrite (update_as_insert _ _ _ r) by done. by eexists.
Qed.

Lemma refine_draft_delete id w : draft_refines (DDelete id) w.
Proof.
  unfold draft_refines, refines, draft_op, draft_delete, draft_spec.
  rewrite bind_run. quiet_step. rewrite bind_run_stmt by done. unfold execute_count. db_simpl.
  destruct (drafts (w_db w) !! id) as [r|] eqn:Hr; constraints; [by eexists|].
  exists (S (S (w_tick w))). unfold delete_draft. rewrite delete_id by done.
  by rewrite set_drafts_id.
Qed.

Lemma refine_draft_list account_id size token w : draft_refines (DList account_id size token) w.
Proof.
  unfold draft_refines, refines, draft_op, draft_list_by_account, draft_spec.
  rewrite bind_run. cbv zeta.
  destruct (page_cursor _ token) as [cursor|e]; quiet_step; [|by destruct w; eexists].
  do 2 quiet_step.
  match goal with |- context [cut_page ?k ?l (keyset_rows _ _ _ _ ?r)] =>
    change (cut_page k l (keyset_rows Desc k cursor l r)) with (fetch Desc k l r cursor) end.
  destruct (fetch _ _ _ _ cursor) as [rows next]. by eexists.
Qed.


Lemma draft_publish_ran id a w w1 :
  family_inv (w_db w) → drafts_keyed (w_db w) →
  draft_publish id env w = (Ok a, w1) →
  ∃ row, drafts (w_db w) !! id = Some row ∧ articles (w_db w) !! id = None ∧
    w_db w1 = delete_draft id (draft_published row (now_at env (S (w_tick w))) (w_db w)) ∧
    article_view (w_db w1) id = Ok a.
Proof.
  intros Hinv Hkey Hrun. destruct (refine_draft_publish id w Hinv Hkey) as [t Hop].
  unfold draft_op in Hop. rewrite bind_run, Hrun in Hop. unfold mret, M_ret, draft_spec in Hop.
  destruct (drafts (w_db w) !! id) as [row|] eqn:Hrow; [|done].
  destruct (present (articles (w_db w)) id) eqn:Ha; [done|].
  destruct (negb _); [done|]. cbv zeta in Hop. cbn [fst snd] in Hop.
  exists row. split; [done|]. split; [by apply present_false|].
  injection Hop as Hreply ->. split; [done|]. cbn [w_db]. revert Hreply.
  by destruct (article_view _ _) as [v|e]; intros; simplify_eq/=.
Qed.

Lemma draft_published_family row now d :
  family_inv d → articles d !! dr_id row = None →
  family_inv (delete_draft (dr_id row) (draft_published row now d)).
Proof.
  intros Hinv Hnone. apply family_inv_drafts.
  by apply (publish_rows_family _ _ _ d (draft_rows_fresh row now) Hnone).
Qed.

(** A draft is published at most once: after a successful publication the
    draft is gone, publishing it again reports that it is not found, and the article
    a reader gets under the draft's id is the one the publication replied with. *)
Theorem draft_published_once id a w w1 :
  family_inv (w_db w) → drafts_keyed (w_db w) →
  draft_publish id env w = (Ok a, w1) →
  (draft_publish id env w1).1 = Err (DraftNotFound id) ∧
  (draft_get id env w1).1 = Err (DraftNotFound id) ∧
  (article_get id env w1).1 = Ok a.
Proof.
  intros Hinv Hkey Hrun.
  destruct (draft_publish_ran id a w w1 Hinv Hkey Hrun) as (row & Hrow & Hnone & Hdb & Hview).
  pose proof (Hkey _ _ Hrow) as Hid.
  assert (Hgone : drafts (w_db w1) !! id = None).
  { rewrite Hdb. unfold delete_draft. apply lookup_delete_eq. }
  assert (Hinv1 : family_inv (w_db w1)).
  { rewrite Hdb, <- Hid. apply draft_published_family; [done|by rewrite Hid]. }
  split_and!.
  - unfold draft_publish. repeat quiet_step. unfold draft_publish_tx, select_draft.
    quiet_step. rewrite Hgone. by quiet_step.
  - unfold draft_get. do 2 quiet_step. unfold select_draft. by rewrite Hgone.
  - destruct (article_get_quiet env Hq id w1 Hinv1) as [t ->]. done.
Qed.
End spec.

(** ** Whatever fails *)

Section failures.
Context `{DieselLib, ChronoLib, Base64Lib, SerdeLib}.

(** Publication is all or nothing, whatever fails: the database is
    unchanged, or the draft is gone and the article family has its rows under the
    draft's id; a successful reply means the latter and describes it. *)
Theorem draft_publish_atomic env id w :
  (∀ n db, others env n db = db) →
  let (r, w') := draft_publish id env w in
  (w_db w' = w_db w ∧ ∃ e, r = Err e) ∨
  (∃ row now, drafts (w_db w) !! id = Some row ∧ articles (w_db w) !! dr_id row = None ∧
     w_db w' = delete_draft id (draft_published row now (w_db w)) ∧
     ∀ a, r = Ok a →
       a_summary a = live_summary (draft_article row now) (draft_live row now)
                       (draft_version row now) ∧
       a_content a = Some (dr_content row)).
Proof.
  intros Ho. unfold draft_publish. rewrite bind_run. unfold get_conn.
  destruct (fault env (w_tick w)) as [?|]; [by left; eauto|]. rewrite bind_now.
  set (now := now_at env _). rewrite bind_run.
  match goal with |- context [tx ?b env ?w1] =>
    pose proof (tx_all_or_nothing b env w1 Ho) as Htx; destruct (tx b env w1) as [r w2] end.
  destruct Htx as [[Hdb [e ->]]|(p & w3 & Hb & Hdb & Hr)]; [by left; eauto|].
  apply draft_publish_tx_ok in Hb as (row & Hrow & Hnone & Hdb' & Hp). cbn [w_db tick] in *.
  destruct r as [p'|e].
  - destruct (Hr p' eq_refl) as [-> ->]. right. exists row, now. split_and!; [done..|].
    intros a [= <-]. by rewrite Hp.
  - right. exists row, now. rewrite Hdb. split_and!; [done..|]. by intros a.
Qed.

(** No draft operation breaks the article family's invariant, changes a
    tombstoned article or rewrites a version row, whatever fails and whatever other
    requests do that keep these. *)
Theorem draft_operations_keep_articles op :
  preserves family_inv (draft_op op) ∧
  (∀ id t n, preserves (tombstoned_at id t n) (draft_op op)) ∧
  (∀ id v r, preserves (version_kept id v r) (draft_op op)).
Proof.
  split_and!; [|intros id t n|intros id v r]; apply draft_op_preserves.
  - intros d d'. apply change_family.
  - apply family_inv_drafts.
  - intros d d'. apply change_tombstoned.
  - intros s d (? & ? & ? & ?). by split; [apply family_inv_drafts|].
  - intros d d'. apply change_version.
  - intros s d (? & ?). by split; [apply family_inv_drafts|].
Qed.
End failures.

(** ** Examples *)

Definition toy_draft : DraftRow :=
  mkDraft 9%N 1%N (lit "Draft") None None (JArray []) 0 0.
Definition toy_drafted : Db := set_drafts (<[9%N := toy_draft]> ∅) toy_db.

Lemma toy_drafted_family : family_inv toy_drafted.
Proof. by apply family_inv_none. Qed.
Lemma toy_drafted_keyed : drafts_keyed toy_drafted.
Proof.
  intros id r. change (drafts toy_drafted) with (<[9%N := toy_draft]> (∅ : gmap Uuid DraftRow)).
  intros [[<- <-]|[_ Hr]]%lookup_insert_Some; [done|]. by rewrite lookup_empty in Hr.
Qed.


(** The example draft is published. *)
Lemma toy_publish_runs :
  ∃ a w1, @draft_publish toy_diesel 9%N toy_env (mkWorld toy_drafted 0) = (Ok a, w1).
Proof. eexists _, _. vm_compute. reflexivity. Qed.

Lemma draft_published_once_witness :
  ∃ a w1, @draft_publish toy_diesel 9%N toy_env (mkWorld toy_drafted 0) = (Ok a, w1) ∧
    (@draft_publish toy_diesel 9%N toy_env w1).1 = Err (DraftNotFound 9%N) ∧
    (@article_get toy_diesel 9%N toy_env w1).1 = Ok a.
Proof.
  destruct toy_publish_runs as (a & w1 & Hrun). exists a, w1.
  destruct (@draft_published_once toy_diesel toy_chrono toy_base64 toy_serde toy_env
    toy_env_quiet 9%N a (mkWorld toy_drafted 0) w1 toy_drafted_family toy_drafted_keyed Hrun)
    as (H1 & _ & H2).
  by split_and!.
Defined.

(** A failing COMMIT that took effect nevertheless. *)
Definition toy_lost_commit : Env :=
  {| fault := λ n, if bool_decide (n = 8%nat) then Some (lit "connection closed", true) else None;
     now_at := now_at toy_env; fresh_at := fresh_at toy_env; others := λ _ db, db |}.

Lemma draft_publish_atomic_witness :
  let (r, w') := @draft_publish toy_diesel 9%N toy_lost_commit (mkWorld toy_drafted 0) in
  (w_db w' = toy_drafted ∧ ∃ e, r = Err e) ∨
  (∃ row now, drafts toy_drafted !! 9%N = Some row ∧ articles toy_drafted !! dr_id row = None ∧
     w_db w' = delete_draft 9%N (draft_published row now toy_drafted) ∧
     ∀ a, r = Ok a →
       a_summary a = live_summary (draft_article row now) (draft_live row now)
                       (draft_version row now) ∧
       a_content a = Some (dr_content row)).
Proof.
  exact (@draft_publish_atomic toy_diesel toy_lost_commit 9%N (mkWorld toy_drafted 0)
           (λ _ _, eq_refl)).
Defined.
