(* ===== verification/Follows.v ===== *)
(** * The follow repository ([headlines-store/src/repo/follows.rs],
    [headlines-core/src/repo/follows.rs])

    The (user, account) edge and its state machine: never followed, active,
    unfollowed; and the two keyset listings. *)

From S2P Require Import Prelude Libs Instances Errors Db Paging.

Inductive FollowStatus : Type := FollowActive | FollowUnfollowed.
Record Follow := {
  f_user_id : Uuid;
  f_account_id : Uuid;
  f_status : FollowStatus;
  f_created_at : DateTime;
  f_unfollowed_at : option DateTime;
}.

(** [FollowRow::into_domain] *)
Definition follow_into_domain (r : FollowRow) : result HeadlinesError Follow :=
  status ← (if str_eqb (fol_status r) (lit "active") then Ok FollowActive
            else if str_eqb (fol_status r) (lit "unfollowed") then Ok FollowUnfollowed
            else Err (Internal (lit "unknown follows.status value in DB: " ++ fol_status r)));
  Ok {| f_user_id := fol_user_id r; f_account_id := fol_account_id r; f_status := status;
        f_created_at := fol_created_at r; f_unfollowed_at := fol_unfollowed_at r |}.

Definition select_follow (user_id account_id : Uuid) : Db → option FollowRow :=
  λ d, follows d !! (user_id, account_id).

Definition active_row (user_id account_id : Uuid) (now : DateTime) : FollowRow :=
  mkFollow user_id account_id (lit "active") now None.
(** [ON CONFLICT .. DO UPDATE SET ..] *)
Definition reactivated (now : DateTime) (r : FollowRow) : FollowRow :=
  mkFollow (fol_user_id r) (fol_account_id r) (lit "active") now None.
Definition deactivated (now : DateTime) (r : FollowRow) : FollowRow :=
  mkFollow (fol_user_id r) (fol_account_id r) (lit "unfollowed") (fol_created_at r) (Some now).

(** The upsert of [follow], returning the row. *)
Definition upsert_follow (user_id account_id : Uuid) (now : DateTime) : Stmt FollowRow :=
  λ d, match follows d !! (user_id, account_id) with
       | Some r =>
         (Ok (reactivated now r),
          set_follows (<[(user_id, account_id) := reactivated now r]> (follows d)) d)
       | None =>
         returning (insert_follow (active_row user_id account_id now))
           (λ _, active_row user_id account_id now) d
       end.
Definition update_follow (f : FollowRow → FollowRow) (user_id account_id : Uuid) (d : Db) : Db :=
  set_follows (alter f (user_id, account_id) (follows d)) d.

Section repo.
Context `{DieselLib, ChronoLib, Base64Lib, SerdeLib}.

(** [follow] *)
Definition follow (user_id account_id : Uuid) : M HeadlinesError Follow :=
  get_conn;;
  existing ← run_opt "select follows" (first_row (select_follow user_id account_id));
  let upsert :=
    now ← utc_now;
    row ← run "upsert follow" (upsert_follow user_id account_id now);
    lift (follow_into_domain row) in
  match existing with
  | Some row =>
    if str_eqb (fol_status row) (lit "active") then lift (follow_into_domain row) else upsert
  | None => upsert
  end.

(** [unfollow] *)
Definition unfollow (user_id account_id : Uuid) : M HeadlinesError Follow :=
  get_conn;;
  existing ← run_opt "select follows" (first_row (select_follow user_id account_id));
  match existing with
  | None => throw (FollowNotFound user_id account_id)
  | Some row =>
    if str_eqb (fol_status row) (lit "unfollowed") then lift (follow_into_domain row)
    else
      now ← utc_now;
      updated ← run "update follow"
        (update_returning (update_follow (deactivated now) user_id account_id)
           (select_follow user_id account_id));
      lift (follow_into_domain updated)
  end.

(** [get] *)
Definition follow_get (user_id account_id : Uuid) : M HeadlinesError Follow :=
  get_conn;;
  row ← run_opt "select follow" (first_row (select_follow user_id account_id));
  match row with
  | Some r => lift (follow_into_domain r)
  | None => throw (FollowNotFound user_id account_id)
  end.

(** The body shared by the two listings. *)
Definition follow_list (ctx : string) (tiebreaker : FollowRow → Uuid) (mine : FollowRow → bool)
    (include_unfollowed : bool) (page_size : Z) (page_token : PageToken) :
    M HeadlinesError (list Follow * PageToken) :=
  let limit := clamp_page_size page_size in
  cursor ← lift (page_cursor (lit "c") page_token);
  get_conn;;
  rows ← run ctx (query (λ d,
    keyset_rows Desc (λ r, (fol_created_at r, tiebreaker r)) cursor limit
      (rows_where (λ r, mine r && (include_unfollowed || str_eqb (fol_status r) (lit "active")))
         (follows d))));
  let '(rows, next) := cut_page (λ r, (fol_created_at r, tiebreaker r)) limit rows in
  items ← mapM_ (λ r, lift (follow_into_domain r)) rows;
  mret (items, next_token (lit "c") next).

(** [list_by_user] *)
Definition follow_list_by_user (user_id : Uuid) (include_unfollowed : bool) (page_size : Z)
    (page_token : PageToken) : M HeadlinesError (list Follow * PageToken) :=
  follow_list "list follows by user" fol_account_id
    (λ r, bool_decide (fol_user_id r = user_id)) include_unfollowed page_size page_token.

(** [list_by_account] *)
Definition follow_list_by_account (account_id : Uuid) (include_unfollowed : bool) (page_size : Z)
    (page_token : PageToken) : M HeadlinesError (list Follow * PageToken) :=
  follow_list "list follows by account" fol_user_id
    (λ r, bool_decide (fol_account_id r = account_id)) include_unfollowed page_size page_token.
End repo.

(** ** The state machine *)

Inductive Edge : Type :=
  | NeverFollowed
  | Following (since : DateTime)
  | Unfollowed (since at_ : DateTime).

(** The row of an edge. *)
Definition edge_row (user_id account_id : Uuid) (e : Edge) : option FollowRow :=
  match e with
  | NeverFollowed => None
  | Following since => Some (active_row user_id account_id since)
  | Unfollowed since t => Some (mkFollow user_id account_id (lit "unfollowed") since (Some t))
  end.
Definition edge_view (user_id account_id : Uuid) (e : Edge) : result HeadlinesError Follow :=
  match e with
  | NeverFollowed => Err (FollowNotFound user_id account_id)
  | Following since =>
    Ok {| f_user_id := user_id; f_account_id := account_id; f_status := FollowActive;
          f_created_at := since; f_unfollowed_at := None |}
  | Unfollowed since t =>
    Ok {| f_user_id := user_id; f_account_id := account_id; f_status := FollowUnfollowed;
          f_created_at := since; f_unfollowed_at := Some t |}
  end.

(** Following an active edge and unfollowing an unfollowed one change nothing. *)
Definition edge_follow (now : DateTime) (e : Edge) : Edge :=
  match e with Following since => Following since | _ => Following now end.
Definition edge_unfollow (now : DateTime) (e : Edge) : Edge :=
  match e with Following since => Unfollowed since now | _ => e end.

(** Every row of the table is the row of an edge. *)
Definition follows_ok (d : Db) : Prop :=
  ∀ u a r, follows d !! (u, a) = Some r → ∃ e, edge_row u a e = Some r.
Definition edge_at (d : Db) (u a : Uuid) (e : Edge) : Prop :=
  follows d !! (u, a) = edge_row u a e.

Inductive FollowOp : Type :=
  | OpFollow (user_id account_id : Uuid)
  | OpUnfollow (user_id account_id : Uuid)
  | OpGetFollow (user_id account_id : Uuid)
  | OpListByUser (user_id : Uuid) (include_unfollowed : bool) (size : Z) (token : PageToken)
  | OpListByAccount (account_id : Uuid) (include_unfollowed : bool) (size : Z)
      (token : PageToken).

Section theorems.
Context `{DieselLib, ChronoLib, Base64Lib, SerdeLib}.

Definition follow_op (op : FollowOp) : M HeadlinesError () :=
  match op with
  | OpFollow u a => follow u a;; mret ()
  | OpUnfollow u a => unfollow u a;; mret ()
  | OpGetFollow u a => follow_get u a;; mret ()
  | OpListByUser u all size token => follow_list_by_user u all size token;; mret ()
  | OpListByAccount a all size token => follow_list_by_account a all size token;; mret ()
  end.

Lemma row_domain u a e r :
  edge_row u a e = Some r → follow_into_domain r = edge_view u a e.
Proof. destruct e; intros [= <-]; done. Qed.

Lemma follows_ok_edge d u a : follows_ok d → ∃ e, edge_at d u a e.
Proof.
  intros Hok. unfold edge_at. destruct (follows d !! (u, a)) as [r|] eqn:Hr.
  - destruct (Hok u a r Hr) as [e He]. by exists e.
  - by exists NeverFollowed.
Qed.

(** Writing an edge's row keeps the table. *)
Lemma follows_ok_insert d u a e r :
  follows_ok d → edge_row u a e = Some r →
  follows_ok (set_follows (<[(u, a) := r]> (follows d)) d).
Proof.
  intros Hok He u' a' r'. simpl. rewrite lookup_insert_Some.
  intros [[[= <- <-] <-]|[_ Hr]]; [by exists e|by apply Hok].
Qed.

Lemma upsert_preserves u a now : stmt_preserves follows_ok (upsert_follow u a now).
Proof.
  intros d Hok. unfold upsert_follow. destruct (follows d !! (u, a)) as [r|] eqn:Hr.
  - destruct (Hok u a r Hr) as [e He]. apply (follows_ok_insert d u a (Following now)); [done|].
    by destruct e; simplify_eq/=.
  - apply (returning_preserves follows_ok); [|done]. apply insert_preserves. intros d' Hok' _.
    by apply (follows_ok_insert d' u a (Following now)).
Qed.

Lemma deactivate_ok u a now d :
  follows_ok d → follows_ok (update_follow (deactivated now) u a d).
Proof.
  intros Hok u' a' r. simpl. destruct (decide ((u', a') = (u, a))) as [[= -> ->]|Hne].
  - rewrite lookup_alter_eq. intros (r' & Hr & ->)%fmap_Some.
    destruct (Hok u a r' Hr) as [e He].
    destruct e as [|since|since t]; [done|exists (Unfollowed since now)..]; by simplify_eq/=.
  - rewrite lookup_alter_ne by congruence. apply Hok.
Qed.

(** Every row of the follow table stays the row of a well-formed edge
    (active with no end, or unfollowed with one, under its own key) through every
    operation, whatever fails and however other requests that keep this interleave
    with the operation's own read and write. *)
Theorem follow_operations_keep_edges op : preserves follows_ok (follow_op op).
Proof.
  destruct op; unfold follow_op, follow, unfollow, follow_get, follow_list_by_user,
    follow_list_by_account, follow_list; preserve; try (by apply preserves_run, upsert_preserves).
  apply preserves_run, update_returning_preserves. intros d. apply deactivate_ok.
Qed.

(** ** Without failures *)

Variables (env : Env) (Hq : quiet env).

Definition set_edge (u a : Uuid) (e : Edge) (d : Db) : Db :=
  match edge_row u a e with
  | Some r => set_follows (<[(u, a) := r]> (follows d)) d
  | None => d
  end.

Lemma set_follows_id d : set_follows (follows d) d = d.
Proof. by destruct d. Qed.
Lemma set_edge_same u a e d : edge_at d u a e → set_edge u a e d = d.
Proof.
  unfold set_edge, edge_at. destruct (edge_row u a e); [|done]. intros He.
  rewrite insert_id by done. apply set_follows_id.
Qed.
Lemma set_edge_at u a e d : edge_row u a e ≠ None → edge_at (set_edge u a e d) u a e.
Proof.
  unfold set_edge, edge_at. destruct (edge_row u a e); [|done]. intros _. apply lookup_insert_eq.
Qed.

(** The operations run the documented state machine: following an active
    edge and unfollowing an unfollowed one change nothing and reply with the edge as
    it is; unfollowing or getting a missing edge is [FollowNotFound]; otherwise the
    edge moves, a new relationship starting at the time of the call, and no other
    edge or table changes. *)
Theorem follow_runs_state_machine u a e w :
  edge_at (w_db w) u a e → is_Some (users (w_db w) !! u) → is_Some (accounts (w_db w) !! a) →
  let now := now_at env (S (S (w_tick w))) in
  (∃ t, follow u a env w =
     (edge_view u a (edge_follow now e), mkWorld (set_edge u a (edge_follow now e) (w_db w)) t)) ∧
  (∃ t, unfollow u a env w =
     (edge_view u a (edge_unfollow now e),
      mkWorld (set_edge u a (edge_unfollow now e) (w_db w)) t)) ∧
  (∃ t, follow_get u a env w = (edge_view u a e, mkWorld (w_db w) t)).
Proof.
  intros He [ru Hu] [ra Ha] now. pose proof He as Hrow. unfold edge_at in Hrow.
  split_and!.
  - unfold follow. do 2 quiet_step. unfold select_follow. rewrite Hrow.
    destruct e as [|since|since t]; cbn [edge_row edge_follow].
    + quiet_step. rewrite bind_run_stmt by done. unfold upsert_follow. db_simpl.
      rewrite Hrow. cbn [edge_row]. unfold returning, insert_follow, insert_stmt, active_row.
      constraints. by eexists.
    + rewrite set_edge_same by done. by eexists.
    + change (str_eqb _ (lit "active")) with false. cbv iota. quiet_step.
      rewrite bind_run_stmt by done. unfold upsert_follow. db_simpl. rewrite Hrow. by eexists.
  - unfold unfollow. do 2 quiet_step. unfold select_follow. rewrite Hrow.
    destruct e as [|since|since t]; cbn [edge_row edge_unfollow].
    + by eexists.
    + change (str_eqb _ (lit "unfollowed")) with false. cbv iota. quiet_step.
      rewrite bind_run_stmt by done. unfold update_returning, update_follow. db_simpl.
      rewrite (alter_as_insert _ _ _ _ Hrow), lookup_insert_eq. by eexists.
    + rewrite set_edge_same by done. by eexists.
  - unfold follow_get. do 2 quiet_step. unfold select_follow. rewrite Hrow.
    destruct e; by eexists.
Qed.

(** ** The listings *)

Definition shown (r : FollowRow) : option Follow :=
  match follow_into_domain r with Ok f => Some f | Err _ => None end.

Lemma domain_all rows w :
  Forall (λ r, is_Some (shown r)) rows →
  mapM_ (λ r, lift (follow_into_domain r)) rows env w = (Ok (omap shown rows), w).
Proof.
  induction 1 as [|r rows [f Hf] _ IH]; [done|]. simpl mapM_. rewrite bind_run.
  cbn [omap list_omap]. unfold shown in *. unfold lift at 1.
  destruct (follow_into_domain r) as [f'|]; [|done]. rewrite bind_run, IH. by simplify_eq.
Qed.

Section listing.
Variables (ctx : string) (tiebreaker : FollowRow → Uuid) (mine : FollowRow → bool).
Variables (all : bool) (size : Z).

Let key (r : FollowRow) : Key := (fol_created_at r, tiebreaker r).
Let listed (d : Db) : list FollowRow :=
  rows_where (λ r, mine r && (all || str_eqb (fol_status r) (lit "active"))) (follows d).

Lemma listed_shown d r : follows_ok d → r ∈ listed d → is_Some (shown r).
Proof.
  intros Hok [_ [[u a] Hr]]%elem_of_rows_where. destruct (Hok u a r Hr) as [e He].
  unfold shown. rewrite (row_domain u a e r He). destruct e; [done|by eexists..].
Qed.

Lemma follow_list_serves d :
  follows_ok d →
  serves env d (follow_list ctx tiebreaker mine all size) shown (time_codec (lit "c")) Desc key
    (clamp_page_size size) (listed d).
Proof.
  intros Hok token w Hw. unfold follow_list. cbn [parse_token time_codec]. cbv zeta.
  destruct (page_cursor _ token) as [cursor|e]; quiet_step; [|destruct w; by simplify_eq/=; eexists].
  do 2 quiet_step. rewrite Hw.
  match goal with |- context [cut_page ?k ?l (keyset_rows _ _ _ _ ?r)] =>
    change (cut_page k l (keyset_rows Desc k cursor l r)) with (fetch Desc k l r cursor) end.
  fold (listed d). fold key.
  pose proof (fetch_elem Desc key (clamp_page_size size) (listed d) cursor) as Hin.
  destruct (fetch _ _ _ _ cursor) as [rows next]. rewrite bind_run, domain_all.
  - eexists. unfold mret, M_ret. f_equal. by rewrite <- Hw.
  - apply Forall_forall. intros r Hr. by apply (listed_shown d), Hin.
Qed.

End listing.
End theorems.

Section walks.
Context `{DieselLib, ChronoLaws, Base64Laws, SerdeLaws}.
Variables (env : Env) (Hq : quiet env).

(** The rows of a user's listing. *)
Definition user_rows (u : Uuid) (all : bool) (d : Db) : list FollowRow :=
  rows_where (λ r, bool_decide (fol_user_id r = u)
                   && (all || str_eqb (fol_status r) (lit "active"))) (follows d).

Lemma elem_of_user_rows u all d r :
  follows_ok d →
  r ∈ user_rows u all d ↔
  ∃ a e, edge_at d u a e ∧ edge_row u a e = Some r ∧
         (all = true ∨ ∃ since, e = Following since).
Proof.
  intros Hok. unfold user_rows. rewrite elem_of_rows_where. split.
  - intros [[Hu Hall]%andb_true_iff [[u' a] Hr]].
    destruct (Hok u' a r Hr) as [e He].
    apply bool_decide_eq_true in Hu.
    assert (u' = u) as -> by (destruct e; by simplify_eq/=).
    exists a, e. unfold edge_at. rewrite Hr, He. split_and!; [done..|].
    destruct all; [by left|right]. apply str_eqb_eq in Hall.
    destruct e as [|since|since t]; [done|by eexists|]. cbn in He. injection He as He. rewrite <- He in Hall. vm_compute in Hall. discriminate Hall.
  - intros (a & e & Hat & He & Hall). unfold edge_at in Hat. rewrite He in Hat. split; [|by eexists].
    apply andb_true_iff. split.
    + apply bool_decide_eq_true. destruct e; by simplify_eq/=.
    + destruct Hall as [->|[since ->]]; [done|]. simplify_eq/=. apply orb_true_r.
Qed.

(** Walking a user's listing shows every edge of the user once, or every
    active one, newest first. *)
Theorem list_by_user_shows_all u all page fuel w :
  follows_ok (w_db w) → (size (follows (w_db w)) <= fuel)%nat →
  ∃ items t,
    walk_listing fuel (follow_list_by_user u all page) [] env w =
      (Ok (Some items), mkWorld (w_db w) t) ∧
    (∀ f, f ∈ items ↔ ∃ a e, edge_at (w_db w) u a e ∧ edge_view u a e = Ok f ∧
       (all = true ∨ f_status f = FollowActive)) ∧
    StronglySorted (λ f g, precedes Desc (f_created_at f, f_account_id f)
                             (f_created_at g, f_account_id g) = true) items.
Proof.
  intros Hok Hfuel. set (d := w_db w) in *.
  set (key := λ r, (fol_created_at r, fol_account_id r)).
  assert (Hfields : ∀ r, r ∈ user_rows u all d → follows d !! (u, fol_account_id r) = Some r).
  { intros r (a & e & Hat & He & _)%elem_of_user_rows; [|done]. unfold edge_at in Hat.
    rewrite He in Hat. assert (fol_account_id r = a) as ->; [|done]. by destruct e; simplify_eq/=. }
  assert (Hinj : ∀ r r', r ∈ user_rows u all d → r' ∈ user_rows u all d →
            key r = key r' → r = r').
  { intros r r' Hr%Hfields Hr'%Hfields [= _ Heq]. congruence. }
  assert (Hnd : NoDup (user_rows u all d)).
  { apply (rows_where_NoDup _ _ (λ r, (fol_user_id r, fol_account_id r))).
    intros [u' a] r Hr. destruct (Hok u' a r Hr) as [e He]. by destruct e; simplify_eq/=. }
  destruct (walk_listing_all (time_codec (lit "c")) env d (follow_list_by_user u all page) shown Desc key
    (clamp_page_size page) (user_rows u all d) fuel w) as [t Hwalk]; [| |
    |done..| |].
  all: try done.
  - apply follow_list_serves; done.
  - pose proof (clamp_page_size_range page). unfold MAX_PAGE_SIZE, i32_max in *. lia.
  - etrans; [apply rows_where_length|done].
  - eexists _, t. split; [exact Hwalk|]. split.
    + intros f. rewrite list_elem_of_omap. setoid_rewrite order_rows_perm.
      setoid_rewrite elem_of_user_rows; [|done]. split.
      * intros (r & (a & e & Hat & He & Hall) & Hf). exists a, e.
        unfold shown in Hf. rewrite (row_domain u a e r He) in Hf.
        destruct (edge_view u a e) as [f'|] eqn:Hv; simplify_eq/=. split_and!; [done..|].
        destruct Hall as [?|[since ->]]; [by left|right]. by simplify_eq/=.
      * intros (a & e & Hat & Hv & Hall). destruct (edge_row u a e) as [r|] eqn:He;
          [|by destruct e].
        exists r. split.
        -- exists a, e. split_and!; [done..|]. destruct Hall as [?|Hs]; [by left|right].
           destruct e; simplify_eq/=; by eexists.
        -- unfold shown. by rewrite (row_domain u a e r He), Hv.
    + eapply omap_sorted; [|by apply (order_rows_strict Desc key)].
      intros r r' f f' _ _ Hrr Hf Hf'. unfold shown, follow_into_domain in Hf, Hf'. simpl in *.
      repeat case_match; by simplify_eq/=.
Qed.
End walks.

(** ** Examples *)

Definition toy_user (id : Uuid) : UserRow := mkUser id None (lit "active") None 0.
Definition toy_followed : Db :=
  set_follows (<[(2%N, 1%N) := active_row 2%N 1%N 5]> ∅)
    (set_users (<[2%N := toy_user 2%N]> ∅) toy_db).

Lemma toy_followed_ok : follows_ok toy_followed.
Proof.
  intros u a r.
  change (follows toy_followed)
    with (<[(2%N, 1%N) := active_row 2%N 1%N 5]> (∅ : gmap (Uuid * Uuid) FollowRow)).
  intros [[[= <- <-] <-]|[_ Hr]]%lookup_insert_Some; [by exists (Following 5)|].
  by rewrite lookup_empty in Hr.
Qed.

Lemma follow_runs_state_machine_witness :
  ∃ t, @unfollow toy_diesel 2%N 1%N toy_env (mkWorld toy_followed 0) =
    (Ok {| f_user_id := 2%N; f_account_id := 1%N; f_status := FollowUnfollowed;
           f_created_at := 5; f_unfollowed_at := Some 2000 |},
     mkWorld (set_edge 2%N 1%N (Unfollowed 5 2000) toy_followed) t).
Proof.
  destruct (@follow_runs_state_machine toy_diesel toy_env toy_env_quiet 2%N 1%N (Following 5)
    (mkWorld toy_followed 0) (lookup_insert_eq _ _ _)
    (ex_intro _ (toy_user 2%N) (lookup_insert_eq _ _ _))
    (ex_intro _ (toy_account 1%N) (lookup_insert_eq _ _ _))) as (_ & Hun & _).
  exact Hun.
Defined.

Lemma list_by_user_shows_all_witness :
  ∃ items t,
    walk_listing 1 (@follow_list_by_user toy_diesel toy_chrono toy_base64 toy_serde 2%N true 0) []
      toy_env (mkWorld toy_followed 0) = (Ok (Some items), mkWorld toy_followed t) ∧
    (∀ f, f ∈ items ↔ ∃ a e, edge_at toy_followed 2%N a e ∧ edge_view 2%N a e = Ok f ∧
       (true = true ∨ f_status f = FollowActive)).
Proof.
  destruct (@list_by_user_shows_all toy_diesel toy_chrono toy_chrono_laws toy_base64
    toy_base64_laws toy_serde toy_serde_laws toy_env toy_env_quiet 2%N true 0 1%nat
    (mkWorld toy_followed 0) toy_followed_ok ltac:(by apply Nat.leb_le; vm_compute))
    as (items & t & Hrun & Hin & _).
  by exists items, t.
Defined.
