(* ===== verification/Accounts.v ===== *)
(** * The account, user and key repositories
    ([headlines-store/src/repo/accounts.rs], [users.rs], [keys.rs] and their
    interfaces in [headlines-core/src/repo])

    Accounts and users are soft-deleted; keys are revoked.  Neither is ever
    undone, by any interleaving of the operations. *)

From S2P Require Import Prelude Libs Instances Errors Db.

(** ** Accounts *)

Inductive AccountStatus : Type := AccountActive | AccountIsDeleted.
Record Account := {
  ac_id : Uuid;
  ac_short_name : str;
  ac_author_name : str;
  ac_author_url : str;
  ac_status : AccountStatus;
  ac_deleted_at : option DateTime;
  ac_created_at : DateTime;
  ac_updated_at : DateTime;
}.
Record NewAccount := {
  nac_id : Uuid;
  nac_short_name : str;
  nac_author_name : str;
  nac_author_url : str;
}.
Record AccountUpdate := {
  au_short_name : option str;
  au_author_name : option str;
  au_author_url : option str;
}.

(** [AccountRow::into_domain] *)
Definition account_into_domain (r : AccountRow) : result HeadlinesError Account :=
  status ← (if str_eqb (acc_status r) (lit "active") then Ok AccountActive
            else if str_eqb (acc_status r) (lit "deleted") then Ok AccountIsDeleted
            else Err (Internal (lit "unknown accounts.status value in DB: " ++ acc_status r)));
  Ok {| ac_id := acc_id r; ac_short_name := acc_short_name r;
        ac_author_name := acc_author_name r;
        ac_author_url := or_default (acc_author_url r); ac_status := status;
        ac_deleted_at := acc_deleted_at r; ac_created_at := acc_created_at r;
        ac_updated_at := acc_updated_at r |}.

Definition select_account (id : Uuid) : Db → option AccountRow := λ d, accounts d !! id.
Definition update_account (f : AccountRow → AccountRow) (id : Uuid) (d : Db) : Db :=
  set_accounts (alter f id (accounts d)) d.

Definition new_account_row (new : NewAccount) (now : DateTime) : AccountRow :=
  mkAccount (nac_id new) (nac_short_name new) (nac_author_name new)
    (non_empty (nac_author_url new)) (lit "active") None now now.
Definition set_short_name (now : DateTime) (s : str) (r : AccountRow) : AccountRow :=
  mkAccount (acc_id r) s (acc_author_name r) (acc_author_url r) (acc_status r)
    (acc_deleted_at r) (acc_created_at r) now.
Definition set_author_name (now : DateTime) (s : str) (r : AccountRow) : AccountRow :=
  mkAccount (acc_id r) (acc_short_name r) s (acc_author_url r) (acc_status r)
    (acc_deleted_at r) (acc_created_at r) now.
Definition set_author_url (now : DateTime) (s : str) (r : AccountRow) : AccountRow :=
  mkAccount (acc_id r) (acc_short_name r) (acc_author_name r) (non_empty s) (acc_status r)
    (acc_deleted_at r) (acc_created_at r) now.
Definition deleted_account (now : DateTime) (r : AccountRow) : AccountRow :=
  mkAccount (acc_id r) (acc_short_name r) (acc_author_name r) (acc_author_url r)
    (lit "deleted") (Some now) (acc_created_at r) now.

Section accounts.
Context `{DieselLib}.

(** [create] *)
Definition account_create (new : NewAccount) : M HeadlinesError Account :=
  get_conn;;
  row ← run_now "insert account" (λ now,
          returning (insert_account (new_account_row new now)) (λ _, new_account_row new now));
  lift (account_into_domain row).

(** [get] *)
Definition account_get (id : Uuid) : M HeadlinesError Account :=
  get_conn;;
  row ← run_opt "select account" (first_row (select_account id));
  match row with
  | Some r => lift (account_into_domain r)
  | None => throw (AccountNotFound id)
  end.

(** One [if let Some(..)] of [update]. *)
Definition account_field (ctx : string) (o : option str) (f : str → AccountRow → AccountRow)
    (id : Uuid) : M HeadlinesError () :=
  match o with
  | Some s => run ctx (execute (update_account (f s) id))
  | None => mret ()
  end.

(** [update] *)
Definition account_update (id : Uuid) (update : AccountUpdate) : M HeadlinesError Account :=
  get_conn;;
  existing ← run_opt "select account" (first_row (select_account id));
  existing ← some_or (AccountNotFound id) existing;
  if str_eqb (acc_status existing) (lit "deleted") then throw (AccountDeleted id)
  else
    now ← utc_now;
    account_field "update short_name" (au_short_name update) (set_short_name now) id;;
    account_field "update author_name" (au_author_name update) (set_author_name now) id;;
    account_field "update author_url" (au_author_url update) (set_author_url now) id;;
    updated ← run "re-read after update" (first_row (select_account id));
    lift (account_into_domain updated).

(** [soft_delete] *)
Definition account_soft_delete (id : Uuid) : M HeadlinesError Account :=
  get_conn;;
  now ← utc_now;
  updated ← map_errM (internal "soft-delete") (optional (stmt
    (update_returning (update_account (deleted_account now) id) (select_account id))));
  match updated with
  | Some r => lift (account_into_domain r)
  | None => throw (AccountNotFound id)
  end.
End accounts.

(** ** Users *)

Inductive UserStatus : Type := UserActive | UserIsDeleted.
Record User := {
  us_id : Uuid;
  us_display_name : str;
  us_status : UserStatus;
  us_deleted_at : option DateTime;
  us_created_at : DateTime;
}.
Record NewUser := { nus_id : Uuid; nus_display_name : str }.
Record UserUpdate := { uu_display_name : option str }.

(** [UserRow::into_domain] *)
Definition user_into_domain (r : UserRow) : result HeadlinesError User :=
  status ← (if str_eqb (usr_status r) (lit "active") then Ok UserActive
            else if str_eqb (usr_status r) (lit "deleted") then Ok UserIsDeleted
            else Err (Internal (lit "unknown users.status value in DB: " ++ usr_status r)));
  Ok {| us_id := usr_id r; us_display_name := or_default (usr_display_name r);
        us_status := status; us_deleted_at := usr_deleted_at r;
        us_created_at := usr_created_at r |}.

Definition select_user (id : Uuid) : Db → option UserRow := λ d, users d !! id.
Definition update_user (f : UserRow → UserRow) (id : Uuid) (d : Db) : Db :=
  set_users (alter f id (users d)) d.
Definition new_user_row (new : NewUser) (now : DateTime) : UserRow :=
  mkUser (nus_id new) (non_empty (nus_display_name new)) (lit "active") None now.
Definition set_display_name (s : str) (r : UserRow) : UserRow :=
  mkUser (usr_id r) (non_empty s) (usr_status r) (usr_deleted_at r) (usr_created_at r).
Definition deleted_user (now : DateTime) (r : UserRow) : UserRow :=
  mkUser (usr_id r) (usr_display_name r) (lit "deleted") (Some now) (usr_created_at r).

Section users.
Context `{DieselLib}.

(** [create] *)
Definition user_create (new : NewUser) : M HeadlinesError User :=
  get_conn;;
  row ← run_now "insert user" (λ now,
          returning (insert_user (new_user_row new now)) (λ _, new_user_row new now));
  lift (user_into_domain row).

(** [get] *)
Definition user_get (id : Uuid) : M HeadlinesError User :=
  get_conn;;
  row ← run_opt "select user" (first_row (select_user id));
  match row with
  | Some r => lift (user_into_domain r)
  | None => throw (UserNotFound id)
  end.

(** [update] *)
Definition user_update (id : Uuid) (update : UserUpdate) : M HeadlinesError User :=
  get_conn;;
  existing ← run_opt "select user" (first_row (select_user id));
  existing ← some_or (UserNotFound id) existing;
  if str_eqb (usr_status existing) (lit "deleted") then throw (UserDeleted id)
  else
    match uu_display_name update with
    | Some s => run "update display_name" (execute (update_user (set_display_name s) id))
    | None => mret ()
    end;;
    updated ← run "re-read after update" (first_row (select_user id));
    lift (user_into_domain updated).

(** [soft_delete] *)
Definition user_soft_delete (id : Uuid) : M HeadlinesError User :=
  get_conn;;
  now ← utc_now;
  updated ← map_errM (internal "soft-delete user") (optional (stmt
    (update_returning (update_user (deleted_user now) id) (select_user id))));
  match updated with
  | Some r => lift (user_into_domain r)
  | None => throw (UserNotFound id)
  end.
End users.

(** ** Keys *)

Inductive KeyKind : Type := KAccount | KUser | KSystem.
#[export] Instance KeyKind_eq_dec : EqDecision KeyKind.
Proof. solve_decision. Defined.
Inductive KeyStatus : Type := KeyActive | KeyRevoked.
Record StoredKey := {
  sk_kind : KeyKind;
  sk_parent_id : Uuid;
  sk_key_id : Uuid;
  sk_algo : str;
  sk_public_key : str;
  sk_status : KeyStatus;
  sk_created_at : DateTime;
  sk_revoked_at : option DateTime;
}.
Record NewKey := {
  nk_kind : KeyKind;
  nk_parent_id : Uuid;
  nk_key_id : Uuid;
  nk_algo : str;
  nk_public_key : str;
}.

(** [parse_status] *)
Definition parse_status (table raw : str) : result HeadlinesError KeyStatus :=
  if str_eqb raw (lit "active") then Ok KeyActive
  else if str_eqb raw (lit "revoked") then Ok KeyRevoked
  else Err (Internal (lit "unknown " ++ table ++ lit ".status value: " ++ raw)).

(** [AccountKeyRow::into_domain], [UserKeyRow::into_domain] *)
Definition key_into_domain (kind : KeyKind) (table : str) (r : KeyRow) :
    result HeadlinesError StoredKey :=
  status ← parse_status table (key_status r);
  Ok {| sk_kind := kind; sk_parent_id := key_owner r; sk_key_id := key_key_id r;
        sk_algo := key_algo r; sk_public_key := key_public_key r; sk_status := status;
        sk_created_at := key_created_at r; sk_revoked_at := key_revoked_at r |}.

Definition new_key_row (new : NewKey) (now : DateTime) : KeyRow :=
  mkKey (nk_parent_id new) (nk_key_id new) (nk_algo new) (nk_public_key new) (lit "active")
    now None.
Definition revoked_key (now : DateTime) (r : KeyRow) : KeyRow :=
  mkKey (key_owner r) (key_key_id r) (key_algo r) (key_public_key r) (lit "revoked")
    (key_created_at r) (Some now).

(** The table of a kind. *)
Definition keys_of (kind : KeyKind) (d : Db) : gmap (Uuid * Uuid) KeyRow :=
  match kind with
  | KAccount => account_keys d
  | KUser => user_keys d
  | KSystem => system_keys d
  end.
Definition set_keys_of (kind : KeyKind) (t : gmap (Uuid * Uuid) KeyRow) (d : Db) : Db :=
  match kind with
  | KAccount => set_account_keys t d
  | KUser => set_user_keys t d
  | KSystem => set_system_keys t d
  end.
Definition select_key (kind : KeyKind) (parent_id key_id : Uuid) : Db → option KeyRow :=
  λ d, keys_of kind d !! (parent_id, key_id).
Definition update_key (kind : KeyKind) (f : KeyRow → KeyRow) (parent_id key_id : Uuid) (d : Db) : Db :=
  set_keys_of kind (alter f (parent_id, key_id) (keys_of kind d)) d.

Section keys.
Context `{DieselLib}.

(** [create] *)
Definition key_create (new : NewKey) : M HeadlinesError StoredKey :=
  match nk_kind new with
  | KAccount =>
    get_conn;;
    row ← run_now "insert account_key" (λ now,
            returning (insert_account_key (new_key_row new now)) (λ _, new_key_row new now));
    lift (key_into_domain KAccount (lit "account_keys") row)
  | KUser =>
    get_conn;;
    row ← run_now "insert user_key" (λ now,
            returning (insert_user_key (new_key_row new now)) (λ _, new_key_row new now));
    lift (key_into_domain KUser (lit "user_keys") row)
  | KSystem =>
    throw (Internal (lit "PgKeyRepo::create for kind=System not implemented"))
  end.

(** The two tables' variants of the remaining operations differ in names only. *)
Definition key_get_in (kind : KeyKind) (table : str) (ctx : string) (parent_id key_id : Uuid) :
    M HeadlinesError StoredKey :=
  get_conn;;
  row ← run_opt ctx (first_row (select_key kind parent_id key_id));
  row ← some_or (KeyNotFound key_id) row;
  lift (key_into_domain kind table row).

(** [get] *)
Definition key_get (kind : KeyKind) (parent_id key_id : Uuid) : M HeadlinesError StoredKey :=
  match kind with
  | KAccount => key_get_in KAccount (lit "account_keys") "select account_key" parent_id key_id
  | KUser => key_get_in KUser (lit "user_keys") "select user_key" parent_id key_id
  | KSystem => throw (KeyNotFound key_id)
  end.

Definition key_revoke_in (kind : KeyKind) (table : str) (ctx_select ctx_revoke : string)
    (parent_id key_id : Uuid) : M HeadlinesError StoredKey :=
  get_conn;;
  existing ← run_opt ctx_select (first_row (select_key kind parent_id key_id));
  existing ← some_or (KeyNotFound key_id) existing;
  if str_eqb (key_status existing) (lit "revoked") then throw (KeyAlreadyRevoked key_id)
  else
    now ← utc_now;
    updated ← run ctx_revoke
      (update_returning (update_key kind (revoked_key now) parent_id key_id)
         (select_key kind parent_id key_id));
    lift (key_into_domain kind table updated).

(** [revoke] *)
Definition key_revoke (kind : KeyKind) (parent_id key_id : Uuid) : M HeadlinesError StoredKey :=
  match kind with
  | KAccount =>
    key_revoke_in KAccount (lit "account_keys") "select account_key" "revoke account_key"
      parent_id key_id
  | KUser =>
    key_revoke_in KUser (lit "user_keys") "select user_key" "revoke user_key" parent_id key_id
  | KSystem => throw (KeyNotFound key_id)
  end.

Definition active_keys (kind : KeyKind) (parent_id : Uuid) (d : Db) : list KeyRow :=
  rows_where (λ r, bool_decide (key_owner r = parent_id)
                   && str_eqb (key_status r) (lit "active")) (keys_of kind d).
Definition key_list_in (kind : KeyKind) (table : str) (ctx : string) (parent_id : Uuid) :
    M HeadlinesError (list StoredKey) :=
  get_conn;;
  rows ← run ctx (query (active_keys kind parent_id));
  mapM_ (λ r, lift (key_into_domain kind table r)) rows.

(** [list_active] *)
Definition key_list_active (kind : KeyKind) (parent_id : Uuid) :
    M HeadlinesError (list StoredKey) :=
  match kind with
  | KAccount => key_list_in KAccount (lit "account_keys") "list active account_keys" parent_id
  | KUser => key_list_in KUser (lit "user_keys") "list active user_keys" parent_id
  | KSystem => mret []
  end.
End keys.

(** ** What the operations can do to the rows *)

Inductive account_write : (AccountRow → AccountRow) → Prop :=
  | aw_short_name now s : account_write (set_short_name now s)
  | aw_author_name now s : account_write (set_author_name now s)
  | aw_author_url now s : account_write (set_author_url now s)
  | aw_delete now : account_write (deleted_account now).
Inductive user_write : (UserRow → UserRow) → Prop :=
  | uw_display_name s : user_write (set_display_name s)
  | uw_delete now : user_write (deleted_user now).

Inductive identity_change : Db → Db → Prop :=
  | ch_account_new new now d :
      accounts d !! nac_id new = None →
      identity_change d (set_accounts (<[nac_id new := new_account_row new now]> (accounts d)) d)
  | ch_account f id d : account_write f → identity_change d (update_account f id d)
  | ch_user_new new now d :
      users d !! nus_id new = None →
      identity_change d (set_users (<[nus_id new := new_user_row new now]> (users d)) d)
  | ch_user f id d : user_write f → identity_change d (update_user f id d)
  | ch_key_new kind new now d :
      keys_of kind d !! (nk_parent_id new, nk_key_id new) = None →
      identity_change d
        (set_keys_of kind
           (<[(nk_parent_id new, nk_key_id new) := new_key_row new now]> (keys_of kind d)) d)
  | ch_key_revoke kind now p k d :
      identity_change d (update_key kind (revoked_key now) p k d).

Inductive IdentityOp : Type :=
  | IAccountCreate (new : NewAccount)
  | IAccountGet (id : Uuid)
  | IAccountUpdate (id : Uuid) (update : AccountUpdate)
  | IAccountDelete (id : Uuid)
  | IUserCreate (new : NewUser)
  | IUserGet (id : Uuid)
  | IUserUpdate (id : Uuid) (update : UserUpdate)
  | IUserDelete (id : Uuid)
  | IKeyCreate (new : NewKey)
  | IKeyGet (kind : KeyKind) (parent_id key_id : Uuid)
  | IKeyRevoke (kind : KeyKind) (parent_id key_id : Uuid)
  | IKeyList (kind : KeyKind) (parent_id : Uuid).

Section changes.
Context `{DieselLib}.

Definition identity_op (op : IdentityOp) : M HeadlinesError () :=
  match op with
  | IAccountCreate new => account_create new;; mret ()
  | IAccountGet id => account_get id;; mret ()
  | IAccountUpdate id update => account_update id update;; mret ()
  | IAccountDelete id => account_soft_delete id;; mret ()
  | IUserCreate new => user_create new;; mret ()
  | IUserGet id => user_get id;; mret ()
  | IUserUpdate id update => user_update id update;; mret ()
  | IUserDelete id => user_soft_delete id;; mret ()
  | IKeyCreate new => key_create new;; mret ()
  | IKeyGet kind p k => key_get kind p k;; mret ()
  | IKeyRevoke kind p k => key_revoke kind p k;; mret ()
  | IKeyList kind p => key_list_active kind p;; mret ()
  end.

(** Every statement of every operation makes an [identity_change] or none. *)
Lemma identity_op_preserves P op :
  (∀ d d', P d → identity_change d d' → P d') → preserves P (identity_op op).
Proof.
  intros HP.
  assert (Hacc : ∀ f id, account_write f → ∀ d, P d → P (update_account f id d)).
  { intros f id Hf d Hd. eapply HP; [done|]. by constructor. }
  assert (Husr : ∀ f id, user_write f → ∀ d, P d → P (update_user f id d)).
  { intros f id Hf d Hd. eapply HP; [done|]. by constructor. }
  assert (Hfield : ∀ ctx o f id, (∀ s, account_write (f s)) →
            preserves P (account_field ctx o f id)).
  { intros ctx [s|] f id Hf; unfold account_field; preserve. }
  destruct op; unfold identity_op, account_create, account_get, account_update,
    account_soft_delete, user_create, user_get, user_update, user_soft_delete, key_create,
    key_get, key_get_in, key_revoke, key_revoke_in, key_list_active, key_list_in; preserve;
    try (apply Hfield; by constructor);
    try (apply preserves_mapM; preserve).
  all: try (apply preserves_run_now; intros now; apply returning_preserves, insert_preserves;
            intros d Hd Hv; rewrite ?Forall_cons, Forall_nil in Hv; cbn in Hv; destruct_and? Hv).
  all: try (apply preserves_map_err, preserves_optional, preserves_stmt;
            apply update_returning_preserves; intros d Hd).
  all: try (apply preserves_run, update_returning_preserves; intros d Hd;
            eapply HP; [done|]; by constructor).
  - by apply (HP d), ch_account_new, present_false.
  - apply Hacc; [constructor|done].
  - by apply (HP d), ch_user_new, present_false.
  - apply preserves_run, execute_preserves, Husr. constructor.
  - apply Husr; [constructor|done].
  - by apply (HP d), (ch_key_new KAccount), present_false.
  - by apply (HP d), (ch_key_new KUser), present_false.
Qed.

(** ** Invariants *)

Definition account_row_ok (id : Uuid) (r : AccountRow) : Prop :=
  acc_id r = id ∧
  ((acc_status r = lit "active" ∧ acc_deleted_at r = None) ∨
   (acc_status r = lit "deleted" ∧ is_Some (acc_deleted_at r))).
Definition user_row_ok (id : Uuid) (r : UserRow) : Prop :=
  usr_id r = id ∧
  ((usr_status r = lit "active" ∧ usr_deleted_at r = None) ∨
   (usr_status r = lit "deleted" ∧ is_Some (usr_deleted_at r))).
Definition key_row_ok (pk : Uuid * Uuid) (r : KeyRow) : Prop :=
  key_owner r = pk.1 ∧ key_key_id r = pk.2 ∧
  ((key_status r = lit "active" ∧ key_revoked_at r = None) ∨
   (key_status r = lit "revoked" ∧ is_Some (key_revoked_at r))).

(** Rows sit under their keys, and a deletion or revocation time is there exactly when
    the status says so. *)
Record identity_inv (d : Db) : Prop := {
  ii_accounts : ∀ id r, accounts d !! id = Some r → account_row_ok id r;
  ii_users : ∀ id r, users d !! id = Some r → user_row_ok id r;
  ii_keys : ∀ kind pk r, keys_of kind d !! pk = Some r → key_row_ok pk r;
}.

Lemma account_write_ok f id r : account_write f → account_row_ok id r → account_row_ok id (f r).
Proof. intros [] [? [[??]|[??]]]; split; simpl; eauto. Qed.
Lemma user_write_ok f id r : user_write f → user_row_ok id r → user_row_ok id (f r).
Proof. intros [] [? [[??]|[??]]]; split; simpl; eauto. Qed.

Lemma keys_of_set kind kind' t d :
  keys_of kind (set_keys_of kind' t d) = if decide (kind = kind') then t else keys_of kind d.
Proof. by destruct kind, kind'. Qed.
Lemma accounts_set_keys kind t d : accounts (set_keys_of kind t d) = accounts d.
Proof. by destruct kind. Qed.
Lemma users_set_keys kind t d : users (set_keys_of kind t d) = users d.
Proof. by destruct kind. Qed.
Lemma keys_of_accounts kind t d : keys_of kind (set_accounts t d) = keys_of kind d.
Proof. by destruct kind. Qed.
Lemma keys_of_users kind t d : keys_of kind (set_users t d) = keys_of kind d.
Proof. by destruct kind. Qed.

Lemma change_identity d d' : identity_inv d → identity_change d d' → identity_inv d'.
Proof.
  intros [Ha Hu Hk] Hch.
  destruct Hch as [new now d Hnone|f id d Hf|new now d Hnone|f id d Hf
                  |kind new now d Hnone|kind now p k d];
    unfold update_account, update_user, update_key;
    (split; [rewrite ?accounts_set_keys|rewrite ?users_set_keys|intros kind';
       rewrite ?keys_of_accounts, ?keys_of_users, ?keys_of_set;
       try (destruct (decide (kind' = kind)) as [->|])]); try done; try apply Hk.
  - apply insert_forall; [done|]. split; [done|by left].
  - apply alter_forall; [done|]. intros r. by apply account_write_ok.
  - apply insert_forall; [done|]. split; [done|by left].
  - apply alter_forall; [done|]. intros r. by apply user_write_ok.
  - apply insert_forall; [apply Hk|]. split_and!; [done..|by left].
  - apply alter_forall; [apply Hk|]. intros r (? & ? & _). split_and!; [done..|right].
    split; [done|by eexists].
Qed.

(** Every operation on accounts, users and keys keeps rows under their
    keys, with a deletion or revocation time exactly when the status says so, whatever
    fails and however the statements of concurrent requests interleave. *)
Theorem identity_operations_keep_rows op : preserves identity_inv (identity_op op).
Proof. apply identity_op_preserves, change_identity. Qed.

(** Deletion and revocation are final and a key's material never changes:
    through every operation a deleted account or user stays deleted, a revoked key
    stays revoked, and a key keeps its algorithm, public key and creation time,
    whatever fails and however concurrent requests that keep this interleave. *)
Theorem deletion_and_revocation_final op a u kind pk r :
  preserves (λ d, ∃ x, accounts d !! a = Some x ∧ acc_status x = lit "deleted") (identity_op op) ∧
  preserves (λ d, ∃ x, users d !! u = Some x ∧ usr_status x = lit "deleted") (identity_op op) ∧
  preserves (λ d, ∃ x, keys_of kind d !! pk = Some x ∧
      (key_algo x = key_algo r ∧ key_public_key x = key_public_key r ∧
       key_created_at x = key_created_at r ∧
       (key_status r = lit "revoked" → key_status x = lit "revoked"))) (identity_op op).
Proof.
  split_and!; apply identity_op_preserves; intros d d' Hx Hch;
    destruct Hch as [new now d Hnone|f id d Hf|new now d Hnone|f id d Hf
                    |kind' new now d Hnone|kind' now p k d];
    unfold update_key, update_account, update_user in *;
    rewrite ?accounts_set_keys, ?users_set_keys, ?keys_of_accounts, ?keys_of_users, ?keys_of_set;
    try done; try (by apply insert_keeps).
  - apply alter_keeps; [|done]. by intros x Hst; destruct Hf.
  - apply alter_keeps; [|done]. by intros x Hst; destruct Hf.
  - destruct (decide (kind = kind')) as [->|]; [|done]. by apply insert_keeps.
  - destruct (decide (kind = kind')) as [->|]; [|done]. apply alter_keeps; [|done].
    intros x (? & ? & ? & ?). by split_and!.
Qed.
End changes.

(** ** The repository traits *)

(** [AccountRepo], [UserRepo], [KeyRepo] *)
Class AccountRepo := {
  accounts_create : NewAccount → M HeadlinesError Account;
  accounts_get : Uuid → M HeadlinesError Account;
  accounts_update : Uuid → AccountUpdate → M HeadlinesError Account;
  accounts_soft_delete : Uuid → M HeadlinesError Account;
}.
Class UserRepo := {
  users_create : NewUser → M HeadlinesError User;
  users_get : Uuid → M HeadlinesError User;
  users_update : Uuid → UserUpdate → M HeadlinesError User;
  users_soft_delete : Uuid → M HeadlinesError User;
}.
Class KeyRepo := {
  keys_create : NewKey → M HeadlinesError StoredKey;
  keys_get : KeyKind → Uuid → Uuid → M HeadlinesError StoredKey;
  keys_revoke : KeyKind → Uuid → Uuid → M HeadlinesError StoredKey;
  keys_list_active : KeyKind → Uuid → M HeadlinesError (list StoredKey);
}.

(** What the services rely on: the reads do not write. *)
Class AccountReads `{AccountRepo} : Prop :=
  accounts_get_reads : ∀ P id, preserves P (accounts_get id).
Class UserReads `{UserRepo} : Prop :=
  users_get_reads : ∀ P id, preserves P (users_get id).
Class KeyReads `{KeyRepo} : Prop :=
  keys_list_reads : ∀ P kind id, preserves P (keys_list_active kind id).

(** The Postgres repositories. *)
#[export] Instance PgAccountRepo `{DieselLib} : AccountRepo := {
  accounts_create := account_create;
  accounts_get := account_get;
  accounts_update := account_update;
  accounts_soft_delete := account_soft_delete;
}.
#[export] Instance PgUserRepo `{DieselLib} : UserRepo := {
  users_create := user_create;
  users_get := user_get;
  users_update := user_update;
  users_soft_delete := user_soft_delete;
}.
#[export] Instance PgKeyRepo `{DieselLib} : KeyRepo := {
  keys_create := key_create;
  keys_get := key_get;
  keys_revoke := key_revoke;
  keys_list_active := key_list_active;
}.

#[export] Instance PgAccountReads `{DieselLib} : AccountReads.
Proof. intros P id. cbn. unfold account_get. preserve. Qed.
#[export] Instance PgUserReads `{DieselLib} : UserReads.
Proof. intros P id. cbn. unfold user_get. preserve. Qed.
#[export] Instance PgKeyReads `{DieselLib} : KeyReads.
Proof.
  intros P kind id. cbn. unfold key_list_active, key_list_in. preserve.
Qed.

(** ** The key operations without failures *)

#[export] Instance eq_row_dec : EqDecision KeyRow.
Proof. solve_decision. Defined.

(** Some key of the owner is active. *)
Definition has_active (kind : KeyKind) (p : Uuid) (d : Db) : Prop :=
  ∃ k r, keys_of kind d !! (p, k) = Some r ∧ key_status r = lit "active".

Lemma elem_of_active_keys kind p d r :
  identity_inv d →
  r ∈ active_keys kind p d ↔
  keys_of kind d !! (p, key_key_id r) = Some r ∧ key_status r = lit "active".
Proof.
  intros [_ _ Hk]. unfold active_keys. rewrite elem_of_rows_where, andb_true_iff,
    bool_decide_eq_true, str_eqb_eq. split.
  - intros [[Hp Hst] [[p' k] Hr]]. destruct (Hk kind _ r Hr) as (Ho & Hid & _). simpl in *.
    by subst.
  - intros [Hr Hst]. destruct (Hk kind _ r Hr) as (Ho & _). eauto.
Qed.

Lemma active_keys_NoDup kind p d : identity_inv d → NoDup (active_keys kind p d).
Proof.
  intros [_ _ Hk]. apply (rows_where_NoDup _ _ (λ r, (key_owner r, key_key_id r))).
  intros [p' k] r Hr. destruct (Hk kind _ r Hr) as (Ho & Hid & _). by simpl in *; subst.
Qed.

(** Revoking one of several active keys, or a key that is not active, leaves an active
    key. *)
Lemma revoke_keeps_active kind p k now p' d :
  identity_inv d → has_active kind p' d →
  (p' = p → existsb (λ r, bool_decide (key_key_id r = k)) (active_keys kind p d) = true →
   length (active_keys kind p d) ≠ 1%nat) →
  has_active kind p' (update_key kind (revoked_key now) p k d).
Proof.
  intros Hinv (k0 & r0 & Hr0 & Hst0) Hlast. unfold has_active, update_key.
  setoid_rewrite keys_of_set. rewrite decide_True by done.
  destruct (decide ((p', k0) = (p, k))) as [[= -> ->]|Hne];
    [|exists k0, r0; by rewrite lookup_alter_ne by congruence].
  assert (Hid0 : key_key_id r0 = k) by by destruct Hinv as [_ _ Hk]; destruct (Hk kind _ _ Hr0) as (_ & ? & _).
  assert (Hin0 : r0 ∈ active_keys kind p d).
  { apply elem_of_active_keys; [done|]. by rewrite Hid0. }
  assert (Hone : length (active_keys kind p d) ≠ 1%nat).
  { apply Hlast; [done|]. apply existsb_exists. exists r0. split; [by apply list_elem_of_In|].
    by apply bool_decide_eq_true. }
  pose proof (active_keys_NoDup kind p d Hinv) as Hnd.
  assert (∃ r1, r1 ∈ active_keys kind p d ∧ r1 ≠ r0) as (r1 & Hin1 & Hne).
  { destruct (active_keys kind p d) as [|a [|b l]]; [by apply not_elem_of_nil in Hin0|done|].
    apply NoDup_cons in Hnd as [Hab _].
    assert (a ≠ b) by set_solver.
    destruct (eq_row_dec a r0) as [->|]; [exists b; set_solver|exists a; set_solver]. }
  apply elem_of_active_keys in Hin1 as [Hr1 Hst1]; [|done].
  exists (key_key_id r1), r1. rewrite lookup_alter_ne; [done|]. intros [= Heq].
  rewrite <- Heq in Hr1. congruence.
Qed.

Section quiet_keys.
Context `{DieselLib}.
Variables (env : Env) (Hq : quiet env).

Lemma key_domain_all kind table rows w :
  Forall (λ r, key_status r = lit "active") rows →
  ∃ ks, mapM_ (λ r, lift (key_into_domain kind table r)) rows env w = (Ok ks, w) ∧
    sk_key_id <$> ks = key_key_id <$> rows.
Proof.
  induction 1 as [|r rows Hr _ (ks & IH & Hks)]; [by exists []|]. cbn [mapM_].
  assert (∃ k, key_into_domain kind table r = Ok k ∧ sk_key_id k = key_key_id r)
    as (k & Hk & Hid).
  { unfold key_into_domain, parse_status. rewrite Hr. by eexists. }
  rewrite Hk, bind_lift_ok, bind_run, IH. exists (k :: ks). split; [done|].
  cbn. by rewrite Hid, Hks.
Qed.

Lemma key_list_quiet kind p w :
  kind ≠ KSystem → identity_inv (w_db w) →
  ∃ ks t, key_list_active kind p env w = (Ok ks, mkWorld (w_db w) t) ∧
    sk_key_id <$> ks = key_key_id <$> active_keys kind p (w_db w).
Proof.
  intros Hkind Hinv.
  assert (Hrows : Forall (λ r, key_status r = lit "active") (active_keys kind p (w_db w))).
  { apply Forall_forall. intros r Hr. by apply elem_of_active_keys in Hr as [_ ?]. }
  destruct kind; [| |done]; unfold key_list_active, key_list_in; do 2 quiet_step.
  - destruct (key_domain_all KAccount (lit "account_keys") _ (tick (tick w)) Hrows)
      as (ks & -> & Hks). by eexists ks, _.
  - destruct (key_domain_all KUser (lit "user_keys") _ (tick (tick w)) Hrows)
      as (ks & -> & Hks). by eexists ks, _.
Qed.

Lemma key_revoke_quiet kind p k w :
  identity_inv (w_db w) →
  ∃ r d' t, key_revoke kind p k env w = (r, mkWorld d' t) ∧
    (d' = w_db w ∨ ∃ now, d' = update_key kind (revoked_key now) p k (w_db w)) ∧
    ((∃ x, keys_of kind (w_db w) !! (p, k) = Some x ∧ key_status x = lit "active") →
     kind ≠ KSystem → is_ok r ∧
       ∃ now, d' = update_key kind (revoked_key now) p k (w_db w)).
Proof.
  intros Hinv. assert (Hin : ∀ table c1 c2, ∃ r d' t,
    key_revoke_in kind table c1 c2 p k env w = (r, mkWorld d' t) ∧
    (d' = w_db w ∨ ∃ now, d' = update_key kind (revoked_key now) p k (w_db w)) ∧
    ((∃ x, keys_of kind (w_db w) !! (p, k) = Some x ∧ key_status x = lit "active") →
     is_ok r ∧ ∃ now, d' = update_key kind (revoked_key now) p k (w_db w))).
  { intros table c1 c2. unfold key_revoke_in. do 2 quiet_step. unfold select_key.
    destruct (keys_of kind (w_db w) !! (p, k)) as [x|] eqn:Hx; quiet_step.
    - destruct (str_eqb (key_status x) (lit "revoked")) eqn:Hst.
      + eexists _, _, _. split; [done|]. split; [by left|].
        intros (x' & [= <-] & Hact). apply str_eqb_eq in Hst. rewrite Hact in Hst. by vm_compute in Hst.
      + quiet_step. rewrite bind_run_stmt by done. unfold update_returning. db_simpl.
        unfold update_key at 1. rewrite keys_of_set, decide_True, lookup_alter_eq, Hx by done.
        eexists _, _, _. split; [done|]. split; [right; by eexists|]. intros _. by split; [|eexists].
    - eexists _, _, _. split; [done|]. split; [by left|]. by intros (x & ? & _). }
  unfold key_revoke. destruct kind.
  - destruct (Hin (lit "account_keys") "select account_key"%string "revoke account_key"%string)
      as (r & d' & t & -> & Hd & Hok). exists r, d', t. split_and!; auto.
  - destruct (Hin (lit "user_keys") "select user_key"%string "revoke user_key"%string)
      as (r & d' & t & -> & Hd & Hok). exists r, d', t. split_and!; auto.
  - exists (Err (KeyNotFound k)), (w_db w), (w_tick w). split_and!; [by destruct w|by left|done].
Qed.
End quiet_keys.
