(* ===== verification/Feeds.v ===== *)
(** * The feeds ([headlines-store/src/repo/feed_recommendation.rs],
    [feed_follow.rs], [account_stream.rs] and their traits in
    [headlines-core/src/repo])

    Three paginated reads over SQL joins: a user's recommendation list, the articles
    of the accounts a user follows, and the stream of an account's articles by the
    time of their last change, tombstones included; and the one write, the atomic
    replacement of a recommendation list.  Without failures each walk shows exactly
    the documented articles, each as [GetArticle] shows it. *)

From S2P Require Import Prelude Libs Instances Errors Db Paging Articles Follows.

(** ** Rows of the joins *)

(** An article with its live row and its current version: [articles JOIN
    articles_live JOIN article_versions], by the primary keys. *)
Definition LiveJoin : Type := ArticleRow * ArticleLiveRow * ArticleVersionRow.
Definition live_join (d : Db) (id : Uuid) : option LiveJoin :=
  a ← articles d !! id;
  l ← articles_live d !! id;
  v ← article_versions d !! (id, live_current_version l);
  Some (a, l, v).

Record FeedItem := { fi_position : Z; fi_article : ArticleSummary }.

(** The summary the feeds make of a joined row; [redacted] is [v.content IS NULL]. *)
Definition join_summary (state : ArticleState) (r : LiveJoin) : ArticleSummary :=
  let '(a, l, v) := r in
  {| as_id := art_id a; as_account_id := art_account_id a; as_state := state;
     as_created_at := art_created_at a;
     as_current_version := Some (live_current_version l);
     as_title := Some (ver_title v);
     as_author_name := Some (or_default (ver_author_name v));
     as_author_url := Some (or_default (ver_author_url v));
     as_redacted := bool_decide (ver_content v = None);
     as_published_at := Some (live_published_at l);
     as_updated_at := Some (live_updated_at l);
     as_tombstone_reason := None; as_tombstoned_at := None |}.

(** [row_to_feed_item] *)
Definition row_to_feed_item (r : Z * LiveJoin) : result HeadlinesError FeedItem :=
  state ← parse_state (art_state r.2.1.1);
  Ok {| fi_position := r.1; fi_article := join_summary state r.2 |}.
(** [row_to_follow_feed_item]; a [FollowFeedItem] is its article. *)
Definition row_to_follow_feed_item (r : LiveJoin) : result HeadlinesError ArticleSummary :=
  state ← parse_state (art_state r.1.1);
  Ok (join_summary state r).

(** ** [feed_recommendation] *)

(** The rows of [replace]: a position per id, narrowed to [i32]. *)
Definition new_feed_rows (user_id : Uuid) (ids : list Uuid) : list ((Uuid * Z) * Uuid) :=
  imap (λ idx article_id, ((user_id, as_i32 (Z.of_nat idx)), article_id)) ids.

Definition insert_feed_rows (user_id : Uuid) (ids : list Uuid) : Stmt () :=
  insert_stmt (λ d,
    [(negb (bool_decide (NoDup (new_feed_rows user_id ids).*1)
            && forallb (λ r, negb (present (feed_recommendation d) r.1))
                 (new_feed_rows user_id ids)), DUnique (lit "feed_recommendation"));
     (negb (present (users d) user_id), DForeignKey (lit "feed_recommendation"))])
    (λ d, set_feed_recommendation
            (list_to_map (new_feed_rows user_id ids) ∪ feed_recommendation d) d).

(** [DELETE .. WHERE user_id] *)
Definition delete_feed (user_id : Uuid) (d : Db) : Db :=
  set_feed_recommendation (filter (λ r, r.1.1 ≠ user_id) (feed_recommendation d)) d.

(** The join of [get]. *)
Definition feed_rows (user_id : Uuid) (d : Db) : list (Z * LiveJoin) :=
  omap (λ r : (Uuid * Z) * Uuid,
          if bool_decide (r.1.1 = user_id) then
            j ← live_join d r.2;
            if str_eqb (art_state j.1.1) (lit "live") then Some (r.1.2, j) else None
          else None)
    (map_to_list (feed_recommendation d)).

Section repo.
Context `{DieselLib, ChronoLib, Base64Lib, SerdeLib}.

(** The transaction of [replace]. *)
Definition replace_tx (user_id : Uuid) (article_ids : list Uuid) : M TxError () :=
  tx_run "delete feed_recommendation" (execute (delete_feed user_id));;
  if bool_decide (article_ids = []) then mret ()
  else tx_run "insert feed_recommendation" (insert_feed_rows user_id article_ids).
(** [replace] *)
Definition feed_replace (user_id : Uuid) (article_ids : list Uuid) : M HeadlinesError Z :=
  get_conn;;
  tx (replace_tx user_id article_ids);;
  mret (as_i32 (Z.of_nat (length article_ids))).

Definition feed_key (r : Z * LiveJoin) : Key := (r.1, 0%N).
(** [get] *)
Definition feed_get (user_id : Uuid) (page_size : Z) (token : PageToken) :
    M HeadlinesError (list FeedItem * PageToken) :=
  let limit := clamp_page_size page_size in
  cursor ← lift (position_cursor token);
  get_conn;;
  rows ← run "get feed_recommendation"
    (query (λ d, keyset_rows Asc feed_key cursor limit (feed_rows user_id d)));
  let '(rows, next) := cut_page feed_key limit rows in
  items ← lift (try_map row_to_feed_item rows);
  mret (items, match next with Some k => encode_position k.1 | None => [] end).

(** ** [feed_follow] *)

(** The join of [get]: the active edges of the user, the articles of their accounts. *)
Definition follow_feed_rows (user_id : Uuid) (d : Db) : list LiveJoin :=
  rows_where (λ f, bool_decide (fol_user_id f = user_id) && str_eqb (fol_status f) (lit "active"))
    (follows d) ≫= λ f,
  omap (λ a, live_join d (art_id a))
    (rows_where (λ a, bool_decide (art_account_id a = fol_account_id f)) (articles d)).

Definition join_key (r : LiveJoin) : Key := (art_created_at r.1.1, art_id r.1.1).
(** [get] *)
Definition follow_feed_get (user_id : Uuid) (page_size : Z) (token : PageToken) :
    M HeadlinesError (list ArticleSummary * PageToken) :=
  let limit := clamp_page_size page_size in
  cursor ← lift (page_cursor (lit "c") token);
  get_conn;;
  rows ← run "get feed_follow"
    (query (λ d, keyset_rows Desc join_key cursor limit (follow_feed_rows user_id d)));
  let '(rows, next) := cut_page join_key limit rows in
  items ← lift (try_map row_to_follow_feed_item rows);
  mret (items, next_token (lit "c") next).
End repo.

(** ** [account_stream] *)

(** A row of the left joins, without the computed [event_at]. *)
Record StreamJoin := {
  sj_article : ArticleRow;
  sj_live : option ArticleLiveRow;
  sj_tombstone : option ArticleTombstoneRow;
  sj_version : option ArticleVersionRow;
}.
Definition stream_join (d : Db) (a : ArticleRow) : StreamJoin :=
  let l := articles_live d !! art_id a in
  {| sj_article := a; sj_live := l; sj_tombstone := articles_tombstone d !! art_id a;
     sj_version := l ≫= λ l, article_versions d !! (art_id a, live_current_version l) |}.

(** [COALESCE(l.updated_at, t.tombstoned_at)] *)
Definition event_at (r : StreamJoin) : option DateTime :=
  match sj_live r with
  | Some l => Some (live_updated_at l)
  | None => tomb_tombstoned_at <$> sj_tombstone r
  end.

(** [row_to_item]; an [AccountStreamItem] is its article. *)
Definition row_to_item (r : StreamJoin) : result HeadlinesError ArticleSummary :=
  let a := sj_article r in
  state ← parse_state (art_state a);
  Ok match state with
     | Live =>
       {| as_id := art_id a; as_account_id := art_account_id a; as_state := Live;
          as_created_at := art_created_at a;
          as_current_version := live_current_version <$> sj_live r;
          as_title := ver_title <$> sj_version r;
          as_author_name := Some (or_default (sj_version r ≫= ver_author_name));
          as_author_url := Some (or_default (sj_version r ≫= ver_author_url));
          as_redacted := bool_decide ((sj_version r ≫= ver_content) = None);
          as_published_at := live_published_at <$> sj_live r;
          as_updated_at := live_updated_at <$> sj_live r;
          as_tombstone_reason := None; as_tombstoned_at := None |}
     | Tombstone =>
       {| as_id := art_id a; as_account_id := art_account_id a; as_state := Tombstone;
          as_created_at := art_created_at a;
          as_current_version := None; as_title := None; as_author_name := None;
          as_author_url := None; as_redacted := false;
          as_published_at := None; as_updated_at := None;
          as_tombstone_reason := sj_tombstone r ≫= tomb_reason;
          as_tombstoned_at := tomb_tombstoned_at <$> sj_tombstone r |}
     end.

(** The rows of an account that have an event time, with it, and those that do not. *)
Definition stream_rows (account_id : Uuid) (d : Db) : list StreamJoin :=
  stream_join d <$>
    rows_where (λ a, bool_decide (art_account_id a = account_id)) (articles d).
Definition timed_rows (account_id : Uuid) (d : Db) : list (DateTime * StreamJoin) :=
  omap (λ r, t ← event_at r; Some (t, r)) (stream_rows account_id d).
Definition untimed (account_id : Uuid) (d : Db) : bool :=
  existsb (λ r, bool_decide (event_at r = None)) (stream_rows account_id d).
Definition stream_key (r : DateTime * StreamJoin) : Key := (r.1, art_id (sj_article r.2)).

(** The query: a null [event_at] sorts last, satisfies no keyset condition, and does
    not deserialise into the non-null field of the row. *)
Definition stream_query (account_id : Uuid) (cursor : option Key) (limit : Z) :
    Stmt (list (DateTime * StreamJoin)) := λ d,
  let rows := keyset_rows Asc stream_key cursor limit (timed_rows account_id d) in
  if untimed account_id d && bool_decide (cursor = None)
     && (Z.of_nat (length rows) <? limit + 1)
  then (Err (DFailure (lit "Unexpected null for non-null column")), d)
  else (Ok rows, d).

Section stream.
Context `{DieselLib, ChronoLib, Base64Lib, SerdeLib}.
(** [stream] *)
Definition account_stream (account_id : Uuid) (page_size : Z) (token : PageToken) :
    M HeadlinesError (list ArticleSummary * PageToken) :=
  let limit := clamp_page_size page_size in
  cursor ← lift (page_cursor (lit "e") token);
  get_conn;;
  rows ← run "stream account_stream" (stream_query account_id cursor limit);
  let '(rows, next) := cut_page stream_key limit rows in
  items ← lift (try_map (λ r, row_to_item r.2) rows);
  mret (items, next_token (lit "e") next).
End stream.

(** ** What the feeds show of an article *)

(** The summary [GetArticle] shows of an article, when it is live. *)
Definition live_view (d : Db) (id : Uuid) : option ArticleSummary :=
  match article_view d id with
  | Ok v => match as_state (a_summary v) with Live => Some (a_summary v) | Tombstone => None end
  | Err _ => None
  end.

Lemma live_state a : art_state a = lit "live" → parse_state (art_state a) = Ok Live.
Proof. by intros ->. Qed.
Lemma tombstone_state a : art_state a = lit "tombstone" → parse_state (art_state a) = Ok Tombstone.
Proof. by intros ->. Qed.

Section views.
Variables (d : Db) (Hinv : family_inv d).

Lemma article_key id a : articles d !! id = Some a → art_id a = id.
Proof.
  intros Ha. destruct (Hinv id) as [(?&_)|(a' & n & [[??] _ _ _ _])]; congruence.
Qed.

Lemma article_row P a : a ∈ rows_where P (articles d) → P a = true ∧ articles d !! art_id a = Some a.
Proof.
  intros [HP [k Hk]]%elem_of_rows_where. split; [done|]. by rewrite (article_key k a Hk).
Qed.

(** The join of a live article, and what it shows. *)
Lemma live_join_view id j :
  live_join d id = Some j →
  art_id j.1.1 = id ∧ articles d !! id = Some j.1.1 ∧ art_state j.1.1 = lit "live" ∧
  articles_live d !! id = Some j.1.2 ∧
  live_view d id = Some (join_summary Live j).
Proof.
  unfold live_join. intros (a & Ha & (l & Hl & (v & Hv & [= <-])%bind_Some)%bind_Some)%bind_Some.
  cbn [fst snd]. destruct (family_live d id a l (Hinv id) Ha Hl) as (Hp & Hst & _ & _).
  split_and!; [by apply (article_key id)|done..|].
  unfold live_view. rewrite (view_live d id a l v Ha Hl Hv). cbn. f_equal.
  destruct (fp_versions _ _ _ _ Hp _ _ Hv) as (_ & Hver & Hred).
  unfold live_summary, join_summary. rewrite Hver. f_equal.
  apply bool_decide_ext. by rewrite Hred.
Qed.

Lemma live_view_join id s :
  live_view d id = Some s → ∃ j, live_join d id = Some j ∧ s = join_summary Live j.
Proof.
  intros Hs. assert (∃ j, live_join d id = Some j) as [j Hj].
  { unfold live_view, article_view in Hs. unfold live_join.
    destruct (articles d !! id) as [a|]; [|done]. simpl.
    destruct (articles_live d !! id) as [l|]; simpl.
    - destruct (article_versions d !! _) as [v|]; [by eexists|done].
    - by destruct (articles_tombstone d !! id). }
  exists j. split; [done|]. apply live_join_view in Hj as (_ & _ & _ & _ & Hv). congruence.
Qed.

Lemma live_view_live_join id : live_view d id = join_summary Live <$> live_join d id.
Proof.
  destruct (live_join d id) as [j|] eqn:Hj; simpl; [by apply live_join_view in Hj as (_&_&_&_&?)|].
  destruct (live_view d id) as [s|] eqn:Hs; [|done].
  apply live_view_join in Hs as (j & Hj' & _). congruence.
Qed.
End views.

(** ** The recommendation list *)

Definition replaced (user_id : Uuid) (ids : list Uuid) (d : Db) : Db :=
  set_feed_recommendation
    (list_to_map (new_feed_rows user_id ids)
     ∪ filter (λ r, r.1.1 ≠ user_id) (feed_recommendation d)) d.

(** The list a user should see: the live articles at their indices. *)
Definition indexed (ids : list Uuid) : list (Z * Uuid) := imap (λ i id, (Z.of_nat i, id)) ids.
Definition feed_of (d : Db) (ids : list Uuid) : list FeedItem :=
  omap (λ r, s ← live_view d r.2; Some {| fi_position := r.1; fi_article := s |}) (indexed ids).

Lemma indexed_sorted ids : StronglySorted (λ a b : Z * Uuid, a.1 < b.1) (indexed ids).
Proof.
  unfold indexed. assert (∀ k, StronglySorted (λ a b : Z * Uuid, a.1 < b.1)
                           (imap (λ i id, (Z.of_nat (k + i), id)) ids)) as Hk; [|apply (Hk 0%nat)].
  induction ids as [|x ids IH]; intros k; [constructor|]. rewrite imap_cons. constructor.
  - erewrite imap_ext; [apply (IH (S k))|]. intros i y _. simpl. do 2 f_equal. lia.
  - apply Forall_forall. intros y (i & z & -> & _)%elem_of_lookup_imap. simpl. lia.
Qed.

Lemma new_feed_rows_elem u ids r :
  Z.of_nat (length ids) <= i32_max →
  r ∈ new_feed_rows u ids ↔ r.1.1 = u ∧ (r.1.2, r.2) ∈ indexed ids.
Proof.
  intros Hlen. unfold new_feed_rows, indexed. rewrite !elem_of_lookup_imap.
  assert (∀ i, (i < length ids)%nat → as_i32 (Z.of_nat i) = Z.of_nat i) as Hid.
  { intros i Hi. apply as_i32_id. unfold is_i32, i32_min, i32_max in *. lia. }
  destruct r as [[u' p] id]. cbn. split.
  - intros (i & y & [= -> -> ->] & Hi). split; [done|]. exists i, y.
    by rewrite Hid by (by eapply lookup_lt_Some).
  - intros [-> (i & y & [= -> ->] & Hi)]. exists i, y.
    by rewrite Hid by (by eapply lookup_lt_Some).
Qed.

Lemma new_feed_rows_NoDup u ids :
  Z.of_nat (length ids) <= i32_max → NoDup (new_feed_rows u ids).*1.
Proof.
  intros Hlen. apply NoDup_alt. intros i j x Hi Hj. unfold new_feed_rows in *.
  rewrite list_lookup_fmap, list_lookup_imap in Hi, Hj.
  destruct (ids !! i) as [a|] eqn:Ha; [|done]. destruct (ids !! j) as [b|] eqn:Hb; [|done].
  apply lookup_lt_Some in Ha, Hb. cbn in Hi, Hj. injection Hi as <-. injection Hj as Hj.
  rewrite !as_i32_id in Hj by (unfold is_i32, i32_min, i32_max in *; lia).
  lia.
Qed.

(** The rows of the join. *)
Lemma elem_of_feed_rows u d r :
  family_inv d →
  r ∈ feed_rows u d ↔
  ∃ id, feed_recommendation d !! (u, r.1) = Some id ∧ live_join d id = Some r.2.
Proof.
  intros Hinv. unfold feed_rows. rewrite list_elem_of_omap. split.
  - intros ([[u' p] id] & Hr%elem_of_map_to_list & Hs). cbn [fst snd] in *.
    case_bool_decide as Hu; [subst u'|done]. destruct (live_join d id) as [j|] eqn:Hj; [|done].
    cbn in Hs. destruct (str_eqb _ _); simplify_eq/=. by exists id.
  - destruct r as [p j]. intros (id & Hr & Hj). exists ((u, p), id).
    rewrite elem_of_map_to_list. split; [done|]. cbn [fst snd] in *.
    rewrite bool_decide_eq_true_2, Hj by done. cbn.
    apply live_join_view in Hj as (_ & _ & Hst & _); [|done].
    by rewrite (proj2 (str_eqb_eq _ _) Hst).
Qed.

Lemma feed_rows_NoDup u d : NoDup (feed_rows u d).
Proof.
  apply NoDup_omap_inj; [apply NoDup_map_to_list|].
  intros [[u1 p1] id1] [[u2 p2] id2] z H1%elem_of_map_to_list H2%elem_of_map_to_list.
  cbn [fst snd]. intros Hz1 Hz2.
  case_bool_decide; [|done]. case_bool_decide; [|done].
  destruct (live_join d id1); [|done]. destruct (live_join d id2); [|done]. cbn in Hz1, Hz2.
  destruct (str_eqb _ _); [|done]. destruct (str_eqb _ _); [|done]. simplify_eq/=. congruence.
Qed.

Lemma feed_rows_key u d r r' :
  r ∈ feed_rows u d → r' ∈ feed_rows u d → family_inv d → feed_key r = feed_key r' → r = r'.
Proof.
  intros Hr Hr' Hinv [= Hp]. apply elem_of_feed_rows in Hr as (id & Hr & Hj), Hr' as (id' & Hr' & Hj');
    [|done..]. destruct r, r'. simpl in *. congruence.
Qed.

Section recommendation.
Context `{DieselLib, ChronoLaws, Base64Laws, SerdeLaws}.
Variables (env : Env) (Hq : quiet env).

Lemma replaced_views u ids d id : live_join (replaced u ids d) id = live_join d id.
Proof. done. Qed.
Lemma replaced_family u ids d : family_inv d → family_inv (replaced u ids d).
Proof. intros Hinv id. apply (family_ok_frame d); done || apply Hinv. Qed.

Lemma replaced_lookup u ids d p id :
  Z.of_nat (length ids) <= i32_max →
  feed_recommendation (replaced u ids d) !! (u, p) = Some id ↔ (p, id) ∈ indexed ids.
Proof.
  intros Hlen. unfold replaced. cbn. rewrite lookup_union_Some_raw.
  rewrite <- elem_of_list_to_map by by apply new_feed_rows_NoDup.
  rewrite new_feed_rows_elem by done. cbn. split; [|by left].
  intros [[_ ?]|[_ [_ Hf]%map_lookup_filter_Some]]; done.
Qed.

(** [replace] in a run without failures. *)
Lemma feed_replace_quiet u ids w :
  is_Some (users (w_db w) !! u) → Z.of_nat (length ids) <= i32_max →
  ∃ t, feed_replace u ids env w =
    (Ok (Z.of_nat (length ids)), mkWorld (replaced u ids (w_db w)) t).
Proof.
  intros Hu Hlen. unfold feed_replace, replace_tx. do 2 quiet_step.
  rewrite as_i32_id by (unfold is_i32, i32_min, i32_max in *; lia).
  quiet_step. case_bool_decide as Hids.
  - subst ids. unfold mret, M_ret. eexists. do 2 f_equal. unfold replaced. cbn.
    by rewrite (left_id_L ∅ (∪)).
  - unfold insert_feed_rows. quiet_step. cbn [feed_recommendation delete_feed set_feed_recommendation users].
    rewrite bool_decide_eq_true_2 by by apply new_feed_rows_NoDup.
    assert (forallb (λ r, negb (present (filter (λ r : Uuid * Z * Uuid, r.1.1 ≠ u)
              (feed_recommendation (w_db w))) r.1)) (new_feed_rows u ids) = true) as ->.
    { apply forallb_forall. intros r Hr%list_elem_of_In.
      apply new_feed_rows_elem in Hr as [Hr _]; [|done]. apply negb_true_iff, bool_decide_eq_false.
      intros [x [_ Hx]%map_lookup_filter_Some]. done. }
    rewrite (proj2 (present_true _ _) Hu). cbn [negb andb]. rewrite !skip_violation, no_more_violations.
    eexists. unfold mret, M_ret. reflexivity.
Qed.

(** [get] serves the pages of the join. *)
Lemma feed_get_serves u page d :
  family_inv d →
  serves env d (feed_get u page)
    (λ r, match row_to_feed_item r with Ok b => Some b | Err _ => None end)
    position_codec Asc feed_key (clamp_page_size page) (feed_rows u d).
Proof.
  intros Hinv. apply (keyset_listing_serves env d position_codec _ _ _ _ row_to_feed_item
    "get feed_recommendation"
    (λ cursor, query (λ d, keyset_rows Asc feed_key cursor (clamp_page_size page) (feed_rows u d))));
    [done|done|].
  intros r (id & _ & Hj)%elem_of_feed_rows; [|done].
  apply live_join_view in Hj as (_ & _ & Hst & _); [|done].
  unfold row_to_feed_item. by rewrite live_state.
Qed.

(** The joined rows of a replaced feed, in order. *)
Lemma replaced_feed_rows u ids d :
  family_inv d → Z.of_nat (length ids) <= i32_max →
  order_rows Asc feed_key (feed_rows u (replaced u ids d)) =
  omap (λ r, j ← live_join d r.2; Some (r.1, j)) (indexed ids).
Proof.
  intros Hinv Hlen. pose proof (replaced_family u ids d Hinv) as Hinv'.
  assert (Hstrict : strict Asc feed_key
            (omap (λ r, j ← live_join d r.2; Some (r.1, j)) (indexed ids))).
  { eapply omap_sorted; [|apply indexed_sorted]. intros [p id] [p' id'] x y _ _ Hlt Hx Hy.
    cbn [fst snd] in *. destruct (live_join d id), (live_join d id'); simplify_eq/=.
    unfold feed_key, key_ltb. cbn. by rewrite (proj2 (Z.ltb_lt _ _) Hlt). }
  apply order_rows_unique; [by eauto using feed_rows_key|done|].
  apply NoDup_Permutation; [by eapply strict_NoDup|apply feed_rows_NoDup|].
  intros [p j]. rewrite list_elem_of_omap, elem_of_feed_rows by done. cbn [fst snd].
  setoid_rewrite replaced_lookup; [|done]. setoid_rewrite replaced_views. split.
  - intros ([p' id] & Hin & Hj). cbn [fst snd] in *. destruct (live_join d id) eqn:Hl; simplify_eq/=.
    by exists id.
  - intros (id & Hin & Hj). exists (p, id). cbn. by rewrite Hj.
Qed.

(** What the pages of a replaced feed show, and how many rows they have. *)
Lemma replaced_shown u ids d :
  family_inv d → Z.of_nat (length ids) <= i32_max →
  omap (λ r, match row_to_feed_item r with Ok b => Some b | Err _ => None end)
    (order_rows Asc feed_key (feed_rows u (replaced u ids d))) = feed_of d ids.
Proof.
  intros Hinv Hlen. rewrite replaced_feed_rows by done. unfold feed_of.
  rewrite omap_omap. apply omap_ext_elem. intros [p id] _. cbn [fst snd].
  rewrite live_view_live_join by done. destruct (live_join _ id) as [j|] eqn:Hj; [|done].
  apply live_join_view in Hj as (_ & _ & Hst & _); [|done]. cbn.
  unfold row_to_feed_item. cbn [fst snd]. by rewrite live_state.
Qed.
Lemma replaced_length u ids d :
  family_inv d → Z.of_nat (length ids) <= i32_max →
  (length (feed_rows u (replaced u ids d)) <= length ids)%nat.
Proof.
  intros Hinv Hlen. rewrite <- (order_rows_perm Asc feed_key), replaced_feed_rows by done.
  etrans; [apply omap_length|]. unfold indexed. by rewrite length_imap.
Qed.

(** Walking the pages of a replaced list. *)
Lemma replaced_walk u ids page fuel d t0 :
  family_inv d → Z.of_nat (length ids) <= i32_max → (length ids <= fuel)%nat →
  ∃ t, walk_listing fuel (feed_get u page) [] env (mkWorld (replaced u ids d) t0) =
    (Ok (Some (feed_of d ids)), mkWorld (replaced u ids d) t).
Proof.
  intros Hinv Hlen Hfuel. pose proof (replaced_family u ids d Hinv) as Hinv'.
  destruct (walk_listing_all position_codec env (replaced u ids d) (feed_get u page) _ Asc feed_key
    (clamp_page_size page) (feed_rows u (replaced u ids d)) fuel (mkWorld (replaced u ids d) t0)
    (feed_get_serves u page _ Hinv')) as [t Hwalk].
  - done.
  - pose proof (clamp_page_size_range page). unfold MAX_PAGE_SIZE, i32_max in *. lia.
  - apply feed_rows_NoDup.
  - intros [p j] (id & Hp & _)%elem_of_feed_rows; [|done]. split; [|done]. cbn in *.
    apply replaced_lookup, elem_of_lookup_imap in Hp as (i & y & [= -> ->] & Hi); [|done].
    apply lookup_lt_Some in Hi. unfold is_i32, i32_min, i32_max in *. lia.
  - eauto using feed_rows_key.
  - etrans; [|exact Hfuel]. by apply replaced_length.
  - exists t. by rewrite Hwalk, replaced_shown.
Qed.

(** Replacing a user's recommendation list and walking it back shows exactly
    the live articles of the list, at their indices and in the list's order, each
    as [GetArticle] shows it; ids of unknown or tombstoned articles are skipped and
    leave a gap, an empty list clears the feed, and what was there before is gone. *)
Theorem recommendation_reads_back u ids page fuel w :
  family_inv (w_db w) → is_Some (users (w_db w) !! u) →
  Z.of_nat (length ids) <= i32_max → (length ids <= fuel)%nat →
  ∃ w1 t, feed_replace u ids env w = (Ok (Z.of_nat (length ids)), w1) ∧
    walk_listing fuel (feed_get u page) [] env w1 =
      (Ok (Some (feed_of (w_db w) ids)), mkWorld (w_db w1) t).
Proof.
  intros Hinv Hu Hlen Hfuel. destruct (feed_replace_quiet u ids w Hu Hlen) as [t1 Hr].
  destruct (replaced_walk u ids page fuel (w_db w) t1 Hinv Hlen Hfuel) as [t Hwalk].
  by eexists _, t.
Qed.
End recommendation.

(** ** The follow feed *)

Section follow_feed.
Context `{DieselLib, ChronoLaws, Base64Laws, SerdeLaws}.
Variables (env : Env) (Hq : quiet env).
Variables (d : Db) (Hinv : family_inv d) (Hok : follows_ok d).

Lemma live_join_id id j : live_join d id = Some j → art_id j.1.1 = id.
Proof. intros Hj. by apply live_join_view in Hj as (? & _). Qed.

Lemma active_edge u a f :
  follows d !! (u, a) = Some f → fol_status f = lit "active" →
  fol_user_id f = u ∧ fol_account_id f = a ∧ ∃ since, edge_at d u a (Following since).
Proof.
  intros Hf Hst. destruct (Hok u a f Hf) as [e He].
  destruct e as [|since|since t]; simplify_eq/=.
  split_and!; [done..|]. by exists since.
Qed.

(** The article of a joined row is the one it was joined for. *)
Lemma joined_article P a j :
  a ∈ rows_where P (articles d) → live_join d (art_id a) = Some j → P a = true ∧ j.1.1 = a.
Proof.
  intros [HP Ha]%article_row (_ & Hart & _)%live_join_view; [|done..]. split; [done|congruence].
Qed.

Lemma elem_of_follow_feed_rows u j :
  j ∈ follow_feed_rows u d ↔
  live_join d (art_id j.1.1) = Some j ∧
  ∃ since, edge_at d u (art_account_id j.1.1) (Following since).
Proof.
  unfold follow_feed_rows. rewrite list_elem_of_bind. setoid_rewrite list_elem_of_omap. split.
  - intros (f & (a & Ha & Hj) & [[Hu Hst]%andb_true_iff [[u' a'] Hf]]%elem_of_rows_where).
    apply bool_decide_eq_true in Hu. apply str_eqb_eq in Hst.
    destruct (active_edge u' a' f Hf Hst) as (<- & <- & since & He).
    destruct (joined_article _ a j Ha Hj) as [Hacc Hja]. apply bool_decide_eq_true in Hacc.
    rewrite Hja. split; [done|]. exists since. by rewrite Hacc, <- Hu.
  - intros [Hj [since He]]. exists (active_row u (art_account_id j.1.1) since).
    setoid_rewrite elem_of_rows_where. split.
    + exists j.1.1. split; [|done]. rewrite bool_decide_eq_true_2 by done. split; [done|].
      apply live_join_view in Hj as (_ & Hart & _); [|done]. by eexists.
    + rewrite andb_true_iff, bool_decide_eq_true. split; [done|]. by eexists.
Qed.

Lemma follow_feed_NoDup u : NoDup (follow_feed_rows u d).
Proof.
  unfold follow_feed_rows. apply NoDup_bind.
  - intros f f' j Hf Hf' (a & Ha & Hj)%list_elem_of_omap (a' & Ha' & Hj')%list_elem_of_omap.
    destruct (joined_article _ a j Ha Hj) as [Hacc Hja].
    destruct (joined_article _ a' j Ha' Hj') as [Hacc' Hja'].
    apply elem_of_rows_where in Hf as ([Hu Hst]%andb_true_iff & [u1 a1] & Hf).
    apply elem_of_rows_where in Hf' as ([Hu' Hst']%andb_true_iff & [u2 a2] & Hf').
    apply bool_decide_eq_true in Hacc, Hacc', Hu, Hu'. apply str_eqb_eq in Hst, Hst'.
    destruct (active_edge _ _ f Hf Hst) as (<- & <- & _).
    destruct (active_edge _ _ f' Hf' Hst') as (<- & <- & _).
    assert (Some f = Some f') as [= ->]; [rewrite <- Hf, <- Hf'; congruence|done].
  - intros f _. apply NoDup_omap_inj.
    + apply (rows_where_NoDup _ _ art_id). intros k r. by apply article_key.
    + intros a a' j Ha Ha' Hj Hj'.
      destruct (joined_article _ a j Ha Hj) as [_ <-].
      by destruct (joined_article _ a' j Ha' Hj') as [_ <-].
  - apply (rows_where_NoDup _ _ (λ f, (fol_user_id f, fol_account_id f))).
    intros [u' a] r Hr. destruct (Hok u' a r Hr) as [e He]. by destruct e; simplify_eq/=.
Qed.

Lemma join_key_inj u j j' :
  j ∈ follow_feed_rows u d → j' ∈ follow_feed_rows u d → join_key j = join_key j' → j = j'.
Proof.
  intros [Hj _]%elem_of_follow_feed_rows [Hj' _]%elem_of_follow_feed_rows [= _ Hid]. congruence.
Qed.

Lemma follow_feed_serves u page :
  serves env d (follow_feed_get u page)
    (λ r, match row_to_follow_feed_item r with Ok b => Some b | Err _ => None end)
    (time_codec (lit "c")) Desc join_key (clamp_page_size page) (follow_feed_rows u d).
Proof.
  apply (keyset_listing_serves env d (time_codec (lit "c")) _ _ _ _ row_to_follow_feed_item
    "get feed_follow"
    (λ cursor, query (λ d, keyset_rows Desc join_key cursor (clamp_page_size page)
                             (follow_feed_rows u d)))); [done|done|].
  intros r [Hj _]%elem_of_follow_feed_rows.
  apply live_join_view in Hj as (_ & _ & Hst & _); [|done].
  unfold row_to_follow_feed_item. by rewrite live_state.
Qed.

Lemma follow_feed_item u j s :
  j ∈ follow_feed_rows u d → row_to_follow_feed_item j = Ok s →
  live_view d (art_id j.1.1) = Some s ∧ as_id s = art_id j.1.1 ∧
  as_created_at s = art_created_at j.1.1 ∧ as_account_id s = art_account_id j.1.1.
Proof.
  intros [Hj _]%elem_of_follow_feed_rows Hs.
  apply live_join_view in Hj as (_ & _ & Hst & _ & Hv); [|done].
  unfold row_to_follow_feed_item in Hs. rewrite live_state in Hs by done.
  injection Hs as <-. by destruct j as [[a l] v].
Qed.

(** Walking a user's follow feed shows exactly the live articles of the
    accounts the user follows at the time, each once and as [GetArticle] shows it, newest
    first; articles of unfollowed accounts and tombstoned articles are absent. *)
Theorem follow_feed_shows_followed u page fuel t0 :
  (length (follow_feed_rows u d) <= fuel)%nat →
  ∃ items t,
    walk_listing fuel (follow_feed_get u page) [] env (mkWorld d t0) = (Ok (Some items), mkWorld d t) ∧
    (∀ s, s ∈ items ↔ live_view d (as_id s) = Some s ∧
       ∃ since, edge_at d u (as_account_id s) (Following since)) ∧
    StronglySorted (λ s s', precedes Desc (as_created_at s, as_id s)
                              (as_created_at s', as_id s') = true) items.
Proof.
  intros Hfuel.
  destruct (walk_listing_all (time_codec (lit "c")) env d (follow_feed_get u page) _ Desc join_key
    (clamp_page_size page) (follow_feed_rows u d) fuel (mkWorld d t0)
    (follow_feed_serves u page)) as [t Hwalk].
  all: try done.
  - pose proof (clamp_page_size_range page). unfold MAX_PAGE_SIZE, i32_max in *. lia.
  - apply follow_feed_NoDup.
  - intros j j'. apply join_key_inj.
  - eexists _, t. split; [exact Hwalk|]. split.
    + intros s. rewrite list_elem_of_omap. setoid_rewrite order_rows_perm. split.
      * intros (j & Hj & Hs). destruct (row_to_follow_feed_item j) as [s'|] eqn:Hs'; simplify_eq.
        destruct (follow_feed_item u j s Hj Hs') as (Hv & Hid & _ & Hacc).
        apply elem_of_follow_feed_rows in Hj as [_ He]. by rewrite Hid, Hacc.
      * intros [Hv He]. apply live_view_join in Hv as (j & Hj & Hs); [|done].
        assert (as_id s = art_id j.1.1 ∧ as_account_id s = art_account_id j.1.1) as [Hid Hacc].
        { rewrite Hs. by destruct j as [[a l] v]. }
        exists j. rewrite elem_of_follow_feed_rows, <- Hid, <- Hacc. split; [done|].
        apply live_join_view in Hj as (_ & _ & Hst & _); [|done].
        unfold row_to_follow_feed_item. rewrite live_state by done. by rewrite Hs.
    + eapply omap_sorted; [|apply (order_rows_strict Desc join_key);
        [apply follow_feed_NoDup|intros j j'; apply join_key_inj]].
      intros j j' s s' Hj Hj' Hlt Hs Hs'. rewrite order_rows_perm in Hj, Hj'.
      destruct (row_to_follow_feed_item j) eqn:E1; [|done].
      destruct (row_to_follow_feed_item j') eqn:E2; [|done]. simplify_eq.
      destruct (follow_feed_item u j s Hj E1) as (_ & -> & -> & _).
      by destruct (follow_feed_item u j' s' Hj' E2) as (_ & -> & -> & _).
Qed.
End follow_feed.

(** ** The account stream *)

(** The summary [GetArticle] shows, and the time of the article's last change in it. *)
Definition summary_view (d : Db) (id : Uuid) : option ArticleSummary :=
  match article_view d id with Ok v => Some (a_summary v) | Err _ => None end.
Definition summary_event_at (s : ArticleSummary) : option DateTime :=
  match as_updated_at s with Some t => Some t | None => as_tombstoned_at s end.
Definition summary_key (s : ArticleSummary) : Key := (default 0 (summary_event_at s), as_id s).

Section account_stream.
Context `{DieselLib, ChronoLaws, Base64Laws, SerdeLaws}.
Variables (env : Env) (Hq : quiet env).
Variables (d : Db) (Hinv : family_inv d).

(** Every row of the join has an event time and shows the article's summary. *)
Lemma stream_join_view a :
  articles d !! art_id a = Some a →
  ∃ t s, event_at (stream_join d a) = Some t ∧ row_to_item (stream_join d a) = Ok s ∧
    summary_view d (art_id a) = Some s ∧ summary_event_at s = Some t ∧
    as_id s = art_id a ∧ as_account_id s = art_account_id a.
Proof.
  intros Ha. unfold summary_view, article_view, event_at, row_to_item, stream_join.
  cbn [sj_article sj_live sj_tombstone sj_version]. rewrite Ha.
  destruct (Hinv (art_id a)) as [(?&_)|(a' & n & Hp)]; [congruence|].
  pose proof Hp as [[Ha' _] Hc Hh Hv Hs]. assert (a' = a) as -> by congruence.
  destruct Hs as [(Hst & Ht & l & Hl & _ & <-)|(Hst & Hl & [t Ht])].
  - rewrite Hl, live_state by done.
    destruct (proj2 (Hh (live_current_version l)) ltac:(lia)) as [v Hver].
    destruct (Hv _ _ Hver) as (_ & Hn & Hred). cbn. rewrite Hver.
    eexists _, _. split_and!; [done|done| |done..]. cbn. f_equal. unfold live_summary.
    rewrite Hn. f_equal. apply bool_decide_ext. by rewrite Hred.
  - rewrite Hl, tombstone_state, Ht by done. eexists _, _. split_and!; done.
Qed.

Lemma stream_timed account_id : untimed account_id d = false.
Proof.
  unfold untimed. apply not_true_iff_false. rewrite existsb_exists.
  intros (r & Hr%list_elem_of_In & Ht%bool_decide_eq_true). unfold stream_rows in Hr.
  apply list_elem_of_fmap in Hr as (a & -> & [_ Ha]%article_row); [|done].
  destruct (stream_join_view a Ha) as (t & s & He & _). congruence.
Qed.

Lemma elem_of_timed_rows account_id r :
  r ∈ timed_rows account_id d ↔
  ∃ a, articles d !! art_id a = Some a ∧ art_account_id a = account_id ∧
    r.2 = stream_join d a ∧ event_at (stream_join d a) = Some r.1.
Proof.
  unfold timed_rows, stream_rows. rewrite list_elem_of_omap. setoid_rewrite list_elem_of_fmap. split.
  - intros (j & (a & -> & [Hacc Ha]%article_row) & Hj); [|done].
    apply bool_decide_eq_true in Hacc. exists a.
    destruct (event_at _); simplify_eq/=. done.
  - intros (a & Ha & Hacc & Hj & He). destruct r as [t j]. cbn in *. subst j.
    exists (stream_join d a). rewrite He. split; [|done]. exists a. split; [done|].
    apply elem_of_rows_where. rewrite bool_decide_eq_true_2 by done. eauto.
Qed.

Lemma timed_key account_id r r' :
  r ∈ timed_rows account_id d → r' ∈ timed_rows account_id d →
  art_id (sj_article r.2) = art_id (sj_article r'.2) → r = r'.
Proof.
  intros (a & Ha & _ & Hj & He)%elem_of_timed_rows (a' & Ha' & _ & Hj' & He')%elem_of_timed_rows.
  rewrite Hj, Hj'. cbn. intros Hid. assert (a = a') as <- by congruence.
  destruct r, r'. cbn in *. congruence.
Qed.

Lemma timed_NoDup account_id : NoDup (timed_rows account_id d).
Proof.
  unfold timed_rows, stream_rows. apply NoDup_omap_inj.
  - apply NoDup_fmap_2_strong.
    + intros a a' _ _ Heq. by injection Heq.
    + apply (rows_where_NoDup _ _ art_id). intros k a. by apply article_key.
  - intros x y z _ _ Hx Hy. destruct (event_at x), (event_at y); by simplify_eq/=.
Qed.

Lemma timed_item account_id r s :
  r ∈ timed_rows account_id d → row_to_item r.2 = Ok s →
  summary_view d (as_id s) = Some s ∧ as_account_id s = account_id ∧ summary_key s = stream_key r.
Proof.
  intros (a & Ha & Hacc & Hj & He)%elem_of_timed_rows Hs. rewrite Hj in Hs.
  destruct (stream_join_view a Ha) as (t & s' & He' & Hs' & Hv & Ht & Hid & Hacc').
  assert (s = s') as -> by congruence. rewrite Hid, Hacc'. split_and!; [done..|].
  unfold summary_key, stream_key. rewrite Ht, Hid, Hj. cbn. f_equal. congruence.
Qed.

Lemma stream_serves account_id page :
  serves env d (account_stream account_id page)
    (λ r, match row_to_item r.2 with Ok b => Some b | Err _ => None end)
    (time_codec (lit "e")) Asc stream_key (clamp_page_size page) (timed_rows account_id d).
Proof.
  apply (keyset_listing_serves env d (time_codec (lit "e")) _ _ _ _ (λ r, row_to_item r.2)
    "stream account_stream"
    (λ cursor, stream_query account_id cursor (clamp_page_size page))); [done| |].
  - intros cursor. unfold stream_query. by rewrite stream_timed.
  - intros r (a & Ha & _ & -> & _)%elem_of_timed_rows.
    by destruct (stream_join_view a Ha) as (t & s & _ & -> & _).
Qed.

(** Walking the stream from a token shows what is after its cursor. *)
Lemma stream_walk account_id page fuel token cursor t0 :
  (length (timed_rows account_id d) <= fuel)%nat →
  page_cursor (lit "e") token = Ok cursor →
  ∃ items t,
    walk_listing fuel (account_stream account_id page) token env (mkWorld d t0) =
      (Ok (Some items), mkWorld d t) ∧
    (∀ s, s ∈ items ↔ summary_view d (as_id s) = Some s ∧ as_account_id s = account_id ∧
       after_cursor Asc summary_key cursor s = true) ∧
    StronglySorted (λ s s', precedes Asc (summary_key s) (summary_key s') = true) items.
Proof.
  intros Hfuel Htok.
  destruct (walk_listing_from (time_codec (lit "e")) env d (account_stream account_id page) _ Asc
    stream_key (clamp_page_size page) (timed_rows account_id d) fuel token cursor (mkWorld d t0)
    (stream_serves account_id page)) as [t Hwalk]; try done.
  - pose proof (clamp_page_size_range page). unfold MAX_PAGE_SIZE, i32_max in *. lia.
  - apply timed_NoDup.
  - intros r r' Hr Hr' [= _ Hid]. by apply (timed_key account_id).
  - eexists _, t. split; [exact Hwalk|].
    assert (Hshow : ∀ r s, r ∈ timed_rows account_id d →
              match row_to_item r.2 with Ok b => Some b | Err _ => None end = Some s →
              summary_view d (as_id s) = Some s ∧ as_account_id s = account_id ∧
              summary_key s = stream_key r).
    { intros r s Hr Hs. destruct (row_to_item r.2) as [s'|] eqn:E; simplify_eq.
      by apply (timed_item account_id r). }
    split.
    + intros s. rewrite list_elem_of_omap. setoid_rewrite list_elem_of_filter.
      setoid_rewrite order_rows_perm. split.
      * intros (r & [Hc Hr] & Hs). destruct (Hshow r s Hr Hs) as (Hv & Hacc & Hk).
        split_and!; [done..|]. destruct cursor; [|done]. simpl in *. by rewrite Hk.
      * intros (Hv & Hacc & Hc).
        assert (∃ a, articles d !! as_id s = Some a) as [a Ha].
        { unfold summary_view, article_view in Hv. destruct (articles d !! as_id s); [by eexists|done]. }
        pose proof (article_key d Hinv _ _ Ha) as Hid. rewrite <- Hid in Ha.
        destruct (stream_join_view a Ha) as (te & s' & He & Hs' & Hv' & _ & _ & Hacc').
        assert (s' = s) as -> by congruence.
        assert (Hr : (te, stream_join d a) ∈ timed_rows account_id d).
        { apply elem_of_timed_rows. exists a. split_and!; [done|congruence|done|done]. }
        exists (te, stream_join d a). cbn. rewrite Hs'. split; [split; [|done]|done].
        destruct (Hshow _ s Hr ltac:(cbn; by rewrite Hs')) as (_ & _ & Hk).
        destruct cursor; [|done]. simpl in *. by rewrite <- Hk.
    + eapply omap_sorted; [|apply StronglySorted_filter, (order_rows_strict Asc stream_key);
        [apply timed_NoDup|intros r r' Hr Hr' [= _ Hid]; by apply (timed_key account_id)]].
      intros r r' s s' Hr Hr' Hlt Hs Hs'.
      apply list_elem_of_filter in Hr as [_ Hr]. apply list_elem_of_filter in Hr' as [_ Hr'].
      rewrite order_rows_perm in Hr, Hr'.
      destruct (Hshow r s Hr Hs) as (_ & _ & ->). by destruct (Hshow r' s' Hr' Hs') as (_ & _ & ->).
Qed.
End account_stream.

(** ** The republisher: a mirror kept by following the stream *)

(** What changes of an article's summary carries the time of the change. *)
Lemma summary_view_frame d d' id :
  articles d' !! id = articles d !! id → articles_live d' !! id = articles_live d !! id →
  articles_tombstone d' !! id = articles_tombstone d !! id →
  (∀ l, articles_live d !! id = Some l →
     article_versions d' !! (id, live_current_version l) =
     article_versions d !! (id, live_current_version l)) →
  summary_view d' id = summary_view d id.
Proof.
  intros Ha Hl Ht Hv. unfold summary_view, article_view. rewrite Ha, Hl, Ht.
  destruct (articles d !! id) as [a|]; [|done].
  destruct (articles_live d !! id) as [l|]; [|done]. by rewrite Hv.
Qed.

Lemma summary_view_event d id s :
  summary_view d id = Some s →
  summary_event_at s =
  match articles_live d !! id with
  | Some l => Some (live_updated_at l)
  | None => tomb_tombstoned_at <$> articles_tombstone d !! id
  end.
Proof.
  unfold summary_view, article_view. intros Hs. repeat case_match; by simplify_eq/=.
Qed.

Section moves.
Context `{DieselLib, ChronoLib, Base64Lib, SerdeLib}.

(** Between two databases: what an article shows is as before or changed at a time that is
    [ok], and no article is lost or changes hands. *)
Record moves (ok : DateTime → Prop) (d d' : Db) : Prop := {
  mv_summaries : ∀ id s, summary_view d' id = Some s →
    summary_view d id = Some s ∨ ∃ t, summary_event_at s = Some t ∧ ok t;
  mv_articles : ∀ id a, articles d !! id = Some a →
    ∃ a', articles d' !! id = Some a' ∧ art_account_id a' = art_account_id a;
}.
Lemma moves_refl ok d : moves ok d d.
Proof. split; [by left|eauto]. Qed.
Lemma moves_weaken (ok ok' : DateTime → Prop) d d' : (∀ t, ok t → ok' t) → moves ok d d' → moves ok' d d'.
Proof. intros Hok [Hs Ha]. split; [|done]. intros id s [?|(t & ? & ?)]%Hs; [by left|right; eauto]. Qed.

(** A change of one article. *)
Lemma moves_at now d d' i :
  (∀ s, summary_view d' i = Some s → summary_view d i = Some s ∨ summary_event_at s = Some now) →
  (∀ a, articles d !! i = Some a →
     ∃ a', articles d' !! i = Some a' ∧ art_account_id a' = art_account_id a) →
  (∀ id, id ≠ i → articles d' !! id = articles d !! id ∧ articles_live d' !! id = articles_live d !! id ∧
     articles_tombstone d' !! id = articles_tombstone d !! id ∧
     ∀ v, article_versions d' !! (id, v) = article_versions d !! (id, v)) →
  moves (λ t, t = now) d d'.
Proof.
  intros Hi Ha Hne. split.
  - intros id s Hs. destruct (decide (id = i)) as [->|Hid].
    + destruct (Hi s Hs); [by left|right; eauto].
    + left. destruct (Hne id Hid) as (? & ? & ? & Hv). by rewrite <- (summary_view_frame d d').
  - intros id a. destruct (decide (id = i)) as [->|Hid]; [apply Ha|].
    destruct (Hne id Hid) as (-> & _). eauto.
Qed.

Lemma published_moves new now d :
  articles d !! na_id new = None → moves (λ t, t = now) d (published new now d).
Proof.
  intros Hn. apply (moves_at now _ _ (na_id new)).
  - intros s Hs. right. rewrite (summary_view_event _ _ _ Hs). cbn. by rewrite lookup_insert_eq.
  - intros a. by rewrite Hn.
  - intros id Hid. cbn. rewrite !lookup_insert_ne by done. split_and!; [done..|]. intros v.
    by rewrite lookup_insert_ne by congruence.
Qed.
Lemma edited_moves id row now d a l :
  articles d !! id = Some a → articles_live d !! id = Some l →
  moves (λ t, t = now) d (edited id row now d).
Proof.
  intros Ha Hl. apply (moves_at now _ _ id).
  - intros s Hs. right. rewrite (summary_view_event _ _ _ Hs). cbn. by rewrite lookup_alter_eq, Hl.
  - intros a' Ha'. exists a'. by split.
  - intros i Hi. cbn. rewrite lookup_alter_ne by done. split_and!; [done..|]. intros v.
    by rewrite lookup_insert_ne by congruence.
Qed.
Lemma tombstoned_moves id reason now d a :
  articles d !! id = Some a → moves (λ t, t = now) d (tombstoned id reason now d).
Proof.
  intros Ha. apply (moves_at now _ _ id).
  - intros s Hs. right. rewrite (summary_view_event _ _ _ Hs). cbn.
    by rewrite lookup_delete_eq, lookup_insert_eq.
  - intros a' Ha'. cbn. rewrite lookup_alter_eq, Ha'. by eexists.
  - intros i Hi. cbn. by rewrite lookup_alter_ne, lookup_delete_ne, lookup_insert_ne by done.
Qed.
Lemma redacted_moves id v reason now d a row :
  family_inv d → articles d !! id = Some a → article_versions d !! (id, v) = Some row →
  moves (λ t, t = now) d
    (redacted id v reason now
       (str_eqb (art_state a) (lit "live")
        && bool_decide (live_current_version <$> articles_live d !! id = Some v)) d).
Proof.
  intros Hinv Ha Hrow. set (bump := _ && _).
  assert (Hbump : live_current_version <$> articles_live d !! id = Some v → bump = true).
  { intros Hv. unfold bump. rewrite bool_decide_eq_true_2, andb_true_r by done.
    destruct (articles_live d !! id) as [l|] eqn:Hl; [|done].
    destruct (Hinv id) as [(? & _)|(a' & n & [[Ha' _] _ _ _ Hs])]; [congruence|].
    destruct Hs as [(Hst & _)|(_ & ? & _)]; [|congruence].
    apply str_eqb_eq. congruence. }
  assert (Hframe : articles (redacted id v reason now bump d) = articles d) by by destruct bump.
  apply (moves_at now _ _ id).
  - intros s Hs. destruct bump eqn:Hb.
    + right. rewrite (summary_view_event _ _ _ Hs). unfold bump in Hb.
      apply andb_true_iff in Hb as [_ Hb%bool_decide_eq_true]. cbn. rewrite lookup_alter_eq.
      by destruct (articles_live d !! id).
    + left. rewrite <- Hs. symmetry. apply summary_view_frame; [done..|]. intros l Hl. cbn.
      rewrite lookup_alter_ne; [done|]. intros [= ->]. rewrite Hl in Hbump. by specialize (Hbump eq_refl).
  - intros a' Ha'. rewrite Hframe. eauto.
  - intros i Hi. rewrite Hframe, redacted_versions.
    split_and!; [done|by destruct bump; cbn; rewrite ?lookup_alter_ne by done|by destruct bump|].
    intros v'. by rewrite lookup_alter_ne by congruence.
Qed.

(** Whatever fails in an operation, the database changes as one of the four changes made
    at a reading of its clock does, or not at all. *)
Lemma stamped_keeps {A} (P : Db → Prop) (body : DateTime → M HeadlinesError A) env w :
  (∀ n d, P d → P (others env n d)) → (∀ n, preserves P (body (now_at env n))) →
  P (w_db w) → P (w_db ((get_conn;; now ← utc_now; body now) env w).2).
Proof.
  intros Ho Hbody HP. rewrite bind_run. unfold get_conn. destruct (fault env (w_tick w)); [done|].
  rewrite bind_now. by apply Hbody.
Qed.
Lemma map_keeps {A B} (P : Db → Prop) (m : M HeadlinesError A) (f : A → B) env w :
  P (w_db (m env w).2) → P (w_db ((a ← m; mret (f a)) env w).2).
Proof. intros HP. rewrite bind_run. by destruct (m env w) as [[a|e] w']. Qed.

Lemma article_op_moves (P : Db → Prop) op env w :
  (∀ d, P d → family_inv d) → (∀ n d, P d → P (others env n d)) →
  (∀ n d d', P d → article_change d d' → moves (λ t, t = now_at env n) d d' → P d') →
  P (w_db w) → P (w_db (article_op op env w).2).
Proof.
  intros Hinv Ho Hmove HP.
  assert (Hget : ∀ id, preserves P (article_get id)) by apply article_get_preserves.
  destruct op as [new|i|acc all size token|i edit|i reason|i v reason]; unfold article_op.
  2:{ by apply map_keeps, Hget. }
  2:{ pose proof (article_list_preserves P acc all size token env w Ho HP) as Hl. rewrite bind_run.
      by destruct (article_list_by_account _ _ _ _ _ _) as [[[items next]|e] w']. }
  all: apply map_keeps; first
    [unfold article_publish|unfold article_edit|unfold article_tombstone|unfold article_redact_version];
    apply (stamped_keeps P); [done| |done]; intros n; try (apply preserves_bind; [|intros; apply Hget]);
    apply preserves_tx; intros env' w0 [] w' Hd Hr.
  - apply publish_tx_ok in Hr as [Hn ->]. eapply Hmove; [done| |by apply published_moves].
    by apply change_publish; [apply new_rows_fresh|].
  - apply edit_tx_ok in Hr as (a & l & cur & ? & ? & ? & ? & ? & ? & ->).
    eapply Hmove; [done|by eapply change_edit|by eapply edited_moves].
  - apply tombstone_tx_ok in Hr as (a & ? & ? & ->).
    eapply Hmove; [done|by eapply change_tombstone|by eapply tombstoned_moves].
  - apply redact_tx_ok in Hr as (a & row & ? & ? & ? & ->).
    eapply Hmove; [done|by eapply change_redact|by eapply redacted_moves; [apply Hinv| |]].
Qed.
End moves.

Section mirror.
Context `{DieselLib, ChronoLaws, Base64Laws, SerdeLaws}.

(** A mirror of an account: the latest emitted summary per article. *)
Abbreviation Mirror := (gmap Uuid ArticleSummary).
Definition consume (items : list ArticleSummary) (m : Mirror) : Mirror :=
  foldl (λ m s, <[as_id s := s]> m) m items.
(** What it should be: the account's articles, as [GetArticle] shows them. *)
Definition account_articles (d : Db) (account_id : Uuid) : Mirror :=
  map_imap (λ id a, if bool_decide (art_account_id a = account_id) then summary_view d id else None)
    (articles d).

(** The mirror has what is not after the cursor, and only the account's articles. *)
Record synced (d : Db) (account_id : Uuid) (cursor : option Key) (m : Mirror) : Prop := {
  sy_seen : ∀ s, summary_view d (as_id s) = Some s → as_account_id s = account_id →
    after_cursor Asc summary_key cursor s = false → m !! as_id s = Some s;
  sy_only : ∀ id, is_Some (m !! id) →
    ∃ a, articles d !! id = Some a ∧ art_account_id a = account_id;
}.

(** A session of article operations, each in its own environment. *)
Definition run_ops (ops : list (Env * ArticleOp)) (w : World) : World :=
  foldl (λ w '(env, op), (article_op op env w).2) w ops.
(** What an operation finds is stamped later than the cursor: the clock it reads, and what
    other requests change meanwhile. *)
Definition later (cursor : option Key) (t : DateTime) : Prop := ∀ k, cursor = Some k → k.1 < t.
Record timely (cursor : option Key) (env : Env) : Prop := {
  ti_clock : ∀ n, later cursor (now_at env n);
  ti_others : ∀ n d, family_inv d →
    family_inv (others env n d) ∧ moves (later cursor) d (others env n d);
}.

Lemma synced_moves d d' account_id cursor m :
  moves (later cursor) d d' → synced d account_id cursor m → synced d' account_id cursor m.
Proof.
  intros [Hsum Hart] [Hs Ho]. split.
  - intros s Hv Hacc Hc. destruct (Hsum _ s Hv) as [Hold|(t & Ht & Hlater)]; [by apply Hs|].
    destruct cursor as [k|]; [|done]. specialize (Hlater k eq_refl). simpl in Hc.
    apply not_true_iff_false in Hc. destruct Hc. apply key_ltb_spec. left.
    unfold summary_key. by rewrite Ht.
  - intros id (a & Ha & <-)%Ho. destruct (Hart id a Ha) as (a' & ? & ?). by exists a'.
Qed.
Lemma run_ops_synced account_id cursor m ops w :
  Forall (λ p, timely cursor p.1) ops →
  family_inv (w_db w) → synced (w_db w) account_id cursor m →
  family_inv (w_db (run_ops ops w)) ∧ synced (w_db (run_ops ops w)) account_id cursor m.
Proof.
  intros Hops. unfold run_ops. revert w.
  induction Hops as [|[env op] ops [Hclock Hothers] _ IH]; intros w Hinv Hs; [done|]. cbn [foldl].
  set (P := λ d, family_inv d ∧ synced d account_id cursor m).
  destruct (article_op_moves P op env w) as [Hinv' Hs']; [by intros d [? _]| | |done|by apply IH].
  - intros n d [Hd Hsd]. destruct (Hothers n d Hd). split; [done|by eapply synced_moves].
  - intros n d d' [Hd Hsd] Hch Hm. split; [by eapply change_family|].
    eapply synced_moves, Hsd. eapply moves_weaken, Hm. intros t ->. apply Hclock.
Qed.

Lemma consume_other items m id : id ∉ as_id <$> items → consume items m !! id = m !! id.
Proof.
  unfold consume. revert m. induction items as [|x items IH]; intros m Hid; [done|]. simpl in *.
  rewrite IH by set_solver. apply lookup_insert_ne. set_solver.
Qed.
Lemma consume_lookup items m s :
  NoDup (as_id <$> items) → s ∈ items → consume items m !! as_id s = Some s.
Proof.
  revert m. induction items as [|x items IH]; intros m Hnd Hs; [set_solver|].
  rewrite fmap_cons in Hnd. apply NoDup_cons in Hnd as [Hx Hnd].
  change (consume (x :: items) m) with (consume items (<[as_id x := x]> m)).
  apply elem_of_cons in Hs as [->|Hs]; [|by apply IH].
  rewrite consume_other by done. apply lookup_insert_eq.
Qed.

(** Every article of the account shows a summary under its id. *)
Lemma account_article d account_id id a :
  family_inv d → articles d !! id = Some a → art_account_id a = account_id →
  ∃ s, as_id s = id ∧ summary_view d id = Some s ∧ as_account_id s = account_id.
Proof.
  intros Hinv Ha <-. pose proof (article_key d Hinv _ _ Ha) as <-.
  destruct (stream_join_view d Hinv a Ha) as (te & s & _ & _ & Hv & _ & Hid & Hacc). by exists s.
Qed.
Lemma account_articles_lookup d account_id id s :
  family_inv d →
  account_articles d account_id !! id = Some s ↔
  as_id s = id ∧ summary_view d id = Some s ∧ as_account_id s = account_id.
Proof.
  intros Hinv. unfold account_articles. rewrite map_lookup_imap.
  destruct (articles d !! id) as [a|] eqn:Ha; cbn.
  - destruct (account_article d _ id a Hinv Ha eq_refl) as (s' & Hid & Hv & Hacc). rewrite Hv.
    case_bool_decide; (split; [|intros (? & ? & ?)]; [intros ?|]; simplify_eq; done).
  - split; [done|]. intros (_ & Hv & _). unfold summary_view, article_view in Hv. by rewrite Ha in Hv.
Qed.

(** Such a mirror is a start for the next round, whatever its cursor. *)
Lemma account_articles_synced d account_id cursor :
  family_inv d → synced d account_id cursor (account_articles d account_id).
Proof.
  intros Hinv. split.
  - intros s Hv Hacc _. by apply account_articles_lookup.
  - intros id [s Hs]. unfold account_articles in Hs. rewrite map_lookup_imap in Hs.
    apply bind_Some in Hs as (a & Ha & Hs). exists a. by case_bool_decide.
Qed.

(** C18. A republisher never misses a change: take a mirror of an account that has everything
    up to its cursor, and any session of publications, edits, tombstones and redactions, in
    which any statement may fail and other requests may intervene, as long as what they change
    is stamped later than the cursor. Once the database answers and rests, following the stream's tokens
    from the cursor ends, and leaves the mirror equal to the account's articles, each as
    [GetArticle] shows it: none missing, none stale and none else. *)
Theorem republisher_catches_up env account_id page ops token cursor m fuel w :
  quiet env → family_inv (w_db w) → page_cursor (lit "e") token = Ok cursor →
  synced (w_db w) account_id cursor m →
  Forall (λ p, timely cursor p.1) ops →
  let w1 := run_ops ops w in
  (length (timed_rows account_id (w_db w1)) <= fuel)%nat →
  ∃ items t,
    walk_listing fuel (account_stream account_id page) token env w1 =
      (Ok (Some items), mkWorld (w_db w1) t) ∧
    consume items m = account_articles (w_db w1) account_id.
Proof.
  intros Hq Hinv Htok Hs Hops w1 Hfuel.
  destruct (run_ops_synced account_id cursor m ops w Hops Hinv Hs) as [Hinv1 [Hs1 Ho1]].
  fold w1 in Hinv1, Hs1, Ho1.
  destruct (stream_walk env Hq (w_db w1) Hinv1 account_id page fuel token cursor (w_tick w1) Hfuel Htok)
    as (items & t & Hwalk & Hin & Hsorted).
  exists items, t. split; [by rewrite <- Hwalk; destruct w1|].
  assert (Hnd : NoDup (as_id <$> items)).
  { apply NoDup_fmap_2_strong; [|by apply (strict_NoDup Asc summary_key)].
    intros x y Hx%Hin Hy%Hin Hid. destruct Hx as [Hx _], Hy as [Hy _]. congruence. }
  assert (Hall : ∀ s, summary_view (w_db w1) (as_id s) = Some s → as_account_id s = account_id →
            consume items m !! as_id s = Some s).
  { intros s Hv Hacc. destruct (after_cursor Asc summary_key cursor s) eqn:Hc.
    - apply consume_lookup; [done|]. by apply Hin.
    - rewrite consume_other; [by apply Hs1|]. intros (x & Hid & Hx)%list_elem_of_fmap.
      apply Hin in Hx as (Hvx & _ & Hcx). assert (x = s) as -> by congruence. congruence. }
  assert (Hown : ∀ id, is_Some (consume items m !! id) →
            ∃ s, as_id s = id ∧ summary_view (w_db w1) id = Some s ∧ as_account_id s = account_id).
  { intros id Hm. destruct (decide (id ∈ as_id <$> items)) as [(x & -> & Hx)%list_elem_of_fmap|Hid].
    - apply Hin in Hx as (Hv & Hacc & _). by exists x.
    - rewrite consume_other in Hm by done. destruct (Ho1 id Hm) as (a & Ha & Hacc).
      by apply (account_article _ _ _ a). }
  apply map_eq. intros id. apply option_eq. intros s. rewrite account_articles_lookup by done. split.
  - intros Hm. destruct (Hown id ltac:(by eexists)) as (s' & <- & Hv & Hacc).
    rewrite (Hall s') in Hm by done. by injection Hm as <-.
  - intros (<- & Hv & Hacc). by apply Hall.
Qed.
End mirror.

(** ** Whatever fails *)

Section failures.
Context `{DieselLib, ChronoLib, Base64Lib, SerdeLib}.

(** The transaction, when it commits. *)
Lemma replace_tx_ok u ids env w w' :
  Z.of_nat (length ids) <= i32_max →
  replace_tx u ids (isolated env) w = (Ok (), w') →
  w_db w' = replaced u ids (w_db w) ∧ (ids ≠ [] → is_Some (users (w_db w) !! u)).
Proof.
  intros Hlen Hr. unfold replace_tx, insert_feed_rows in Hr.
  apply bind_ok in Hr as (a & w1 & Hd%tx_execute_ok & Hr). case_bool_decide as Hids.
  - unfold mret, M_ret in Hr. injection Hr as <-. rewrite Hd. subst ids. split; [|done].
    unfold replaced, delete_feed. cbn. by rewrite (left_id_L ∅ (∪)).
  - apply tx_insert_ok in Hr as [-> Hv]. rewrite Hd in *. split; [done|]. intros _.
    apply Forall_cons in Hv as [_ [Hu _]%Forall_cons]. cbn in Hu.
    by apply negb_false_iff, present_true in Hu.
Qed.

(** Replacing a recommendation list is all or nothing, whatever statement,
    BEGIN or COMMIT fails: the database is unchanged and an error is reported, or the
    user's list is the new one, every other list is as before, and a successful reply
    counts its entries. *)
Theorem feed_replace_atomic u ids env w :
  (∀ n d, others env n d = d) → Z.of_nat (length ids) <= i32_max →
  let (r, w') := feed_replace u ids env w in
  (w_db w' = w_db w ∧ ∃ e, r = Err e) ∨
  (w_db w' = replaced u ids (w_db w) ∧
   (∀ p id, feed_recommendation (w_db w') !! (u, p) = Some id ↔ (p, id) ∈ indexed ids) ∧
   (∀ u' p, u' ≠ u →
      feed_recommendation (w_db w') !! (u', p) = feed_recommendation (w_db w) !! (u', p)) ∧
   (∀ n, r = Ok n → n = Z.of_nat (length ids))).
Proof.
  intros Ho Hlen. unfold feed_replace. rewrite bind_run. unfold get_conn.
  destruct (fault env (w_tick w)) as [?|]; [by left; eauto|]. rewrite bind_run.
  match goal with |- context [tx ?b env ?w1] =>
    pose proof (tx_all_or_nothing b env w1 Ho) as Htx; destruct (tx b env w1) as [r w2] end.
  destruct Htx as [[Hdb [e ->]]|([] & w3 & [Hb _]%replace_tx_ok & Hdb & Hr)]; [by left; eauto| |done].
  cbn [w_db tick] in *.
  assert (w_db w2 = replaced u ids (w_db w)) as Hdb2 by congruence.
  rewrite as_i32_id by (unfold is_i32, i32_min, i32_max in *; lia).
  assert (∀ p id, feed_recommendation (w_db w2) !! (u, p) = Some id ↔ (p, id) ∈ indexed ids) as Hl.
  { intros p id. rewrite Hdb2. by apply replaced_lookup. }
  assert (∀ u' p, u' ≠ u →
    feed_recommendation (w_db w2) !! (u', p) = feed_recommendation (w_db w) !! (u', p)) as Hother.
  { intros u' p Hne. rewrite Hdb2. unfold replaced. cbn. rewrite lookup_union_r.
    - apply option_eq. intros x. rewrite map_lookup_filter_Some. cbn. naive_solver.
    - apply not_elem_of_list_to_map_1. intros (r' & Hk & Hin)%list_elem_of_fmap.
      apply new_feed_rows_elem in Hin as [Hu _]; [|done]. rewrite <- Hk in Hu. cbn in Hu. done. }
  destruct r as [[]|e]; right; (split_and!; [done..|]); [by intros n [= <-]|by intros n].
Qed.
End failures.

(** ** Examples *)

Section witnesses.
#[local] Existing Instances toy_diesel toy_chrono toy_base64 toy_serde
  toy_chrono_laws toy_base64_laws toy_serde_laws.

(** User 2 follows account 1, which has published article 7. *)
Definition toy_feed : Db :=
  set_follows (<[(2%N, 1%N) := active_row 2%N 1%N 5]> ∅)
    (set_users (<[2%N := toy_user 2%N]> ∅) toy_published).

Lemma toy_feed_family : family_inv toy_feed.
Proof. intros id. apply (family_ok_frame toy_published); done || apply toy_published_family. Qed.
Lemma toy_feed_user : is_Some (users toy_feed !! 2%N).
Proof. eexists. apply lookup_insert_eq. Qed.
Lemma toy_feed_follows : follows_ok toy_feed.
Proof. exact toy_followed_ok. Qed.

Lemma recommendation_reads_back_witness :
  ∃ w1 t, feed_replace 2%N [8%N; 7%N] toy_env (mkWorld toy_feed 0) = (Ok 2, w1) ∧
    walk_listing 2 (feed_get 2%N 10) [] toy_env w1 =
      (Ok (Some (feed_of toy_feed [8%N; 7%N])), mkWorld (w_db w1) t).
Proof.
  apply (recommendation_reads_back toy_env toy_env_quiet 2%N [8%N; 7%N] 10 2 (mkWorld toy_feed 0)
           toy_feed_family toy_feed_user); [by vm_compute|simpl; lia].
Defined.

Lemma follow_feed_shows_followed_witness :
  ∃ items t,
    walk_listing 1 (follow_feed_get 2%N 10) [] toy_env (mkWorld toy_feed 0) =
      (Ok (Some items), mkWorld toy_feed t) ∧
    ∀ s, s ∈ items ↔ live_view toy_feed (as_id s) = Some s ∧
      ∃ since, edge_at toy_feed 2%N (as_account_id s) (Following since).
Proof.
  destruct (follow_feed_shows_followed toy_env toy_env_quiet toy_feed toy_feed_family toy_feed_follows 2%N 10 1 0)
    as (items & t & Hw & Hin & _).
  { vm_compute. lia. }
  by exists items, t.
Defined.

(** A mirror that is up to date at article 7's publication; then the article is edited, and a
    redaction of its first version fails half way. *)
Definition broken_env : Env :=
  {| fault := λ n, if (n =? 16)%nat then Some (lit "gone", false) else None;
     now_at := λ n, 1000 * Z.of_nat n + 1000; fresh_at := λ _, 0%N; others := λ _ d, d |}.
Definition busy_session : list (Env * ArticleOp) :=
  [(broken_env, OpEdit 7%N toy_edit); (broken_env, OpRedact 7%N 1 (lit "typo"))].
Lemma republisher_catches_up_witness :
  let w1 := run_ops busy_session (mkWorld toy_feed 0) in
  ∃ items t,
    walk_listing 1 (account_stream 1%N 10) (encode_cursor (lit "e") (5, 7%N)) toy_env w1 =
      (Ok (Some items), mkWorld (w_db w1) t) ∧
    consume items (account_articles toy_feed 1%N) = account_articles (w_db w1) 1%N ∧
    account_articles (w_db w1) 1%N ≠ account_articles toy_feed 1%N.
Proof.
  intros w1.
  destruct (republisher_catches_up toy_env 1%N 10 busy_session (encode_cursor (lit "e") (5, 7%N))
    (Some (5, 7%N)) (account_articles toy_feed 1%N) 1 (mkWorld toy_feed 0) toy_env_quiet
    toy_feed_family ltac:(by vm_compute)) as (items & t & Hwalk & Hm).
  - apply account_articles_synced, toy_feed_family.
  - assert (Ht : timely (Some (5, 7%N)) broken_env).
    { split.
      - intros n k [= <-]. cbn. lia.
      - intros n d Hd. split; [exact Hd|apply moves_refl]. }
    repeat (constructor; [exact Ht|]). constructor.
  - vm_compute. lia.
  - exists items, t. split; [exact Hwalk|]. split; [exact Hm|].
    intros Heq%(f_equal (lookup 7%N)). vm_compute in Heq. discriminate Heq.
Defined.

Lemma feed_replace_atomic_witness :
  let (r, w') := feed_replace 2%N [7%N] toy_env (mkWorld toy_feed 0) in
  (w_db w' = toy_feed ∧ ∃ e, r = Err e) ∨ w_db w' = replaced 2%N [7%N] toy_feed.
Proof.
  pose proof (feed_replace_atomic 2%N [7%N] toy_env (mkWorld toy_feed 0) (λ _ _, eq_refl)
    ltac:(by vm_compute)) as Hr.
  destruct (feed_replace _ _ _ _) as [r w']. destruct Hr as [?|[? _]]; [by left|by right].
Defined.

(** A change stamped before the cursor but committed after it was read is not in the
    stream: article 8 is published with the clock reading 5 while the republisher is
    already past time 7. *)
Definition late_env : Env :=
  {| fault := λ _, None; now_at := λ _, 5; fresh_at := λ _, 0%N; others := λ _ d, d |}.
Definition late_article : NewArticle :=
  {| na_id := 8%N; na_account_id := 1%N; na_title := lit "Late"; na_author_name := [];
     na_author_url := []; na_content := JArray [] |}.
Lemma late_commit_is_missed :
  let w := mkWorld (published toy_article 7 toy_db) 0 in
  let w1 := run_ops [(late_env, OpPublish late_article)] w in
  (account_stream 1%N 10 (encode_cursor (lit "e") (7, 7%N)) late_env w1).1 = Ok ([], []) ∧
  is_Some (summary_view (w_db w1) 8%N).
Proof. split; [vm_compute; reflexivity|eexists; vm_compute; reflexivity]. Qed.
End witnesses.
