(* ===== verification/Events.v ===== *)
(** * The event log ([headlines-store/src/repo/events.rs],
    [headlines-core/src/repo/events.rs])

    An append-only table: single and batch inserts that stamp the reception time, and
    a filtered listing in reception order. *)

From S2P Require Import Prelude Libs Instances Errors Db Paging.

(** ** Domain types *)

(** [Event] has the columns of its row, so the row stands for it. *)
Abbreviation Event := EventRow (only parsing).
Record EventRecord := {
  er_user_id : Uuid;
  er_article_id : option Uuid;
  er_type : str;
  er_occurred_at : DateTime;
  er_surface : str;
  er_properties : Json;
}.
Record ListEventsFilter := {
  lf_user_id : option Uuid;
  lf_article_id : option Uuid;
  lf_types : list str;
  lf_received_after : option DateTime;
  lf_received_before : option DateTime;
}.

(** The row an [InsertEvent] makes, as [RETURNING] shows it: its times are those the columns
    keep. *)
Definition new_event `{DieselLib} (id : Uuid) (received_at : DateTime) (r : EventRecord) : EventRow :=
  mkEvent id (er_user_id r) (er_article_id r) (er_type r) (timestamptz (er_occurred_at r))
    (timestamptz received_at) (er_surface r) (er_properties r).

(** The multi-row [INSERT]: one statement, so all rows or none. *)
Definition event_types : list str :=
  lit <$> ["IMPRESSION"%string; "OPEN"%string; "DWELL"%string; "LIKE"%string;
           "UNLIKE"%string; "SHARE"%string].
Fixpoint batch_violations (d : Db) (seen : list Uuid) (rows : list EventRow) :
    list (bool * DieselError) :=
  match rows with
  | [] => []
  | r :: rows =>
    (negb (str_mem (ev_type r) event_types), DCheck (lit "events")) ::
    (present (events d) (ev_id r) || bool_decide (ev_id r ∈ seen), DUnique (lit "events")) ::
    batch_violations d (ev_id r :: seen) rows
  end.
Definition add_events (rows : list EventRow) (d : Db) : Db :=
  set_events (list_to_map ((λ r, (ev_id r, r)) <$> rows) ∪ events d) d.
Definition insert_events (rows : list EventRow) : Stmt () :=
  insert_stmt (λ d, batch_violations d [] rows) (add_events rows).

(** [WHERE]: the filters that are present, AND-combined; times are bound as the columns'. *)
Definition optional_filter {A} (o : option A) (P : A → bool) : bool :=
  match o with Some a => P a | None => true end.
Definition event_matches `{DieselLib} (f : ListEventsFilter) (r : EventRow) : bool :=
  optional_filter (lf_user_id f) (λ u, bool_decide (ev_user_id r = u)) &&
  optional_filter (lf_article_id f) (λ a, bool_decide (ev_article_id r = Some a)) &&
  (bool_decide (lf_types f = []) || str_mem (ev_type r) (lf_types f)) &&
  optional_filter (lf_received_after f) (λ t, timestamptz t <=? ev_received_at r) &&
  optional_filter (lf_received_before f) (λ t, ev_received_at r <? timestamptz t).
Definition event_key (r : EventRow) : Key := (ev_received_at r, ev_id r).
Definition matching_events `{DieselLib} (f : ListEventsFilter) (d : Db) : list EventRow :=
  rows_where (event_matches f) (events d).

Section repo.
Context `{DieselLib, ChronoLib, Base64Lib, SerdeLib}.

(** [record] *)
Definition event_record (record : EventRecord) : M HeadlinesError Event :=
  get_conn;;
  id ← new_uuid;
  received_at ← utc_now;
  let row := new_event id received_at record in
  run "insert event" (returning (insert_event row) (λ _, row)).

(** [record_batch] *)
Definition event_record_batch (records : list EventRecord) : M HeadlinesError (list Event) :=
  if bool_decide (records = []) then mret []
  else
    get_conn;;
    now ← utc_now;
    ids ← mapM_ (λ _, new_uuid) records;
    let inserts := zip_with (λ r id, new_event id now r) records ids in
    run "insert event batch" (returning (insert_events inserts) (λ _, inserts)).

(** [list] *)
Definition event_list (filter : ListEventsFilter) (page_size : Z) (page_token : PageToken) :
    M HeadlinesError (list Event * PageToken) :=
  let limit := clamp_page_size page_size in
  cursor ← lift (page_cursor (lit "r") page_token);
  get_conn;;
  rows ← run "list events"
    (query (λ d, keyset_rows Asc event_key cursor limit (matching_events filter d)));
  let '(rows, next) := cut_page event_key limit rows in
  mret (rows, next_token (lit "r") next).
End repo.

(** ** The log only grows *)

Lemma batch_violations_none d seen rows :
  Forall (λ v, v.1 = false) (batch_violations d seen rows) →
  NoDup (ev_id <$> rows) ∧
  ∀ r, r ∈ rows → ev_type r ∈ event_types ∧ events d !! ev_id r = None ∧ ev_id r ∉ seen.
Proof.
  revert seen. induction rows as [|r rows IH]; intros seen; cbn [batch_violations].
  { intros _. split; [constructor|set_solver]. }
  intros [Hty [Hun Hrest]%Forall_cons]%Forall_cons. cbn [fst] in Hty, Hun.
  apply negb_false_iff, str_mem_elem in Hty. apply orb_false_iff in Hun as [Hp Hs].
  apply present_false in Hp. apply bool_decide_eq_false in Hs.
  destruct (IH _ Hrest) as [Hnd Hrows]. split.
  - rewrite fmap_cons. constructor; [|done].
    intros (r' & Hid & Hr')%list_elem_of_fmap. destruct (Hrows r' Hr') as (_ & _ & Hn). set_solver.
  - intros r' [->|Hr']%elem_of_cons; [done|].
    destruct (Hrows r' Hr') as (? & ? & Hn). set_solver.
Qed.

Lemma add_events_lookup rows d id r :
  NoDup (ev_id <$> rows) →
  events (add_events rows d) !! id = Some r ↔
  (r ∈ rows ∧ ev_id r = id) ∨ ((∀ r', r' ∈ rows → ev_id r' ≠ id) ∧ events d !! id = Some r).
Proof.
  intros Hnd. unfold add_events. cbn. rewrite lookup_union_Some_raw.
  rewrite <- elem_of_list_to_map by (rewrite <- list_fmap_compose; exact Hnd).
  rewrite <- not_elem_of_list_to_map, list_elem_of_fmap.
  rewrite <- list_fmap_compose. split.
  - intros [(r' & [= -> ->] & Hr)|[Hn Hr]]; [by left|right]. split; [|done].
    intros r' Hr' <-. apply Hn. apply list_elem_of_fmap. by exists r'.
  - intros [[Hr <-]|[Hn Hr]]; [left; by exists r|right]. split; [|done].
    intros (r' & -> & Hr')%list_elem_of_fmap. by apply (Hn r').
Qed.

(** The rows a log may have, under the key of their id, with a type of the vocabulary. *)
Definition events_ok (d : Db) : Prop :=
  ∀ id r, events d !! id = Some r → ev_id r = id ∧ ev_type r ∈ event_types.

Inductive EventOp : Type :=
  | OpRecord (r : EventRecord)
  | OpRecordBatch (l : list EventRecord)
  | OpListEvents (f : ListEventsFilter) (size : Z) (token : PageToken).

Section log.
Context `{DieselLib, ChronoLib, Base64Lib, SerdeLib}.

Definition event_op (op : EventOp) : M HeadlinesError () :=
  match op with
  | OpRecord r => event_record r;; mret ()
  | OpRecordBatch l => event_record_batch l;; mret ()
  | OpListEvents f size token => event_list f size token;; mret ()
  end.

(** What the insertion of its rows keeps, an operation keeps. *)
Lemma insert_events_preserves (P : Db → Prop) rows :
  (∀ d, P d → NoDup (ev_id <$> rows) →
     (∀ r, r ∈ rows → ev_type r ∈ event_types ∧ events d !! ev_id r = None) →
     P (add_events rows d)) →
  stmt_preserves P (insert_events rows).
Proof.
  intros HP. apply insert_preserves. intros d Hd [Hnd Hrows]%batch_violations_none.
  apply HP; [done..|]. intros r Hr. by destruct (Hrows r Hr) as (? & ? & _).
Qed.
Lemma insert_event_single r : ∀ d, insert_event r d = insert_events [r] d.
Proof.
  intros d. unfold insert_events, insert_event, insert_stmt. cbn [batch_violations].
  rewrite bool_decide_eq_false_2, orb_false_r by set_solver.
  destruct (filter _ _) as [|[? ?] ?]; [|done]. unfold add_events. cbn.
  by rewrite <- insert_union_l, (left_id_L ∅ (∪)).
Qed.

(** The rows come from the records, stamped. *)
Definition rows_of (records : list EventRecord) (rows : list EventRow) : Prop :=
  ∀ row, row ∈ rows → ∃ id now r, r ∈ records ∧ row = new_event id now r.
Lemma event_record_preserves (P : Db → Prop) r :
  (∀ d rows, P d → NoDup (ev_id <$> rows) → rows_of [r] rows →
     (∀ r, r ∈ rows → ev_type r ∈ event_types ∧ events d !! ev_id r = None) →
     P (add_events rows d)) →
  preserves P (event_record r).
Proof.
  intros HP. unfold event_record. preserve. apply preserves_run, returning_preserves.
  intros d Hd. rewrite insert_event_single. apply insert_events_preserves; [|done].
  intros d' Hd' Hnd Hrows. apply HP; [done..| |done]. intros row ->%list_elem_of_singleton.
  eexists _, _, r. split; [by left|done].
Qed.
Lemma event_record_batch_preserves (P : Db → Prop) l :
  (∀ d rows, P d → NoDup (ev_id <$> rows) → rows_of l rows →
     (∀ r, r ∈ rows → ev_type r ∈ event_types ∧ events d !! ev_id r = None) →
     P (add_events rows d)) →
  preserves P (event_record_batch l).
Proof.
  intros HP. unfold event_record_batch. preserve. apply preserves_run, returning_preserves.
  apply insert_events_preserves. intros d Hd Hnd Hrows. apply HP; [done..| |done].
  intros row (r & id & -> & Hr & _)%elem_of_zip_with. by eexists _, _, r.
Qed.
Lemma event_list_preserves (P : Db → Prop) f size token : preserves P (event_list f size token).
Proof. unfold event_list. preserve. Qed.
Lemma event_op_preserves (P : Db → Prop) op :
  (∀ d rows, P d → NoDup (ev_id <$> rows) →
     (∀ r, r ∈ rows → ev_type r ∈ event_types ∧ events d !! ev_id r = None) →
     P (add_events rows d)) →
  preserves P (event_op op).
Proof.
  intros HP. destruct op; (apply preserves_bind; [|intros; apply preserves_ret]).
  - apply event_record_preserves. auto.
  - apply event_record_batch_preserves. auto.
  - apply event_list_preserves.
Qed.

(** The log is append-only: whatever fails and however other such requests
    interleave, no operation changes or removes an event, and every event has an id of
    its own and a type of the vocabulary. *)
Theorem event_log_append_only op :
  (∀ id r, preserves (λ d, events d !! id = Some r) (event_op op)) ∧
  preserves events_ok (event_op op).
Proof.
  split; [intros id r|]; apply event_op_preserves; intros d rows Hd Hnd Hrows.
  - apply add_events_lookup; [done|]. right. split; [|done]. intros r' Hr' Hid.
    destruct (Hrows r' Hr') as [_ Hnone]. congruence.
  - intros id r [[Hr <-]|[_ Hr]]%add_events_lookup; [|by apply Hd|done].
    split; [done|]. by destruct (Hrows r Hr).
Qed.
End log.

(** ** Batches *)

(** An insert with [RETURNING] is all or nothing, whatever fails. *)
Lemma run_insert_returning `{DieselLib} {A} ctx viol f (a : A) env w :
  (∀ n d, others env n d = d) →
  let (r, w') := run ctx (returning (insert_stmt viol f) (λ _, a)) env w in
  (w_db w' = w_db w ∧ ∃ e, r = Err e) ∨
  (Forall (λ v, v.1 = false) (viol (w_db w)) ∧ w_db w' = f (w_db w) ∧ ∀ b, r = Ok b → b = a).
Proof.
  intros Ho. unfold run, map_errM, stmt, returning, insert_stmt. rewrite Ho.
  destruct (filter (λ v, v.1 = true) (viol (w_db w))) as [|[b e] l] eqn:Hv.
  - assert (Forall (λ v, v.1 = false) (viol (w_db w))) as Hno.
    { apply Forall_forall. intros [[] e] Hin; [|done]. exfalso.
      apply (not_elem_of_nil (true, e)). rewrite <- Hv. by apply list_elem_of_filter. }
    destruct (fault env _) as [[? []]|]; [|by left; eauto|]; right; (split_and!; [done..|]).
    + by intros b.
    + by intros b [= <-].
  - destruct (fault env _) as [[? []]|]; left; eauto.
Qed.

Lemma mint_ids {B} (l : list B) env w :
  ∃ ids w', mapM_ (E := HeadlinesError) (λ _, new_uuid) l env w = (Ok ids, w') ∧
    w_db w' = w_db w ∧ length ids = length l.
Proof.
  revert w. induction l as [|x l IH]; intros w; [by exists [], w|]. simpl mapM_.
  rewrite bind_uuid, bind_run. destruct (IH (tick w)) as (ids & w' & -> & Hd & Hl).
  eexists (_ :: ids), w'. split; [done|]. split; [done|]. simpl. by f_equal.
Qed.

(** The row is the record, stamped. *)
Definition stamps `{DieselLib} (now : DateTime) (r : EventRecord) (row : EventRow) : Prop :=
  row = new_event (ev_id row) now r.

Section batches.
Context `{DieselLib}.

(** A batch is all or nothing, whatever fails: the database is unchanged and
    the call fails, or every record is stored, once, under a fresh id of its own and
    stamped with one reception time, and no event is lost; a successful reply is
    exactly the stored events, in the order of the request. *)
Lemma event_record_batch_atomic records env w :
  records ≠ [] → (∀ n d, others env n d = d) →
  let (r, w') := event_record_batch records env w in
  (w_db w' = w_db w ∧ ∃ e, r = Err e) ∨
  (∃ now rows, Forall2 (stamps now) records rows ∧ NoDup (ev_id <$> rows) ∧
     (∀ id row, events (w_db w') !! id = Some row ↔
        (row ∈ rows ∧ ev_id row = id) ∨ events (w_db w) !! id = Some row) ∧
     (∀ row, row ∈ rows → events (w_db w) !! ev_id row = None) ∧
     ∀ out, r = Ok out → out = rows).
Proof.
  intros Hne Ho. unfold event_record_batch. rewrite bool_decide_eq_false_2 by done.
  rewrite bind_run. unfold get_conn. destruct (fault env (w_tick w)) as [?|]; [by left; eauto|].
  rewrite bind_now. set (now := now_at env _). rewrite bind_run.
  match goal with |- context [mapM_ _ records env ?w1] =>
    destruct (mint_ids records env w1) as (ids & w2 & -> & Hd & Hl) end. cbn [w_db tick] in Hd.
  cbv zeta. set (rows := zip_with _ records ids).
  assert (Hst : Forall2 (stamps now) records rows).
  { unfold rows. clear -Hl. revert ids Hl. induction records as [|r l IH]; intros [|id ids] Hl;
      try done; constructor; [done|]. apply IH. by injection Hl. }
  pose proof (run_insert_returning "insert event batch" (λ d, batch_violations d [] rows)
    (add_events rows) rows env w2 Ho) as Hrun. unfold insert_events.
  destruct (run _ _ env w2) as [r w3]. rewrite Hd in Hrun.
  destruct Hrun as [[? ?]|(Hv & Hd3 & Hr)]; [by left|right].
  apply batch_violations_none in Hv as [Hnd Hrows].
  exists now, rows. split_and!; [done|done| | |done].
  - intros id row. rewrite Hd3, add_events_lookup by done. split.
    + intros [?|[_ ?]]; [by left|by right].
    + intros [?|Hold]; [by left|right]. split; [|done]. intros r' Hr' Hid.
      destruct (Hrows r' Hr') as (_ & Hnone & _). congruence.
  - intros row Hrow. by destruct (Hrows row Hrow) as (_ & ? & _).
Qed.
End batches.

(** ** Draining the log *)

Section drain.
Context `{DieselLib, ChronoLaws, Base64Laws, SerdeLaws}.
Variables (env : Env) (Hq : quiet env).

(** C28. Following the tokens of a listing from any cursor drains it: the walk ends
    with an empty token, for which as many further pages as there are events are enough, and
    shows exactly the events that match the filter and are after the cursor, each once, in the
    order of reception. Nothing fails and nobody else writes during the walk. *)
Theorem event_listing_drains f page fuel token cursor w :
  events_ok (w_db w) → page_cursor (lit "r") token = Ok cursor →
  (size (events (w_db w)) <= fuel)%nat →
  ∃ items t,
    walk_listing fuel (event_list f page) token env w = (Ok (Some items), mkWorld (w_db w) t) ∧
    (∀ e, e ∈ items ↔ events (w_db w) !! ev_id e = Some e ∧ event_matches f e = true ∧
       after_cursor Asc event_key cursor e = true) ∧
    StronglySorted (λ e e', precedes Asc (event_key e) (event_key e') = true) items.
Proof.
  intros Hok Htok Hfuel. set (d := w_db w) in *.
  assert (Hrow : ∀ e, e ∈ matching_events f d ↔ events d !! ev_id e = Some e ∧ event_matches f e = true).
  { intros e. unfold matching_events. rewrite elem_of_rows_where. split.
    - intros [Hm [k Hk]]. destruct (Hok k e Hk) as [<- _]. done.
    - intros [Hk Hm]. eauto. }
  assert (Hnd : NoDup (matching_events f d)).
  { apply (rows_where_NoDup _ _ ev_id). intros k e Hk. by destruct (Hok k e Hk). }
  assert (Hinj : ∀ e e', e ∈ matching_events f d → e' ∈ matching_events f d →
            event_key e = event_key e' → e = e').
  { intros e e' [He _]%Hrow [He' _]%Hrow [= _ Hid]. congruence. }
  assert (Hserves : serves env d (event_list f page) Some (time_codec (lit "r")) Asc event_key
            (clamp_page_size page) (matching_events f d)).
  { apply (plain_listing_serves env d (time_codec (lit "r")) Asc event_key (clamp_page_size page)
      (matching_events f d) "list events"
      (λ cursor, query (λ d, keyset_rows Asc event_key cursor (clamp_page_size page)
                               (matching_events f d)))); done. }
  destruct (walk_listing_from (time_codec (lit "r")) env d (event_list f page) Some Asc event_key
    (clamp_page_size page) (matching_events f d) fuel token cursor w Hserves) as [t Hwalk];
    try done.
  - pose proof (clamp_page_size_range page). unfold MAX_PAGE_SIZE, i32_max in *. lia.
  - etrans; [apply rows_where_length|done].
  - assert (∀ l : list EventRow, omap Some l = l) as Homap.
    { induction l as [|x l IH]; [done|]. cbn. by f_equal. }
    rewrite Homap in Hwalk. eexists _, t. split; [exact Hwalk|]. split.
    + intros e. rewrite list_elem_of_filter, order_rows_perm, Hrow. tauto.
    + by apply StronglySorted_filter, order_rows_strict.
Qed.
End drain.

(** ** An example *)

Section witnesses.
#[local] Existing Instances toy_diesel toy_chrono toy_base64 toy_serde
  toy_chrono_laws toy_base64_laws toy_serde_laws.

Definition toy_event (id : Uuid) (received_at : DateTime) : EventRow :=
  mkEvent id 2%N (Some 7%N) (lit "LIKE") 0 received_at (lit "web") JNull.
Definition toy_log : Db :=
  add_events [toy_event 30%N 9; toy_event 31%N 4; toy_event 32%N 9] empty_db.
Lemma toy_log_ok : events_ok toy_log.
Proof.
  intros id r [[Hr <-]|[_ Hr]]%add_events_lookup; [|done|by apply (bool_decide_unpack _); vm_compute].
  split; [done|]. apply list_elem_of_lookup_2 with (i := 3%nat).
  rewrite !elem_of_cons, elem_of_nil in Hr. destruct Hr as [->|[->|[->|[]]]]; by vm_compute.
Qed.

Lemma event_listing_drains_witness :
  ∃ items t, walk_listing 3 (event_list
      {| lf_user_id := Some 2%N; lf_article_id := None; lf_types := []; lf_received_after := None;
         lf_received_before := None |} 1) [] toy_env (mkWorld toy_log 0) =
    (Ok (Some items), mkWorld toy_log t) ∧ toy_event 31%N 4 ∈ items.
Proof.
  destruct (event_listing_drains toy_env toy_env_quiet
    {| lf_user_id := Some 2%N; lf_article_id := None; lf_types := []; lf_received_after := None;
       lf_received_before := None |} 1 3 [] None (mkWorld toy_log 0) toy_log_ok)
    as (items & t & Hwalk & Hin & _); [by vm_compute|by vm_compute; lia|].
  exists items, t. split; [exact Hwalk|]. apply Hin. by vm_compute.
Defined.
End witnesses.
