(* ===== verification/Content.v ===== *)
(** * Article content ([headlines-api/src/services/article.rs])

    Titles, author fields and reasons; the node tree of an article, its allow-lists,
    and its JSON encoding for storage with the decoder. *)

From S2P Require Import Prelude Libs Instances Errors.

(** [headlines.v1.Node]: the optional oneof [kind], flattened.  The attribute map is
    a [HashMap]; the order in which its keys are checked is unspecified. *)
Inductive Node : Type :=
  | NodeNone
  | NodeText (t : str)
  | NodeElement (tag : str) (attrs : gmap str str) (children : list Node).

Definition TITLE_MIN : nat := 1.
Definition TITLE_MAX : nat := 256.
Definition AUTHOR_NAME_MAX : nat := 128.
Definition AUTHOR_URL_MAX : nat := 512.
Definition TOMBSTONE_REASON_MAX : nat := 512.
Definition REDACTION_REASON_MIN : nat := 1.
Definition REDACTION_REASON_MAX : nat := 512.
Definition DEFAULT_CONTENT_MAX_BYTES : Z := 20 * 1024 * 1024.

Definition ALLOWED_TAGS : list str :=
  lit <$> ["p"; "h3"; "h4"; "a"; "img"; "figure"; "figcaption"; "blockquote"; "aside"; "pre";
           "code"; "em"; "strong"; "s"; "u"; "iframe"; "video"; "br"; "hr"; "ul"; "ol"; "li"]%string.

(** [allowed_attrs_for] *)
Definition allowed_attrs_for (tag : str) : option (list str) :=
  if str_eqb tag (lit "a") then Some [lit "href"]
  else if str_eqb tag (lit "img") then Some [lit "src"; lit "alt"]
  else if str_eqb tag (lit "iframe") then Some [lit "src"]
  else if str_eqb tag (lit "video") then Some [lit "src"]
  else Some [].

Definition ALLOWED_MASK_PATHS : list str :=
  lit <$> ["title"; "author_name"; "author_url"; "content"]%string.

Definition invalid_argument (field : string) (reason : str) : HeadlinesError :=
  InvalidArgument (lit field) reason.

(** [parse_uuid] *)
Definition parse_uuid `{UuidLib} (field : string) (raw : str) : result HeadlinesError Uuid :=
  map_err (λ e, invalid_argument field (lit "invalid uuid: " ++ e)) (uuid_parse_str raw).

(** ** Text fields *)

(** [validate_title] *)
Definition validate_title (raw : str) : result HeadlinesError str :=
  let trimmed := trim raw in
  let char_count := length trimmed in
  if negb ((TITLE_MIN <=? char_count)%nat && (char_count <=? TITLE_MAX)%nat) then
    Err (invalid_argument "title" (lit "length must be 1..=256 characters"))
  else Ok trimmed.

(** [validate_author_name] *)
Definition validate_author_name (raw : str) : result HeadlinesError str :=
  if (AUTHOR_NAME_MAX <? length raw)%nat then
    Err (invalid_argument "author_name" (lit "length must be <= 128 characters"))
  else Ok raw.

(** [validate_author_url]; [len] counts UTF-8 bytes. *)
Definition validate_author_url `{UrlLib} (raw : str) : result HeadlinesError str :=
  if bool_decide (raw = []) then Ok []
  else if (AUTHOR_URL_MAX <? str_len raw)%nat then
    Err (invalid_argument "author_url" (lit "length must be <= 512"))
  else
    scheme ← map_err (λ e, invalid_argument "author_url" (lit "invalid URL: " ++ e))
               (url_parse_scheme raw);
    if negb (str_eqb scheme (lit "http")) && negb (str_eqb scheme (lit "https")) then
      Err (invalid_argument "author_url" (lit "scheme must be http or https"))
    else Ok raw.

(** [validate_tombstone_reason] *)
Definition validate_tombstone_reason (raw : str) : result HeadlinesError (option str) :=
  if bool_decide (raw = []) then Ok None
  else if (TOMBSTONE_REASON_MAX <? str_len raw)%nat then
    Err (invalid_argument "reason" (lit "length must be <= 512"))
  else Ok (Some raw).

(** [validate_redaction_reason] *)
Definition validate_redaction_reason (raw : str) : result HeadlinesError str :=
  if (str_len raw <? REDACTION_REASON_MIN)%nat || (REDACTION_REASON_MAX <? str_len raw)%nat then
    Err (invalid_argument "redaction_reason" (lit "length must be 1..=512"))
  else Ok raw.

(** ** Validation of the tree *)

(** The loop over the attribute keys in [validate_element]. *)
Fixpoint check_attrs (tag : str) (allowed : list str) (keys : list str) :
    result HeadlinesError () :=
  match keys with
  | [] => Ok ()
  | k :: keys =>
    if str_mem k allowed then check_attrs tag allowed keys else Err (InvalidNodeAttr tag k)
  end.

(** [validate_node], [validate_element] *)
Fixpoint validate_node (node : Node) : result HeadlinesError () :=
  match node with
  | NodeText _ | NodeNone => Ok ()
  | NodeElement tag attrs children =>
    if negb (str_mem tag ALLOWED_TAGS) then Err (InvalidNodeTag tag)
    else
      let allowed := default [] (allowed_attrs_for tag) in
      _ ← check_attrs tag allowed (map_to_list attrs).*1;
      (fix validate_children (l : list Node) : result HeadlinesError () :=
         match l with
         | [] => Ok ()
         | child :: l => _ ← validate_node child; validate_children l
         end) children
  end.
Fixpoint validate_nodes (l : list Node) : result HeadlinesError () :=
  match l with
  | [] => Ok ()
  | n :: l => _ ← validate_node n; validate_nodes l
  end.

(** ** JSON *)

(** [serde_json::Map], a [BTreeMap]: [insert] and [get]. *)
Fixpoint map_insert (k : str) (v : Json) (m : list (str * Json)) : list (str * Json) :=
  match m with
  | [] => [(k, v)]
  | (k', v') :: m =>
    if str_eqb k k' then (k, v) :: m
    else if str_leb k k' then (k, v) :: (k', v') :: m
    else (k', v') :: map_insert k v m
  end.
Fixpoint map_get (k : str) (m : list (str * Json)) : option Json :=
  match m with
  | [] => None
  | (k', v) :: m => if str_eqb k k' then Some v else map_get k m
  end.

Definition json_as_str (j : Json) : option str :=
  match j with JString s => Some s | _ => None end.
Definition json_as_object (j : Json) : option (list (str * Json)) :=
  match j with JObject m => Some m | _ => None end.

(** The ["attrs"] object, its keys inserted in sorted order. *)
Definition attrs_to_json (attrs : gmap str str) : list (str * Json) :=
  foldl (λ m k, match attrs !! k with Some v => map_insert k (JString v) m | None => m end) []
    (sort_by str_leb (map_to_list attrs).*1).

(** [node_to_json], [nodes_to_json] *)
Fixpoint node_to_json (node : Node) : Json :=
  match node with
  | NodeNone => JNull
  | NodeText t => JObject (map_insert (lit "text") (JString t) [])
  | NodeElement tag attrs children =>
    let obj := map_insert (lit "tag") (JString tag) [] in
    let obj := if bool_decide (attrs = ∅) then obj
               else map_insert (lit "attrs") (JObject (attrs_to_json attrs)) obj in
    let obj := match children with
               | [] => obj
               | _ => map_insert (lit "children") (JArray (map node_to_json children)) obj
               end in
    JObject obj
  end.
Definition nodes_to_json (nodes : list Node) : Json := JArray (map node_to_json nodes).

(** The [filter_map] and [collect] of [json_to_node]. *)
Definition json_to_attrs (m : list (str * Json)) : gmap str str :=
  list_to_map (omap (λ kv, pair kv.1 <$> json_as_str kv.2) m).

(** [json_to_node], [json_to_nodes].  The objects nest, so the recursion is on the
    value, with the object's ["children"] looked up by a structural scan. *)
Fixpoint json_to_node (value : Json) : Node :=
  match value with
  | JObject obj =>
    match map_get (lit "text") obj with
    | Some (JString t) => NodeText t
    | _ =>
      let tag := default [] (map_get (lit "tag") obj ≫= json_as_str) in
      let attrs := default ∅ (json_to_attrs <$> (map_get (lit "attrs") obj ≫= json_as_object)) in
      let children :=
        (fix get_children (m : list (str * Json)) : list Node :=
           match m with
           | [] => []
           | (k, v) :: m =>
             if str_eqb (lit "children") k then
               match v with JArray arr => map json_to_node arr | _ => [] end
             else get_children m
           end) obj in
      NodeElement tag attrs children
    end
  | _ => NodeNone
  end.
Definition json_to_nodes (value : Json) : list Node :=
  match value with JArray arr => map json_to_node arr | _ => [] end.

(** [validate_and_encode_content] *)
Definition validate_and_encode_content `{SerdeLib} (content : list Node) (max_bytes : Z) :
    result HeadlinesError Json :=
  if bool_decide (content = []) then
    Err (invalid_argument "content" (lit "must be non-empty"))
  else
    _ ← validate_nodes content;
    let json := nodes_to_json content in
    serialized ← map_err (λ e, Internal (lit "serialize content as json: " ++ e))
                   (json_to_vec json);
    let len := Z.of_nat (length serialized) in
    if max_bytes <? len then Err (ContentTooLarge len max_bytes) else Ok json.

(** ** The encoding is read back *)

Lemma map_get_insert_eq k v m : map_get k (map_insert k v m) = Some v.
Proof.
  induction m as [|[k' v'] m IH]; simpl; [by rewrite (proj2 (str_eqb_eq k k) eq_refl)|].
  destruct (str_eqb k k') eqn:Hk; simpl; [by rewrite (proj2 (str_eqb_eq k k) eq_refl)|].
  destruct (str_leb k k'); simpl; [by rewrite (proj2 (str_eqb_eq k k) eq_refl)|].
  by rewrite Hk.
Qed.
Lemma map_get_insert_ne k j v m : j ≠ k → map_get j (map_insert k v m) = map_get j m.
Proof.
  intros Hj%str_eqb_neq. induction m as [|[k' v'] m IH]; simpl; [by rewrite Hj|].
  destruct (str_eqb k k') eqn:Hk; simpl.
  - apply str_eqb_eq in Hk as <-. by rewrite Hj.
  - destruct (str_leb k k'); simpl; [by rewrite Hj|]. by rewrite IH.
Qed.

Lemma json_to_attrs_cons k v m :
  json_to_attrs ((k, v) :: m) =
  match json_as_str v with Some s => <[k := s]> (json_to_attrs m) | None => json_to_attrs m end.
Proof. by destruct v. Qed.

Lemma json_to_attrs_insert k s m :
  json_to_attrs (map_insert k (JString s) m) = <[k := s]> (json_to_attrs m).
Proof.
  induction m as [|[k' v'] m IH]; [done|]. cbn [map_insert].
  destruct (str_eqb k k') eqn:Hk.
  - apply str_eqb_eq in Hk as <-. rewrite !json_to_attrs_cons. cbn [json_as_str].
    destruct (json_as_str v'); [|done]. by rewrite insert_insert_eq.
  - apply str_eqb_neq in Hk. destruct (str_leb k k'); [done|].
    rewrite !json_to_attrs_cons, IH. destruct (json_as_str v'); [|done].
    by rewrite insert_insert_ne.
Qed.

(** Inserting the keys [l] of a map into an object adds these entries. *)
Lemma attrs_fold (attrs : gmap str str) l m i :
  json_to_attrs (foldl (λ m k, match attrs !! k with
                               | Some v => map_insert k (JString v) m | None => m end) m l) !! i =
  match attrs !! i with
  | Some x => if decide (i ∈ l) then Some x else json_to_attrs m !! i
  | None => json_to_attrs m !! i
  end.
Proof.
  revert m. induction l as [|k l IH]; intros m; cbn [foldl].
  - by destruct (attrs !! i).
  - rewrite IH. assert (Hm : json_to_attrs match attrs !! k with
        | Some v => map_insert k (JString v) m | None => m end !! i =
      match attrs !! k with Some v => <[k := v]> (json_to_attrs m) | None => json_to_attrs m end !! i).
    { destruct (attrs !! k); [by rewrite json_to_attrs_insert|done]. }
    rewrite Hm. destruct (decide (i = k)) as [->|Hne].
    + destruct (attrs !! k) as [x|]; [|done]. rewrite lookup_insert_eq.
      rewrite (decide_True _ _ (P := k ∈ k :: l)) by set_solver. by destruct (decide (k ∈ l)).
    + assert (match attrs !! k with Some v => <[k := v]> (json_to_attrs m)
              | None => json_to_attrs m end !! i = json_to_attrs m !! i) as ->.
      { destruct (attrs !! k); [by rewrite lookup_insert_ne|done]. }
      destruct (attrs !! i); [|done].
      destruct (decide (i ∈ l)), (decide (i ∈ k :: l)); try done; set_solver.
Qed.

Lemma attrs_roundtrip attrs : json_to_attrs (attrs_to_json attrs) = attrs.
Proof.
  unfold attrs_to_json. apply map_eq. intros i. rewrite attrs_fold.
  destruct (attrs !! i) as [x|] eqn:Hi; [|done]. rewrite decide_True; [done|].
  rewrite sort_by_perm. apply list_elem_of_fmap. exists (i, x).
  by rewrite elem_of_map_to_list.
Qed.

Lemma json_to_node_object obj :
  json_to_node (JObject obj) =
  match map_get (lit "text") obj with
  | Some (JString t) => NodeText t
  | _ =>
    NodeElement (default [] (map_get (lit "tag") obj ≫= json_as_str))
      (default ∅ (json_to_attrs <$> (map_get (lit "attrs") obj ≫= json_as_object)))
      (default [] (json_to_nodes <$> map_get (lit "children") obj))
  end.
Proof.
  cbn [json_to_node].
  match goal with |- context [NodeElement _ _ (?F obj)] =>
    assert (HF : ∀ m, F m = default [] (json_to_nodes <$> map_get (lit "children") m)) end.
  { intros m. induction m as [|[k v] m IH]; [done|]. cbn [map_get].
    destruct (str_eqb (lit "children") k); [by destruct v|done]. }
  by rewrite HF.
Qed.

(** Induction over the tree. *)
Lemma node_ind' (P : Node → Prop) :
  P NodeNone → (∀ t, P (NodeText t)) →
  (∀ tag attrs children, Forall P children → P (NodeElement tag attrs children)) →
  ∀ n, P n.
Proof.
  intros Hnone Htext Helem. fix IH 1. intros [|t|tag attrs children]; [done|done|].
  apply Helem. induction children as [|c children IHc]; constructor; [apply IH|done].
Qed.

Lemma lit_ne a b : str_eqb (lit a) (lit b) = false → lit a ≠ lit b.
Proof. apply str_eqb_neq. Qed.

Lemma nodes_json_roundtrip nodes : json_to_nodes (nodes_to_json nodes) = nodes.
Proof.
  assert (Hnode : ∀ n, json_to_node (node_to_json n) = n).
  { induction n as [|t|tag attrs children IH] using node_ind'; [done| |].
    - cbn [node_to_json]. by rewrite json_to_node_object, map_get_insert_eq.
    - cbn [node_to_json]. rewrite json_to_node_object.
      set (o1 := map_insert (lit "tag") (JString tag) []).
      set (o2 := if bool_decide _ then o1 else _).
      assert (Ho2 : map_get (lit "text") o2 = None ∧ map_get (lit "tag") o2 = Some (JString tag) ∧
                    map_get (lit "children") o2 = None ∧
                    default ∅ (json_to_attrs <$> (map_get (lit "attrs") o2 ≫= json_as_object)) = attrs).
      { subst o2. case_bool_decide as Ha; [by subst|].
        rewrite !(map_get_insert_ne (lit "attrs")) by by apply lit_ne.
        rewrite map_get_insert_eq. split_and!; [done..|]. simpl. apply attrs_roundtrip. }
      destruct Ho2 as (Htext & Htag & Hch & Hattrs).
      destruct children as [|c children]; [by rewrite Htext, Htag, Hch, Hattrs|].
      rewrite !(map_get_insert_ne (lit "children")) by by apply lit_ne.
      rewrite Htext, Htag, Hattrs, map_get_insert_eq. simpl. f_equal.
      apply Forall_cons in IH as [Hc Hcs]. f_equal; [done|].
      clear -Hcs. induction Hcs as [|? ? Hx _ IHl]; simpl; [done|]. by rewrite Hx, IHl. }
  unfold json_to_nodes, nodes_to_json. rewrite map_map. rewrite <- (map_id nodes) at 2.
  apply map_ext. done.
Qed.

(** ** What validation accepts *)

Inductive node_valid : Node → Prop :=
  | nv_none : node_valid NodeNone
  | nv_text t : node_valid (NodeText t)
  | nv_element tag attrs children :
      tag ∈ ALLOWED_TAGS →
      (∀ k, is_Some (attrs !! k) → k ∈ default [] (allowed_attrs_for tag)) →
      Forall node_valid children →
      node_valid (NodeElement tag attrs children).

Lemma check_attrs_ok tag allowed keys :
  check_attrs tag allowed keys = Ok () ↔ Forall (λ k, k ∈ allowed) keys.
Proof.
  induction keys as [|k keys IH]; [done|]. cbn [check_attrs]. rewrite Forall_cons.
  destruct (str_mem k allowed) eqn:Hk.
  - apply str_mem_elem in Hk. rewrite IH. tauto.
  - split; [done|]. intros [Hin _]. apply str_mem_elem in Hin. congruence.
Qed.

Lemma validate_nodes_ok l :
  Forall (λ n, validate_node n = Ok () ↔ node_valid n) l →
  validate_nodes l = Ok () ↔ Forall node_valid l.
Proof.
  induction 1 as [|n l Hn _ IH]; [done|]. cbn [validate_nodes]. rewrite Forall_cons, <- Hn, <- IH.
  destruct (validate_node n) as [[]|e]; simpl; [tauto|]. split; [done|]. by intros [? _].
Qed.

Lemma validate_node_children tag attrs children :
  validate_node (NodeElement tag attrs children) =
  if negb (str_mem tag ALLOWED_TAGS) then Err (InvalidNodeTag tag)
  else _ ← check_attrs tag (default [] (allowed_attrs_for tag)) (map_to_list attrs).*1;
       validate_nodes children.
Proof.
  cbn [validate_node]. destruct (negb _); [done|]. destruct (check_attrs _ _ _) as [[]|e]; [|done].
  simpl. induction children as [|c children IH]; [done|]. cbn [validate_nodes].
  by destruct (validate_node c) as [[]|e]; [apply IH|].
Qed.

Lemma validate_node_ok n : validate_node n = Ok () ↔ node_valid n.
Proof.
  induction n as [|t|tag attrs children IH] using node_ind';
    [split; [constructor|done]..|].
  apply validate_nodes_ok in IH. rewrite validate_node_children.
  assert (Hattrs : check_attrs tag (default [] (allowed_attrs_for tag)) (map_to_list attrs).*1
            = Ok () ↔ ∀ k, is_Some (attrs !! k) → k ∈ default [] (allowed_attrs_for tag)).
  { rewrite check_attrs_ok, Forall_forall.
    assert (Hk : ∀ k, k ∈ (map_to_list attrs).*1 ↔ is_Some (attrs !! k)).
    { intros k. rewrite list_elem_of_fmap. split.
      - intros ([k' v] & -> & Hk%elem_of_map_to_list). by eexists.
      - intros [v Hv]. exists (k, v). by rewrite elem_of_map_to_list. }
    by setoid_rewrite Hk. }
  destruct (str_mem tag ALLOWED_TAGS) eqn:Htag; cbn [negb].
  - apply str_mem_elem in Htag. destruct (check_attrs _ _ _) as [[]|e] eqn:Hc; simpl.
    + rewrite IH. split; [intros; constructor; [done|by apply Hattrs|done]|]. by inversion 1.
    + split; [done|]. inversion 1 as [| |? ? ? _ Ha _]; subst. by apply Hattrs in Ha.
  - split; [done|]. inversion 1 as [| |? ? ? Hin _ _]; subst. apply str_mem_elem in Hin. congruence.
Qed.

Lemma validated_content `{SerdeLib} content max_bytes json :
  validate_and_encode_content content max_bytes = Ok json ↔
  content ≠ [] ∧ Forall node_valid content ∧ json = nodes_to_json content ∧
  json_to_nodes json = content ∧
  ∃ b, json_to_vec json = Ok b ∧ Z.of_nat (length b) <= max_bytes.
Proof.
  unfold validate_and_encode_content.
  assert (Hv : validate_nodes content = Ok () ↔ Forall node_valid content).
  { apply validate_nodes_ok, Forall_forall. intros n _. apply validate_node_ok. }
  case_bool_decide as Hne; [split; [done|by intros [? _]]|].
  destruct (validate_nodes content) as [[]|e]; simpl;
    [|split; [done|]; intros (_ & Hall & _); by apply Hv in Hall].
  destruct (json_to_vec (nodes_to_json content)) as [b|e] eqn:Hb; simpl;
    [|split; [done|]; intros (_ & _ & -> & _ & b & Hb' & _); congruence].
  destruct (Z.ltb_spec max_bytes (Z.of_nat (length b))) as [Hlt|Hge].
  - split; [done|]. intros (_ & _ & -> & _ & b' & Hb' & Hle).
    assert (b' = b) as -> by congruence. lia.
  - split.
    + intros [= <-]. split_and!; [done|by apply Hv|done|apply nodes_json_roundtrip|by exists b].
    + by intros (_ & _ & -> & _).
Qed.

(** Content is accepted for storage exactly when it is not empty, every
    element of the tree has an allowed tag and only the attributes allowed for it, at
    any depth, and its JSON fits in the limit; what is stored decodes to what was
    sent. *)
Theorem content_accepted `{SerdeLib} content max_bytes json :
  validate_and_encode_content content max_bytes = Ok json ↔
  content ≠ [] ∧ Forall node_valid content ∧ json = nodes_to_json content ∧
  json_to_nodes json = content ∧
  ∃ b, json_to_vec json = Ok b ∧ Z.of_nat (length b) <= max_bytes.
Proof. apply validated_content. Qed.

(** The storage encoding of a node tree is read back to the same tree,
    whatever its texts, tags, attributes and nesting. *)
Theorem content_roundtrip nodes : json_to_nodes (nodes_to_json nodes) = nodes.
Proof. apply nodes_json_roundtrip. Qed.

Lemma validate_title_ok raw s : validate_title raw = Ok s → s = trim raw.
Proof. unfold validate_title. destruct (negb _); [done|]. by intros [= <-]. Qed.
Lemma validate_author_name_ok raw s : validate_author_name raw = Ok s → s = raw.
Proof. unfold validate_author_name. destruct (_ <? _)%nat; [done|]. by intros [= <-]. Qed.
Lemma validate_author_url_ok `{UrlLib} raw s : validate_author_url raw = Ok s → s = raw.
Proof.
  unfold validate_author_url. case_bool_decide as Hr; [by subst; intros [= <-]|].
  destruct (_ <? _)%nat; [done|]. destruct (map_err _ _) as [scheme|e]; [|done]. simpl.
  destruct (_ && _); [done|]. by intros [= <-].
Qed.
