(* ===== verification/Markdown.v ===== *)
(** * The Markdown converter of the seed pipeline
    ([headlines-server/src/seed/content_md.rs])

    The events of the Markdown parser drive a stack of open elements; what comes out is
    the node tree of the document, acceptable to the article service. *)

From S2P Require Import Prelude Libs Instances Errors Content.

(** The events of [pulldown_cmark] the converter distinguishes; the other tags and
    events are [TagOther] and [EventOther]. *)
Inductive HeadingLevel : Type := H1 | H2 | H3 | H4 | H5 | H6.
Inductive Tag : Type :=
  | TagParagraph
  | TagHeading (level : HeadingLevel)
  | TagBlockQuote
  | TagCodeBlock
  | TagList (start : option N)
  | TagItem
  | TagEmphasis
  | TagStrong
  | TagStrikethrough
  | TagLink (dest_url : str)
  | TagImage (dest_url title : str)
  | TagOther.
Inductive Event : Type :=
  | Start (tag : Tag)
  | End
  | Text (t : str)
  | CodeSpan (c : str)
  | Html (h : str)
  | InlineHtml (h : str)
  | SoftBreak
  | HardBreak
  | Rule
  | EventOther.

(** [headlines.v1.NodeElement] *)
Record NodeElt := mkElt { tag : str; attrs : gmap str str; children : list Node }.
Definition node_of (e : NodeElt) : Node := NodeElement (tag e) (attrs e) (children e).

(** [elem] *)
Definition elem (tag : string) : NodeElt := mkElt (lit tag) ∅ [].
Definition with_attr (k : string) (v : str) (e : NodeElt) : NodeElt :=
  mkElt (tag e) (<[lit k := v]> (attrs e)) (children e).

(** ** Embedded HTML *)

Definition is_char (c x : N) : bool := (x =? c)%N.

(** The value after [=]: quoted by either quote, or up to white space or [>]. *)
Definition attr_value (chars : str) : str * str :=
  match chars with
  | q :: rest =>
    if is_char 34 q || is_char 39 q then
      let (value, rest) := span (λ c, negb (is_char q c)) rest in (value, tail rest)
    else span (λ c, negb (is_whitespace c || is_char 62 c)) chars
  | [] => ([], [])
  end.

(** The [while let] loop over the attributes. *)
Fixpoint attr_loop (fuel : nat) (chars : str) (node : NodeElt) : option NodeElt :=
  match fuel with
  | O => None
  | S fuel =>
    match chars with
    | [] => Some node
    | c :: chars' =>
      if is_char 62 c || is_char 47 c then Some node
      else if is_whitespace c then attr_loop fuel chars' node
      else
        let (name, rest) :=
          span (λ c, negb (is_char 61 c || is_whitespace c || is_char 62 c)) chars in
        match rest with
        | e :: rest' =>
          if is_char 61 e then
            let (value, rest'') := attr_value rest' in
            attr_loop fuel rest''
              (if str_eqb name (lit "src") then with_attr "src" value node else node)
          else attr_loop fuel rest node
        | [] => attr_loop fuel rest node
        end
    end
  end.

(** [parse_iframe_or_video] *)
Definition parse_iframe_or_video (html : str) : option NodeElt :=
  let trimmed := trim html in
  let lower := to_ascii_lowercase trimmed in
  let parse (tag : string) :=
    if negb (str_mem (lit tag) ALLOWED_TAGS) then None
    else
      let chars := drop (length (lit "<" ++ lit tag)) trimmed in
      attr_loop (S (length chars)) chars (elem tag) in
  if starts_with (lit "<iframe") lower then parse "iframe"%string
  else if starts_with (lit "<video") lower then parse "video"%string
  else None.

(** ** The converter *)

(** The open elements, innermost first, and the finished nodes. *)
Record Conv := mkConv { stack : list NodeElt; output : list Node }.

(** Appending to the innermost open element, or to the output. *)
Definition push_nodes (ns : list Node) (s : Conv) : Conv :=
  match stack s with
  | top :: rest => mkConv (mkElt (tag top) (attrs top) (children top ++ ns) :: rest) (output s)
  | [] => mkConv [] (output s ++ ns)
  end.

(** [push_text] *)
Definition push_text (s : Conv) (text : str) : Conv :=
  if bool_decide (text = []) then s else push_nodes [NodeText text] s.

(** [close_top] *)
Definition close_top (s : Conv) : Conv :=
  match stack s with
  | top :: rest => push_nodes [node_of top] (mkConv rest (output s))
  | [] => s
  end.

Definition open (s : Conv) (e : NodeElt) : Conv := mkConv (e :: stack s) (output s).

(** The element a start tag opens. *)
Definition start_element (t : Tag) : NodeElt :=
  match t with
  | TagParagraph => elem "p"
  | TagHeading (H1 | H2 | H3) => elem "h3"
  | TagHeading (H4 | H5 | H6) => elem "h4"
  | TagBlockQuote => elem "blockquote"
  | TagCodeBlock => elem "pre"
  | TagList (Some _) => elem "ol"
  | TagList None => elem "ul"
  | TagItem => elem "li"
  | TagEmphasis => elem "em"
  | TagStrong => elem "strong"
  | TagStrikethrough => elem "s"
  | TagLink dest_url => with_attr "href" dest_url (elem "a")
  | TagImage dest_url title =>
    let img := with_attr "src" dest_url (elem "img") in
    if bool_decide (title = []) then img else with_attr "alt" title img
  | TagOther => elem "__drop__"
  end.

(** The [Event::End] arm: a dropped wrapper hands its children to its parent. *)
Definition end_element (s : Conv) : Conv :=
  match stack s with
  | top :: rest =>
    let s := mkConv rest (output s) in
    if str_eqb (tag top) (lit "__drop__") then push_nodes (children top) s
    else push_nodes [node_of top] s
  | [] => s
  end.

(** One turn of the [for evt in parser] loop. *)
Definition on_event (s : Conv) (evt : Event) : Conv :=
  match evt with
  | Start t => open s (start_element t)
  | End => end_element s
  | Text t => push_text s t
  | CodeSpan c => push_nodes [NodeElement (lit "code") ∅ [NodeText c]] s
  | Html h | InlineHtml h =>
    match parse_iframe_or_video h with
    | Some node => push_nodes [node_of node] s
    | None => s
    end
  | SoftBreak => push_text s (lit " ")
  | HardBreak => push_nodes [node_of (elem "br")] s
  | Rule => push_nodes [node_of (elem "hr")] s
  | EventOther => s
  end.

(** The final [while !stack.is_empty()]: each [close_top] pops one element. *)
Definition close_all (s : Conv) : Conv := Nat.iter (length (stack s)) close_top s.

(** The parser: third-party, its options fixed by the converter. *)
Class MarkdownLib := { markdown_events : str → list Event }.

Definition events_to_nodes (evts : list Event) : list Node :=
  output (close_all (foldl on_event (mkConv [] []) evts)).

(** [markdown_to_nodes] *)
Definition markdown_to_nodes `{MarkdownLib} (md : str) : list Node :=
  events_to_nodes (markdown_events md).

(** ** Documents

    Start and end events are balanced: the events of a document are the traversal of a
    tree. *)
Inductive Doc : Type :=
  | Leaf (evt : Event)
  | Branch (t : Tag) (l : list Doc).

Definition is_leaf (evt : Event) : bool :=
  match evt with Start _ | End => false | _ => true end.

Fixpoint doc_events (d : Doc) : list Event :=
  match d with
  | Leaf evt => if is_leaf evt then [evt] else []
  | Branch t l => Start t :: concat (map doc_events l) ++ [End]
  end.

(** The documented guarantee of the parser. *)
Class MarkdownLaws `{MarkdownLib} : Prop := {
  markdown_balanced md : ∃ doc : list Doc, markdown_events md = concat (map doc_events doc);
}.

(** What each node of the document becomes. *)
Definition leaf_nodes (evt : Event) : list Node :=
  match evt with
  | Text t => if bool_decide (t = []) then [] else [NodeText t]
  | CodeSpan c => [NodeElement (lit "code") ∅ [NodeText c]]
  | Html h | InlineHtml h =>
    match parse_iframe_or_video h with Some node => [node_of node] | None => [] end
  | SoftBreak => [NodeText (lit " ")]
  | HardBreak => [NodeElement (lit "br") ∅ []]
  | Rule => [NodeElement (lit "hr") ∅ []]
  | Start _ | End | EventOther => []
  end.

Fixpoint doc_nodes (d : Doc) : list Node :=
  match d with
  | Leaf evt => leaf_nodes evt
  | Branch TagOther l => concat (map doc_nodes l)
  | Branch t l =>
    [NodeElement (tag (start_element t)) (attrs (start_element t)) (concat (map doc_nodes l))]
  end.

(** The visible text of nodes, and of events. *)
Fixpoint node_text (n : Node) : str :=
  match n with
  | NodeNone => []
  | NodeText t => t
  | NodeElement _ _ children => concat (map node_text children)
  end.
Definition nodes_text (ns : list Node) : str := concat (map node_text ns).
Definition event_text (evt : Event) : str :=
  match evt with
  | Text t => t
  | CodeSpan c => c
  | SoftBreak => lit " "
  | _ => []
  end.

(** ** The loop over the attributes *)

Lemma attr_value_length chars : (length (attr_value chars).2 <= length chars)%nat.
Proof.
  destruct chars as [|q rest]; [done|]. cbn [attr_value].
  destruct (is_char 34 q || is_char 39 q); [|apply span_length].
  pose proof (span_length (λ c, negb (is_char q c)) rest) as Hs.
  destruct (span _ rest) as [v r]. cbn in *. destruct r; cbn in *; lia.
Qed.

(** Every turn consumes a character, so the loop ends. *)
Lemma attr_loop_ends fuel chars node :
  (length chars < fuel)%nat → is_Some (attr_loop fuel chars node).
Proof.
  revert chars node; induction fuel as [|fuel IH]; intros chars node Hf; [lia|].
  destruct chars as [|c chars']; cbn [attr_loop]; [by eexists|]. cbn [length] in Hf.
  destruct (is_char 62 c || is_char 47 c) eqn:Hstop; [by eexists|].
  destruct (is_whitespace c) eqn:Hws; [apply IH; lia|].
  apply orb_false_iff in Hstop as [Hgt _].
  assert (Hrest : ∀ name rest,
            span (λ c, negb (is_char 61 c || is_whitespace c || is_char 62 c)) (c :: chars')
              = (name, rest) →
            match rest with
            | e :: rest' => (length rest' < fuel)%nat ∧
                            (is_char 61 e = false → (length rest < fuel)%nat)
            | [] => True
            end).
  { intros name rest. cbn. rewrite Hws, Hgt, !orb_false_r.
    destruct (is_char 61 c) eqn:Heq; cbn; [intros [= <- <-]; split; [lia|congruence]|].
    pose proof (span_length (λ c, negb (is_char 61 c || is_whitespace c || is_char 62 c)) chars').
    destruct (span _ chars') as [a b]. intros [= <- <-]. cbn in *. destruct b; cbn in *; [done|lia]. }
  destruct (span _ (c :: chars')) as [name [|e rest']]; [apply IH; cbn; lia|].
  destruct (Hrest name (e :: rest') eq_refl) as [H1 H2].
  destruct (is_char 61 e) eqn:He; [|by apply IH, H2].
  pose proof (attr_value_length rest'). destruct (attr_value rest') as [v r]. cbn in *.
  apply IH. lia.
Qed.

(** Only [src] is ever set. *)
Definition only_src (t : str) (e : NodeElt) : Prop :=
  tag e = t ∧ children e = [] ∧ ∀ k, is_Some (attrs e !! k) → k = lit "src".

Lemma attr_loop_only_src t fuel chars node e :
  only_src t node → attr_loop fuel chars node = Some e → only_src t e.
Proof.
  revert chars node; induction fuel as [|fuel IH]; intros chars node Hn; [done|].
  destruct chars as [|c chars']; cbn [attr_loop]; [by intros [= <-]|].
  destruct (is_char 62 c || is_char 47 c); [by intros [= <-]|].
  destruct (is_whitespace c); [by apply IH|].
  destruct (span _ (c :: chars')) as [name [|e' rest']]; [by apply IH|].
  destruct (is_char 61 e'); [|by apply IH].
  destruct (attr_value rest') as [v r]. apply IH.
  destruct (str_eqb name (lit "src")); [|done]. destruct Hn as (Ht & Hc & Hk).
  split_and!; [done..|]. intros k. cbn. rewrite lookup_insert_is_Some.
  intros [<-|[_ Hk']]; [done|by apply Hk].
Qed.

(** An embed becomes an [iframe] or [video] without children that has at most a
    [src]. *)
Lemma parse_embed_shape html e :
  parse_iframe_or_video html = Some e → only_src (lit "iframe") e ∨ only_src (lit "video") e.
Proof.
  assert (Helem : ∀ t, only_src (lit t) (elem t)).
  { intros t. split_and!; [done..|]. intros k [v Hv]. exfalso. exact (lookup_empty_Some k v Hv). }
  unfold parse_iframe_or_video. intros H. destruct (starts_with _ _); [left|destruct (starts_with _ _); [right|done]].
  all: destruct (negb _); [done|]; eapply attr_loop_only_src; [|done]; apply Helem.
Qed.

(** Whatever starts like an embed is one: the fuel never runs out. *)
Lemma parse_embed_total html :
  is_Some (parse_iframe_or_video html) ↔
  starts_with (lit "<iframe") (to_ascii_lowercase (trim html)) = true ∨
  starts_with (lit "<video") (to_ascii_lowercase (trim html)) = true.
Proof.
  unfold parse_iframe_or_video.
  assert (∀ t (chars : str), is_Some (attr_loop (S (length chars)) chars (elem t))) as Hok
    by (intros; apply attr_loop_ends; lia).
  destruct (starts_with (lit "<iframe") _); [split; [by left|intros _; apply Hok]|].
  destruct (starts_with (lit "<video") _); [split; [by right|intros _; apply Hok]|].
  split; [by intros [? ?]|by intros [?|?]].
Qed.

(** ** The stack machine follows the tree *)

Lemma push_nodes_nil s : push_nodes [] s = s.
Proof. destruct s as [[|[t a c] rest] out]; cbn; by rewrite app_nil_r. Qed.
Lemma push_nodes_app a b s : push_nodes b (push_nodes a s) = push_nodes (a ++ b) s.
Proof. destruct s as [[|e rest] out]; cbn; by rewrite app_assoc. Qed.

Lemma start_element_children t : children (start_element t) = [].
Proof. destruct t as [|[]| | |[]| | | | | |? ?|]; cbn; try done. by case_bool_decide. Qed.
Lemma start_element_dropped t : str_eqb (tag (start_element t)) (lit "__drop__") = true ↔ t = TagOther.
Proof.
  split; [|by intros ->]. destruct t as [|[]| | |[]| | | | | |? ?|]; cbn; try done.
  by case_bool_decide.
Qed.

Lemma doc_nodes_branch t l :
  doc_nodes (Branch t l) =
  if str_eqb (tag (start_element t)) (lit "__drop__") then concat (map doc_nodes l)
  else [NodeElement (tag (start_element t)) (attrs (start_element t)) (concat (map doc_nodes l))].
Proof.
  destruct (str_eqb _ _) eqn:Hd; [by apply start_element_dropped in Hd as ->|].
  destruct t; try done.
Qed.

Lemma leaf_step evt s : is_leaf evt = true → on_event s evt = push_nodes (leaf_nodes evt) s.
Proof.
  destruct evt as [| |x| |x|x| | | |]; try done; intros _; cbn [on_event leaf_nodes].
  - unfold push_text. case_bool_decide; [by rewrite push_nodes_nil|done].
  - destruct (parse_iframe_or_video x); [done|by rewrite push_nodes_nil].
  - destruct (parse_iframe_or_video x); [done|by rewrite push_nodes_nil].
  - by rewrite push_nodes_nil.
Qed.

Section Doc_ind.
Context (P : Doc → Prop) (Hleaf : ∀ evt, P (Leaf evt))
  (Hbranch : ∀ t l, Forall P l → P (Branch t l)).
Fixpoint Doc_nested_ind (d : Doc) : P d :=
  match d with
  | Leaf evt => Hleaf evt
  | Branch t l => Hbranch t l
      ((fix all (l : list Doc) : Forall P l :=
          match l with
          | [] => List.Forall_nil P
          | d :: l => List.Forall_cons P d l (Doc_nested_ind d) (all l)
          end) l)
  end.
End Doc_ind.

Lemma docs_step l s :
  Forall (λ d, ∀ s, foldl on_event s (doc_events d) = push_nodes (doc_nodes d) s) l →
  foldl on_event s (concat (map doc_events l)) = push_nodes (concat (map doc_nodes l)) s.
Proof.
  intros Hl. revert s; induction Hl as [|d l Hd _ IH]; intros s; cbn; [by rewrite push_nodes_nil|].
  by rewrite foldl_app, Hd, IH, push_nodes_app.
Qed.

Lemma doc_step d s : foldl on_event s (doc_events d) = push_nodes (doc_nodes d) s.
Proof.
  revert s; induction d as [evt|t l IH] using Doc_nested_ind; intros s.
  - cbn [doc_events doc_nodes]. destruct (is_leaf evt) eqn:Hl; cbn [foldl].
    + by apply leaf_step.
    + destruct evt; try done; by rewrite push_nodes_nil.
  - cbn [doc_events foldl on_event]. rewrite foldl_app, docs_step by done.
    rewrite doc_nodes_branch. cbn [foldl on_event]. unfold open, push_nodes at 1. cbn [stack output].
    unfold end_element. cbn [stack output tag attrs children].
    rewrite start_element_children. by destruct (str_eqb _ _).
Qed.

Lemma events_of_doc l : events_to_nodes (concat (map doc_events l)) = concat (map doc_nodes l).
Proof.
  unfold events_to_nodes. rewrite docs_step by (apply Forall_forall; intros; apply doc_step).
  done.
Qed.

(** ** What comes out is acceptable *)

Definition elt_valid (e : NodeElt) : Prop :=
  tag e ∈ ALLOWED_TAGS ∧ ∀ k, is_Some (attrs e !! k) → k ∈ default [] (allowed_attrs_for (tag e)).

Lemma elem_valid t : str_mem (lit t) ALLOWED_TAGS = true → elt_valid (elem t).
Proof.
  intros Ht%str_mem_elem. split; [done|]. intros k [v Hv].
  exfalso. exact (lookup_empty_Some k v Hv).
Qed.

Lemma with_attr_valid k v e :
  str_mem (lit k) (default [] (allowed_attrs_for (tag e))) = true → elt_valid e →
  elt_valid (with_attr k v e).
Proof.
  intros Hk%str_mem_elem [Ht Ha]. split; [done|]. intros k'. cbn. rewrite lookup_insert_is_Some.
  intros [<-|[_ Hk']]; [done|by apply Ha].
Qed.

Lemma start_element_valid t : t ≠ TagOther → elt_valid (start_element t).
Proof.
  intros Ht. destruct t as [|[]| | |[]| | | | |u|u ti|]; cbn; try by apply elem_valid.
  - apply with_attr_valid; [done|by apply elem_valid].
  - assert (elt_valid (with_attr "src" u (elem "img")))
      by (apply with_attr_valid; [done|by apply elem_valid]).
    case_bool_decide; [done|]. by apply with_attr_valid.
Qed.

Lemma embed_valid html e : parse_iframe_or_video html = Some e → elt_valid e ∧ children e = [].
Proof.
  intros [H|H]%parse_embed_shape; destruct H as (Ht & Hc & Hk); (split; [|done]); unfold elt_valid;
    rewrite Ht; (split; [by apply str_mem_elem|]); intros k ->%Hk; by apply str_mem_elem.
Qed.

Lemma node_of_valid e : elt_valid e → Forall node_valid (children e) → node_valid (node_of e).
Proof. intros [? ?] ?. by constructor. Qed.

Lemma leaf_nodes_valid evt : Forall node_valid (leaf_nodes evt).
Proof.
  assert (Hh : ∀ h, Forall node_valid
            (match parse_iframe_or_video h with Some node => [node_of node] | None => [] end)).
  { intros h. destruct (parse_iframe_or_video h) as [e|] eqn:He; [|constructor].
    apply embed_valid in He as [Hv Hc]. constructor; [|constructor]. apply node_of_valid; [done|].
    rewrite Hc. constructor. }
  assert (He : ∀ t c, str_mem (lit t) ALLOWED_TAGS = true → Forall node_valid c →
            Forall node_valid [NodeElement (lit t) ∅ c]).
  { intros t c Ht Hc. constructor; [|constructor].
    apply (node_of_valid (mkElt (lit t) ∅ c)); [|done]. by apply (elem_valid t). }
  destruct evt; cbn [leaf_nodes]; try by constructor.
  - case_bool_decide; repeat constructor.
  - apply He; [done|]. repeat constructor.
  - apply Hh.
  - apply Hh.
  - repeat constructor.
  - apply He; [done|constructor].
  - apply He; [done|constructor].
Qed.

Lemma docs_valid l :
  Forall (λ d, Forall node_valid (doc_nodes d)) l → Forall node_valid (concat (map doc_nodes l)).
Proof. induction 1; cbn; [constructor|]. by apply Forall_app. Qed.

Lemma doc_nodes_valid d : Forall node_valid (doc_nodes d).
Proof.
  induction d as [evt|t l IH] using Doc_nested_ind; [apply leaf_nodes_valid|].
  apply docs_valid in IH. rewrite doc_nodes_branch. destruct (str_eqb _ _) eqn:Hd; [done|].
  constructor; [|constructor].
  apply (node_of_valid (mkElt (tag (start_element t)) (attrs (start_element t)) _)); [|done].
  apply (start_element_valid t). intros ->. done.
Qed.

(** ** No text is lost *)

Lemma nodes_text_app a b : nodes_text (a ++ b) = nodes_text a ++ nodes_text b.
Proof. unfold nodes_text. by rewrite map_app, concat_app. Qed.

Definition stack_text (l : list NodeElt) : str := concat (map (λ e, nodes_text (children e)) (reverse l)).
Definition conv_text (s : Conv) : str := nodes_text (output s) ++ stack_text (stack s).

Lemma stack_text_cons e l : stack_text (e :: l) = stack_text l ++ nodes_text (children e).
Proof. unfold stack_text. rewrite reverse_cons, map_app, concat_app. cbn. by rewrite app_nil_r. Qed.

Lemma push_nodes_text ns s : conv_text (push_nodes ns s) = conv_text s ++ nodes_text ns.
Proof.
  destruct s as [[|e rest] out]; unfold conv_text; cbn [push_nodes stack output].
  - change (stack_text []) with (@nil N). by rewrite !app_nil_r, nodes_text_app.
  - rewrite !stack_text_cons. cbn [children]. by rewrite nodes_text_app, !app_assoc.
Qed.

Lemma node_of_text e : nodes_text [node_of e] = nodes_text (children e).
Proof. unfold nodes_text. cbn. by rewrite app_nil_r. Qed.

Lemma pop_text e rest out ns :
  nodes_text ns = nodes_text (children e) →
  conv_text (push_nodes ns (mkConv rest out)) = conv_text (mkConv (e :: rest) out).
Proof.
  intros Hns. rewrite push_nodes_text, Hns. unfold conv_text. cbn [stack output].
  by rewrite stack_text_cons, app_assoc.
Qed.

Lemma on_event_text s evt : conv_text (on_event s evt) = conv_text s ++ event_text evt.
Proof.
  assert (Hh : ∀ h, conv_text (match parse_iframe_or_video h with
                              | Some node => push_nodes [node_of node] s | None => s end) = conv_text s).
  { intros h. destruct (parse_iframe_or_video h) as [e|] eqn:He; [|done].
    apply embed_valid in He as [_ Hc]. rewrite push_nodes_text, node_of_text, Hc. apply app_nil_r. }
  destruct evt as [t| |t| | | | | | |]; cbn [on_event event_text];
    try by rewrite app_nil_r, ?Hh, ?push_nodes_text, ?app_nil_r.
  - rewrite app_nil_r. unfold conv_text, open. cbn [stack output].
    rewrite stack_text_cons, start_element_children. cbn. by rewrite app_nil_r.
  - rewrite app_nil_r. destruct s as [[|e rest] out]; cbn [end_element stack output]; [done|].
    destruct (str_eqb _ _); apply pop_text; [done|apply node_of_text].
  - unfold push_text. case_bool_decide as Ht; [by rewrite Ht, app_nil_r|].
    rewrite push_nodes_text. unfold nodes_text. cbn. by rewrite app_nil_r.
  - rewrite push_nodes_text. unfold nodes_text. cbn. by rewrite !app_nil_r.
  - unfold push_text. case_bool_decide; [done|]. by rewrite push_nodes_text.
Qed.

Lemma close_all_text s : nodes_text (output (close_all s)) = conv_text s.
Proof.
  unfold close_all. destruct s as [st out]. cbn [stack].
  assert (Hn : ∀ n s, length (stack s) = n →
            stack (Nat.iter n close_top s) = [] ∧
            conv_text (Nat.iter n close_top s) = conv_text s).
  { induction n as [|n IH]; intros [st' out'] Hlen; cbn [stack] in *.
    - by apply nil_length_inv in Hlen as ->.
    - destruct st' as [|e rest]; [done|]. cbn in Hlen. injection Hlen as Hlen.
      rewrite Nat.iter_succ_r. change (close_top (mkConv (e :: rest) out'))
        with (push_nodes [node_of e] (mkConv rest out')).
      destruct (IH (push_nodes [node_of e] (mkConv rest out'))) as [H1 H2];
        [by destruct rest|].
      split; [done|]. rewrite H2. apply pop_text, node_of_text. }
  destruct (Hn (length st) (mkConv st out) eq_refl) as [H1 H2].
  rewrite <- H2. unfold conv_text. rewrite H1. symmetry. apply app_nil_r.
Qed.

(** ** An embed is read back *)

(** [name="value"] pairs as HTML authors write them. *)
Definition render_attr (nv : str * str) : str := lit " " ++ nv.1 ++ [61; 34]%N ++ nv.2 ++ [34]%N.
Definition render_embed (tag : string) (l : list (str * str)) : str :=
  lit "<" ++ lit tag ++ concat (map render_attr l) ++ lit "></" ++ lit tag ++ lit ">".
Definition attr_wf (nv : str * str) : Prop :=
  (∃ c s, nv.1 = c :: s ∧ c ≠ 47%N) ∧
  Forall (λ c, is_char 61 c || is_whitespace c || is_char 62 c = false) nv.1 ∧
  34%N ∉ nv.2.

(** What the loop makes of one pair. *)
Definition read_attr (e : NodeElt) (nv : str * str) : NodeElt :=
  if str_eqb nv.1 (lit "src") then with_attr "src" nv.2 e else e.

Lemma attr_value_quoted v rest : 34%N ∉ v → attr_value (34%N :: v ++ 34%N :: rest) = (v, rest).
Proof.
  intros Hv. cbn [attr_value]. change (is_char 34 34 || is_char 39 34) with true. cbv iota.
  rewrite span_stop; [done| |done]. apply Forall_forall. intros c Hc.
  unfold is_char. apply negb_true_iff, N.eqb_neq. by intros ->.
Qed.

Lemma attr_loop_step fuel nv rest node :
  attr_wf nv →
  attr_loop (S (S fuel)) (render_attr nv ++ rest) node = attr_loop fuel rest (read_attr node nv).
Proof.
  destruct nv as [n v]. intros ((c & s & Hn & Hc) & Hname & Hv). cbn [fst snd] in *. subst n.
  apply Forall_cons in Hname as [H1 Hs]. pose proof H1 as H1'.
  apply orb_false_iff in H1' as [[_ Hws]%orb_false_iff Hgt].
  assert (Hspan : span (λ c, negb (is_char 61 c || is_whitespace c || is_char 62 c))
            ((c :: s) ++ 61 :: 34 :: v ++ 34 :: rest)%N
            = (c :: s, 61 :: 34 :: v ++ 34 :: rest)%N).
  { apply span_stop; [|done]. constructor; [by rewrite H1|].
    eapply Forall_impl; [exact Hs|]. cbn. by intros ? ->. }
  replace (render_attr (c :: s, v) ++ rest)
    with (32%N :: (c :: s) ++ (61 :: 34 :: v ++ 34 :: rest)%N)
    by (unfold render_attr; cbn [fst snd]; by rewrite <- !app_assoc).
  cbn [attr_loop]. change (is_char 62 32 || is_char 47 32) with false.
  change (is_whitespace 32) with true. cbn [attr_loop].
  change ((c :: s) ++ (61 :: 34 :: v ++ 34 :: rest)%N)
    with (c :: (s ++ (61 :: 34 :: v ++ 34 :: rest)%N)) in *.
  cbv beta iota. cbn [attr_loop].
  rewrite Hgt, Hws, Hspan. replace (is_char 47 c) with false by (symmetry; by apply N.eqb_neq).
  cbn [orb]. change (is_char 61 61) with true. cbv iota. by rewrite attr_value_quoted.
Qed.

Lemma attr_loop_render fuel l rest node :
  Forall attr_wf l → (length (concat (map render_attr l)) < fuel)%nat →
  attr_loop fuel (concat (map render_attr l) ++ 62%N :: rest) node = Some (foldl read_attr node l).
Proof.
  intros Hl. revert fuel node; induction Hl as [|nv l Hnv _ IH]; intros fuel node Hf.
  - destruct fuel; [cbn in Hf; lia|]. done.
  - cbn [map concat] in *. rewrite length_app in Hf.
    assert (2 <= length (render_attr nv))%nat.
    { unfold render_attr. rewrite !length_app. cbn. lia. }
    destruct fuel as [|[|fuel]]; [lia..|]. rewrite <- app_assoc, attr_loop_step by done.
    apply IH. lia.
Qed.

Lemma embed_read tag l :
  tag ∈ ["iframe"; "video"]%string → Forall attr_wf l →
  parse_iframe_or_video (render_embed tag l) = Some (foldl read_attr (elem tag) l).
Proof.
  intros Htag Hl.
  assert (Hparse : parse_iframe_or_video (render_embed tag l) =
    attr_loop (S (length (concat (map render_attr l) ++ lit "></" ++ lit tag ++ lit ">")))
      (concat (map render_attr l) ++ lit "></" ++ lit tag ++ lit ">") (elem tag)).
  { unfold parse_iframe_or_video.
    assert (trim (render_embed tag l) = render_embed tag l) as ->.
    { pose proof (λ s, trim_ends 60 s 62 eq_refl eq_refl) as Ht.
      specialize (Ht (lit tag ++ concat (map render_attr l) ++ lit "></" ++ lit tag)).
      unfold render_embed. by rewrite <- !app_assoc in Ht. }
    unfold render_embed, to_ascii_lowercase.
    apply elem_of_cons in Htag as [->|Htag]; [|apply list_elem_of_singleton in Htag as ->];
      rewrite !fmap_app; done. }
  rewrite Hparse. change (lit "></") with (62%N :: lit "</"). rewrite <- app_comm_cons.
  apply attr_loop_render; [done|]. rewrite length_app. lia.
Qed.

(** ** Theorems *)

Section markdown.
Context `{MarkdownLib}.

(** C39. The converter's stack machine computes the recursive reading of the
    document: every kept element once, at its place, with its children in order, and the
    children of an unsupported element in its stead. *)
Theorem markdown_reads_as_tree md doc :
  markdown_events md = concat (map doc_events doc) →
  markdown_to_nodes md = concat (map doc_nodes doc).
Proof. unfold markdown_to_nodes. intros ->. apply events_of_doc. Qed.

(** Whatever events the parser emits, balanced or not, no visible text is
    lost, duplicated or reordered. *)
Theorem markdown_keeps_text md :
  nodes_text (markdown_to_nodes md) = concat (map event_text (markdown_events md)).
Proof.
  unfold markdown_to_nodes, events_to_nodes. rewrite close_all_text.
  assert (∀ evts s, conv_text (foldl on_event s evts) = conv_text s ++ concat (map event_text evts))
    as Hf; [|by rewrite Hf].
  induction evts as [|evt evts IH]; intros s; cbn; [by rewrite app_nil_r|].
  by rewrite IH, on_event_text, app_assoc.
Qed.

Lemma markdown_valid `{!MarkdownLaws} md : Forall node_valid (markdown_to_nodes md).
Proof.
  destruct (markdown_balanced md) as [doc Hdoc]. unfold markdown_to_nodes.
  rewrite Hdoc, events_of_doc. apply docs_valid, Forall_forall. intros. apply doc_nodes_valid.
Qed.

(** The article service accepts every converted document that is not empty
    and fits in its size limit: the converter never emits a tag or an attribute outside
    the allow-list. *)
Theorem markdown_accepted `{!MarkdownLaws} `{SerdeLib} md max_bytes b :
  markdown_to_nodes md ≠ [] →
  json_to_vec (nodes_to_json (markdown_to_nodes md)) = Ok b →
  Z.of_nat (length b) <= max_bytes →
  validate_and_encode_content (markdown_to_nodes md) max_bytes =
    Ok (nodes_to_json (markdown_to_nodes md)).
Proof.
  intros Hne Hb Hle. apply validated_content. split_and!; [done|apply markdown_valid|done| |].
  - apply nodes_json_roundtrip.
  - by exists b.
Qed.
End markdown.

(** The attributes of an embed: the last [src]. *)
Lemma read_attrs l e :
  tag (foldl read_attr e l) = tag e ∧ children (foldl read_attr e l) = children e ∧
  attrs (foldl read_attr e l) =
    list_to_map (reverse (filter (λ nv, nv.1 = lit "src") l)) ∪ attrs e.
Proof.
  revert e; induction l as [|nv l IH]; intros e; [cbn; by rewrite (left_id_L ∅ (∪))|].
  cbn [foldl]. destruct (IH (read_attr e nv)) as (-> & -> & ->). rewrite filter_cons.
  unfold read_attr, str_eqb. destruct nv as [n v]. cbn [fst snd].
  case_bool_decide as Hn; case_decide; try congruence; [|done]. subst n.
  split_and!; [done..|]. rewrite reverse_cons, list_to_map_app. cbn [attrs with_attr].
  rewrite <- (assoc_L (∪)). f_equal. cbn. rewrite insert_empty.
  by rewrite insert_union_singleton_l.
Qed.

(** An [iframe] or [video] as authors write it is converted with its [src]
    and without any other attribute, however its attributes are ordered. *)
Theorem embed_keeps_src t l :
  t ∈ ["iframe"; "video"]%string → Forall attr_wf l →
  parse_iframe_or_video (render_embed t l) =
  Some (mkElt (lit t) (list_to_map (reverse (filter (λ nv, nv.1 = lit "src") l))) []).
Proof.
  intros Ht Hl. rewrite embed_read by done. destruct (read_attrs l (elem t)) as (H1 & H2 & H3).
  destruct (foldl read_attr (elem t) l) as [t' a c]. cbn in *. subst.
  by rewrite (right_id_L ∅ (∪)).
Qed.

(** ** Witnesses *)

(** A parser that makes one paragraph, in an unsupported wrapper, of a text. *)
Definition toy_markdown : MarkdownLib :=
  {| markdown_events md := [Start TagOther; Start TagParagraph; Text md; End; End] |}.
Definition toy_doc (md : str) : list Doc :=
  [Branch TagOther [Branch TagParagraph [Leaf (Text md)]]].
Lemma toy_markdown_laws : @MarkdownLaws toy_markdown.
Proof. constructor. intros md. by exists (toy_doc md). Qed.

Example markdown_reads_as_tree_witness :
  @markdown_to_nodes toy_markdown (lit "hi") = [NodeElement (lit "p") ∅ [NodeText (lit "hi")]].
Proof. exact (@markdown_reads_as_tree toy_markdown (lit "hi") (toy_doc (lit "hi")) eq_refl). Defined.

Example markdown_accepted_witness :
  @validate_and_encode_content toy_serde (@markdown_to_nodes toy_markdown (lit "hi")) 20
  = Ok (nodes_to_json [NodeElement (lit "p") ∅ [NodeText (lit "hi")]]).
Proof.
  apply (@markdown_accepted toy_markdown toy_markdown_laws toy_serde (lit "hi") 20 []);
    [done|reflexivity|done].
Defined.

Example embed_keeps_src_witness :
  parse_iframe_or_video (lit "<iframe width='640' src='http://v/1' allow='a'></iframe>")
  = Some (mkElt (lit "iframe") {[ lit "src" := lit "http://v/1" ]} []) ∧
  parse_iframe_or_video (render_embed "video" [(lit "width", lit "640"); (lit "src", lit "u")])
  = Some (mkElt (lit "video") {[ lit "src" := lit "u" ]} []).
Proof.
  split; [vm_compute; reflexivity|].
  apply (embed_keeps_src "video" [(lit "width", lit "640"); (lit "src", lit "u")]).
  - set_solver.
  - repeat constructor; try (by vm_compute); try (eexists _, _; split; [reflexivity|done]);
      apply (bool_decide_unpack _); vm_compute; exact I.
Defined.
