(* ===== verification/Frontmatter.v ===== *)
(** * Front matter of the seed articles ([headlines-server/src/seed/frontmatter.rs])

    The small [key: "value"] header in front of a Markdown body. *)

From S2P Require Import Prelude.

Record Frontmatter := {
  fm_title : str;
  fm_author_name : option str;
  fm_author_url : option str;
  fm_created_at : option str;
  fm_state : option str;
  fm_tombstone_reason : option str;
  fm_redaction_reason : option str;
}.
Record SeedArticle := { sa_frontmatter : Frontmatter; sa_body : str }.

(** [Frontmatter::from_map] *)
Definition from_map (map : gmap str str) : Frontmatter :=
  let take (k : string) := map !! lit k in
  {| fm_title := or_default (take "title"%string);
     fm_author_name := take "author_name"%string;
     fm_author_url := take "author_url"%string;
     fm_created_at := take "created_at"%string;
     fm_state := take "state"%string;
     fm_tombstone_reason := take "tombstone_reason"%string;
     fm_redaction_reason := take "redaction_reason"%string |}.
(** [Frontmatter::default] *)
Definition default_frontmatter : Frontmatter := Build_Frontmatter [] None None None None None None.

(** Every escaped quote character becomes a plain one. *)
Fixpoint unescape_quotes (s : str) : str :=
  match s with
  | c :: s' =>
    match s' with
    | d :: s'' =>
      if ((c =? 92) && (d =? 34))%N then 34%N :: unescape_quotes s'' else c :: unescape_quotes s'
    | [] => [c]
    end
  | [] => []
  end.

(** Between two equal quote characters: [v[1..v.len() - 1]]. *)
Definition quoted_by (q : N) (v : str) : option str :=
  match v with
  | c :: rest => if (c =? q)%N then strip_suffix [q] rest else None
  | [] => None
  end.

(** [strip_quotes] *)
Definition strip_quotes (v : str) : str :=
  let v := trim v in
  match quoted_by 34 v with
  | Some inner => unescape_quotes inner
  | None => match quoted_by 39 v with Some inner => unescape_quotes inner | None => v end
  end.

(** One turn of the loop over the lines of the block. *)
Definition add_line (map : gmap str str) (line : str) : gmap str str :=
  if bool_decide (trim line = []) then map
  else match split_once 58 line with
       | Some (k, v) => <[trim k := strip_quotes (trim v)]> map
       | None => map
       end.

(** [trim_start_matches('\n')] *)
Definition trim_start_newlines (s : str) : str := (span (λ c, (c =? 10)%N) s).2.

(** [parse_article] *)
Definition parse_article (input : str) : SeedArticle :=
  match strip_prefix (lit "---" ++ [10%N]) input with
  | None => {| sa_frontmatter := default_frontmatter; sa_body := input |}
  | Some rest =>
    match split_at (10%N :: lit "---") rest with
    | None => {| sa_frontmatter := default_frontmatter; sa_body := rest |}
    | Some (fm_block, after) =>
      {| sa_frontmatter := from_map (foldl add_line ∅ (str_lines fm_block));
         sa_body := trim_start_newlines after |}
    end
  end.

(** ** The format the seed articles are written in *)

Definition escape_quotes (v : str) : str := v ≫= λ c, if (c =? 34)%N then [92; 34]%N else [c].
Definition render_line (kv : str * str) : str :=
  kv.1 ++ lit ": " ++ [34%N] ++ escape_quotes kv.2 ++ [34%N].
Definition fields (fm : Frontmatter) : list (str * str) :=
  let opt (k : string) (o : option str) := match o with Some v => [(lit k, v)] | None => [] end in
  (lit "title", fm_title fm) ::
  opt "author_name"%string (fm_author_name fm) ++ opt "author_url"%string (fm_author_url fm) ++
  opt "created_at"%string (fm_created_at fm) ++ opt "state"%string (fm_state fm) ++
  opt "tombstone_reason"%string (fm_tombstone_reason fm) ++
  opt "redaction_reason"%string (fm_redaction_reason fm).
Definition render_article (a : SeedArticle) : str :=
  lit "---" ++ [10%N] ++ join [10%N] (map render_line (fields (sa_frontmatter a))) ++
  [10%N] ++ lit "---" ++ [10%N] ++ sa_body a.

Lemma unescape_escape v : unescape_quotes (escape_quotes v) = v.
Proof.
  assert (Hcons : ∀ c s, (c ≠ 92 ∨ head s ≠ Some 34)%N →
            unescape_quotes (c :: s) = c :: unescape_quotes s).
  { intros c [|d s] Hc; [done|]. cbn [unescape_quotes].
    destruct (N.eqb_spec c 92), (N.eqb_spec d 34); subst; naive_solver. }
  induction v as [|c v IH]; [done|]. unfold escape_quotes. cbn [mbind list_bind].
  change (v ≫= _) with (escape_quotes v). destruct (N.eqb_spec c 34) as [->|Hc].
  - cbn [app unescape_quotes]. change ((92 =? 92) && (34 =? 34))%N with true. cbv iota. by rewrite IH.
  - cbn [app]. rewrite Hcons, IH; [done|]. right. intros Hh.
    destruct v as [|d v]; [done|]. cbn in Hh. destruct (N.eqb_spec d 34); cbn in Hh; congruence.
Qed.

Lemma strip_quotes_quoted v : strip_quotes (34%N :: escape_quotes v ++ [34%N]) = v.
Proof.
  unfold strip_quotes. rewrite trim_ends by done. cbn [quoted_by]. rewrite N.eqb_refl.
  assert (strip_suffix [34%N] (escape_quotes v ++ [34%N]) = Some (escape_quotes v)) as ->
    by by apply strip_suffix_some.
  apply unescape_escape.
Qed.

(** Field names: no colon, no line break, no white space. *)
Definition key_wf (k : str) : Prop :=
  58%N ∉ k ∧ (∀ c, c ∈ k → is_whitespace c = false) ∧ ∃ c s, k = c :: s ∧ c ≠ 45%N.

Lemma add_rendered_line m kv :
  key_wf kv.1 → add_line m (render_line kv) = <[kv.1 := kv.2]> m.
Proof.
  destruct kv as [k v]. intros (Hcolon & Hws & c & s & Hk & _). cbn [fst snd] in *.
  unfold add_line, render_line. cbn [fst snd].
  change (lit ": ") with [58; 32]%N. cbn [app].
  assert (Htrim : trim (k ++ 58%N :: 32%N :: 34%N :: escape_quotes v ++ [34%N]) ≠ []).
  { subst k. cbn [app]. pose proof (trim_ends c (s ++ 58 :: 32 :: 34 :: escape_quotes v)%N 34) as Ht.
    rewrite <- app_assoc in Ht. cbn [app] in Ht. rewrite Ht; [done| |done]. apply Hws. set_solver. }
  rewrite bool_decide_false by done. rewrite split_once_app by done.
  rewrite (trim_id k) by done. f_equal. 
  assert (trim (32%N :: 34%N :: escape_quotes v ++ [34%N]) = 34%N :: escape_quotes v ++ [34%N]) as ->.
  { change (trim (34%N :: escape_quotes v ++ [34%N]) = 34%N :: escape_quotes v ++ [34%N]).
    by rewrite trim_ends. }
  apply strip_quotes_quoted.
Qed.

(** The first occurrence of a line break followed by a marker. *)
Lemma split_at_skip q w s :
  10%N ∉ w → split_at (10%N :: q) (w ++ s) = prod_map (app w) id <$> split_at (10%N :: q) s.
Proof.
  induction w as [|c w IH]; intros Hw.
  - cbn [app]. by destruct (split_at _ s) as [[a b]|].
  - apply not_elem_of_cons in Hw as [Hc Hw].
    assert (Hsp : strip_prefix (10%N :: q) (c :: w ++ s) = None).
    { cbn [strip_prefix]. apply N.eqb_neq in Hc. by rewrite Hc. }
    cbn [app split_at]. rewrite Hsp, IH by done. by destruct (split_at _ s) as [[a b]|].
Qed.

Lemma split_at_lines q ws s :
  ws ≠ [] → Forall (λ w, 10%N ∉ w ∧ ∀ x, strip_prefix q (w ++ x) = None) ws →
  split_at (10%N :: q) (join [10%N] ws ++ 10%N :: q ++ s) = Some (join [10%N] ws, s).
Proof.
  induction ws as [|w ws IH]; intros Hne Hws; [done|].
  apply Forall_cons in Hws as [[Hw _] Hws].
  destruct ws as [|w' ws].
  - cbn [join]. rewrite split_at_skip by done.
    assert (strip_prefix (10%N :: q) (10%N :: q ++ s) = Some s) as Hsp
      by (apply strip_prefix_some; done).
    cbn [split_at]. rewrite Hsp. cbn. by rewrite app_nil_r.
  - change (join [10%N] (w :: w' :: ws)) with (w ++ [10%N] ++ join [10%N] (w' :: ws)).
    rewrite <- !app_assoc, split_at_skip by done.
    assert (Hsp : strip_prefix (10%N :: q)
              ([10%N] ++ join [10%N] (w' :: ws) ++ 10%N :: q ++ s) = None).
    { cbn [app strip_prefix]. change (10 =? 10)%N with true. cbv iota.
      apply Forall_cons in Hws as [[_ Hq] _].
      destruct ws; cbn [join]; rewrite <- ?app_assoc; apply Hq. }
    cbn [app split_at] in *. rewrite Hsp, IH by done. done.
Qed.

Definition values (fm : Frontmatter) : list str := (fields fm).*2.
Record article_wf (a : SeedArticle) : Prop := {
  wf_values : Forall (λ v, 10%N ∉ v) (values (sa_frontmatter a));
  wf_body : head (sa_body a) ≠ Some 10%N;
}.

Lemma key_wf_lit k :
  negb (existsb (λ c, (c =? 58)%N || is_whitespace c) (lit k)) &&
    match lit k with c :: _ => negb (c =? 45)%N | [] => false end = true → key_wf (lit k).
Proof.
  intros [Hk%negb_true_iff Hh]%andb_true_iff.
  assert (Hc : ∀ c, c ∈ lit k → (c =? 58)%N || is_whitespace c = false).
  { intros c Hin. destruct (_ || _) eqn:He; [|done]. rewrite <- Hk. symmetry.
    apply existsb_exists. exists c. split; [by apply list_elem_of_In|done]. }
  split_and!.
  - intros Hin. apply Hc in Hin. done.
  - intros c Hin%Hc. by apply orb_false_iff in Hin as [_ ?].
  - destruct (lit k) as [|c s]; [done|]. exists c, s. split; [done|].
    intros ->. done.
Qed.

Lemma fields_keys fm : Forall (λ kv, key_wf kv.1) (fields fm).
Proof.
  unfold fields. destruct fm as [t [] [] [] [] [] []]; cbn [app fm_title fm_author_name fm_author_url
    fm_created_at fm_state fm_tombstone_reason fm_redaction_reason];
    repeat (apply Forall_cons; split; [by apply key_wf_lit|]); constructor.
Qed.

Lemma fields_from_map fm :
  from_map (foldl (λ m kv, <[kv.1 := kv.2]> m) ∅ (fields fm)) = fm.
Proof. destruct fm as [t [] [] [] [] [] []]; reflexivity. Qed.

Lemma escape_no_newline v : 10%N ∉ v → 10%N ∉ escape_quotes v.
Proof.
  intros Hv (c & Hin & Hc)%list_elem_of_bind. destruct (N.eqb_spec c 34); set_solver.
Qed.

Lemma strip_cr_quoted w : strip_cr (w ++ [34%N]) = w ++ [34%N].
Proof.
  unfold strip_cr. destruct (strip_suffix [13%N] _) as [r|] eqn:Hr; [|done].
  apply strip_suffix_some, app_inj_2 in Hr as [_ Hr]; [|done]. by injection Hr.
Qed.

Lemma rendered_lines (l : list (str * str)) :
  Forall (λ kv, key_wf kv.1) l → Forall (λ v, 10%N ∉ v) l.*2 →
  Forall (λ w, w ≠ [] ∧ 10%N ∉ w ∧ strip_cr w = w ∧ ∀ x, strip_prefix (lit "---") (w ++ x) = None)
    (map render_line l).
Proof.
  induction l as [|[k v] l IH]; intros Hk Hv; [constructor|].
  apply Forall_cons in Hk as [(_ & Hws & c & s & Hks & Hc) Hk]. cbn in Hv, Hws, Hks.
  apply Forall_cons in Hv as [Hv Hvs]. constructor; [|by apply IH].
  unfold render_line. cbn [fst snd]. split_and!.
  - by rewrite Hks.
  - rewrite !not_elem_of_app. split_and!; [|set_solver..|by apply escape_no_newline|set_solver].
    intros Hin. by apply Hws in Hin.
  - rewrite !app_assoc. apply strip_cr_quoted.
  - intros x. rewrite Hks. change (lit "---") with [45; 45; 45]%N. cbn [app strip_prefix].
    apply N.eqb_neq in Hc. by rewrite N.eqb_sym, Hc.
Qed.

Lemma parse_rendered_article a : article_wf a → parse_article (render_article a) = a.
Proof.
  intros [Hv Hb]. pose proof (fields_keys (sa_frontmatter a)) as Hk.
  pose proof (rendered_lines _ Hk Hv) as Hl.
  unfold parse_article, render_article. rewrite app_assoc.
  assert (∀ x, strip_prefix (lit "---" ++ [10%N]) ((lit "---" ++ [10%N]) ++ x) = Some x) as ->
    by (intros; by apply strip_prefix_some).
  assert (∀ w s : str, w ++ [10%N] ++ lit "---" ++ s = w ++ 10%N :: lit "---" ++ s) as -> by done.
  rewrite split_at_lines.
  - f_equal. destruct a as [fm body]; cbn [sa_frontmatter sa_body] in *. f_equal.
    + rewrite str_lines_join; [|eapply Forall_impl; [exact Hl|]; by intros w (? & ? & ? & _)].
      rewrite <- (fields_from_map fm) at 2. f_equal. clear -Hk. generalize (∅ : gmap str str) as m.
      induction Hk as [|kv l Hkv _ IH]; intros m; [done|]. cbn. by rewrite add_rendered_line, IH.
    + unfold trim_start_newlines. change ([10%N] ++ body) with (10%N :: body). cbn [span].
      change (10 =? 10)%N with true. cbv iota.
      destruct body as [|c body]; [done|]. cbn [span].
      destruct (N.eqb_spec c 10) as [->|]; [by destruct Hb|done].
  - done.
  - eapply Forall_impl; [exact Hl|]. by intros w (_ & ? & _ & ?).
Qed.

(** An article written with its fields quoted and its quotes escaped is read
    back: every field, absent or present, and the body, for all texts without line breaks
    and bodies that do not begin with one. *)
Theorem article_file_reads_back a : article_wf a → parse_article (render_article a) = a.
Proof. apply parse_rendered_article. Qed.

Example article_file_reads_back_witness :
  let a := {| sa_frontmatter :=
                {| fm_title := lit "A 'b' " ++ [34; 92]%N; fm_author_name := None;
                   fm_author_url := Some (lit "http://x"); fm_created_at := None;
                   fm_state := Some (lit "tombstone"); fm_tombstone_reason := Some [];
                   fm_redaction_reason := None |};
              sa_body := lit "Body" |} in
  parse_article (render_article a) = a.
Proof.
  intros a. apply (article_file_reads_back a). split; [|done].
  repeat (apply Forall_cons; split; [apply (bool_decide_unpack _); vm_compute; exact I|]).
  constructor.
Defined.

(** The closing marker is any line that begins with [---], and a block without
    fields has none. *)
Example closing_marker_is_a_prefix :
  parse_article (lit "---" ++ [10%N] ++ lit "title: a" ++ [10%N] ++ lit "---- b" ++ [10%N] ++ lit "c")
  = {| sa_frontmatter := Build_Frontmatter (lit "a") None None None None None None;
       sa_body := lit "- b" ++ [10%N] ++ lit "c" |}.
Proof. vm_compute. reflexivity. Qed.
Example empty_block_is_not_closed :
  parse_article (lit "---" ++ [10%N] ++ lit "---" ++ [10%N] ++ lit "c")
  = {| sa_frontmatter := default_frontmatter; sa_body := lit "---" ++ [10%N] ++ lit "c" |}.
Proof. vm_compute. reflexivity. Qed.
