(* ===== verification/Rpc.v ===== *)
(** * What the gRPC handlers share ([headlines-api/src/services])

    Every service module has its own copy of these helpers; the copies are the
    same. *)

From S2P Require Import Prelude Libs Errors Subject Db Strategy.

(** What a handler returns instead of a reply: a domain error, converted by
    [Status::from], or a bare [Status::permission_denied].  [Status::from] is kept
    out of the handlers; [Errors] shows that it determines the error. *)
Inductive Fault : Type :=
  | Domain (e : HeadlinesError)
  | Denied (msg : str).

(** [.map_err(Status::from)?] on a repository call and on a pure check, and
    [Err(HeadlinesError::.. .into())]. *)
Definition call {A} (m : M HeadlinesError A) : M Fault A := map_errM Domain m.
Definition check {A} (r : result HeadlinesError A) : M Fault A := lift (map_err Domain r).
Definition fail {A} (e : HeadlinesError) : M Fault A := throw (Domain e).
Definition permission_denied {A} (msg : string) : M Fault A := throw (Denied (lit msg)).
(** [ok_or_else(..)?] *)
Definition require {A} (e : HeadlinesError) (o : option A) : M Fault A :=
  some_or (Domain e) o.

(** [prost_types::Timestamp] and [ts_to_proto]: [timestamp()] rounds down, the
    sub-second part is what is left. *)
Record Timestamp := { seconds : Z; nanos : Z }.
Definition ts_to_proto (t : DateTime) : Timestamp :=
  {| seconds := t / 1000000000; nanos := t mod 1000000000 |}.

(** [headlines.v1.PublicKey] *)
Record PublicKey := { pk_algo : str; pk_public_key : str }.

(** [BootstrapMode] *)
Inductive BootstrapMode : Type := Open | SystemOnly.
#[export] Instance BootstrapMode_eq_dec : EqDecision BootstrapMode.
Proof. solve_decision. Defined.

(** [validate_public_key] *)
Definition validate_public_key `{Base64Lib} (algos : AlgorithmRegistry) (pk : PublicKey) :
    result HeadlinesError (str * str) :=
  if bool_decide (pk_algo pk = []) then
    Err (InvalidArgument (lit "initial_key.algo") (lit "algo is required"))
  else
    match registry_get (pk_algo pk) algos with
    | None => Err (UnsupportedAlgorithm (pk_algo pk))
    | Some _ =>
      decoded ← map_err (λ e, InvalidPublicKey (lit "base64 decode: " ++ e))
                  (b64_decode (pk_public_key pk));
      if str_eqb (pk_algo pk) (lit "ed25519") && negb (length decoded =? 32)%nat then
        Err (InvalidPublicKey (lit "ed25519 key must be 32 bytes, got "
                                 ++ dec_nat (length decoded)))
      else Ok (pk_algo pk, pk_public_key pk)
    end.

(** ** Handlers that do not write *)

Lemma preserves_call P {A} (m : M HeadlinesError A) : preserves P m → preserves P (call m).
Proof. apply preserves_map_err. Qed.
Lemma preserves_check P {A} (r : result HeadlinesError A) : preserves P (check r).
Proof. apply preserves_lift. Qed.
Lemma preserves_fail P {A} e : preserves P (fail (A := A) e).
Proof. apply preserves_throw. Qed.
Lemma preserves_denied P {A} msg : preserves P (permission_denied (A := A) msg).
Proof. apply preserves_throw. Qed.
Lemma preserves_require P {A} e (o : option A) : preserves P (require e o).
Proof. apply preserves_some_or. Qed.
#[export] Hint Resolve preserves_call preserves_check preserves_fail preserves_denied
  preserves_require : preserve.

(** A handler that keeps every predicate the other requests keep makes no change of
    its own. *)
Definition writes_nothing {E A} (m : M E A) : Prop := ∀ P, preserves P m.

Lemma bind_call {A B} (m : M HeadlinesError A) (f : A → M Fault B) env w :
  (call m ≫= f) env w =
  match m env w with (Ok a, w') => f a env w' | (Err e, w') => (Err (Domain e), w') end.
Proof. unfold call, map_errM, mbind, M_bind. by destruct (m env w) as [[?|?] ?]. Qed.
Lemma bind_check {A B} (r : result HeadlinesError A) (f : A → M Fault B) env w :
  (check r ≫= f) env w = match r with Ok a => f a env w | Err e => (Err (Domain e), w) end.
Proof. by destruct r. Qed.
Lemma bind_require {A B} e (o : option A) (f : A → M Fault B) env w :
  (require e o ≫= f) env w = match o with Some a => f a env w | None => (Err (Domain e), w) end.
Proof. by destruct o. Qed.

(** What a handler that succeeded went through. *)
Lemma call_ok {A} (m : M HeadlinesError A) env w a w' :
  call m env w = (Ok a, w') → m env w = (Ok a, w').
Proof. apply map_errM_ok. Qed.
Lemma check_ok {A} (r : result HeadlinesError A) env w a w' :
  check r env w = (Ok a, w') → r = Ok a ∧ w' = w.
Proof. destruct r; cbn; unfold check, lift; intros; by simplify_eq/=. Qed.
Lemma require_ok {A} e (o : option A) env w a w' :
  require e o env w = (Ok a, w') → o = Some a ∧ w' = w.
Proof. apply some_or_ok. Qed.

(** Inverts a successful run of a handler, bind by bind. *)
Ltac rpc_inv H :=
  repeat match type of H with
  | (_ ≫= _) _ _ = (Ok _, _) =>
    let a := fresh "a" in let w := fresh "w" in let Hm := fresh "Hm" in
    apply bind_ok in H as (a & w & Hm & H); cbv beta in H; rpc_leaf Hm
  | (if ?b then _ else _) _ _ = (Ok _, _) =>
    let Hb := fresh "Hb" in destruct b eqn:Hb; try discriminate H
  | (let _ := _ in _) _ _ = (Ok _, _) => cbv zeta in H
  | (match ?x with _ => _ end) _ _ = (Ok _, _) =>
    let Hx := fresh "Hx" in destruct x eqn:Hx; try discriminate H
  end; rpc_leaf H
with rpc_leaf H :=
  lazymatch type of H with
  | call _ _ _ = _ => apply call_ok in H
  | check _ _ _ = _ => apply check_ok in H as [? ?]
  | require _ _ _ _ = _ => apply require_ok in H as [? ?]
  | mret _ _ _ = _ => unfold mret, M_ret in H; simplify_eq
  | fail _ _ _ = _ => discriminate H
  | permission_denied _ _ _ = _ => discriminate H
  | _ => idtac
  end.
