(* ===== verification/AccountService.v ===== *)
(** * The account and user services ([headlines-api/src/services/account.rs],
    [user.rs])

    Validation, ownership, update masks, registration and the protection against
    revoking the last active key, over the repository traits of [Accounts]. *)

From S2P Require Import Prelude Libs Instances Errors Subject Db Accounts Content Strategy Rpc.

(** ** Validation *)

Definition SHORT_NAME_MIN : nat := 1.
Definition SHORT_NAME_MAX : nat := 32.
Definition ACCOUNT_AUTHOR_NAME_MIN : nat := 1.
Definition DISPLAY_NAME_MAX_CHARS : nat := 64.

(** [validate_short_name] *)
Definition short_name_char (c : N) : bool :=
  is_ascii_alphanumeric c || (c =? 32)%N || (c =? 95)%N || (c =? 45)%N.
Definition validate_short_name (raw : str) : result HeadlinesError str :=
  let trimmed := trim raw in
  let char_count := length trimmed in
  if negb ((SHORT_NAME_MIN <=? char_count)%nat && (char_count <=? SHORT_NAME_MAX)%nat) then
    Err (invalid_argument "short_name" (lit "length must be 1..=32 characters"))
  else if negb (forallb short_name_char trimmed) then
    Err (invalid_argument "short_name" (lit "must match [A-Za-z0-9 _-]"))
  else Ok trimmed.

(** [validate_author_name] of account.rs; [validate_author_url] is the article
    service's, word for word. *)
Definition account_validate_author_name (raw : str) : result HeadlinesError str :=
  let trimmed := trim raw in
  let char_count := length trimmed in
  if negb ((ACCOUNT_AUTHOR_NAME_MIN <=? char_count)%nat
           && (char_count <=? AUTHOR_NAME_MAX)%nat) then
    Err (invalid_argument "author_name" (lit "length must be 1..=128 characters"))
  else Ok trimmed.

(** [validate_display_name] *)
Definition validate_display_name (raw : str) : result HeadlinesError str :=
  let trimmed := trim raw in
  if bool_decide (trimmed = []) then Ok []
  else if (DISPLAY_NAME_MAX_CHARS <? length trimmed)%nat then
    Err (invalid_argument "display_name" (lit "length must be <= 64 characters"))
  else Ok trimmed.

(** ** Messages *)

Record ProtoAccount := {
  pac_id : str;
  pac_short_name : str;
  pac_author_name : str;
  pac_author_url : str;
  pac_status : Z;
  pac_deleted_at : option Timestamp;
  pac_created_at : option Timestamp;
  pac_updated_at : option Timestamp;
}.
(** [AccountKey] and [UserKey] have the same fields. *)
Record ProtoKey := {
  pk_owner_id : str;
  pk_key_id : str;
  pk_key_algo : str;
  pk_key_public : str;
  pk_status : Z;
  pk_created_at : option Timestamp;
  pk_revoked_at : option Timestamp;
}.
Record ProtoUser := {
  pu_id : str;
  pu_display_name : str;
  pu_status : Z;
  pu_deleted_at : option Timestamp;
  pu_created_at : option Timestamp;
}.
Record CreateAccountRequest := {
  ca_short_name : str;
  ca_author_name : str;
  ca_author_url : str;
  ca_initial_key : option PublicKey;
}.
Record UpdateAccountRequest := {
  ua_account : option ProtoAccount;
  ua_update_mask : option (list str);
}.
Record CreateUserRequest := { cu_display_name : str; cu_initial_key : option PublicKey }.
Record UpdateUserRequest := {
  uur_user : option ProtoUser;
  uur_update_mask : option (list str);
}.
Record AddKeyRequest := { ak_owner_id : str; ak_key : option PublicKey }.
Record RevokeKeyRequest := { rk_owner_id : str; rk_key_id : str }.

Section services.
Context `{UuidLib, Base64Lib, UrlLib}.

(** [account_to_proto], [key_to_proto], [user_to_proto] *)
Definition account_to_proto (a : Account) : ProtoAccount :=
  {| pac_id := uuid_display (ac_id a);
     pac_short_name := ac_short_name a; pac_author_name := ac_author_name a;
     pac_author_url := ac_author_url a;
     pac_status := match ac_status a with AccountActive => 1 | AccountIsDeleted => 2 end;
     pac_deleted_at := ts_to_proto <$> ac_deleted_at a;
     pac_created_at := Some (ts_to_proto (ac_created_at a));
     pac_updated_at := Some (ts_to_proto (ac_updated_at a)) |}.
Definition key_to_proto (k : StoredKey) : ProtoKey :=
  {| pk_owner_id := uuid_display (sk_parent_id k); pk_key_id := uuid_display (sk_key_id k);
     pk_key_algo := sk_algo k; pk_key_public := sk_public_key k;
     pk_status := match sk_status k with KeyActive => 1 | KeyRevoked => 2 end;
     pk_created_at := Some (ts_to_proto (sk_created_at k));
     pk_revoked_at := ts_to_proto <$> sk_revoked_at k |}.
Definition user_to_proto (u : User) : ProtoUser :=
  {| pu_id := uuid_display (us_id u); pu_display_name := us_display_name u;
     pu_status := match us_status u with UserActive => 1 | UserIsDeleted => 2 end;
     pu_deleted_at := ts_to_proto <$> us_deleted_at u;
     pu_created_at := Some (ts_to_proto (us_created_at u)) |}.

(** The [match &subject] of the account and of the user handlers. *)
Definition account_allowed (subject : Subject) (id : Uuid) (scope : string) : bool :=
  match subject with
  | Subject.Account account_id _ => bool_decide (account_id = id)
  | Subject.System _ _ _ => has_scope subject (lit scope)
  | _ => false
  end.
Definition user_allowed (subject : Subject) (id : Uuid) (scope : string) : bool :=
  match subject with
  | Subject.User user_id _ => bool_decide (user_id = id)
  | Subject.System _ _ _ => has_scope subject (lit scope)
  | _ => false
  end.

(** The loop over the mask in [update_account]. *)
Fixpoint account_mask (proto : ProtoAccount) (paths : list str) (update : AccountUpdate) :
    result HeadlinesError AccountUpdate :=
  match paths with
  | [] => Ok update
  | path :: paths =>
    if str_eqb path (lit "short_name") then
      s ← validate_short_name (pac_short_name proto);
      account_mask proto paths
        {| au_short_name := Some s; au_author_name := au_author_name update;
           au_author_url := au_author_url update |}
    else if str_eqb path (lit "author_name") then
      s ← account_validate_author_name (pac_author_name proto);
      account_mask proto paths
        {| au_short_name := au_short_name update; au_author_name := Some s;
           au_author_url := au_author_url update |}
    else if str_eqb path (lit "author_url") then
      s ← validate_author_url (pac_author_url proto);
      account_mask proto paths
        {| au_short_name := au_short_name update; au_author_name := au_author_name update;
           au_author_url := Some s |}
    else Err (UnallowedMaskPath path)
  end.
Definition no_account_update : AccountUpdate :=
  {| au_short_name := None; au_author_name := None; au_author_url := None |}.

(** The loop over the mask in [update_user]. *)
Fixpoint user_mask (proto : ProtoUser) (paths : list str) (update : UserUpdate) :
    result HeadlinesError UserUpdate :=
  match paths with
  | [] => Ok update
  | path :: paths =>
    if str_eqb path (lit "display_name") then
      s ← validate_display_name (pu_display_name proto);
      user_mask proto paths {| uu_display_name := Some s |}
    else Err (UnallowedMaskPath path)
  end.

(** ** [AccountServiceImpl] *)

Section account_service.
Context `{AccountRepo, KeyRepo}.
Context (algorithms : AlgorithmRegistry) (bootstrap : BootstrapMode) (subject : Subject).

(** [create_account] *)
Definition create_account (req : CreateAccountRequest) : M Fault (ProtoAccount * str) :=
  if bool_decide (subject = Subject.Anonymous) && bool_decide (bootstrap = SystemOnly) then
    fail (RegistrationDisabled (lit "accounts"))
  else
    short_name ← check (validate_short_name (ca_short_name req));
    author_name ← check (account_validate_author_name (ca_author_name req));
    author_url ← check (validate_author_url (ca_author_url req));
    initial_key ← require (invalid_argument "initial_key" (lit "required")) (ca_initial_key req);
    '(algo, public_key) ← check (validate_public_key algorithms initial_key);
    account_id ← new_uuid;
    key_id ← new_uuid;
    account ← call (accounts_create
      {| nac_id := account_id; nac_short_name := short_name; nac_author_name := author_name;
         nac_author_url := author_url |});
    call (keys_create
      {| nk_kind := KAccount; nk_parent_id := account_id; nk_key_id := key_id; nk_algo := algo;
         nk_public_key := public_key |});;
    mret (account_to_proto account, uuid_display key_id).

(** [get_account] *)
Definition get_account (raw_id : str) : M Fault ProtoAccount :=
  id ← check (parse_uuid "id" raw_id);
  account ← call (accounts_get id);
  mret (account_to_proto account).

(** [update_account] *)
Definition update_account_rpc (req : UpdateAccountRequest) : M Fault ProtoAccount :=
  account_proto ← require (invalid_argument "account" (lit "required")) (ua_account req);
  id ← check (parse_uuid "account.id" (pac_id account_proto));
  if negb (account_allowed subject id "accounts.admin") then fail (AccountNotFound id)
  else
    mask ← require EmptyUpdateMask (ua_update_mask req);
    if bool_decide (mask = []) then fail EmptyUpdateMask
    else
      update ← check (account_mask account_proto mask no_account_update);
      updated ← call (accounts_update id update);
      mret (account_to_proto updated).

(** [delete_account] *)
Definition delete_account (raw_id : str) : M Fault ProtoAccount :=
  id ← check (parse_uuid "id" raw_id);
  if negb (account_allowed subject id "accounts.delete") then fail (AccountNotFound id)
  else
    deleted ← call (accounts_soft_delete id);
    mret (account_to_proto deleted).

(** [add_account_key] *)
Definition add_account_key (req : AddKeyRequest) : M Fault ProtoKey :=
  account_id ← check (parse_uuid "account_id" (ak_owner_id req));
  if negb (account_allowed subject account_id "accounts.admin") then
    fail (AccountNotFound account_id)
  else
    acct ← call (accounts_get account_id);
    match ac_status acct with
    | AccountIsDeleted => fail (AccountDeleted account_id)
    | AccountActive =>
      pk ← require (invalid_argument "key" (lit "required")) (ak_key req);
      '(algo, public_key) ← check (validate_public_key algorithms pk);
      key_id ← new_uuid;
      stored ← call (keys_create
        {| nk_kind := KAccount; nk_parent_id := account_id; nk_key_id := key_id;
           nk_algo := algo; nk_public_key := public_key |});
      mret (key_to_proto stored)
    end.

(** The lockout protection: whether revoking would leave no active key. *)
Definition last_active_key (active : list StoredKey) (key_id : Uuid) : bool :=
  existsb (λ k, bool_decide (sk_key_id k = key_id)) active && (length active =? 1)%nat.

(** [revoke_account_key] *)
Definition revoke_account_key (req : RevokeKeyRequest) : M Fault ProtoKey :=
  account_id ← check (parse_uuid "account_id" (rk_owner_id req));
  key_id ← check (parse_uuid "key_id" (rk_key_id req));
  if negb (account_allowed subject account_id "accounts.admin") then
    fail (AccountNotFound account_id)
  else
    acct ← call (accounts_get account_id);
    match ac_status acct with
    | AccountIsDeleted => fail (AccountDeleted account_id)
    | AccountActive =>
      active ← call (keys_list_active KAccount account_id);
      if last_active_key active key_id && negb (has_scope subject (lit "admin.*")) then
        fail LastActiveKey
      else
        revoked ← call (keys_revoke KAccount account_id key_id);
        mret (key_to_proto revoked)
    end.
End account_service.

(** ** [UserServiceImpl] *)

Section user_service.
Context `{UserRepo, KeyRepo}.
Context (algorithms : AlgorithmRegistry) (bootstrap : BootstrapMode) (subject : Subject).

(** [create_user] *)
Definition create_user (req : CreateUserRequest) : M Fault (ProtoUser * str) :=
  if bool_decide (subject = Subject.Anonymous) && bool_decide (bootstrap = SystemOnly) then
    fail (RegistrationDisabled (lit "users"))
  else
    display_name ← check (validate_display_name (cu_display_name req));
    initial_key ← require (invalid_argument "initial_key" (lit "required")) (cu_initial_key req);
    '(algo, public_key) ← check (validate_public_key algorithms initial_key);
    user_id ← new_uuid;
    key_id ← new_uuid;
    user ← call (users_create {| nus_id := user_id; nus_display_name := display_name |});
    call (keys_create
      {| nk_kind := KUser; nk_parent_id := user_id; nk_key_id := key_id; nk_algo := algo;
         nk_public_key := public_key |});;
    mret (user_to_proto user, uuid_display key_id).

(** [get_user] *)
Definition get_user (raw_id : str) : M Fault ProtoUser :=
  id ← check (parse_uuid "id" raw_id);
  if negb (user_allowed subject id "users.read") then fail (UserNotFound id)
  else
    user ← call (users_get id);
    mret (user_to_proto user).

(** [update_user] *)
Definition update_user_rpc (req : UpdateUserRequest) : M Fault ProtoUser :=
  user_proto ← require (invalid_argument "user" (lit "required")) (uur_user req);
  id ← check (parse_uuid "user.id" (pu_id user_proto));
  if negb (user_allowed subject id "users.admin") then fail (UserNotFound id)
  else
    mask ← require EmptyUpdateMask (uur_update_mask req);
    if bool_decide (mask = []) then fail EmptyUpdateMask
    else
      update ← check (user_mask user_proto mask {| uu_display_name := None |});
      updated ← call (users_update id update);
      mret (user_to_proto updated).

(** [delete_user] *)
Definition delete_user (raw_id : str) : M Fault ProtoUser :=
  id ← check (parse_uuid "id" raw_id);
  if negb (user_allowed subject id "users.delete") then fail (UserNotFound id)
  else
    deleted ← call (users_soft_delete id);
    mret (user_to_proto deleted).

(** [add_user_key] *)
Definition add_user_key (req : AddKeyRequest) : M Fault ProtoKey :=
  user_id ← check (parse_uuid "user_id" (ak_owner_id req));
  if negb (user_allowed subject user_id "users.admin") then fail (UserNotFound user_id)
  else
    user ← call (users_get user_id);
    match us_status user with
    | UserIsDeleted => fail (UserDeleted user_id)
    | UserActive =>
      pk ← require (invalid_argument "key" (lit "required")) (ak_key req);
      '(algo, public_key) ← check (validate_public_key algorithms pk);
      key_id ← new_uuid;
      stored ← call (keys_create
        {| nk_kind := KUser; nk_parent_id := user_id; nk_key_id := key_id; nk_algo := algo;
           nk_public_key := public_key |});
      mret (key_to_proto stored)
    end.

(** [revoke_user_key] *)
Definition revoke_user_key (req : RevokeKeyRequest) : M Fault ProtoKey :=
  user_id ← check (parse_uuid "user_id" (rk_owner_id req));
  key_id ← check (parse_uuid "key_id" (rk_key_id req));
  if negb (user_allowed subject user_id "users.admin") then fail (UserNotFound user_id)
  else
    active ← call (keys_list_active KUser user_id);
    if last_active_key active key_id && negb (has_scope subject (lit "admin.*")) then
      fail LastActiveKey
    else
      revoked ← call (keys_revoke KUser user_id key_id);
      mret (key_to_proto revoked).
End user_service.
End services.

(** ** Ownership *)

Section ownership.
Context `{UuidLib, Base64Lib, UrlLib, AccountRepo, UserRepo, KeyRepo}.
Variables (algorithms : AlgorithmRegistry) (subject : Subject).

(** Who may act on an account (a user): itself, or a system with the scope. *)
Definition acts_for_account (id : Uuid) (scope : string) : Prop :=
  (∃ key_id, subject = Subject.Account id key_id) ∨
  (∃ sys key_id scopes, subject = Subject.System sys key_id scopes ∧
     has_scope subject (lit scope) = true).
Definition acts_for_user (id : Uuid) (scope : string) : Prop :=
  (∃ key_id, subject = Subject.User id key_id) ∨
  (∃ sys key_id scopes, subject = Subject.System sys key_id scopes ∧
     has_scope subject (lit scope) = true).

Lemma account_not_allowed id scope :
  ¬ acts_for_account id scope → account_allowed subject id scope = false.
Proof.
  unfold acts_for_account, account_allowed. intros Hn.
  destruct subject as [| a k |s k scopes|]; try done.
  - apply bool_decide_eq_false. intros ->. apply Hn. left. by eexists.
  - apply not_true_is_false. intros Hs. apply Hn. right. by eexists _, _, _.
Qed.
Lemma user_not_allowed id scope :
  ¬ acts_for_user id scope → user_allowed subject id scope = false.
Proof.
  unfold acts_for_user, user_allowed. intros Hn.
  destruct subject as [u k| |s k scopes|]; try done.
  - apply bool_decide_eq_false. intros ->. apply Hn. left. by eexists.
  - apply not_true_is_false. intros Hs. apply Hn. right. by eexists _, _, _.
Qed.

(** A caller who is neither the account itself nor a system with the scope
    gets, from every write on it, the answer a missing account gives, before any
    repository is called: whatever the repositories would do, the world is as it was.
    The same holds for users, and for reading a user. *)
Theorem only_the_owner_acts id raw env w :
  uuid_parse_str raw = Ok id →
  (¬ acts_for_account id "accounts.delete" →
     delete_account subject raw env w = (Err (Domain (AccountNotFound id)), w)) ∧
  (¬ acts_for_account id "accounts.admin" →
     (∀ a mask, pac_id a = raw →
        update_account_rpc subject {| ua_account := Some a; ua_update_mask := mask |} env w =
          (Err (Domain (AccountNotFound id)), w)) ∧
     (∀ key, add_account_key algorithms subject {| ak_owner_id := raw; ak_key := key |} env w =
        (Err (Domain (AccountNotFound id)), w)) ∧
     (∀ raw_key key_id, uuid_parse_str raw_key = Ok key_id →
        revoke_account_key subject {| rk_owner_id := raw; rk_key_id := raw_key |} env w =
          (Err (Domain (AccountNotFound id)), w))) ∧
  (¬ acts_for_user id "users.read" →
     get_user subject raw env w = (Err (Domain (UserNotFound id)), w)) ∧
  (¬ acts_for_user id "users.delete" →
     delete_user subject raw env w = (Err (Domain (UserNotFound id)), w)) ∧
  (¬ acts_for_user id "users.admin" →
     (∀ u mask, pu_id u = raw →
        update_user_rpc subject {| uur_user := Some u; uur_update_mask := mask |} env w =
          (Err (Domain (UserNotFound id)), w)) ∧
     (∀ key, add_user_key algorithms subject {| ak_owner_id := raw; ak_key := key |} env w =
        (Err (Domain (UserNotFound id)), w)) ∧
     (∀ raw_key key_id, uuid_parse_str raw_key = Ok key_id →
        revoke_user_key subject {| rk_owner_id := raw; rk_key_id := raw_key |} env w =
          (Err (Domain (UserNotFound id)), w))).
Proof.
  intros Hid.
  assert (Hp : ∀ field, parse_uuid field raw = Ok id) by (intros; unfold parse_uuid; by rewrite Hid).
  split_and!.
  - intros Hn%account_not_allowed. unfold delete_account. by rewrite bind_check, Hp, Hn.
  - intros Hn%account_not_allowed. split_and!.
    + intros a mask Ha. unfold update_account_rpc. rewrite bind_require. simpl.
      by rewrite bind_check, Ha, Hp, Hn.
    + intros key. unfold add_account_key. by rewrite bind_check, Hp, Hn.
    + intros raw_key key_id Hk. unfold revoke_account_key. rewrite bind_check, Hp.
      unfold parse_uuid. simpl rk_key_id. by rewrite Hk, Hn.
  - intros Hn%user_not_allowed. unfold get_user. by rewrite bind_check, Hp, Hn.
  - intros Hn%user_not_allowed. unfold delete_user. by rewrite bind_check, Hp, Hn.
  - intros Hn%user_not_allowed. split_and!.
    + intros u mask Hu. unfold update_user_rpc. rewrite bind_require. simpl.
      by rewrite bind_check, Hu, Hp, Hn.
    + intros key. unfold add_user_key. by rewrite bind_check, Hp, Hn.
    + intros raw_key key_id Hk. unfold revoke_user_key. rewrite bind_check, Hp.
      unfold parse_uuid. simpl rk_key_id. by rewrite Hk, Hn.
Qed.
End ownership.

(** ** The last active key *)

Section lockout.
Context `{UuidLib, DieselLib}.
Variables (env : Env) (Hq : quiet env) (subject : Subject).

Lemma last_active_rows ks kind p k d :
  sk_key_id <$> ks = key_key_id <$> active_keys kind p d →
  last_active_key ks k =
  existsb (λ r, bool_decide (key_key_id r = k)) (active_keys kind p d)
  && (length (active_keys kind p d) =? 1)%nat.
Proof.
  intros Hks. unfold last_active_key. f_equal.
  - generalize (active_keys kind p d), Hks. clear. intros rows. revert rows.
    induction ks as [|x ks IH]; intros [|r rows] Heq; try done. simpl in *.
    injection Heq as -> Heq. by rewrite (IH rows).
  - f_equal. rewrite <- (length_fmap sk_key_id ks), Hks. by rewrite length_fmap.
Qed.

Lemma guarded_revoke kind owner k kind' p w ks :
  identity_inv (w_db w) → has_active kind' p (w_db w) →
  sk_key_id <$> ks = key_key_id <$> active_keys kind owner (w_db w) →
  last_active_key ks k = false →
  has_active kind' p (w_db (key_revoke kind owner k env w).2).
Proof.
  intros Hinv Hp Hks Hlast. rewrite (last_active_rows _ kind owner _ (w_db w)) in Hlast by done.
  destruct (key_revoke_quiet env Hq kind owner k w Hinv) as (r & d' & t & -> & Hd & _).
  cbn [snd w_db]. destruct Hd as [->|[now ->]]; [done|].
  destruct (decide (kind' = kind)) as [->|Hne].
  - apply revoke_keeps_active; [done..|]. intros _ Hin. rewrite Hin in Hlast. simpl in Hlast.
    by apply Nat.eqb_neq.
  - destruct Hp as (k0 & r0 & Hr0 & Hst). exists k0, r0. unfold update_key.
    by rewrite keys_of_set, decide_False.
Qed.

(** The end both handlers share: list, compare, revoke. *)
Lemma guarded_tail kind owner k kind' p w (reply : StoredKey → ProtoKey) :
  kind ≠ KSystem → has_scope subject (lit "admin.*") = false →
  identity_inv (w_db w) → has_active kind' p (w_db w) →
  has_active kind' p
    (w_db ((active ← call (keys_list_active kind owner);
            if last_active_key active k && negb (has_scope subject (lit "admin.*")) then
              fail LastActiveKey
            else
              revoked ← call (keys_revoke kind owner k);
              mret (reply revoked)) env w).2).
Proof.
  intros Hkind Hadmin Hinv Hp. rewrite bind_call. cbn [keys_list_active PgKeyRepo].
  destruct (key_list_quiet env Hq kind owner w Hkind Hinv) as (ks & t & -> & Hks).
  rewrite Hadmin. destruct (last_active_key ks k) eqn:Hlast; [done|]. cbn [andb].
  rewrite bind_call. cbn [keys_revoke PgKeyRepo].
  pose proof (guarded_revoke kind owner k kind' p (mkWorld (w_db w) t) ks Hinv Hp Hks Hlast) as Hd.
  by destruct (key_revoke kind owner k env _) as [[?|?] ?].
Qed.

(** C32. Without the operator scope [admin.*], and with no other request in
    between, revoking a key never takes away an account's or a user's last active key:
    every owner that had an active key still has one, whatever the reply. *)
Theorem revocation_keeps_an_active_key req kind p w :
  identity_inv (w_db w) → has_scope subject (lit "admin.*") = false →
  has_active kind p (w_db w) →
  has_active kind p (w_db (revoke_account_key subject req env w).2) ∧
  has_active kind p (w_db (revoke_user_key subject req env w).2).
Proof.
  intros Hinv Hadmin Hp. split.
  - unfold revoke_account_key. rewrite bind_check. destruct (parse_uuid _ _) as [owner|]; [|done].
    rewrite bind_check. destruct (parse_uuid _ _) as [k|]; [|done].
    destruct (negb _); [done|]. rewrite bind_call.
    pose proof (reads_quiet env (accounts_get owner) w Hq (λ P, accounts_get_reads P owner)) as Hg.
    destruct (accounts_get owner env w) as [[acct|e] w1]; cbn [snd] in Hg; rewrite <- Hg in Hinv, Hp;
      [|done].
    destruct (ac_status acct); [|done]. by apply guarded_tail.
  - unfold revoke_user_key. rewrite bind_check. destruct (parse_uuid _ _) as [owner|]; [|done].
    rewrite bind_check. destruct (parse_uuid _ _) as [k|]; [|done].
    destruct (negb _); [done|]. by apply guarded_tail.
Qed.
End lockout.

(** ** Examples *)

#[local] Existing Instances toy_uuid toy_base64 toy_diesel toy_url.

Definition toy_key (owner key_id : Uuid) : KeyRow :=
  mkKey owner key_id (lit "ed25519") (lit "pk") (lit "active") 0 None.
Definition two_keys : Db :=
  set_account_keys (<[(1%N, 10%N) := toy_key 1 10]> (<[(1%N, 11%N) := toy_key 1 11]> ∅)) toy_db.

Lemma two_keys_inv : identity_inv two_keys.
Proof.
  split.
  - apply (insert_forall account_row_ok ∅); [|split; [done|by left]].
    intros i r Hr. by rewrite lookup_empty in Hr.
  - intros id r Hr. change (users two_keys) with (∅ : gmap Uuid UserRow) in Hr.
    by rewrite lookup_empty in Hr.
  - intros [].
    + apply (insert_forall key_row_ok); [|split_and!; [done..|by left]].
      apply (insert_forall key_row_ok ∅); [|split_and!; [done..|by left]].
      intros i r Hr. by rewrite lookup_empty in Hr.
    + intros pk r Hr. change (keys_of KUser two_keys) with (∅ : gmap (Uuid * Uuid) KeyRow) in Hr.
      by rewrite lookup_empty in Hr.
    + intros pk r Hr. change (keys_of KSystem two_keys) with (∅ : gmap (Uuid * Uuid) KeyRow) in Hr.
      by rewrite lookup_empty in Hr.
Qed.

Lemma two_keys_active : has_active KAccount 1%N two_keys.
Proof. exists 10%N, (toy_key 1 10). split; [apply lookup_insert_eq|done]. Qed.

Definition revoke_request (key_id : Uuid) : RevokeKeyRequest :=
  {| rk_owner_id := uuid_display 1%N; rk_key_id := uuid_display key_id |}.

Lemma only_the_owner_acts_witness :
  delete_account (Subject.Account 2 20) (uuid_display 1%N) toy_env (mkWorld two_keys 0) =
    (Err (Domain (AccountNotFound 1%N)), mkWorld two_keys 0).
Proof.
  apply (@only_the_owner_acts toy_uuid _ _ _ _ _ ∅ (Subject.Account 2 20) 1%N
           (uuid_display 1%N) toy_env (mkWorld two_keys 0)); [by vm_compute|].
  intros [[k [=]]|(? & ? & ? & [=] & _)].
Defined.

Lemma revocation_keeps_an_active_key_witness :
  has_active KAccount 1%N
    (w_db (revoke_account_key (Subject.Account 1 10) (revoke_request 10) toy_env
             (mkWorld two_keys 0)).2).
Proof.
  exact (proj1 (@revocation_keeps_an_active_key toy_uuid toy_diesel toy_env toy_env_quiet
    (Subject.Account 1 10) (revoke_request 10) KAccount 1%N (mkWorld two_keys 0)
    two_keys_inv eq_refl two_keys_active)).
Defined.

(** Another request revokes key 11, from start to end, between the check and the
    revocation of key 10. *)
Definition racing : Env :=
  {| fault := λ _, None; now_at := now_at toy_env; fresh_at := fresh_at toy_env;
     others := λ n db,
       if bool_decide (n = 5%nat) then
         w_db (revoke_account_key (Subject.Account 1 11) (revoke_request 11) toy_env
                 (mkWorld db 0)).2
       else db |}.

(** The check for the last active key and the revocation are separate
    statements: an account with two keys revokes one while another of its requests,
    passing the same check, revokes the other; both succeed and no active key is
    left. *)
Theorem concurrent_revocations_lock_out :
  let '(reply, w') := revoke_account_key (Subject.Account 1 10) (revoke_request 10) racing
                        (mkWorld two_keys 0) in
  is_ok (revoke_account_key (Subject.Account 1 11) (revoke_request 11) toy_env
           (mkWorld two_keys 0)).1 = true ∧
  is_ok reply = true ∧ active_keys KAccount 1%N (w_db w') = [].
Proof. vm_compute. split_and!; reflexivity. Qed.
