(* ===== verification/ArticleService.v ===== *)
(** * The article and draft services ([headlines-api/src/services/article.rs],
    [draft.rs])

    Ownership, account state, masks and validation in front of the article and draft
    repositories. *)

From S2P Require Import Prelude Libs Instances Errors Subject Db Paging Articles Drafts Accounts Content Strategy Rpc.

(** ** The repository traits *)

(** [ArticleRepo], [DraftRepo] *)
Class ArticleRepo := {
  articles_publish : NewArticle → M HeadlinesError Article;
  articles_get : Uuid → M HeadlinesError Article;
  articles_list : Uuid → bool → Z → PageToken →
    M HeadlinesError (list ArticleSummary * PageToken);
  articles_edit : Uuid → ArticleEdit → M HeadlinesError Article;
  articles_tombstone_ : Uuid → option str → M HeadlinesError Article;
  articles_redact : Uuid → Z → str → M HeadlinesError ();
}.
Class DraftRepo := {
  drafts_create : NewDraft → M HeadlinesError Draft;
  drafts_get : Uuid → M HeadlinesError Draft;
  drafts_update : Uuid → DraftUpdate → M HeadlinesError Draft;
  drafts_delete : Uuid → M HeadlinesError ();
  drafts_list : Uuid → Z → PageToken → M HeadlinesError (list DraftSummary * PageToken);
  drafts_publish : Uuid → M HeadlinesError Article;
}.
#[export] Instance PgArticleRepo `{DieselLib, ChronoLib, Base64Lib, SerdeLib} : ArticleRepo := {
  articles_publish := article_publish;
  articles_get := article_get;
  articles_list := article_list_by_account;
  articles_edit := article_edit;
  articles_tombstone_ := article_tombstone;
  articles_redact := article_redact_version;
}.
#[export] Instance PgDraftRepo `{DieselLib, ChronoLib, Base64Lib, SerdeLib} : DraftRepo := {
  drafts_create := draft_create;
  drafts_get := draft_get;
  drafts_update := draft_update;
  drafts_delete := draft_delete;
  drafts_list := draft_list_by_account;
  drafts_publish := draft_publish;
}.

(** What the services rely on: reading does not write. *)
Class ArticleReads `{ArticleRepo} : Prop :=
  articles_get_reads : ∀ P id, preserves P (articles_get id).
Class DraftReads `{DraftRepo} : Prop :=
  drafts_get_reads : ∀ P id, preserves P (drafts_get id).
#[export] Instance PgArticleReads `{DieselLib, ChronoLib, Base64Lib, SerdeLib} : ArticleReads.
Proof. intros P id. apply article_get_preserves. Qed.
#[export] Instance PgDraftReads `{DieselLib, ChronoLib, Base64Lib, SerdeLib} : DraftReads.
Proof. intros P id. cbn. unfold draft_get. preserve. Qed.

(** ** Messages *)

Record ProtoArticleLive := {
  pal_current_version : Z;
  pal_title : str;
  pal_author_name : str;
  pal_author_url : str;
  pal_content : list Node;
  pal_redacted : bool;
  pal_published_at : option Timestamp;
  pal_updated_at : option Timestamp;
}.
Record ProtoArticleTombstone := {
  pat_reason : str;
  pat_tombstoned_at : option Timestamp;
}.
Inductive StateData : Type :=
  | StateLive (l : ProtoArticleLive)
  | StateTombstone (t : ProtoArticleTombstone).
(** [Article]; an [ArticleSummary] is the same without the content. *)
Record ProtoArticle := {
  pa_id : str;
  pa_account_id : str;
  pa_state : Z;
  pa_created_at : option Timestamp;
  pa_state_data : option StateData;
}.
Record ProtoDraft := {
  pd_id : str;
  pd_account_id : str;
  pd_title : str;
  pd_author_name : str;
  pd_author_url : str;
  pd_content : list Node;
  pd_created_at : option Timestamp;
  pd_updated_at : option Timestamp;
}.
Record ProtoDraftSummary := {
  pds_id : str;
  pds_account_id : str;
  pds_title : str;
  pds_created_at : option Timestamp;
  pds_updated_at : option Timestamp;
}.
(** [PublishArticleRequest] and [CreateDraftRequest] have the same fields. *)
Record PublishArticleRequest := {
  pr_account_id : str;
  pr_title : str;
  pr_author_name : str;
  pr_author_url : str;
  pr_content : list Node;
}.
Record ProtoArticleEdit := {
  pe_title : str;
  pe_author_name : str;
  pe_author_url : str;
  pe_content : list Node;
}.
Record EditArticleRequest := {
  er_id : str;
  er_edit : option ProtoArticleEdit;
  er_update_mask : option (list str);
}.
Record UpdateDraftRequest := {
  ud_draft : option ProtoDraft;
  ud_update_mask : option (list str);
}.
Record ListRequest := {
  lr_account_id : str;
  lr_include_tombstoned : bool;
  lr_page_size : Z;
  lr_page_token : str;
}.

Definition default_edit : ProtoArticleEdit :=
  {| pe_title := []; pe_author_name := []; pe_author_url := []; pe_content := [] |}.
Definition default_draft : ProtoDraft :=
  {| pd_id := []; pd_account_id := []; pd_title := []; pd_author_name := [];
     pd_author_url := []; pd_content := []; pd_created_at := None; pd_updated_at := None |}.

Section services.
Context `{UuidLib, UrlLib, SerdeLib}.

(** [article_to_proto] (of both services) *)
Definition article_to_proto (a : Article) : ProtoArticle :=
  let s := a_summary a in
  {| pa_id := uuid_display (as_id s); pa_account_id := uuid_display (as_account_id s);
     pa_state := match as_state s with Live => 1 | Tombstone => 2 end;
     pa_created_at := Some (ts_to_proto (as_created_at s));
     pa_state_data := Some
       match as_state s with
       | Live => StateLive
         {| pal_current_version := default 0 (as_current_version s);
            pal_title := or_default (as_title s);
            pal_author_name := or_default (as_author_name s);
            pal_author_url := or_default (as_author_url s);
            pal_content := default [] (json_to_nodes <$> a_content a);
            pal_redacted := as_redacted s;
            pal_published_at := ts_to_proto <$> as_published_at s;
            pal_updated_at := ts_to_proto <$> as_updated_at s |}
       | Tombstone => StateTombstone
         {| pat_reason := or_default (as_tombstone_reason s);
            pat_tombstoned_at := ts_to_proto <$> as_tombstoned_at s |}
       end |}.
(** [article_summary_to_proto] *)
Definition article_summary_to_proto (s : ArticleSummary) : ProtoArticle :=
  article_to_proto {| a_summary := s; a_content := None |}.
(** [draft_to_proto], [draft_summary_to_proto] *)
Definition draft_to_proto (d : Draft) : ProtoDraft :=
  {| pd_id := uuid_display (d_id d); pd_account_id := uuid_display (d_account_id d);
     pd_title := d_title d; pd_author_name := d_author_name d;
     pd_author_url := d_author_url d; pd_content := json_to_nodes (d_content d);
     pd_created_at := Some (ts_to_proto (d_created_at d));
     pd_updated_at := Some (ts_to_proto (d_updated_at d)) |}.
Definition draft_summary_to_proto (s : DraftSummary) : ProtoDraftSummary :=
  {| pds_id := uuid_display (ds_id s); pds_account_id := uuid_display (ds_account_id s);
     pds_title := ds_title s; pds_created_at := Some (ts_to_proto (ds_created_at s));
     pds_updated_at := Some (ts_to_proto (ds_updated_at s)) |}.

Context (content_max_bytes : Z) (subject : Subject).

(** The [match &subject] on an owning account. *)
Definition owner_allowed (owner : Uuid) (scope : string) : bool :=
  match subject with
  | Subject.Account _ _ => is_self_for subject None (Some owner)
  | Subject.System _ _ _ => has_scope subject (lit scope)
  | _ => false
  end.

(** The loop that rejects a path outside [ALLOWED_MASK_PATHS]. *)
Fixpoint check_mask (paths : list str) : result HeadlinesError () :=
  match paths with
  | [] => Ok ()
  | p :: paths => if str_mem p ALLOWED_MASK_PATHS then check_mask paths
                  else Err (UnallowedMaskPath p)
  end.

(** [if mask_set.contains(..) { field = Some(validate(..)?) }] *)
Definition masked {A} (mask : list str) (field : string) (r : result HeadlinesError A) :
    result HeadlinesError (option A) :=
  if str_mem (lit field) mask then x ← r; Ok (Some x) else Ok None.

(** The edit DTO of [edit_article] and the update DTO of [update_draft], built from the
    same four fields in the same order. *)
Definition masked_fields (mask : list str) (title author_name author_url : str)
    (content : list Node) :
    result HeadlinesError (option str * option str * option str * option Json) :=
  t ← masked mask "title" (validate_title title);
  an ← masked mask "author_name" (validate_author_name author_name);
  au ← masked mask "author_url" (validate_author_url author_url);
  c ← masked mask "content" (validate_and_encode_content content content_max_bytes);
  Ok (t, an, au, c).

(** The account-state precondition. *)
Definition active_account `{AccountRepo} (id : Uuid) : M Fault () :=
  acct ← call (accounts_get id);
  match ac_status acct with
  | AccountIsDeleted => fail (AccountDeleted id)
  | AccountActive => mret ()
  end.

(** ** [ArticleServiceImpl] *)

Section article_service.
Context `{AccountRepo, ArticleRepo}.

(** [publish_article] *)
Definition publish_article (req : PublishArticleRequest) : M Fault ProtoArticle :=
  account_id ← check (parse_uuid "account_id" (pr_account_id req));
  if negb (owner_allowed account_id "articles.write") then
    permission_denied "not permitted on this account"
  else
    title ← check (validate_title (pr_title req));
    author_name ← check (validate_author_name (pr_author_name req));
    author_url ← check (validate_author_url (pr_author_url req));
    content_json ← check (validate_and_encode_content (pr_content req) content_max_bytes);
    active_account account_id;;
    id ← new_uuid;
    article ← call (articles_publish
      {| na_id := id; na_account_id := account_id; na_title := title;
         na_author_name := author_name; na_author_url := author_url;
         na_content := content_json |});
    mret (article_to_proto article).

(** [get_article] *)
Definition get_article (raw_id : str) : M Fault ProtoArticle :=
  id ← check (parse_uuid "id" raw_id);
  article ← call (articles_get id);
  mret (article_to_proto article).

(** [list_account_articles] *)
Definition list_account_articles (req : ListRequest) : M Fault (list ProtoArticle * str) :=
  account_id ← check (parse_uuid "account_id" (lr_account_id req));
  '(items, next) ← call (articles_list account_id (lr_include_tombstoned req)
                           (lr_page_size req) (lr_page_token req));
  mret (article_summary_to_proto <$> items, next).

(** [edit_article] *)
Definition edit_article (req : EditArticleRequest) : M Fault ProtoArticle :=
  id ← check (parse_uuid "id" (er_id req));
  let edit_proto := default default_edit (er_edit req) in
  mask ← require EmptyUpdateMask (er_update_mask req);
  if bool_decide (mask = []) then fail EmptyUpdateMask
  else
    check (check_mask mask);;
    existing ← call (articles_get id);
    match as_state (a_summary existing) with
    | Tombstone => fail (ArticleTombstoned id)
    | Live =>
      let owner := as_account_id (a_summary existing) in
      if negb (owner_allowed owner "articles.write") then
        permission_denied "not permitted on this article"
      else
        active_account owner;;
        '(t, an, au, c) ← check (masked_fields mask (pe_title edit_proto)
          (pe_author_name edit_proto) (pe_author_url edit_proto) (pe_content edit_proto));
        updated ← call (articles_edit id
          {| ae_title := t; ae_author_name := an; ae_author_url := au; ae_content := c |});
        mret (article_to_proto updated)
    end.

(** [tombstone_article] *)
Definition tombstone_article (raw_id raw_reason : str) : M Fault ProtoArticle :=
  id ← check (parse_uuid "id" raw_id);
  reason ← check (validate_tombstone_reason raw_reason);
  existing ← call (articles_get id);
  match as_state (a_summary existing) with
  | Tombstone => fail (ArticleTombstoned id)
  | Live =>
    let owner := as_account_id (a_summary existing) in
    if negb (owner_allowed owner "articles.tombstone") then
      permission_denied "not permitted on this article"
    else
      tombstoned ← call (articles_tombstone_ id reason);
      mret (article_to_proto tombstoned)
  end.

(** [redact_article_version] *)
Definition redact_article_version (raw_id : str) (version : Z) (raw_reason : str) : M Fault () :=
  article_id ← check (parse_uuid "article_id" raw_id);
  if version <=? 0 then fail (invalid_argument "version" (lit "must be > 0"))
  else
    reason ← check (validate_redaction_reason raw_reason);
    call (articles_redact article_id version reason).
End article_service.

(** ** [DraftServiceImpl] *)

Section draft_service.
Context `{AccountRepo, DraftRepo}.

(** [create_draft] *)
Definition create_draft (req : PublishArticleRequest) : M Fault ProtoDraft :=
  account_id ← check (parse_uuid "account_id" (pr_account_id req));
  if negb (owner_allowed account_id "drafts.write") then
    permission_denied "not permitted on this account"
  else
    title ← check (validate_title (pr_title req));
    author_name ← check (validate_author_name (pr_author_name req));
    author_url ← check (validate_author_url (pr_author_url req));
    content_json ← check (validate_and_encode_content (pr_content req) content_max_bytes);
    active_account account_id;;
    id ← new_uuid;
    draft ← call (drafts_create
      {| nd_id := id; nd_account_id := account_id; nd_title := title;
         nd_author_name := author_name; nd_author_url := author_url;
         nd_content := content_json |});
    mret (draft_to_proto draft).

(** [get_draft] *)
Definition get_draft (raw_id : str) : M Fault ProtoDraft :=
  id ← check (parse_uuid "id" raw_id);
  draft ← call (drafts_get id);
  if negb (owner_allowed (d_account_id draft) "drafts.read") then fail (DraftNotFound id)
  else mret (draft_to_proto draft).

(** [update_draft] *)
Definition update_draft_rpc (req : UpdateDraftRequest) : M Fault ProtoDraft :=
  let draft_proto := default default_draft (ud_draft req) in
  id ← check (parse_uuid "draft.id" (pd_id draft_proto));
  mask ← require EmptyUpdateMask (ud_update_mask req);
  if bool_decide (mask = []) then fail EmptyUpdateMask
  else
    check (check_mask mask);;
    existing ← call (drafts_get id);
    if negb (owner_allowed (d_account_id existing) "drafts.write") then fail (DraftNotFound id)
    else
      '(t, an, au, c) ← check (masked_fields mask (pd_title draft_proto)
        (pd_author_name draft_proto) (pd_author_url draft_proto) (pd_content draft_proto));
      updated ← call (drafts_update id
        {| du_title := t; du_author_name := an; du_author_url := au; du_content := c |});
      mret (draft_to_proto updated).

(** [delete_draft] *)
Definition delete_draft_rpc (raw_id : str) : M Fault () :=
  id ← check (parse_uuid "id" raw_id);
  existing ← call (drafts_get id);
  if negb (owner_allowed (d_account_id existing) "drafts.write") then fail (DraftNotFound id)
  else call (drafts_delete id).

(** [list_account_drafts] *)
Definition list_account_drafts (req : ListRequest) : M Fault (list ProtoDraftSummary * str) :=
  account_id ← check (parse_uuid "account_id" (lr_account_id req));
  if negb (owner_allowed account_id "drafts.read") then
    permission_denied "not permitted on this account"
  else
    '(items, next) ← call (drafts_list account_id (lr_page_size req) (lr_page_token req));
    mret (draft_summary_to_proto <$> items, next).

(** [publish_draft] *)
Definition publish_draft (raw_id : str) : M Fault ProtoArticle :=
  id ← check (parse_uuid "id" raw_id);
  draft ← call (drafts_get id);
  let owner := d_account_id draft in
  if negb (owner_allowed owner "articles.write") then fail (DraftNotFound id)
  else
    active_account owner;;
    check (validate_title (d_title draft));;
    check (validate_author_name (d_author_name draft));;
    check (validate_author_url (d_author_url draft));;
    let nodes := json_to_nodes (d_content draft) in
    check (validate_and_encode_content nodes content_max_bytes);;
    article ← call (drafts_publish id);
    mret (article_to_proto article).
End draft_service.
End services.

(** ** Ownership *)

Section ownership.
Context `{UuidLib, UrlLib, SerdeLib, AccountReads, ArticleReads, DraftReads}.
Variables (content_max_bytes : Z) (subject : Subject).

#[local] Hint Extern 2 (preserves _ (call (accounts_get _))) =>
  apply preserves_call, accounts_get_reads : preserve.
#[local] Hint Extern 2 (preserves _ (call (articles_get _))) =>
  apply preserves_call, articles_get_reads : preserve.
#[local] Hint Extern 2 (preserves _ (call (drafts_get _))) =>
  apply preserves_call, drafts_get_reads : preserve.

Lemma active_account_reads id : writes_nothing (active_account id).
Proof. intros P. unfold active_account. preserve. Qed.

(** The subject may not act with the scope for the owner of any article (any draft)
    the repository can show it. *)
Definition article_stranger (id : Uuid) (scope : string) : Prop :=
  ∀ env w a w', articles_get id env w = (Ok a, w') →
    owner_allowed subject (as_account_id (a_summary a)) scope = false.
Definition draft_stranger (id : Uuid) (scope : string) : Prop :=
  ∀ env w d w', drafts_get id env w = (Ok d, w') →
    owner_allowed subject (d_account_id d) scope = false.

(** A read and a guarded rest: the rest is never reached. *)
Lemma preserves_guarded {A B} P (m : M HeadlinesError A) (ok : A → bool) (no : A → M Fault B)
    (rest : A → M Fault B) :
  preserves P m → (∀ env w a w', m env w = (Ok a, w') → ok a = false) →
  (∀ a, preserves P (no a)) →
  preserves P (a ← call m; if negb (ok a) then no a else rest a).
Proof.
  intros Hm Hok Hno env w Ho Hw. rewrite bind_call. specialize (Hm env w Ho Hw).
  destruct (m env w) as [[a|e] w'] eqn:Hr; [|done]. rewrite (Hok _ _ _ _ Hr). by apply Hno.
Qed.

(** A caller who may not act for an article's owner changes nothing with
    any write on the article, and one who may not act for a draft's owner neither
    changes nor sees it: every request on the draft is answered as if it did not
    exist. *)
Theorem strangers_change_nothing id raw :
  uuid_parse_str raw = Ok id →
  (article_stranger id "articles.write" →
     ∀ e mask, writes_nothing (edit_article content_max_bytes subject
       {| er_id := raw; er_edit := e; er_update_mask := mask |})) ∧
  (article_stranger id "articles.tombstone" →
     ∀ reason, writes_nothing (tombstone_article subject raw reason)) ∧
  (draft_stranger id "drafts.write" →
     writes_nothing (delete_draft_rpc subject raw) ∧
     ∀ env w d w', drafts_get id env w = (Ok d, w') →
       (delete_draft_rpc subject raw env w).1 = Err (Domain (DraftNotFound id))) ∧
  (draft_stranger id "articles.write" → writes_nothing (publish_draft content_max_bytes subject raw)) ∧
  (draft_stranger id "drafts.read" →
     ∀ env w d w', drafts_get id env w = (Ok d, w') →
       (get_draft subject raw env w).1 = Err (Domain (DraftNotFound id))).
Proof.
  intros Hid.
  assert (Hp : ∀ field, parse_uuid field raw = Ok id) by (intros; unfold parse_uuid; by rewrite Hid).
  split_and!.
  - intros Hs e mask P. unfold edit_article. cbn [er_id er_edit er_update_mask].
    intros env w Ho Hw. rewrite bind_check, Hp. cbv zeta. rewrite bind_require.
    destruct mask as [mask|]; [|done]. destruct (bool_decide (mask = [])); [done|].
    rewrite bind_check. destruct (check_mask mask) as [[]|]; [|done]. rewrite bind_call.
    pose proof (articles_get_reads P id env w Ho Hw) as Hg.
    destruct (articles_get id env w) as [[a|er] w'] eqn:Hr; [|done].
    destruct (as_state (a_summary a)); [|done]. by rewrite (Hs _ _ _ _ Hr).
  - intros Hs reason P env w Ho Hw. unfold tombstone_article. rewrite bind_check, Hp, bind_check.
    destruct (validate_tombstone_reason reason) as [rs|]; [|done]. rewrite bind_call.
    pose proof (articles_get_reads P id env w Ho Hw) as Hg.
    destruct (articles_get id env w) as [[a|er] w'] eqn:Hr; [|done].
    destruct (as_state (a_summary a)); [|done]. by rewrite (Hs _ _ _ _ Hr).
  - intros Hs. split.
    + intros P env w Ho Hw. unfold delete_draft_rpc. rewrite bind_check, Hp.
      by apply (preserves_guarded P _ (λ d, owner_allowed subject (d_account_id d) "drafts.write")
                  (λ _, fail (DraftNotFound id)) (λ _, call (drafts_delete id)));
        [apply drafts_get_reads| |intros; apply preserves_fail|..].
    + intros env w d w' Hr. unfold delete_draft_rpc. rewrite bind_check, Hp, bind_call, Hr.
      by rewrite (Hs _ _ _ _ Hr).
  - intros Hs P env w Ho Hw. unfold publish_draft. rewrite bind_check, Hp, bind_call.
    pose proof (drafts_get_reads P id env w Ho Hw) as Hg.
    destruct (drafts_get id env w) as [[d|er] w'] eqn:Hr; [|done].
    cbv zeta. by rewrite (Hs _ _ _ _ Hr).
  - intros Hs env w d w' Hr. unfold get_draft. rewrite bind_check, Hp, bind_call, Hr.
    by rewrite (Hs _ _ _ _ Hr).
Qed.
End ownership.

(** ** What is published is what is read *)

Section end_to_end.
Context `{UuidLaws, UrlLib, ChronoLib, Base64Lib, SerdeLib, DieselLib}.
Variables (env : Env) (Hq : quiet env) (content_max_bytes : Z) (subject : Subject).

(** C29. When publishing succeeds, the reply is a live article at version 1
    under the requested account with exactly the requested node tree and the trimmed
    title; and getting the article by the id in the reply gives the same reply. *)
Theorem published_article_reads_back req reply w w1 :
  family_inv (w_db w) →
  publish_article content_max_bytes subject req env w = (Ok reply, w1) →
  (get_article (pa_id reply) env w1).1 = Ok reply ∧
  ∃ l, pa_state_data reply = Some (StateLive l) ∧ pal_current_version l = 1 ∧
    pal_content l = pr_content req ∧ pal_title l = trim (pr_title req) ∧
    pal_author_name l = pr_author_name req ∧ pal_redacted l = false.
Proof.
  intros Hinv Hrun. unfold publish_article in Hrun. rpc_inv Hrun.
  rename Hm into Hacc, Hm0 into Hid, Hm1 into Hpub, a into account_id, a5 into id, a6 into art.
  pose proof (reads_quiet env (active_account account_id) w Hq
                (λ P, active_account_reads account_id P)) as Hw.
  rewrite Hacc in Hw. cbn [snd] in Hw. unfold new_uuid in Hid. simplify_eq.
  apply (publish_ok env Hq) in Hpub as (-> & Hinv1 & Hview); [|by cbn [w_db]; rewrite Hw].
  split.
  - unfold get_article. cbn [article_to_proto pa_id a_summary live_summary as_id new_article art_id].
    rewrite bind_check. unfold parse_uuid. rewrite uuid_roundtrip. cbn [map_err].
    rewrite bind_call. cbn [articles_get PgArticleRepo].
    destruct (article_get_quiet env Hq (fresh_at env (w_tick w6)) w1 Hinv1) as [t Hget].
    cbn [na_id] in *. by rewrite Hget, Hview.
  - eexists. split; [done|].
    match goal with Hc : validate_and_encode_content _ _ = Ok _ |- _ =>
      apply validated_content in Hc as (_ & _ & _ & Hc & _) end.
    repeat match goal with
    | Ht : validate_title _ = Ok _ |- _ => apply validate_title_ok in Ht
    | Ht : validate_author_name _ = Ok _ |- _ => apply validate_author_name_ok in Ht
    end. subst. cbn. by rewrite or_default_non_empty.
Qed.
End end_to_end.

(** ** Examples *)

#[local] Existing Instances toy_uuid toy_url toy_chrono toy_base64 toy_serde toy_diesel.

Definition toy_request : PublishArticleRequest :=
  {| pr_account_id := uuid_display 1%N; pr_title := lit " First "; pr_author_name := lit "Ann";
     pr_author_url := [];
     pr_content := [NodeElement (lit "p") ∅ [NodeText (lit "hello")]] |}.

Lemma toy_publish_article_runs :
  ∃ reply w1, publish_article 1000 (Subject.Account 1 20) toy_request toy_env
                (mkWorld toy_db 0) = (Ok reply, w1).
Proof. eexists _, _. vm_compute. reflexivity. Qed.

Lemma published_article_reads_back_witness :
  ∃ reply w1, publish_article 1000 (Subject.Account 1 20) toy_request toy_env
                (mkWorld toy_db 0) = (Ok reply, w1) ∧
    (get_article (pa_id reply) toy_env w1).1 = Ok reply.
Proof.
  destruct toy_publish_article_runs as (reply & w1 & Hrun). exists reply, w1.
  split; [exact Hrun|].
  exact (proj1 (@published_article_reads_back toy_uuid toy_uuid_laws toy_url toy_chrono
    toy_base64 toy_serde toy_diesel toy_env toy_env_quiet 1000 (Subject.Account 1 20)
    toy_request reply (mkWorld toy_db 0) w1 toy_db_family Hrun)).
Defined.

Lemma strangers_change_nothing_witness :
  writes_nothing (tombstone_article Subject.Anonymous (uuid_display 7%N) []).
Proof.
  assert (Hp : uuid_parse_str (uuid_display 7%N) = Ok 7%N) by by vm_compute.
  destruct (strangers_change_nothing 1000 Subject.Anonymous 7%N (uuid_display 7%N) Hp)
    as (_ & Ht & _).
  by apply Ht.
Defined.
