(* ===== verification/ReaderServices.v ===== *)
(** * The services of readers and republishers ([headlines-api/src/services/follow.rs],
    [feed_recommendation.rs], [feed_follow.rs], [account_stream.rs], [notification.rs])

    Who may follow, push and read feeds, and consume an account's stream; the
    existence and lifecycle checks in front of the repositories. *)

From S2P Require Import Prelude Libs Instances Errors Subject Db Paging Articles Follows Accounts Feeds Content Rpc ArticleService.

(** ** The repository traits *)

(** [FollowRepo], [FeedRecommendationRepo], [FeedFollowRepo], [AccountStreamRepo] *)
Class FollowRepo := {
  follows_follow : Uuid → Uuid → M HeadlinesError Follow;
  follows_unfollow : Uuid → Uuid → M HeadlinesError Follow;
  follows_get : Uuid → Uuid → M HeadlinesError Follow;
  follows_list_by_user : Uuid → bool → Z → PageToken → M HeadlinesError (list Follow * PageToken);
  follows_list_by_account : Uuid → bool → Z → PageToken →
    M HeadlinesError (list Follow * PageToken);
}.
Class FeedRecommendationRepo := {
  feeds_replace : Uuid → list Uuid → M HeadlinesError Z;
  feeds_get : Uuid → Z → PageToken → M HeadlinesError (list FeedItem * PageToken);
}.
Class FeedFollowRepo :=
  follow_feeds_get : Uuid → Z → PageToken → M HeadlinesError (list ArticleSummary * PageToken).
Class AccountStreamRepo :=
  streams_stream : Uuid → Z → PageToken → M HeadlinesError (list ArticleSummary * PageToken).

#[export] Instance PgFollowRepo `{DieselLib, ChronoLib, Base64Lib, SerdeLib} : FollowRepo := {
  follows_follow := follow;
  follows_unfollow := unfollow;
  follows_get := follow_get;
  follows_list_by_user := follow_list_by_user;
  follows_list_by_account := follow_list_by_account;
}.
#[export] Instance PgFeedRecommendationRepo `{DieselLib, Base64Lib, SerdeLib} :
    FeedRecommendationRepo := {
  feeds_replace := feed_replace;
  feeds_get := feed_get;
}.
#[export] Instance PgFeedFollowRepo `{DieselLib, ChronoLib, Base64Lib, SerdeLib} :
  FeedFollowRepo := follow_feed_get.
#[export] Instance PgAccountStreamRepo `{DieselLib, ChronoLib, Base64Lib, SerdeLib} :
  AccountStreamRepo := account_stream.

(** ** Messages *)

Record ProtoFollow := {
  pf_user_id : str;
  pf_account_id : str;
  pf_status : Z;
  pf_created_at : option Timestamp;
  pf_unfollowed_at : option Timestamp;
}.
(** [FeedItem]; the items of the other two feeds are the article alone. *)
Record ProtoFeedItem := { pfi_position : Z; pfi_article : ProtoArticle }.

(** [DEFAULT_FEEDS_REPLACE_MAX_ITEMS] *)
Definition DEFAULT_FEEDS_REPLACE_MAX_ITEMS : Z := 5000.

Section services.
Context `{UuidLib}.

(** [follow_to_proto] *)
Definition follow_to_proto (f : Follow) : ProtoFollow :=
  {| pf_user_id := uuid_display (f_user_id f); pf_account_id := uuid_display (f_account_id f);
     pf_status := match f_status f with FollowActive => 1 | FollowUnfollowed => 2 end;
     pf_created_at := Some (ts_to_proto (f_created_at f));
     pf_unfollowed_at := ts_to_proto <$> f_unfollowed_at f |}.
(** [feed_item_to_proto] *)
Definition feed_item_to_proto (i : FeedItem) : ProtoFeedItem :=
  {| pfi_position := fi_position i; pfi_article := article_summary_to_proto (fi_article i) |}.

Context (subject : Subject).

(** [matches!(subject, Subject::System { .. }) && subject.has_scope(..)] *)
Definition scoped_system (scope : string) : bool :=
  match subject with
  | Subject.System _ _ _ => has_scope subject (lit scope)
  | _ => false
  end.
(** The user itself, or a scoped system. *)
Definition self_or_system (user_id : Uuid) (scope : string) : bool :=
  is_self_for subject (Some user_id) None || scoped_system scope.

(** The existence and lifecycle checks on a user. *)
Definition active_user `{UserRepo} (id : Uuid) : M Fault () :=
  user ← call (users_get id);
  match us_status user with
  | UserIsDeleted => fail (UserDeleted id)
  | UserActive => mret ()
  end.

(** ** [FollowServiceImpl] *)

Section follow_service.
Context `{UserRepo, AccountRepo, FollowRepo}.

(** The checks the three calls on one edge start with. *)
Definition edge_request (scope : string) (raw_user_id raw_account_id : str) :
    M Fault (Uuid * Uuid) :=
  user_id ← check (parse_uuid "user_id" raw_user_id);
  account_id ← check (parse_uuid "account_id" raw_account_id);
  if bool_decide (user_id = account_id) then fail SelfFollowForbidden
  else if negb (self_or_system user_id scope) then fail (UserNotFound user_id)
  else mret (user_id, account_id).

(** [follow] *)
Definition follow_rpc (raw_user_id raw_account_id : str) : M Fault ProtoFollow :=
  '(user_id, account_id) ← edge_request "follows.write" raw_user_id raw_account_id;
  active_user user_id;;
  active_account account_id;;
  f ← call (follows_follow user_id account_id);
  mret (follow_to_proto f).
(** [unfollow] *)
Definition unfollow_rpc (raw_user_id raw_account_id : str) : M Fault ProtoFollow :=
  '(user_id, account_id) ← edge_request "follows.write" raw_user_id raw_account_id;
  f ← call (follows_unfollow user_id account_id);
  mret (follow_to_proto f).
(** [get_follow] *)
Definition get_follow_rpc (raw_user_id raw_account_id : str) : M Fault ProtoFollow :=
  '(user_id, account_id) ← edge_request "follows.read" raw_user_id raw_account_id;
  f ← call (follows_get user_id account_id);
  mret (follow_to_proto f).
(** [list_user_follows] *)
Definition list_user_follows (raw_user_id : str) (include_unfollowed : bool) (page_size : Z)
    (page_token : str) : M Fault (list ProtoFollow * str) :=
  user_id ← check (parse_uuid "user_id" raw_user_id);
  if negb (self_or_system user_id "follows.read") then fail (UserNotFound user_id)
  else
    '(items, next) ← call (follows_list_by_user user_id include_unfollowed page_size page_token);
    mret (follow_to_proto <$> items, next).
(** [list_account_followers] *)
Definition list_account_followers (raw_account_id : str) (include_unfollowed : bool)
    (page_size : Z) (page_token : str) : M Fault (list ProtoFollow * str) :=
  account_id ← check (parse_uuid "account_id" raw_account_id);
  if negb (is_self_for subject None (Some account_id) || scoped_system "follows.read") then
    fail (AccountNotFound account_id)
  else
    '(items, next) ← call (follows_list_by_account account_id include_unfollowed page_size
                             page_token);
    mret (follow_to_proto <$> items, next).
End follow_service.

(** ** [FeedRecommendationServiceImpl] *)

Section recommendation_service.
Context `{UserRepo, FeedRecommendationRepo} (replace_max_items : Z).

(** The loop that parses the ids and rejects a repeated one. *)
Fixpoint parse_articles (seen : gset Uuid) (raws : list str) : result HeadlinesError (list Uuid) :=
  match raws with
  | [] => Ok []
  | raw :: raws =>
    id ← parse_uuid "article_ids" raw;
    if bool_decide (id ∈ seen) then Err (DuplicateArticleId id)
    else ids ← parse_articles ({[id]} ∪ seen) raws; Ok (id :: ids)
  end.

(** [replace_recommendation_feed] *)
Definition replace_recommendation_feed (raw_user_id : str) (article_ids : list str) : M Fault Z :=
  user_id ← check (parse_uuid "user_id" raw_user_id);
  if negb (scoped_system "feeds.recommendation.write") then
    permission_denied "feeds.recommendation.write required"
  else if replace_max_items <? Z.of_nat (length article_ids) then
    fail (FeedTooLarge (Z.of_nat (length article_ids)) replace_max_items)
  else
    parsed ← check (parse_articles ∅ article_ids);
    active_user user_id;;
    call (feeds_replace user_id parsed).

(** [get_recommendation_feed] *)
Definition get_recommendation_feed (raw_user_id : str) (page_size : Z) (page_token : str) :
    M Fault (list ProtoFeedItem * str) :=
  user_id ← check (parse_uuid "user_id" raw_user_id);
  if negb (self_or_system user_id "feeds.recommendation.read") then fail (UserNotFound user_id)
  else
    active_user user_id;;
    '(items, next) ← call (feeds_get user_id page_size page_token);
    mret (feed_item_to_proto <$> items, next).
End recommendation_service.

(** ** [FeedFollowServiceImpl]: [get_follow_feed] *)
Definition get_follow_feed `{UserRepo, FeedFollowRepo} (raw_user_id : str) (page_size : Z)
    (page_token : str) : M Fault (list ProtoArticle * str) :=
  user_id ← check (parse_uuid "user_id" raw_user_id);
  if negb (self_or_system user_id "feeds.follow.read") then fail (UserNotFound user_id)
  else
    active_user user_id;;
    '(items, next) ← call (follow_feeds_get user_id page_size page_token);
    mret (article_summary_to_proto <$> items, next).

(** ** [AccountStreamServiceImpl]: [stream_account_articles] *)
Definition stream_account_articles `{AccountRepo, AccountStreamRepo} (raw_account_id : str)
    (page_size : Z) (page_token : str) : M Fault (list ProtoArticle * str) :=
  account_id ← check (parse_uuid "account_id" raw_account_id);
  if negb (scoped_system "articles.stream") then permission_denied "articles.stream required"
  else
    active_account account_id;;
    '(items, next) ← call (streams_stream account_id page_size page_token);
    mret (article_summary_to_proto <$> items, next).
End services.

(** ** [NotificationServiceImpl] *)

Inductive NotificationRpc : Type :=
  | SendNotification | SendNotificationBatch | ListUserNotifications | MarkNotificationRead
  | MarkAllUserNotificationsRead | GetUserNotificationPreferences
  | UpdateUserNotificationPreferences.
Definition rpc_name (r : NotificationRpc) : string :=
  match r with
  | SendNotification => "NotificationService/SendNotification"
  | SendNotificationBatch => "NotificationService/SendNotificationBatch"
  | ListUserNotifications => "NotificationService/ListUserNotifications"
  | MarkNotificationRead => "NotificationService/MarkNotificationRead"
  | MarkAllUserNotificationsRead => "NotificationService/MarkAllUserNotificationsRead"
  | GetUserNotificationPreferences => "NotificationService/GetUserNotificationPreferences"
  | UpdateUserNotificationPreferences => "NotificationService/UpdateUserNotificationPreferences"
  end.
(** [unimpl], and every handler *)
Definition unimpl (rpc : string) : Fault := Domain (NotImplementedInV1 (lit rpc)).
Definition notification_rpc {A} (r : NotificationRpc) : M Fault A := throw (unimpl (rpc_name r)).

(** ** The lifecycle checks of a run without failures *)

Section checks.
Context `{DieselLib, UuidLib}.
Variables (env : Env) (Hq : quiet env).

Definition user_check (d : Db) (id : Uuid) : result Fault () :=
  match users d !! id with
  | None => Err (Domain (UserNotFound id))
  | Some r =>
    match user_into_domain r with
    | Err e => Err (Domain e)
    | Ok u => match us_status u with
              | UserIsDeleted => Err (Domain (UserDeleted id))
              | UserActive => Ok ()
              end
    end
  end.
Definition account_check (d : Db) (id : Uuid) : result Fault () :=
  match accounts d !! id with
  | None => Err (Domain (AccountNotFound id))
  | Some r =>
    match account_into_domain r with
    | Err e => Err (Domain e)
    | Ok a => match ac_status a with
              | AccountIsDeleted => Err (Domain (AccountDeleted id))
              | AccountActive => Ok ()
              end
    end
  end.

Lemma active_user_quiet id w : reads (active_user id) env w (user_check (w_db w) id).
Proof.
  unfold active_user, user_check, reads. rewrite bind_call. cbn [users_get PgUserRepo].
  unfold user_get. do 2 quiet_step. unfold select_user.
  destruct (users (w_db w) !! id) as [r|]; [|by eexists]. unfold lift.
  destruct (user_into_domain r) as [u|]; [|by eexists]. destruct (us_status u); by eexists.
Qed.
Lemma active_account_quiet id w : reads (active_account id) env w (account_check (w_db w) id).
Proof.
  unfold active_account, account_check, reads. rewrite bind_call. cbn [accounts_get PgAccountRepo].
  unfold account_get. do 2 quiet_step. unfold select_account.
  destruct (accounts (w_db w) !! id) as [r|]; [|by eexists]. unfold lift.
  destruct (account_into_domain r) as [u|]; [|by eexists]. destruct (ac_status u); by eexists.
Qed.
End checks.

(** ** Privacy *)

Section privacy.
Context `{UuidLib, UserRepo, AccountRepo, FollowRepo, FeedRecommendationRepo, FeedFollowRepo}.
Variables (subject : Subject) (env : Env) (w : World).

Lemma edge_request_denied scope raw_u raw_a u a :
  uuid_parse_str raw_u = Ok u → uuid_parse_str raw_a = Ok a → u ≠ a →
  self_or_system subject u scope = false →
  edge_request subject scope raw_u raw_a env w = (Err (Domain (UserNotFound u)), w).
Proof.
  intros Hu Ha Hne Hs. unfold edge_request. rewrite bind_check. unfold parse_uuid.
  rewrite Hu. cbn [map_err]. rewrite bind_check, Ha. cbn [map_err].
  by rewrite bool_decide_eq_false_2, Hs.
Qed.

Lemma user_request_denied {A} raw_u u scope (m : Uuid → M Fault A) :
  uuid_parse_str raw_u = Ok u → self_or_system subject u scope = false →
  (user_id ← check (parse_uuid "user_id" raw_u);
   if negb (self_or_system subject user_id scope) then fail (UserNotFound user_id)
   else m user_id) env w = (Err (Domain (UserNotFound u)), w).
Proof.
  intros Hu Hs. rewrite bind_check. unfold parse_uuid. rewrite Hu. cbn [map_err]. by rewrite Hs.
Qed.

(** C27. What belongs to a user is answered to anyone else, other than a system
    with the scope, as if the user did not exist, before any repository is asked:
    following, unfollowing, looking up and listing edges, and both feeds. *)
Theorem readers_are_private raw_u raw_a u a :
  uuid_parse_str raw_u = Ok u → uuid_parse_str raw_a = Ok a → u ≠ a →
  let hidden {A} (m : M Fault A) := m env w = (Err (Domain (UserNotFound u)), w) in
  (self_or_system subject u "follows.write" = false →
     hidden (follow_rpc subject raw_u raw_a) ∧ hidden (unfollow_rpc subject raw_u raw_a)) ∧
  (self_or_system subject u "follows.read" = false →
     hidden (get_follow_rpc subject raw_u raw_a) ∧
     ∀ all size token, hidden (list_user_follows subject raw_u all size token)) ∧
  (self_or_system subject u "feeds.recommendation.read" = false →
     ∀ size token, hidden (get_recommendation_feed subject raw_u size token)) ∧
  (self_or_system subject u "feeds.follow.read" = false →
     ∀ size token, hidden (get_follow_feed subject raw_u size token)).
Proof.
  intros Hu Ha Hne hidden. unfold hidden. split_and!; intros Hs; [split|split|..].
  - unfold follow_rpc. by rewrite bind_run, (edge_request_denied _ _ _ u a).
  - unfold unfollow_rpc. by rewrite bind_run, (edge_request_denied _ _ _ u a).
  - unfold get_follow_rpc. by rewrite bind_run, (edge_request_denied _ _ _ u a).
  - intros all size token. by apply user_request_denied.
  - intros size token. by apply user_request_denied.
  - intros size token. by apply user_request_denied.
Qed.
End privacy.

(** ** The pushed list *)

Section pushed.
Context `{UuidLib}.

Lemma parse_articles_seen seen raws ids :
  parse_articles seen raws = Ok ids ↔
  Forall2 (λ raw id, parse_uuid "article_ids" raw = Ok id) raws ids ∧ NoDup ids ∧
  (∀ id, id ∈ ids → id ∉ seen).
Proof.
  revert seen ids. induction raws as [|raw raws IH]; intros seen ids; cbn [parse_articles].
  - split; [intros [= <-]; split_and!; [constructor|constructor|set_solver]|].
    intros (Hf & _). by inversion Hf.
  - split.
    + destruct (parse_uuid _ raw) as [id|] eqn:Hid; [|done]. cbn. case_bool_decide as Hs; [done|].
      destruct (parse_articles _ raws) as [ids'|] eqn:Hp; [|done]. intros [= <-].
      apply IH in Hp as (Hf & Hnd & Hfresh). split_and!.
      * by constructor.
      * constructor; [|done]. intros Hin. specialize (Hfresh id Hin). set_solver.
      * intros x [->|Hx]%elem_of_cons; [done|]. specialize (Hfresh x Hx). set_solver.
    + intros (Hf & Hnd & Hfresh). inversion Hf as [|? id ? ids' Hid Hf']; subst.
      apply NoDup_cons in Hnd as [Hin Hnd]. rewrite Hid. cbn.
      rewrite bool_decide_eq_false_2 by (apply Hfresh; set_solver).
      rewrite (proj2 (IH ({[id]} ∪ seen) ids')); [done|]. split_and!; [done..|].
      intros x Hx. specialize (Hfresh x ltac:(set_solver)). set_solver.
Qed.
End pushed.

Section end_to_end.
Context `{UuidLib, DieselLib, ChronoLaws, Base64Laws, SerdeLaws}.

(** A user that was found active is. *)
Lemma active_user_ok env u w w' :
  (∀ n d, others env n d = d) → active_user u env w = (Ok (), w') →
  w_db w' = w_db w ∧ user_check (w_db w) u = Ok ().
Proof.
  intros Ho Hr. unfold active_user in Hr. apply bind_ok in Hr as (usr & w1 & Hget%call_ok & Hst).
  assert (w_db w1 = w_db w ∧ ∃ r, users (w_db w) !! u = Some r ∧ user_into_domain r = Ok usr)
    as (Hd & r & Hr & Hdom).
  { cbn [users_get PgUserRepo] in Hget. unfold user_get, run_opt in Hget.
    apply bind_ok in Hget as (? & w2 & Hc & Hget). apply bind_ok in Hget as (row & w3 & Hrow & Hget).
    assert (Hd2 : w_db w2 = w_db w).
    { unfold get_conn in Hc. by destruct (fault env _); simplify_eq. }
    apply map_errM_ok, optional_ok in Hrow as [(r & -> & [Hrow _]%stmt_ok)|[-> _]]; [|done].
    unfold first_row in Hrow. rewrite Ho, Hd2 in Hrow. apply pair_eq in Hrow as [Hrow Hd3].
    apply ok_or_ok in Hrow. unfold lift in Hget. apply pair_eq in Hget as [Hdom ->].
    split; [done|]. by exists r. }
  unfold user_check. rewrite Hr, Hdom. by destruct (us_status usr); unfold mret, M_ret in Hst; simplify_eq.
Qed.

(** The pages a user is served are those of the repository. *)
Lemma recommendation_pages env reader raw_u u page d :
  quiet env → family_inv d → uuid_parse_str raw_u = Ok u → user_check d u = Ok () →
  self_or_system reader u "feeds.recommendation.read" = true →
  ∃ answer, answers env d (feed_get u page) answer ∧
    answers env d (get_recommendation_feed reader raw_u page)
      (λ token, shown_page Domain feed_item_to_proto (answer token)).
Proof.
  intros Hq Hinv Hu Hact Hreader. eexists. split; [exact (feed_get_serves env Hq u page d Hinv)|].
  intros token w Hw. unfold get_recommendation_feed. rewrite bind_check. unfold parse_uuid.
  rewrite Hu. cbn [map_err]. rewrite Hreader. cbn [negb]. rewrite bind_run.
  destruct (active_user_quiet env Hq u w) as (w1 & Hrun & Hd1). rewrite Hw in *.
  rewrite Hrun, Hact, bind_call. cbn [feeds_get PgFeedRecommendationRepo].
  destruct (feed_get_serves env Hq u page d Hinv token w1 Hd1) as [t ->].
  exists t. cbv beta. destruct (parse_token _ _) as [cursor|e]; [|done].
  by destruct (fetch _ _ _ _ _) as [items next].
Qed.

(** C26. When a push of a recommendation list is answered, whatever could have failed (no
    other request writing meanwhile), the caller was a system with the write scope, the list
    was within the cap, well-formed and free of repetitions, the user was active, and the
    reply counts the list. The user, or a system that may, is then served it: once the
    database answers and rests, following the tokens of GetRecommendationFeed from the first
    page, with any page size, ends and has shown exactly the live articles of the list at
    their positions, each once and in order. *)
Theorem pushed_feed_is_served penv env subject reader max raw_u u raws n page fuel w w1 :
  (∀ n d, others penv n d = d) → quiet env →
  family_inv (w_db w) → max <= i32_max → uuid_parse_str raw_u = Ok u →
  replace_recommendation_feed subject max raw_u raws penv w = (Ok n, w1) →
  self_or_system reader u "feeds.recommendation.read" = true →
  n <= Z.of_nat fuel →
  scoped_system subject "feeds.recommendation.write" = true ∧
  ∃ ids, Forall2 (λ raw id, uuid_parse_str raw = Ok id) raws ids ∧ NoDup ids ∧
    n = Z.of_nat (length ids) ∧ n <= max ∧
    (walk_listing fuel (get_recommendation_feed reader raw_u page) [] env w1).1 =
      Ok (Some (feed_item_to_proto <$> feed_of (w_db w) ids)).
Proof.
  intros Ho Hq Hinv Hmax Hu Hrun Hreader Hfuel.
  unfold replace_recommendation_feed in Hrun. rewrite bind_check in Hrun. unfold parse_uuid in Hrun.
  rewrite Hu in Hrun. cbn [map_err] in Hrun.
  destruct (scoped_system subject _) eqn:Hsys; [|done]. split; [done|]. cbn [negb] in Hrun.
  destruct (Z.ltb_spec max (Z.of_nat (length raws))) as [|Hlen]; [done|]. rewrite bind_check in Hrun.
  destruct (parse_articles ∅ raws) as [ids|] eqn:Hp; [|done].
  apply parse_articles_seen in Hp as (Hf & Hnd & _). pose proof (Forall2_length _ _ _ Hf) as Hl.
  apply bind_ok in Hrun as ([] & w0 & [Hd0 Hact]%active_user_ok & Hrun%call_ok); [|done].
  cbn [feeds_replace PgFeedRecommendationRepo] in Hrun.
  pose proof (feed_replace_atomic u ids penv w0 Ho ltac:(lia)) as Hatom. rewrite Hrun, Hd0 in Hatom.
  destruct Hatom as [[_ [e ?]]|(Hd1 & _ & _ & Hn)]; [done|]. specialize (Hn n eq_refl). subst n.
  exists ids. split_and!; [|done|done|lia|].
  { eapply Forall2_impl; [exact Hf|]. intros raw id. cbn. unfold parse_uuid.
    by destruct (uuid_parse_str raw); intros; simplify_eq/=. }
  set (d := replaced u ids (w_db w)) in *.
  assert (Hactive : user_check d u = Ok ()) by exact Hact.
  assert (Hinv1 : family_inv d) by by apply replaced_family.
  destruct (recommendation_pages env reader raw_u u page d Hq Hinv1 Hu Hactive Hreader)
    as (answer & Hrepo & Hhandler).
  destruct (walk_listing_shown Domain feed_item_to_proto env d _ _ answer fuel [] w1 (mkWorld d 0)
    Hrepo Hhandler Hd1 eq_refl) as [t ->].
  destruct (replaced_walk env Hq u ids page fuel (w_db w) 0 Hinv ltac:(lia) ltac:(lia)) as [t' Hwalk].
  fold d in Hwalk. by rewrite Hwalk.
Qed.
End end_to_end.

(** ** Deletion *)

Section deletion.
Context `{UuidLib, DieselLib, ChronoLib, Base64Lib, SerdeLib}.
Variables (env : Env) (Hq : quiet env).

Definition user_deleted (u : Uuid) (d : Db) : Prop :=
  ∃ r, users d !! u = Some r ∧ usr_status r = lit "deleted".
Definition account_deleted (a : Uuid) (d : Db) : Prop :=
  ∃ r, accounts d !! a = Some r ∧ acc_status r = lit "deleted".

(** Fails with the error and leaves the database. *)
Definition refused {A} (m : M Fault A) (w : World) (e : HeadlinesError) : Prop :=
  reads m env w (Err (Domain e)).

Lemma refused_bind {A B} (m : M Fault A) (f : A → M Fault B) w e :
  refused m w e → refused (m ≫= f) w e.
Proof. intros (w' & Hm & Hd). exists w'. by rewrite bind_run, Hm. Qed.

Lemma deleted_user_refused u w : user_deleted u (w_db w) → refused (active_user u) w (UserDeleted u).
Proof.
  intros (r & Hr & Hst). unfold refused. pose proof (active_user_quiet env Hq u w) as Hu.
  unfold user_check in Hu. rewrite Hr in Hu. unfold user_into_domain in Hu. rewrite Hst in Hu.
  exact Hu.
Qed.
Lemma deleted_account_refused a w :
  account_deleted a (w_db w) → refused (active_account a) w (AccountDeleted a).
Proof.
  intros (r & Hr & Hst). unfold refused. pose proof (active_account_quiet env Hq a w) as Ha.
  unfold account_check in Ha. rewrite Hr in Ha. unfold account_into_domain in Ha. rewrite Hst in Ha.
  exact Ha.
Qed.

(** Deletion closes the reading side: for a permitted caller, following as a
    deleted user, pushing a well-formed list to it and reading either of its feeds all
    fail with [USER_DELETED]; the stream of a deleted account fails with
    [ACCOUNT_DELETED] for every page and token; and the database is left alone.  Undoing
    a follow stays possible. *)
Theorem deletion_closes_feeds subject raw_u raw_a u a w :
  uuid_parse_str raw_u = Ok u → uuid_parse_str raw_a = Ok a → u ≠ a →
  (user_deleted u (w_db w) →
     (self_or_system subject u "follows.write" = true →
        refused (follow_rpc subject raw_u raw_a) w (UserDeleted u) ∧
        (∀ since, edge_at (w_db w) u a (Following since) →
           is_ok (unfollow_rpc subject raw_u raw_a env w).1 = true)) ∧
     (∀ max raws ids, scoped_system subject "feeds.recommendation.write" = true →
        Z.of_nat (length raws) <= max → parse_articles ∅ raws = Ok ids →
        refused (replace_recommendation_feed subject max raw_u raws) w (UserDeleted u)) ∧
     (self_or_system subject u "feeds.recommendation.read" = true →
        ∀ size token, refused (get_recommendation_feed subject raw_u size token) w (UserDeleted u)) ∧
     (self_or_system subject u "feeds.follow.read" = true →
        ∀ size token, refused (get_follow_feed subject raw_u size token) w (UserDeleted u))) ∧
  (account_deleted a (w_db w) → scoped_system subject "articles.stream" = true →
     ∀ size token, refused (stream_account_articles subject raw_a size token) w (AccountDeleted a)).
Proof.
  intros Hu Ha Hne.
  assert (Hpu : ∀ f, parse_uuid f raw_u = Ok u) by (intros; unfold parse_uuid; by rewrite Hu).
  assert (Hpa : ∀ f, parse_uuid f raw_a = Ok a) by (intros; unfold parse_uuid; by rewrite Ha).
  assert (Hedge : ∀ scope, self_or_system subject u scope = true →
            edge_request subject scope raw_u raw_a env w = (Ok (u, a), w)).
  { intros scope Hs. unfold edge_request. rewrite bind_check, Hpu, bind_check, Hpa.
    by rewrite bool_decide_eq_false_2, Hs. }
  split.
  - intros Hdel. pose proof (deleted_user_refused u w Hdel) as Href. split_and!.
    + intros Hs. split.
      * unfold refused, reads, follow_rpc. rewrite bind_run, Hedge by done. by apply refused_bind.
      * intros since He. unfold unfollow_rpc. rewrite bind_run, Hedge, bind_call by done.
        cbn [follows_unfollow PgFollowRepo]. unfold unfollow. do 2 quiet_step. unfold select_follow.
        unfold edge_at in He. rewrite He. cbn [edge_row].
        change (str_eqb _ (lit "unfollowed")) with false. cbv iota. quiet_step.
        rewrite bind_run_stmt by done. unfold update_returning, update_follow. db_simpl.
        by rewrite (alter_as_insert _ _ _ _ He), lookup_insert_eq.
    + intros max raws ids Hs Hlen Hp. unfold refused, reads, replace_recommendation_feed.
      rewrite bind_check, Hpu, Hs. cbn [negb]. rewrite (proj2 (Z.ltb_ge _ _) Hlen), bind_check, Hp.
      by apply refused_bind.
    + intros Hs size token. unfold refused, reads, get_recommendation_feed.
      rewrite bind_check, Hpu, Hs. by apply refused_bind.
    + intros Hs size token. unfold refused, reads, get_follow_feed.
      rewrite bind_check, Hpu, Hs. by apply refused_bind.
  - intros Hdel Hs size token. unfold refused, reads, stream_account_articles.
    rewrite bind_check, Hpa, Hs. by apply refused_bind, deleted_account_refused.
Qed.
End deletion.

(** ** Examples *)

Section witnesses.
#[local] Existing Instances toy_uuid toy_diesel toy_chrono toy_base64 toy_serde
  toy_chrono_laws toy_base64_laws toy_serde_laws.

Definition toy_ranker : Subject := System 9%N 9%N [lit "feeds.recommendation.write"].
Definition toy_reader : Subject := Subject.User 2%N 20%N.

Lemma readers_are_private_witness :
  get_follow_feed (Subject.User 3%N 30%N) (uuid_display 2%N) 10 [] toy_env (mkWorld toy_feed 0) =
    (Err (Domain (UserNotFound 2%N)), mkWorld toy_feed 0).
Proof.
  destruct (readers_are_private (Subject.User 3%N 30%N) toy_env (mkWorld toy_feed 0)
    (uuid_display 2%N) (uuid_display 1%N) 2%N 1%N) as (_ & _ & _ & Hf);
    [by vm_compute|by vm_compute|done|].
  by apply Hf.
Defined.

(** A push of two articles, one of them unknown, read on pages of one; the connection fails
    for later steps of the push's environment. *)
Definition failing_later : Env :=
  {| fault := λ n, if (20 <? n)%nat then Some (lit "gone", true) else None; now_at := now_at toy_env;
     fresh_at := fresh_at toy_env; others := λ _ d, d |}.
Lemma pushed_feed_is_served_witness :
  ∃ n w1, replace_recommendation_feed toy_ranker 10 (uuid_display 2%N)
            [uuid_display 8%N; uuid_display 7%N] failing_later (mkWorld toy_feed 0) = (Ok n, w1) ∧ n <= 10 ∧
    ∃ items, (walk_listing 2 (get_recommendation_feed toy_reader (uuid_display 2%N) 1) [] toy_env w1).1 =
      Ok (Some items).
Proof.
  assert (∃ w1, replace_recommendation_feed toy_ranker 10 (uuid_display 2%N)
            [uuid_display 8%N; uuid_display 7%N] failing_later (mkWorld toy_feed 0) = (Ok 2, w1))
    as [w1 Hrun] by (eexists; vm_compute; reflexivity).
  exists 2, w1. split; [done|].
  destruct (pushed_feed_is_served failing_later toy_env toy_ranker toy_reader 10 (uuid_display 2%N)
    2%N _ 2 1 2 (mkWorld toy_feed 0) w1 (λ _ _, eq_refl) toy_env_quiet toy_feed_family ltac:(by vm_compute)
    ltac:(by vm_compute) Hrun ltac:(done) ltac:(by vm_compute)) as (_ & ids & _ & _ & _ & Hmax & Hwalk).
  split; [exact Hmax|by eexists].
Defined.

Definition toy_gone : Db :=
  set_users (<[2%N := mkUser 2%N None (lit "deleted") (Some 3) 0]> ∅) toy_feed.
Lemma deletion_closes_feeds_witness :
  refused toy_env (get_follow_feed toy_reader (uuid_display 2%N) 10 []) (mkWorld toy_gone 0)
    (UserDeleted 2%N).
Proof.
  destruct (deletion_closes_feeds toy_env toy_env_quiet toy_reader (uuid_display 2%N)
    (uuid_display 1%N) 2%N 1%N (mkWorld toy_gone 0)) as (Hdel & _);
    [by vm_compute|by vm_compute|done|].
  destruct Hdel as (_ & _ & _ & Hf); [|by apply Hf].
  eexists. split; [apply lookup_insert_eq|done].
Defined.
End witnesses.
