(* ===== verification/EventService.v ===== *)
(** * The event service ([headlines-api/src/services/event.rs])

    Validation of submitted events against the clock of the time source, their JSON
    encoding for storage and the decoder, and the three handlers. *)

From S2P Require Import Prelude Libs Instances Errors Subject Tso Db Paging Events Content Rpc ReaderServices.

(** ** The repository trait *)

(** [EventRepo] *)
Class EventRepo := {
  events_record : EventRecord → M HeadlinesError Event;
  events_record_batch : list EventRecord → M HeadlinesError (list Event);
  events_list : ListEventsFilter → Z → PageToken → M HeadlinesError (list Event * PageToken);
}.
#[export] Instance PgEventRepo `{DieselLib, ChronoLib, Base64Lib, SerdeLib} : EventRepo := {
  events_record := event_record;
  events_record_batch := event_record_batch;
  events_list := event_list;
}.

(** ** Messages *)

(** The oneof [properties], the same in requests and replies. *)
Inductive Properties : Type :=
  | Impression (feed_kind : str) (position : Z)
  | OpenProperties (feed_kind : str) (position : Z)
  | Dwell (dwell_ms : Z)
  | Like
  | Unlike
  | Share (target : str).
Record RecordEventRequest := {
  re_user_id : str;
  re_article_id : str;
  re_type : Z;
  re_occurred_at : option Timestamp;
  re_surface : str;
  re_properties : option Properties;
}.
Record ProtoEvent := {
  pev_id : str;
  pev_user_id : str;
  pev_article_id : str;
  pev_type : Z;
  pev_occurred_at : option Timestamp;
  pev_received_at : option Timestamp;
  pev_surface : str;
  pev_properties : option Properties;
}.
Record ListEventsRequest := {
  le_user_id : str;
  le_article_id : str;
  le_types : list Z;
  le_received_after : option Timestamp;
  le_received_before : option Timestamp;
  le_page_size : Z;
  le_page_token : str;
}.

Definition DEFAULT_EVENTS_BATCH_MAX_ITEMS : Z := 500.
Definition FEED_KINDS : list str :=
  lit <$> ["recommendation"; "follow"; "account"; "direct"]%string.
Definition SURFACE_MAX : nat := 32.
Definition SHARE_TARGET_MAX : nat := 32.
Definition DWELL_MS_MAX : Z := 86400000.
Definition OCCURRED_AT_PAST_WINDOW_HOURS : Z := 24.
Definition OCCURRED_AT_FUTURE_WINDOW_SECONDS : Z := 60.

(** ** Formatting *)

(** [{c:?}] for a [char]. *)
Definition char_debug `{UnicodeLib} (c : N) : str :=
  lit "'" ++ escape_debug 39 c ++ lit "'".
(** [{l:?}] for strings without characters to escape. *)
Definition strs_debug (l : list str) : str :=
  lit "[" ++ join (lit ", ") ((λ s, 34%N :: s ++ [34%N]) <$> l) ++ lit "]".
Definition le_sign : str := [8804%N].
Definition ge_sign : str := [8805%N].

(** ** Validation *)

(** [event_type_string]: [ProtoEventType::try_from] knows the numbers 0 to 6. *)
Definition event_type_string (t : Z) : result HeadlinesError str :=
  match t with
  | 1 => Ok (lit "IMPRESSION")
  | 2 => Ok (lit "OPEN")
  | 3 => Ok (lit "DWELL")
  | 4 => Ok (lit "LIKE")
  | 5 => Ok (lit "UNLIKE")
  | 6 => Ok (lit "SHARE")
  | _ => Err (invalid_argument "type" (lit "must not be EVENT_TYPE_UNSPECIFIED"))
  end.
(** [event_type_from_string] *)
Definition event_type_from_string (s : str) : Z :=
  if str_eqb s (lit "IMPRESSION") then 1
  else if str_eqb s (lit "OPEN") then 2
  else if str_eqb s (lit "DWELL") then 3
  else if str_eqb s (lit "LIKE") then 4
  else if str_eqb s (lit "UNLIKE") then 5
  else if str_eqb s (lit "SHARE") then 6
  else 0.

(** The test of the loop in [validate_surface]. *)
Definition surface_char (c : N) : bool :=
  is_ascii_lowercase c || is_ascii_digit c || (c =? 95)%N || (c =? 45)%N.
Fixpoint check_surface `{UnicodeLib} (s : str) : result HeadlinesError () :=
  match s with
  | [] => Ok ()
  | c :: s =>
    if negb (surface_char c) then
      Err (invalid_argument "surface" (lit "contains disallowed char: " ++ char_debug c))
    else check_surface s
  end.
(** [validate_surface] *)
Definition validate_surface `{UnicodeLib} (s : str) : result HeadlinesError () :=
  if bool_decide (s = []) then Err (invalid_argument "surface" (lit "must not be empty"))
  else if (SURFACE_MAX <? length s)%nat then
    Err (invalid_argument "surface"
           (lit "must be " ++ le_sign ++ dec_nat SURFACE_MAX ++ lit " chars"))
  else check_surface s.

(** [validate_feed_kind], [validate_position], [validate_dwell_ms],
    [validate_share_target] *)
Definition validate_feed_kind (s : str) : result HeadlinesError () :=
  if str_mem s FEED_KINDS then Ok ()
  else Err (invalid_argument "feed_kind" (lit "must be one of " ++ strs_debug FEED_KINDS)).
Definition validate_position (p : Z) : result HeadlinesError () :=
  if p <? 0 then Err (invalid_argument "position" (lit "must be " ++ ge_sign ++ lit " 0"))
  else Ok ().
Definition validate_dwell_ms (ms : Z) : result HeadlinesError () :=
  if negb ((0 <=? ms) && (ms <=? DWELL_MS_MAX)) then
    Err (invalid_argument "dwell_ms" (lit "must be in [0, " ++ dec_Z DWELL_MS_MAX ++ lit "]"))
  else Ok ().
Definition validate_share_target (t : str) : result HeadlinesError () :=
  if bool_decide (t = []) then Err (invalid_argument "target" (lit "must not be empty"))
  else if (SHARE_TARGET_MAX <? length t)%nat then
    Err (invalid_argument "target"
           (lit "must be " ++ le_sign ++ dec_nat SHARE_TARGET_MAX ++ lit " chars"))
  else Ok ().

(** [properties_selector_name] *)
Definition properties_selector_name (p : option Properties) : str :=
  match p with
  | None => lit "<unset>"
  | Some (Impression _ _) => lit "impression"
  | Some (OpenProperties _ _) => lit "open"
  | Some (Dwell _) => lit "dwell"
  | Some Like => lit "like"
  | Some Unlike => lit "unlike"
  | Some (Share _) => lit "share"
  end.

(** [json!({..})] *)
Definition json_object (fields : list (string * Json)) : Json :=
  JObject (foldl (λ m f, map_insert (lit f.1) f.2 m) [] fields).
Definition feed_json (feed_kind : str) (position : Z) : result HeadlinesError Json :=
  _ ← validate_feed_kind feed_kind;
  _ ← validate_position position;
  Ok (json_object [("feed_kind"%string, JString feed_kind); ("position"%string, JNumber position)]).
(** [validate_properties_for_type] *)
Definition validate_properties_for_type (type_str : str) (properties : option Properties) :
    result HeadlinesError Json :=
  let ty t := str_eqb type_str (lit t) in
  let mismatch := Err (EventTypeMismatch type_str (properties_selector_name properties)) in
  match properties with
  | Some (Impression k p) => if ty "IMPRESSION" then feed_json k p else mismatch
  | Some (OpenProperties k p) => if ty "OPEN" then feed_json k p else mismatch
  | Some (Dwell ms) =>
    if ty "DWELL" then
      _ ← validate_dwell_ms ms; Ok (json_object [("dwell_ms"%string, JNumber ms)])
    else mismatch
  | Some Like => if ty "LIKE" then Ok (json_object []) else mismatch
  | Some Unlike => if ty "UNLIKE" then Ok (json_object []) else mismatch
  | Some (Share t) =>
    if ty "SHARE" then
      _ ← validate_share_target t; Ok (json_object [("target"%string, JString t)])
    else mismatch
  | None => mismatch
  end.

(** [validate_occurred_at] *)
Definition validate_occurred_at (occurred_at now : DateTime) : result HeadlinesError () :=
  let lower := now - OCCURRED_AT_PAST_WINDOW_HOURS * 3600 * 1000000000 in
  let upper := now + OCCURRED_AT_FUTURE_WINDOW_SECONDS * 1000000000 in
  if (occurred_at <? lower) || (upper <? occurred_at) then
    Err (EventTimestampOutOfRange occurred_at)
  else Ok ().

(** [proto_to_chrono] *)
Definition proto_to_chrono `{ChronoLib} (t : Timestamp) : option DateTime :=
  from_timestamp (seconds t) (as_u32 (nanos t)).

(** ** Reading the stored JSON *)

(** [Value::get], [Value::as_i64] *)
Definition json_get (field : string) (j : Json) : option Json :=
  match j with JObject m => map_get (lit field) m | _ => None end.
Definition json_as_i64 (j : Json) : option Z :=
  match j with
  | JNumber n => if (- i64_max - 1 <=? n) && (n <=? i64_max) then Some n else None
  | _ => None
  end.
(** [.get(..).and_then(..).ok_or_else(..)] *)
Definition stored {A} (j : Json) (field : string) (read : Json → option A) (msg : string) :
    result HeadlinesError A :=
  ok_or (Internal (lit msg)) (json_get field j ≫= read).
(** [parse_feed_kind_and_position] *)
Definition parse_feed_kind_and_position (j : Json) : result HeadlinesError (str * Z) :=
  feed_kind ← stored j "feed_kind" json_as_str "stored event missing feed_kind";
  position ← stored j "position" json_as_i64 "stored event missing position";
  Ok (feed_kind, as_i32 position).
(** The [match] of [event_to_proto]. *)
Definition stored_properties (type_str : str) (j : Json) : result HeadlinesError Properties :=
  let ty t := str_eqb type_str (lit t) in
  if ty "IMPRESSION" then kp ← parse_feed_kind_and_position j; Ok (Impression kp.1 kp.2)
  else if ty "OPEN" then kp ← parse_feed_kind_and_position j; Ok (OpenProperties kp.1 kp.2)
  else if ty "DWELL" then
    ms ← stored j "dwell_ms" json_as_i64 "stored DWELL event missing dwell_ms"; Ok (Dwell ms)
  else if ty "LIKE" then Ok Like
  else if ty "UNLIKE" then Ok Unlike
  else if ty "SHARE" then
    t ← stored j "target" json_as_str "stored SHARE event missing target"; Ok (Share t)
  else Err (Internal (lit "stored event has unknown type: " ++ type_str)).
(** [event_to_proto] *)
Definition event_to_proto `{UuidLib} (e : Event) : result HeadlinesError ProtoEvent :=
  properties ← stored_properties (ev_type e) (ev_properties e);
  Ok {| pev_id := uuid_display (ev_id e); pev_user_id := uuid_display (ev_user_id e);
        pev_article_id := or_default (uuid_display <$> ev_article_id e);
        pev_type := event_type_from_string (ev_type e);
        pev_occurred_at := Some (ts_to_proto (ev_occurred_at e));
        pev_received_at := Some (ts_to_proto (ev_received_at e));
        pev_surface := ev_surface e; pev_properties := Some properties |}.

(** ** The handlers *)

Section service.
Context `{UuidLib, ChronoLib, UnicodeLib} (subject : Subject).

(** The check of the caller in [prepare_event]. *)
Definition check_user (user_id : Uuid) : result HeadlinesError () :=
  match subject with
  | Subject.User subject_user_id _ =>
    if bool_decide (user_id = subject_user_id) then Ok ()
    else Err (UnauthorizedUserId subject_user_id user_id)
  | _ => Ok ()
  end.
(** [prepare_event] *)
Definition prepare_event (req : RecordEventRequest) (now : DateTime) :
    result HeadlinesError EventRecord :=
  user_id ← parse_uuid "user_id" (re_user_id req);
  article_id ← parse_uuid "article_id" (re_article_id req);
  type_str ← event_type_string (re_type req);
  occurred_at ← ok_or (invalid_argument "occurred_at" (lit "missing or malformed"))
                  (re_occurred_at req ≫= proto_to_chrono);
  _ ← validate_occurred_at occurred_at now;
  _ ← validate_surface (re_surface req);
  properties_json ← validate_properties_for_type type_str (re_properties req);
  _ ← check_user user_id;
  Ok {| er_user_id := user_id; er_article_id := Some article_id; er_type := type_str;
        er_occurred_at := occurred_at; er_surface := re_surface req;
        er_properties := properties_json |}.

(** [is_authorized_writer] *)
Definition is_authorized_writer : bool :=
  match subject with
  | Subject.User _ _ => true
  | Subject.System _ _ _ => has_scope subject (lit "events.write")
  | _ => false
  end.

Context `{EventRepo} (time_now : M TimeError Tso) (batch_max_items : Z).

(** [tso_now]; [time_now] is [TimeSource::now] of the server's clock. *)
Definition tso_now : M Fault DateTime :=
  tso ← map_errM (λ e, Domain (Internal (lit "time source: " ++ time_error_display e))) time_now;
  let ms := as_i64 (physical_ms tso) in
  require (Internal (lit "TSO physical_ms out of range: " ++ dec_Z ms)) (from_timestamp_millis ms).

(** [record_event] *)
Definition record_event (req : RecordEventRequest) : M Fault ProtoEvent :=
  if negb is_authorized_writer then permission_denied "events.write required"
  else
    now ← tso_now;
    prepared ← check (prepare_event req now);
    row ← call (events_record prepared);
    check (event_to_proto row).
(** [record_event_batch] *)
Definition record_event_batch (reqs : list RecordEventRequest) : M Fault (list ProtoEvent * Z) :=
  if negb is_authorized_writer then permission_denied "events.write required"
  else if bool_decide (reqs = []) then
    fail (invalid_argument "events" (lit "must contain at least one event"))
  else if batch_max_items <? Z.of_nat (length reqs) then
    fail (BatchTooLarge (Z.of_nat (length reqs)) batch_max_items)
  else
    now ← tso_now;
    prepared ← check (try_map (λ ev, prepare_event ev now) reqs);
    rows ← call (events_record_batch prepared);
    let stored_count := as_i32 (Z.of_nat (length rows)) in
    recorded ← check (try_map event_to_proto rows);
    mret (recorded, stored_count).

(** The id filters: an empty string is no filter. *)
Definition optional_uuid (field : string) (raw : str) : result HeadlinesError (option Uuid) :=
  if bool_decide (raw = []) then Ok None else id ← parse_uuid field raw; Ok (Some id).
(** [list_events] *)
Definition list_events (req : ListEventsRequest) : M Fault (list ProtoEvent * str) :=
  if negb (scoped_system subject "events.read") then permission_denied "events.read required"
  else
    user_id ← check (optional_uuid "user_id" (le_user_id req));
    article_id ← check (optional_uuid "article_id" (le_article_id req));
    types ← check (try_map event_type_string (le_types req));
    let filter :=
      {| lf_user_id := user_id; lf_article_id := article_id; lf_types := types;
         lf_received_after := le_received_after req ≫= proto_to_chrono;
         lf_received_before := le_received_before req ≫= proto_to_chrono |} in
    '(rows, next) ← call (events_list filter (le_page_size req) (le_page_token req));
    items ← check (try_map event_to_proto rows);
    mret (items, next).
End service.

(** ** Formats are read back *)

Lemma event_type_string_spec t s :
  event_type_string t = Ok s ↔ 1 <= t <= 6 ∧ event_types !! Z.to_nat (t - 1) = Some s.
Proof.
  split.
  - destruct t as [|[[[?|?|]|[?|?|]|]|[[?|?|]|[?|?|]|]|]|]; cbn; intros Ht; simplify_eq/=;
      (split; [lia|done]).
  - intros [Hr Hs]. assert (t = 1 ∨ t = 2 ∨ t = 3 ∨ t = 4 ∨ t = 5 ∨ t = 6) as Hc by lia.
    destruct Hc as [->|[->|[->|[->|[->| ->]]]]]; by injection Hs as <-.
Qed.
Lemma event_type_roundtrip t s : event_type_string t = Ok s → event_type_from_string s = t.
Proof.
  intros [Hr Hs]%event_type_string_spec.
  assert (t = 1 ∨ t = 2 ∨ t = 3 ∨ t = 4 ∨ t = 5 ∨ t = 6) as Hc by lia.
  destruct Hc as [->|[->|[->|[->|[->| ->]]]]]; injection Hs as <-; by vm_compute.
Qed.

Lemma ts_roundtrip `{TimestampLaws} ts t :
  0 <= nanos ts < 1000000000 → proto_to_chrono ts = Some t → ts_to_proto t = ts.
Proof.
  destruct ts as [s n]. unfold proto_to_chrono, ts_to_proto. cbn. intros Hn.
  unfold as_u32. rewrite Z.mod_small by lia.
  intros ->%from_timestamp_value; [|done]. f_equal.
  - rewrite Z.div_add_l, Z.div_small by lia. lia.
  - rewrite Z.add_comm, Z_mod_plus_full, Z.mod_small by lia. done.
Qed.

(** A timestamp of whole microseconds is a time of whole microseconds. *)
Lemma ts_micros `{TimestampLaws} ts t :
  0 <= nanos ts < 1000000000 → nanos ts mod 1000 = 0 → proto_to_chrono ts = Some t → t mod 1000 = 0.
Proof.
  unfold proto_to_chrono. intros Hn Hm. unfold as_u32. rewrite Z.mod_small by lia.
  intros ->%from_timestamp_value; [|done].
  replace (seconds ts * 1000000000) with (seconds ts * 1000000 * 1000) by lia.
  by rewrite Z.add_comm, Z_mod_plus_full.
Qed.

(** ** What a valid payload is *)

(** The properties an event may carry: the kind its type names, within the bounds. *)
Definition feed_payload (k : str) (p : Z) : Prop := k ∈ FEED_KINDS ∧ 0 <= p.
Definition payload_ok (t : Z) (p : Properties) : Prop :=
  match p with
  | Impression k pos => t = 1 ∧ feed_payload k pos
  | OpenProperties k pos => t = 2 ∧ feed_payload k pos
  | Dwell ms => t = 3 ∧ 0 <= ms <= 86400000
  | Like => t = 4
  | Unlike => t = 5
  | Share target => t = 6 ∧ (1 <= length target <= 32)%nat
  end.
(** Its numbers have the width of their fields. *)
Definition payload_wide (p : Properties) : Prop :=
  match p with
  | Impression _ pos | OpenProperties _ pos => is_i32 pos
  | Dwell ms => is_i64 ms
  | _ => True
  end.
Definition payload_json (p : Properties) : Json :=
  match p with
  | Impression k pos | OpenProperties k pos =>
    JObject [(lit "feed_kind", JString k); (lit "position", JNumber pos)]
  | Dwell ms => JObject [(lit "dwell_ms", JNumber ms)]
  | Like | Unlike => JObject []
  | Share target => JObject [(lit "target", JString target)]
  end.

Lemma feed_json_spec k p j :
  feed_json k p = Ok j ↔ feed_payload k p ∧ j = payload_json (Impression k p).
Proof.
  unfold feed_json, feed_payload, validate_feed_kind, validate_position.
  destruct (str_mem k FEED_KINDS) eqn:Hk; cbn [mbind result_bind].
  - apply str_mem_elem in Hk. destruct (Z.ltb_spec p 0); cbn [mbind result_bind].
    + split; [done|]. intros [[_ ?] _]. lia.
    + split; [intros [= <-]; by vm_compute|]. intros [_ ->]. by vm_compute.
  - split; [done|]. intros [[Hin _] _]. apply str_mem_elem in Hin. congruence.
Qed.

Lemma dwell_json_spec ms j :
  (_ ← validate_dwell_ms ms; Ok (json_object [("dwell_ms"%string, JNumber ms)])) = Ok j ↔
  0 <= ms <= 86400000 ∧ j = payload_json (Dwell ms).
Proof.
  unfold validate_dwell_ms, DWELL_MS_MAX.
  destruct (Z.leb_spec 0 ms), (Z.leb_spec ms 86400000); cbn [andb negb mbind result_bind].
  1: split; [intros [= <-]; by split|by intros [_ ->]].
  all: split; [done|lia].
Qed.
Lemma share_json_spec t j :
  (_ ← validate_share_target t; Ok (json_object [("target"%string, JString t)])) = Ok j ↔
  (1 <= length t <= 32)%nat ∧ j = payload_json (Share t).
Proof.
  unfold validate_share_target. destruct t as [|c t].
  { split; [done|]. cbn [length]. lia. }
  rewrite bool_decide_eq_false_2 by done. change SHARE_TARGET_MAX with 32%nat.
  destruct (Nat.ltb_spec 32 (length (c :: t))); cbn [mbind result_bind].
  - split; [done|lia].
  - split; [|by intros [_ ->]]. intros [= <-]. split; [|done]. cbn [length] in *. lia.
Qed.

Lemma type_name_eqb t t' s s' :
  event_type_string t = Ok s → event_type_string t' = Ok s' → str_eqb s s' = true ↔ t = t'.
Proof.
  intros Hs Hs'. rewrite str_eqb_eq. split; [|congruence].
  intros <-. by rewrite <- (event_type_roundtrip t s), <- (event_type_roundtrip t' s).
Qed.

Lemma properties_spec t s p j :
  event_type_string t = Ok s →
  validate_properties_for_type s p = Ok j ↔ ∃ q, p = Some q ∧ payload_ok t q ∧ j = payload_json q.
Proof.
  intros Hs. assert (Hkind : ∀ n name (r : result HeadlinesError Json) e (ok : Prop) q,
    event_type_string n = Ok name → (r = Ok j ↔ ok ∧ j = payload_json q) →
    (if str_eqb s name then r else Err e) = Ok j ↔ (t = n ∧ ok) ∧ j = payload_json q).
  { intros n name r e ok q Hn Hr. pose proof (type_name_eqb t n s name Hs Hn) as Hty.
    destruct (str_eqb s name); [rewrite Hr; tauto|]. split; [done|].
    intros [[Ht _] _]. by apply Hty in Ht. }
  assert (Hsome : ∀ q (P : Prop), (∃ q', Some q = Some q' ∧ payload_ok t q' ∧ j = payload_json q') ↔
            payload_ok t q ∧ j = payload_json q).
  { intros q _. split; [by intros (? & [= <-] & ?)|]. intros [??]. by exists q. }
  destruct p as [q|]; [|by split; [|intros (? & ? & _)]]. rewrite (Hsome _ True).
  destruct q; cbn [validate_properties_for_type payload_ok].
  - apply Hkind; [done|apply feed_json_spec].
  - apply (Hkind 2); [done|apply feed_json_spec].
  - apply Hkind; [done|apply dwell_json_spec].
  - etrans; [apply (Hkind 4 _ _ _ True Like); [done|]|tauto].
    split; [intros [= <-]; by split|by intros [_ ->]].
  - etrans; [apply (Hkind 5 _ _ _ True Unlike); [done|]|tauto].
    split; [intros [= <-]; by split|by intros [_ ->]].
  - apply Hkind; [done|apply share_json_spec].
Qed.

Lemma surface_spec `{UnicodeLib} s :
  validate_surface s = Ok () ↔ (1 <= length s <= 32)%nat ∧ Forall (λ c, surface_char c = true) s.
Proof.
  assert (Hcheck : check_surface s = Ok () ↔ Forall (λ c, surface_char c = true) s).
  { induction s as [|c s IH]; [by split|]. cbn [check_surface]. rewrite Forall_cons.
    destruct (surface_char c); cbn [negb]; [rewrite IH; tauto|]. split; [done|]. by intros [? _]. }
  unfold validate_surface. destruct s as [|c s].
  { split; [done|]. cbn [length]. lia. }
  rewrite bool_decide_eq_false_2 by done. change SURFACE_MAX with 32%nat. rewrite <- Hcheck.
  destruct (Nat.ltb_spec 32 (length (c :: s))).
  - split; [done|lia].
  - split; [|by intros [_ ?]]. intros ?. split; [cbn [length] in *; lia|done].
Qed.

Lemma stored_payload t s p :
  event_type_string t = Ok s → payload_ok t p → payload_wide p →
  stored_properties s (payload_json p) = Ok p.
Proof.
  intros Hs Hp Hw. unfold payload_ok in Hp.
  assert (Hwide : ∀ n, is_i64 n → json_as_i64 (JNumber n) = Some n).
  { unfold is_i64. intros n Hn. cbn.
    by rewrite (proj2 (Z.leb_le _ _)), (proj2 (Z.leb_le _ _)) by lia. }
  assert (Hfeed : ∀ k pos, is_i32 pos →
    parse_feed_kind_and_position (payload_json (Impression k pos)) = Ok (k, pos)).
  { intros k pos Hpos. unfold parse_feed_kind_and_position, stored.
    change (json_get "feed_kind" _) with (Some (JString k)).
    change (json_get "position" _) with (Some (JNumber pos)). cbn [mbind option_bind json_as_str].
    rewrite Hwide by (unfold is_i32, is_i64, i32_min, i32_max, i64_max in *; lia).
    cbn. by rewrite as_i32_id. }
  destruct p; destruct_and?; subst t; injection Hs as <-; unfold stored_properties;
    repeat match goal with |- context [str_eqb ?a ?b] =>
      let v := eval vm_compute in (str_eqb a b) in change (str_eqb a b) with v end; cbv iota.
  - by rewrite Hfeed.
  - change (payload_json (OpenProperties feed_kind position))
      with (payload_json (Impression feed_kind position)). by rewrite Hfeed.
  - unfold stored. change (json_get "dwell_ms" _) with (Some (JNumber dwell_ms)).
    cbn [mbind option_bind]. by rewrite Hwide.
  - done.
  - done.
  - done.
Qed.

(** ** Accepted events *)

Section accepted.
Context `{UuidLib, ChronoLib, UnicodeLib}.

(** What makes a submitted event valid, and the record it becomes. *)
Record valid_event (subject : Subject) (req : RecordEventRequest) (now : DateTime)
    (r : EventRecord) : Prop := {
  ve_user : uuid_parse_str (re_user_id req) = Ok (er_user_id r);
  ve_owner : ∀ u k, subject = Subject.User u k → er_user_id r = u;
  ve_article : ∃ a, uuid_parse_str (re_article_id req) = Ok a ∧ er_article_id r = Some a;
  ve_type : event_type_string (re_type req) = Ok (er_type r);
  ve_time : re_occurred_at req ≫= proto_to_chrono = Some (er_occurred_at r);
  ve_window : now - 86400 * 1000000000 <= er_occurred_at r <= now + 60 * 1000000000;
  ve_surface : er_surface r = re_surface req ∧ (1 <= length (er_surface r) <= 32)%nat ∧
    Forall (λ c, surface_char c = true) (er_surface r);
  ve_payload : ∃ p, re_properties req = Some p ∧ payload_ok (re_type req) p ∧
    er_properties r = payload_json p;
}.

Lemma parse_uuid_ok field raw u : parse_uuid field raw = Ok u ↔ uuid_parse_str raw = Ok u.
Proof. unfold parse_uuid. destruct (uuid_parse_str raw); cbn; split; congruence. Qed.
Lemma occurred_at_spec t now :
  validate_occurred_at t now = Ok () ↔ now - 86400 * 1000000000 <= t <= now + 60 * 1000000000.
Proof.
  unfold validate_occurred_at, OCCURRED_AT_PAST_WINDOW_HOURS, OCCURRED_AT_FUTURE_WINDOW_SECONDS.
  destruct (Z.ltb_spec t (now - 24 * 3600 * 1000000000));
    destruct (Z.ltb_spec (now + 60 * 1000000000) t); cbn [orb]; (split; [done || lia|done || lia]).
Qed.
Lemma check_user_spec subject u :
  check_user subject u = Ok () ↔ ∀ su k, subject = Subject.User su k → u = su.
Proof.
  unfold check_user. destruct subject as [su k| | |]; try (split; [done|done]).
  destruct (bool_decide_reflect (u = su)); split; try done; [by intros _ ? ? [= <- <-]|].
  intros Hu. by destruct (Hu su k).
Qed.
Lemma bind_ok_iff {E A B} (m : result E A) (f : A → result E B) b :
  m ≫= f = Ok b ↔ ∃ a, m = Ok a ∧ f a = Ok b.
Proof. destruct m; cbn; naive_solver. Qed.

Lemma prepare_event_spec subject req now r :
  prepare_event subject req now = Ok r ↔ valid_event subject req now r.
Proof.
  unfold prepare_event. split.
  - intros (u & Hu%parse_uuid_ok & (a & Ha%parse_uuid_ok & (s & Hs & (t & Ht%ok_or_ok &
      ([] & Hw%occurred_at_spec & ([] & Hsurf%surface_spec & (j & Hj & ([] & Hc & [= <-]
      )%bind_ok_iff)%bind_ok_iff)%bind_ok_iff)%bind_ok_iff)%bind_ok_iff)%bind_ok_iff)%bind_ok_iff
      )%bind_ok_iff.
    split; cbn; eauto; [by apply check_user_spec|by apply (properties_spec _ s)].
  - intros [Hu Ho (a & Ha & Hea) Hs Ht Hw (Hse & Hsurf) Hp]. rewrite Hse in Hsurf.
    apply parse_uuid_ok with (field := "user_id"%string) in Hu.
    apply parse_uuid_ok with (field := "article_id"%string) in Ha.
    apply occurred_at_spec in Hw. apply surface_spec in Hsurf.
    apply (properties_spec _ _ _ _ Hs) in Hp. apply check_user_spec in Ho.
    rewrite Hu. cbn [mbind result_bind]. rewrite Ha. cbn [mbind result_bind].
    rewrite Hs. cbn [mbind result_bind]. rewrite Ht. cbn [ok_or mbind result_bind].
    rewrite Hw. cbn [mbind result_bind]. rewrite Hsurf. cbn [mbind result_bind].
    rewrite Hp. cbn [mbind result_bind]. rewrite Ho. destruct r; cbn in *. by subst.
Qed.

(** C20. An event is accepted exactly when it is well formed: both ids parse, its
    type is one of the six kinds and its payload is of that kind and within its bounds
    (a known feed and a position from 0, at most 24 hours of dwelling, a target of 1 to
    32 characters), the surface has 1 to 32 characters of the alphabet, it happened
    between 24 hours before and 60 seconds after the server's time, both ends included,
    and a user submits only its own; the record is then exactly what was submitted. *)
Theorem event_accepted_iff subject req now r :
  prepare_event subject req now = Ok r ↔ valid_event subject req now r.
Proof. apply prepare_event_spec. Qed.

Lemma valid_event_readable `{DieselLib} subject req now r id received :
  valid_event subject req now r → (∀ p, re_properties req = Some p → payload_wide p) →
  ∃ p, re_properties req = Some p ∧
    event_to_proto (new_event id received r) =
      Ok {| pev_id := uuid_display id; pev_user_id := uuid_display (er_user_id r);
            pev_article_id := or_default (uuid_display <$> er_article_id r);
            pev_type := re_type req;
            pev_occurred_at := Some (ts_to_proto (timestamptz (er_occurred_at r)));
            pev_received_at := Some (ts_to_proto (timestamptz received));
            pev_surface := re_surface req; pev_properties := Some p |}.
Proof.
  intros [_ _ _ Hs _ _ [Hsurf _] (p & Hp & Hok & Hj)] Hw. exists p. split; [done|].
  unfold event_to_proto, new_event. cbn. rewrite Hj, (stored_payload (re_type req)) by auto.
  cbn. by rewrite (event_type_roundtrip (re_type req)), Hsurf.
Qed.
End accepted.

(** ** Recording *)

Section recording.
Context `{UuidLib, ChronoLib, UnicodeLib, DieselLib, Base64Lib, SerdeLib}.
Variables (subject : Subject) (time_now : M TimeError Tso) (max : Z).

Lemma preserves_tso_now P : preserves P time_now → preserves P (tso_now time_now).
Proof.
  intros. unfold tso_now. apply preserves_bind; [by apply preserves_map_err|].
  intros tso. cbv zeta. preserve.
Qed.

Lemma event_record_ok r env w row w' :
  event_record r env w = (Ok row, w') →
  ∃ id now, row = new_event id now r ∧ events (w_db w') !! id = Some row.
Proof.
  unfold event_record. intros (? & ? & _ & (id & ? & _ & (now & ? & _ & Hr)%bind_ok)%bind_ok)%bind_ok.
  exists id, now. cbv zeta in Hr. apply map_errM_ok, stmt_ok in Hr as [Hr _].
  unfold returning in Hr. rewrite insert_event_single in Hr.
  unfold insert_events, insert_stmt in Hr. destruct (filter _ _) as [|[? ?] ?]; [|done].
  injection Hr as <- Hd. split; [done|]. rewrite <- Hd. unfold add_events. cbn.
  apply lookup_union_Some_l, lookup_insert_eq.
Qed.

(** C22. Recording an event is read back: whatever fails and whatever other requests
    do, a reply shows what was submitted, ids in canonical form, with a new id, and is what
    reading the stored row gives. The time of the event is shown as the column keeps it: to
    the microsecond, and exactly when no finer one was submitted. *)
Theorem recorded_event_reads_back `{!TimestampLaws, !TimestamptzLaws} req ts env w reply w' :
  record_event subject time_now req env w = (Ok reply, w') →
  re_occurred_at req = Some ts → 0 <= nanos ts < 1000000000 →
  (∀ p, re_properties req = Some p → payload_wide p) →
  (∃ row, events (w_db w') !! ev_id row = Some row ∧ event_to_proto row = Ok reply) ∧
  (∃ u a, uuid_parse_str (re_user_id req) = Ok u ∧ pev_user_id reply = uuid_display u ∧
     uuid_parse_str (re_article_id req) = Ok a ∧ pev_article_id reply = uuid_display a) ∧
  (∃ t, proto_to_chrono ts = Some t ∧ pev_occurred_at reply = Some (ts_to_proto (timestamptz t)) ∧
     timestamptz t mod 1000 = 0 ∧ Z.abs (timestamptz t - t) < 1000) ∧
  (nanos ts mod 1000 = 0 → pev_occurred_at reply = re_occurred_at req) ∧
  pev_type reply = re_type req ∧ pev_surface reply = re_surface req ∧ pev_properties reply = re_properties req.
Proof.
  unfold record_event. intros Hrun Hts Hn Hw.
  destruct (is_authorized_writer subject); [|done]. cbn [negb] in Hrun. rpc_inv Hrun. simplify_eq.
  match goal with Hp : prepare_event _ _ _ = Ok _, Hr : events_record _ _ _ = _,
    Hc : event_to_proto _ = _ |- _ => rename Hc into Hproto;apply prepare_event_spec in Hp as Hv;
    apply event_record_ok in Hr as (id & received & -> & Hrow) end.
  set (row := new_event id received a0) in *.
  split; [by exists row|].
  destruct (valid_event_readable _ _ _ _ id received Hv Hw) as (p & Hp & Heq).
  fold row in Heq. rewrite Heq in Hproto. injection Hproto as <-. cbn.
  destruct Hv as [Hu _ (a' & Ha & Hea) _ Ht _ _ _]. rewrite Hts in Ht |- *. rewrite Hea.
  split; [by eexists _, _|]. split; [|split; [|done]].
  - exists (er_occurred_at a0). pose proof (timestamptz_micros (er_occurred_at a0)).
    pose proof (timestamptz_near (er_occurred_at a0)). by split_and!.
  - intros Hmicros. rewrite timestamptz_kept by by eapply ts_micros. by rewrite (ts_roundtrip ts).
Qed.

(** C21. A batch is all or nothing, whatever fails: the call fails and the database
    is unchanged, or every request was valid and every record is stored, once, under an
    id of its own and stamped with one reception time, and no event is lost; a reply then
    shows the stored rows in the order of the requests, with their number. *)
Theorem batch_all_or_nothing reqs env w :
  writes_nothing time_now → (∀ n d, others env n d = d) →
  let (r, w') := record_event_batch subject time_now max reqs env w in
  (w_db w' = w_db w ∧ ∃ e, r = Err e) ∨
  (∃ now records received rows,
     Forall2 (λ req, valid_event subject req now) reqs records ∧
     Forall2 (stamps received) records rows ∧ NoDup (ev_id <$> rows) ∧
     (∀ id row, events (w_db w') !! id = Some row ↔
        (row ∈ rows ∧ ev_id row = id) ∨ events (w_db w) !! id = Some row) ∧
     (∀ row, row ∈ rows → events (w_db w) !! ev_id row = None) ∧
     ∀ out n, r = Ok (out, n) →
       Forall2 (λ row p, event_to_proto row = Ok p) rows out ∧ n = as_i32 (Z.of_nat (length reqs))).
Proof.
  intros Htime Ho. unfold record_event_batch.
  destruct (is_authorized_writer subject); [cbn [negb]|by left; eauto].
  destruct (bool_decide_reflect (reqs = [])) as [|Hne]; [by left; eauto|].
  destruct (max <? _); [by left; eauto|].
  assert (Hnow : w_db (tso_now time_now env w).2 = w_db w).
  { apply (preserves_tso_now (λ d, d = w_db w)); [apply Htime| |done]. intros ?? ->. apply Ho. }
  rewrite bind_run. destruct (tso_now time_now env w) as [[now|e] w1]; cbn [snd] in Hnow;
    [|by left; eauto]. rewrite bind_check.
  destruct (try_map _ reqs) as [records|e] eqn:Hrec; [|by left; eauto].
  apply try_map_ok in Hrec. apply (Forall2_impl _ (λ req, valid_event subject req now)) in Hrec;
    [|intros ??; apply prepare_event_spec].
  assert (records ≠ []) as Hne'.
  { intros ->. by apply Forall2_nil_inv_r in Hrec. }
  pose proof (event_record_batch_atomic records env w1 Hne' Ho) as Hatom. rewrite Hnow in Hatom.
  rewrite bind_call. cbn [events_record_batch PgEventRepo].
  revert Hatom. destruct (event_record_batch records env w1) as [[out|e] w2]; intros Hatom.
  - destruct Hatom as [[_ [? ?]]|(received & rows & Hst & Hnd & Hdb & Hfresh & Hout)]; [done|].
    specialize (Hout out eq_refl) as ->. rewrite bind_check.
    assert (length rows = length reqs) as Hl
      by (by rewrite <- (Forall2_length _ _ _ Hst), (Forall2_length _ _ _ Hrec)).
    rewrite Hl. destruct (try_map event_to_proto rows) as [out|e] eqn:Hp;
      right; exists now, records, received, rows; split_and!; try done.
    intros ?? [= <- <-]. split; [by apply try_map_ok|done].
  - destruct Hatom as [[? _]|(received & rows & Hst & Hnd & Hdb & Hfresh & _)]; [by left; eauto|].
    right. by exists now, records, received, rows.
Qed.
End recording.

(** ** Rejected batches *)

(** One bad event rejects a batch: the first request that is not valid decides
    the error, whatever follows it, and the repository is never asked, whichever it is.
    In particular a user cannot slip another user's event into a batch. *)
Theorem first_bad_event_rejects `{UuidLib, ChronoLib, UnicodeLib, EventRepo}
    subject time_now max pre bad post now e env w w1 :
  is_authorized_writer subject = true →
  Z.of_nat (length (pre ++ bad :: post)) <= max →
  tso_now time_now env w = (Ok now, w1) →
  Forall (λ req, ∃ r, valid_event subject req now r) pre →
  prepare_event subject bad now = Err e →
  record_event_batch subject time_now max (pre ++ bad :: post) env w = (Err (Domain e), w1).
Proof.
  intros Hs Hlen Hnow Hpre Hbad. unfold record_event_batch.
  rewrite Hs, bool_decide_eq_false_2 by (by destruct pre). cbn [negb].
  rewrite (proj2 (Z.ltb_ge _ _)) by done. rewrite bind_run, Hnow, bind_check.
  rewrite (try_map_first_error _ pre bad post e); [done| |done].
  eapply Forall_impl; [exact Hpre|]. intros req [r Hr%prepare_event_spec]. cbn. by rewrite Hr.
Qed.

(** ** The log is readable *)

Section readable.
Context `{UuidLib, ChronoLib, UnicodeLib, DieselLib, Base64Lib, SerdeLib}.
Variables (subject : Subject) (time_now : M TimeError Tso) (max : Z).

(** Every stored event is under its id and can be converted for a reply. *)
Definition readable (d : Db) : Prop :=
  ∀ id r, events d !! id = Some r → ev_id r = id ∧ is_ok (event_to_proto r) = true.
(** A request as decoded: its integers have the width of their fields. *)
Definition decoded (req : RecordEventRequest) : Prop :=
  ∀ p, re_properties req = Some p → payload_wide p.

Lemma readable_add d records rows :
  readable d → NoDup (ev_id <$> rows) → rows_of records rows →
  (∀ r, r ∈ records → ∃ req now, decoded req ∧ valid_event subject req now r) →
  readable (add_events rows d).
Proof.
  intros Hd Hnd Hrows Hrec id r [[Hr <-]|[_ Hr]]%add_events_lookup; [|by apply Hd|done].
  split; [done|]. destruct (Hrows r Hr) as (id & received & rec & Hin & ->).
  destruct (Hrec rec Hin) as (req & now & Hdec & Hv).
  by destruct (valid_event_readable _ _ _ _ id received Hv Hdec) as (p & _ & ->).
Qed.

Lemma preserves_check_bind {A B} P (r : result HeadlinesError A) (f : A → M Fault B) :
  (∀ a, r = Ok a → preserves P (f a)) → preserves P (check r ≫= f).
Proof. destruct r; intros Hf; [by apply Hf|apply preserves_throw]. Qed.

Lemma record_event_readable req :
  writes_nothing time_now → decoded req → preserves readable (record_event subject time_now req).
Proof.
  intros Ht Hdec. unfold record_event. destruct (negb _); [apply preserves_denied|].
  apply preserves_bind; [by apply preserves_tso_now|]. intros now.
  apply preserves_check_bind. intros r Hr%prepare_event_spec.
  apply preserves_bind; [|intros; apply preserves_check]. apply preserves_call.
  apply event_record_preserves. intros d rows Hd Hnd Hrows _. eapply readable_add; [done..|].
  intros r' ->%list_elem_of_singleton. by exists req, now.
Qed.
Lemma record_event_batch_readable reqs :
  writes_nothing time_now → Forall decoded reqs →
  preserves readable (record_event_batch subject time_now max reqs).
Proof.
  intros Ht Hdec. unfold record_event_batch. destruct (negb _); [apply preserves_denied|].
  destruct (bool_decide _); [apply preserves_fail|]. destruct (_ <? _); [apply preserves_fail|].
  apply preserves_bind; [by apply preserves_tso_now|]. intros now.
  apply preserves_check_bind. intros records Hrec%try_map_ok. cbv zeta.
  apply preserves_bind; [apply preserves_call|intros; preserve].
  apply event_record_batch_preserves. intros d rows Hd Hnd Hrows _. eapply readable_add; [done..|].
  intros r (i & Hi)%list_elem_of_lookup.
  destruct (Forall2_lookup_r _ _ _ _ _ Hrec Hi) as (req & Hreq & Hr%prepare_event_spec).
  exists req, now. split; [|done]. by eapply Forall_lookup_1.
Qed.
Lemma list_events_readable req : preserves readable (list_events subject req).
Proof.
  unfold list_events. destruct (negb _); [apply preserves_denied|].
  do 3 (apply preserves_check_bind; intros ? _). cbv zeta.
  apply preserves_bind; [apply preserves_call, event_list_preserves|].
  intros [rows next]. preserve.
Qed.

Lemma event_list_quiet f page token cursor env w :
  quiet env → page_cursor (lit "r") token = Ok cursor →
  ∃ rows next w', event_list f page token env w = (Ok (rows, next), w') ∧
    ∀ r, r ∈ rows → ∃ id, events (w_db w) !! id = Some r.
Proof.
  intros Hq Htok. unfold event_list. rewrite Htok. do 3 quiet_step.
  destruct (cut_page _ _ _) as [rows next] eqn:Hcut. eexists _, _, _. split; [done|].
  intros r Hr. apply (elem_of_rows_where (event_matches f)).
  apply (fetch_elem Asc event_key (clamp_page_size page) (matching_events f (w_db w)) cursor).
  unfold fetch. by rewrite Hcut.
Qed.

(** C19. The log is well typed: whatever fails and however other such requests
    interleave, the handlers keep every stored event convertible, so a permitted
    listing with well-formed filters and token never trips over a stored row. *)
Theorem log_stays_readable :
  writes_nothing time_now →
  (∀ req, decoded req → preserves readable (record_event subject time_now req)) ∧
  (∀ reqs, Forall decoded reqs → preserves readable (record_event_batch subject time_now max reqs)) ∧
  (∀ req, preserves readable (list_events subject req)) ∧
  ∀ req user article types cursor env w, quiet env → readable (w_db w) →
    scoped_system subject "events.read" = true →
    optional_uuid "user_id" (le_user_id req) = Ok user →
    optional_uuid "article_id" (le_article_id req) = Ok article →
    try_map event_type_string (le_types req) = Ok types →
    page_cursor (lit "r") (le_page_token req) = Ok cursor →
    is_ok (list_events subject req env w).1 = true.
Proof.
  intros Ht. split_and!; [by intros; apply record_event_readable
    |by intros; apply record_event_batch_readable|intros; apply list_events_readable|].
  intros req user article types cursor env w Hq Hd Hs Hu Ha Hty Htok. unfold list_events.
  rewrite Hs. cbn [negb]. rewrite bind_check, Hu, bind_check, Ha, bind_check, Hty. cbv zeta.
  rewrite bind_call. cbn [events_list PgEventRepo].
  match goal with |- context [event_list ?f ?p ?t] =>
    destruct (event_list_quiet f p t cursor env w Hq Htok) as (rows & next & w' & -> & Hrows) end.
  assert (is_ok (try_map event_to_proto rows) = true) as Hok.
  { apply try_map_is_ok, Forall_forall. intros r [id Hid]%Hrows. by destruct (Hd id r Hid). }
  rewrite bind_check. by destruct (try_map event_to_proto rows).
Qed.
End readable.

(** ** Examples *)

Section witnesses.
#[local] Existing Instances toy_uuid toy_diesel toy_chrono toy_base64 toy_serde toy_unicode
  toy_timestamp_laws toy_timestamptz_laws.

Definition toy_time : M TimeError Tso := mret (from_parts 90000 0).
Lemma toy_time_reads : writes_nothing toy_time.
Proof. intros P. apply preserves_ret. Qed.
Definition toy_share (user : Uuid) : RecordEventRequest :=
  {| re_user_id := uuid_display user; re_article_id := uuid_display 7%N; re_type := 6;
     re_occurred_at := Some {| seconds := 89; nanos := 5 |}; re_surface := lit "web";
     re_properties := Some (Share (lit "twitter")) |}.
Lemma toy_share_decoded user : decoded (toy_share user).
Proof. by intros p [= <-]. Qed.
Definition toy_clicker : Subject := Subject.User 2%N 20%N.
Definition toy_analyst : Subject := Subject.System 9%N 9%N [lit "events.read"].

(** A share submitted with five nanoseconds, which the reply no longer has. *)
Lemma recorded_event_reads_back_witness :
  ∃ reply w', record_event toy_clicker toy_time (toy_share 2%N) toy_env (mkWorld empty_db 0) =
    (Ok reply, w') ∧ pev_properties reply = Some (Share (lit "twitter")) ∧
    pev_occurred_at reply = Some {| seconds := 89; nanos := 0 |}.
Proof.
  assert (∃ reply w', record_event toy_clicker toy_time (toy_share 2%N) toy_env
    (mkWorld empty_db 0) = (Ok reply, w')) as (reply & w' & Hrun)
    by (eexists _, _; vm_compute; reflexivity).
  exists reply, w'. split; [exact Hrun|].
  destruct (recorded_event_reads_back toy_clicker toy_time
    (toy_share 2%N) {| seconds := 89; nanos := 5 |} toy_env (mkWorld empty_db 0) reply w' Hrun eq_refl
    ltac:(cbn; lia) (toy_share_decoded 2%N)) as (_ & _ & (t & Ht & Hat & _) & _ & _ & _ & Hp).
  split; [exact Hp|]. rewrite Hat. injection Ht as <-. vm_compute. reflexivity.
Defined.

Lemma batch_all_or_nothing_witness :
  let (r, w') := record_event_batch toy_clicker toy_time 500 [toy_share 2%N; toy_share 2%N]
                   toy_env (mkWorld empty_db 0) in
  w_db w' = empty_db ∨ size (events (w_db w')) = 2%nat.
Proof.
  pose proof (batch_all_or_nothing toy_clicker toy_time 500 [toy_share 2%N; toy_share 2%N]
    toy_env (mkWorld empty_db 0) toy_time_reads ltac:(done)) as Hb.
  destruct (record_event_batch _ _ _ _ _ _) as [r w'] eqn:Hrun.
  destruct Hb as [[Hd _]|_]; [by left|right].
  assert ((record_event_batch toy_clicker toy_time 500 [toy_share 2%N; toy_share 2%N]
    toy_env (mkWorld empty_db 0)).2 = w') as <- by by rewrite Hrun.
  vm_compute. reflexivity.
Defined.

Lemma first_bad_event_rejects_witness :
  record_event_batch toy_clicker toy_time 500 [toy_share 2%N; toy_share 3%N; toy_share 2%N]
    toy_env (mkWorld empty_db 0) =
  (Err (Domain (UnauthorizedUserId 2%N 3%N)), mkWorld empty_db 0).
Proof.
  apply (first_bad_event_rejects toy_clicker toy_time 500 [toy_share 2%N] (toy_share 3%N)
    [toy_share 2%N] 90000000000 _ toy_env (mkWorld empty_db 0));
    [done|cbn; lia|by vm_compute| |by vm_compute].
  repeat constructor. eexists. apply prepare_event_spec. vm_compute. reflexivity.
Defined.

Lemma log_stays_readable_witness :
  is_ok (list_events toy_analyst
    {| le_user_id := []; le_article_id := uuid_display 7%N; le_types := [6]; le_received_after := None;
       le_received_before := None; le_page_size := 10; le_page_token := [] |}
    toy_env (record_event toy_clicker toy_time (toy_share 2%N) toy_env (mkWorld empty_db 0)).2).1
  = true.
Proof.
  destruct (log_stays_readable toy_clicker toy_time 500 toy_time_reads) as (Hrec & _).
  destruct (log_stays_readable toy_analyst toy_time 500 toy_time_reads) as (_ & _ & _ & Hlist).
  eapply Hlist; [apply toy_env_quiet| |by vm_compute..].
  apply (Hrec (toy_share 2%N) (toy_share_decoded 2%N)); [done|]. by intros id r Hr.
Defined.
End witnesses.
