(* ===== verification/Rest.v ===== *)
(** * JSON of the REST surface ([headlines-rest-gateway/src/lib.rs], the converters)

    The hand-written conversions between the gRPC messages and the JSON of the REST
    routes: replies are rendered, request bodies and query strings are read. *)

From S2P Require Import Prelude Libs Instances Errors Content Rpc AccountService ArticleService ReaderServices Events EventService.

(** ** Reading JSON *)

(** [v.get(..).and_then(Value::as_str).unwrap_or_default().to_owned()] and the same
    for integers, booleans and arrays. *)
Definition str_of (v : Json) (field : string) : option str := json_get field v ≫= json_as_str.
Definition text (v : Json) (field : string) : str := or_default (str_of v field).
Definition int32 (v : Json) (field : string) : Z :=
  default 0 (as_i32 <$> (json_get field v ≫= json_as_i64)).
Definition json_as_array (v : Json) : option (list Json) :=
  match v with JArray l => Some l | _ => None end.
Definition json_as_bool (v : Json) : option bool :=
  match v with JBool b => Some b | _ => None end.
Definition array_of {A} (v : Json) (field : string) (f : list Json → list A) : list A :=
  default [] (f <$> (json_get field v ≫= json_as_array)).

(** [str::parse::<i32>] *)
Definition parse_i32 (s : str) : option Z :=
  let parsed :=
    match s with
    | 45%N :: (_ :: _ as digits) => Z.opp <$> parse_digits 2147483648 0 digits
    | _ => parse_unsigned i32_max s
    end in
  match parsed with Ok z => Some z | Err _ => None end.

(** [parse_public_key], [parse_field_mask] *)
Definition parse_public_key (v : Json) : PublicKey :=
  {| pk_algo := text v "algo"; pk_public_key := text v "public_key" |}.
Definition parse_field_mask (v : Json) : list str := array_of v "paths" (omap json_as_str).

(** ** Rendering *)

(** The rendering of an optional message field; absent is [null]. *)
Definition or_null {A} (f : A → Json) (o : option A) : Json :=
  match o with Some a => f a | None => JNull end.
(** The JSON of a page. *)
Definition page_json {A} (f : A → Json) (page : list A * str) : Json :=
  json_object [("items"%string, JArray (f <$> page.1));
               ("next_page_token"%string, JString page.2)].

(** [account_status_str], [user_status_str], [key_status_str], [article_state_str],
    [follow_status_str]: an unknown number is rendered as unspecified. *)
Definition account_status_str (value : Z) : str :=
  match value with
  | 1 => lit "ACCOUNT_STATUS_ACTIVE" | 2 => lit "ACCOUNT_STATUS_DELETED"
  | _ => lit "ACCOUNT_STATUS_UNSPECIFIED"
  end.
Definition user_status_str (value : Z) : str :=
  match value with
  | 1 => lit "USER_STATUS_ACTIVE" | 2 => lit "USER_STATUS_DELETED"
  | _ => lit "USER_STATUS_UNSPECIFIED"
  end.
Definition key_status_str (value : Z) : str :=
  match value with
  | 1 => lit "KEY_STATUS_ACTIVE" | 2 => lit "KEY_STATUS_REVOKED"
  | _ => lit "KEY_STATUS_UNSPECIFIED"
  end.
Definition article_state_str (value : Z) : str :=
  match value with
  | 1 => lit "ARTICLE_STATE_LIVE" | 2 => lit "ARTICLE_STATE_TOMBSTONE"
  | _ => lit "ARTICLE_STATE_UNSPECIFIED"
  end.
Definition follow_status_str (value : Z) : str :=
  match value with
  | 1 => lit "FOLLOW_STATUS_ACTIVE" | 2 => lit "FOLLOW_STATUS_UNFOLLOWED"
  | _ => lit "FOLLOW_STATUS_UNSPECIFIED"
  end.

Section converters.
Context `{ChronoLib}.

(** [timestamp_to_rfc3339] *)
Definition timestamp_to_rfc3339 (ts : Timestamp) : str :=
  or_default (to_rfc3339 <$> from_timestamp (seconds ts) (as_u32 (nanos ts))).
Definition time_json (t : option Timestamp) : Json :=
  or_null (λ t, JString (timestamp_to_rfc3339 t)) t.

(** [account_to_json], [user_to_json], [user_key_to_json] *)
Definition account_to_json (a : ProtoAccount) : Json := json_object
  [("id", JString (pac_id a)); ("short_name", JString (pac_short_name a));
   ("author_name", JString (pac_author_name a)); ("author_url", JString (pac_author_url a));
   ("status", JString (account_status_str (pac_status a)));
   ("deleted_at", time_json (pac_deleted_at a)); ("created_at", time_json (pac_created_at a));
   ("updated_at", time_json (pac_updated_at a))]%string.
Definition user_to_json (u : ProtoUser) : Json := json_object
  [("id", JString (pu_id u)); ("display_name", JString (pu_display_name u));
   ("status", JString (user_status_str (pu_status u)));
   ("deleted_at", time_json (pu_deleted_at u)); ("created_at", time_json (pu_created_at u))]%string.
Definition user_key_to_json (k : ProtoKey) : Json := json_object
  [("user_id", JString (pk_owner_id k)); ("key_id", JString (pk_key_id k));
   ("algo", JString (pk_key_algo k)); ("public_key", JString (pk_key_public k));
   ("status", JString (key_status_str (pk_status k)));
   ("created_at", time_json (pk_created_at k)); ("revoked_at", time_json (pk_revoked_at k))]%string.

(** [node_to_json], [nodes_to_json_array] *)
Fixpoint rest_node_to_json (node : Node) : Json :=
  match node with
  | NodeNone => JNull
  | NodeText t => json_object [("text"%string, JString t)]
  | NodeElement tag attrs children =>
    let obj := map_insert (lit "tag") (JString tag) [] in
    let obj := if bool_decide (attrs = ∅) then obj
               else map_insert (lit "attrs") (JObject (attrs_to_json attrs)) obj in
    let obj := match children with
               | [] => obj
               | _ => map_insert (lit "children") (JArray (map rest_node_to_json children)) obj
               end in
    JObject obj
  end.
Definition nodes_to_json_array (nodes : list Node) : Json :=
  JArray (map rest_node_to_json nodes).

(** [parse_node], [parse_nodes] *)
Fixpoint parse_node (v : Json) : Node :=
  match v with
  | JObject obj =>
    match map_get (lit "text") obj with
    | Some (JString t) => NodeText t
    | _ =>
      NodeElement
        (or_default (map_get (lit "tag") obj ≫= json_as_str))
        (default ∅ (json_to_attrs <$> (map_get (lit "attrs") obj ≫= json_as_object)))
        ((fix get_children (m : list (str * Json)) : list Node :=
            match m with
            | [] => []
            | (k, v) :: m =>
              if str_eqb (lit "children") k then
                match v with JArray arr => map parse_node arr | _ => [] end
              else get_children m
            end) obj)
    end
  | _ => NodeNone
  end.
Definition parse_nodes (v : Json) : list Node :=
  match v with JArray arr => map parse_node arr | _ => [] end.
(** [.get("content").map(parse_nodes).unwrap_or_default()] *)
Definition content_of (v : Json) : list Node := default [] (parse_nodes <$> json_get "content" v).

(** [article_live_to_json], [article_live_summary_to_json],
    [article_tombstone_to_json] (and [.._summary_to_json], the same) *)
Definition article_live_summary_to_json (l : ProtoArticleLive) : Json := json_object
  [("current_version", JNumber (pal_current_version l)); ("title", JString (pal_title l));
   ("author_name", JString (pal_author_name l)); ("author_url", JString (pal_author_url l));
   ("redacted", JBool (pal_redacted l)); ("published_at", time_json (pal_published_at l));
   ("updated_at", time_json (pal_updated_at l))]%string.
Definition article_live_to_json (l : ProtoArticleLive) : Json := json_object
  [("current_version", JNumber (pal_current_version l)); ("title", JString (pal_title l));
   ("author_name", JString (pal_author_name l)); ("author_url", JString (pal_author_url l));
   ("content", nodes_to_json_array (pal_content l));
   ("redacted", JBool (pal_redacted l)); ("published_at", time_json (pal_published_at l));
   ("updated_at", time_json (pal_updated_at l))]%string.
Definition article_tombstone_to_json (t : ProtoArticleTombstone) : Json := json_object
  [("reason", JString (pat_reason t)); ("tombstoned_at", time_json (pat_tombstoned_at t))]%string.
(** [article_to_json], [article_summary_to_json]: the variant is a sibling field. *)
Definition article_json (live : ProtoArticleLive → Json) (a : ProtoArticle) : Json := json_object
  ([("id"%string, JString (pa_id a)); ("account_id"%string, JString (pa_account_id a));
    ("state"%string, JString (article_state_str (pa_state a)));
    ("created_at"%string, time_json (pa_created_at a))]
   ++ match pa_state_data a with
      | Some (StateLive l) => [("live"%string, live l)]
      | Some (StateTombstone t) => [("tombstone"%string, article_tombstone_to_json t)]
      | None => []
      end).
Definition article_to_json : ProtoArticle → Json := article_json article_live_to_json.
Definition article_summary_to_json : ProtoArticle → Json :=
  article_json article_live_summary_to_json.

(** [draft_to_json], [draft_summary_to_json], [follow_to_json] *)
Definition draft_to_json (d : ProtoDraft) : Json := json_object
  [("id", JString (pd_id d)); ("account_id", JString (pd_account_id d));
   ("title", JString (pd_title d)); ("author_name", JString (pd_author_name d));
   ("author_url", JString (pd_author_url d)); ("content", nodes_to_json_array (pd_content d));
   ("created_at", time_json (pd_created_at d)); ("updated_at", time_json (pd_updated_at d))]%string.
Definition draft_summary_to_json (s : ProtoDraftSummary) : Json := json_object
  [("id", JString (pds_id s)); ("account_id", JString (pds_account_id s));
   ("title", JString (pds_title s)); ("created_at", time_json (pds_created_at s));
   ("updated_at", time_json (pds_updated_at s))]%string.
Definition follow_to_json (f : ProtoFollow) : Json := json_object
  [("user_id", JString (pf_user_id f)); ("account_id", JString (pf_account_id f));
   ("status", JString (follow_status_str (pf_status f)));
   ("created_at", time_json (pf_created_at f)); ("unfollowed_at", time_json (pf_unfollowed_at f))]%string.

(** On the wire the article of a feed item is optional. *)
Record WireFeedItem := { wf_position : Z; wf_article : option ProtoArticle }.
(** [feed_item_to_json], [follow_feed_item_to_json], [account_stream_item_to_json] *)
Definition feed_item_to_json (i : WireFeedItem) : Json := json_object
  [("position", JNumber (wf_position i));
   ("article", or_null article_summary_to_json (wf_article i))]%string.
Definition follow_feed_item_to_json (article : option ProtoArticle) : Json :=
  json_object [("article"%string, or_null article_summary_to_json article)].

(** ** Events *)

(** [parse_event_type_str], [event_type_str] *)
Definition parse_event_type_str (s : str) : option Z :=
  let bare := default s (strip_prefix (lit "EVENT_TYPE_") s) in
  if str_eqb bare (lit "IMPRESSION") then Some 1
  else if str_eqb bare (lit "OPEN") then Some 2
  else if str_eqb bare (lit "DWELL") then Some 3
  else if str_eqb bare (lit "LIKE") then Some 4
  else if str_eqb bare (lit "UNLIKE") then Some 5
  else if str_eqb bare (lit "SHARE") then Some 6
  else if str_eqb bare (lit "UNSPECIFIED") then Some 0
  else None.
Definition event_type_str (value : Z) : str :=
  match value with
  | 1 => lit "EVENT_TYPE_IMPRESSION" | 2 => lit "EVENT_TYPE_OPEN" | 3 => lit "EVENT_TYPE_DWELL"
  | 4 => lit "EVENT_TYPE_LIKE" | 5 => lit "EVENT_TYPE_UNLIKE" | 6 => lit "EVENT_TYPE_SHARE"
  | _ => lit "EVENT_TYPE_UNSPECIFIED"
  end.

(** [parse_rfc3339_to_proto] *)
Definition parse_rfc3339_to_proto (s : str) : option Timestamp :=
  match parse_from_rfc3339 s with Ok dt => Some (ts_to_proto dt) | Err _ => None end.

(** [parse_record_event_properties]: the first of the six keys that is there. *)
Definition parse_record_event_properties (v : Json) : option Properties :=
  match json_get "impression" v with
  | Some o => Some (Impression (text o "feed_kind") (int32 o "position"))
  | None =>
  match json_get "open" v with
  | Some o => Some (OpenProperties (text o "feed_kind") (int32 o "position"))
  | None =>
  match json_get "dwell" v with
  | Some o => Some (Dwell (default 0 (json_get "dwell_ms" o ≫= json_as_i64)))
  | None =>
  match json_get "like" v with
  | Some _ => Some Like
  | None =>
  match json_get "unlike" v with
  | Some _ => Some Unlike
  | None =>
  match json_get "share" v with
  | Some o => Some (Share (text o "target"))
  | None => None
  end end end end end end.
(** [parse_record_event_request] *)
Definition parse_record_event_request (v : Json) : RecordEventRequest :=
  {| re_user_id := text v "user_id"; re_article_id := text v "article_id";
     re_type := default 0 (str_of v "type" ≫= parse_event_type_str);
     re_occurred_at := str_of v "occurred_at" ≫= parse_rfc3339_to_proto;
     re_surface := text v "surface";
     re_properties := json_get "properties" v ≫= parse_record_event_properties |}.

(** [event_properties_to_json], [event_to_json] *)
Definition event_properties_to_json (p : option Properties) : Json :=
  let tagged (tag : string) (fields : list (string * Json)) :=
    json_object [(tag, json_object fields)] in
  match p with
  | None => JNull
  | Some (Impression k pos) =>
    tagged "impression" [("feed_kind", JString k); ("position", JNumber pos)]
  | Some (OpenProperties k pos) =>
    tagged "open" [("feed_kind", JString k); ("position", JNumber pos)]
  | Some (Dwell ms) => tagged "dwell" [("dwell_ms", JNumber ms)]
  | Some Like => tagged "like" []
  | Some Unlike => tagged "unlike" []
  | Some (Share t) => tagged "share" [("target", JString t)]
  end%string.
Definition event_to_json (e : ProtoEvent) : Json := json_object
  [("id", JString (pev_id e)); ("user_id", JString (pev_user_id e));
   ("article_id", JString (pev_article_id e)); ("type", JString (event_type_str (pev_type e)));
   ("occurred_at", time_json (pev_occurred_at e)); ("received_at", time_json (pev_received_at e));
   ("surface", JString (pev_surface e));
   ("properties", event_properties_to_json (pev_properties e))]%string.
End converters.

(** ** Notifications *)

Record NotificationPayload := {
  np_title : str; np_body : str; np_image_url : str; np_data : gmap str str }.
Record SendNotificationRequest := {
  sn_idempotency_key : str;
  sn_user_id : str;
  sn_article_id : str;
  sn_kind : Z;
  sn_channels : list Z;
  sn_payload : option NotificationPayload;
}.
Record QuietHours := { qh_enabled : bool; qh_timezone : str; qh_start_hour : Z; qh_end_hour : Z }.
Record NotificationPreferences := {
  nps_user_id : str;
  nps_disabled_channels : list Z;
  nps_disabled_kinds : list Z;
  nps_quiet_hours : option QuietHours;
  nps_updated_at : option Timestamp;
}.

(** [parse_notification_kind_str], [parse_notification_channel_str] *)
Definition parse_notification_kind_str (s : str) : option Z :=
  let bare := default s (strip_prefix (lit "NOTIFICATION_KIND_") s) in
  if str_eqb bare (lit "UNSPECIFIED") then Some 0
  else if str_eqb bare (lit "NEW_ARTICLE") then Some 1
  else if str_eqb bare (lit "NEW_FOLLOWER") then Some 2
  else if str_eqb bare (lit "ARTICLE_TOMBSTONED") then Some 3
  else if str_eqb bare (lit "ARTICLE_EDITED") then Some 4
  else if str_eqb bare (lit "MENTION") then Some 5
  else if str_eqb bare (lit "REPLY") then Some 6
  else if str_eqb bare (lit "SYSTEM") then Some 7
  else None.
Definition parse_notification_channel_str (s : str) : option Z :=
  let bare := default s (strip_prefix (lit "NOTIFICATION_CHANNEL_") s) in
  if str_eqb bare (lit "UNSPECIFIED") then Some 0
  else if str_eqb bare (lit "PUSH") then Some 1
  else if str_eqb bare (lit "EMAIL") then Some 2
  else if str_eqb bare (lit "SMS") then Some 3
  else if str_eqb bare (lit "IN_APP") then Some 4
  else None.
Definition enum_list (v : Json) (field : string) (parse : str → option Z) : list Z :=
  array_of v field (omap (λ c, json_as_str c ≫= parse)).

(** [parse_notification_payload], [parse_send_notification_request] *)
Definition parse_notification_payload (v : Json) : NotificationPayload :=
  {| np_title := text v "title"; np_body := text v "body"; np_image_url := text v "image_url";
     np_data := default ∅ (json_to_attrs <$> (json_get "data" v ≫= json_as_object)) |}.
Definition parse_send_notification_request (v : Json) : SendNotificationRequest :=
  {| sn_idempotency_key := text v "idempotency_key"; sn_user_id := text v "user_id";
     sn_article_id := text v "article_id";
     sn_kind := default 0 (str_of v "kind" ≫= parse_notification_kind_str);
     sn_channels := enum_list v "channels" parse_notification_channel_str;
     sn_payload := parse_notification_payload <$> json_get "payload" v |}.

(** [parse_quiet_hours], [parse_notification_preferences] *)
Definition parse_quiet_hours (v : Json) : QuietHours :=
  {| qh_enabled := default false (json_get "enabled" v ≫= json_as_bool);
     qh_timezone := text v "timezone"; qh_start_hour := int32 v "start_hour";
     qh_end_hour := int32 v "end_hour" |}.
Definition parse_notification_preferences (v : Json) : NotificationPreferences :=
  {| nps_user_id := []; nps_disabled_channels := enum_list v "disabled_channels" parse_notification_channel_str;
     nps_disabled_kinds := enum_list v "disabled_kinds" parse_notification_kind_str;
     nps_quiet_hours := parse_quiet_hours <$> json_get "quiet_hours" v;
     nps_updated_at := None |}.

(** ** Fields of a rendered object *)

Fixpoint assoc {A} (field : string) (l : list (string * A)) : option A :=
  match l with
  | [] => None
  | (k, v) :: l => if String.eqb field k then Some v else assoc field l
  end.
(** [json!] keeps the last value of a field. *)
Lemma json_get_object field fields :
  json_get field (json_object fields) = assoc field (reverse fields).
Proof.
  unfold json_object, json_get. induction fields as [|[k v] fields IH] using rev_ind; [done|].
  rewrite foldl_snoc, reverse_snoc. cbn [assoc fst snd].
  destruct (String.eqb_spec field k) as [->|Hne].
  - apply map_get_insert_eq.
  - rewrite map_get_insert_ne; [done|]. by intros ?%(inj lit).
Qed.
(** Computes the field of an object that is written out. *)
Ltac json_field := rewrite ?json_get_object; cbn [reverse rev_append assoc String.eqb Ascii.eqb
  Bool.eqb option_bind mbind json_as_str json_as_object json_as_array].

(** ** What is rendered is read back *)

Section roundtrip.
Context `{ChronoLaws}.

(** The nodes of an article. *)
Lemma rest_nodes_mirror nodes :
  nodes_to_json_array nodes = nodes_to_json nodes ∧ ∀ j, parse_nodes j = json_to_nodes j.
Proof. by split. Qed.
Lemma rest_nodes_roundtrip nodes : parse_nodes (nodes_to_json_array nodes) = nodes.
Proof.
  destruct (rest_nodes_mirror nodes) as [-> Hp]. rewrite Hp. apply nodes_json_roundtrip.
Qed.

Lemma event_type_str_roundtrip t : 0 <= t <= 6 → parse_event_type_str (event_type_str t) = Some t.
Proof.
  intros Ht. assert (t = 0 ∨ t = 1 ∨ t = 2 ∨ t = 3 ∨ t = 4 ∨ t = 5 ∨ t = 6) as Hc by lia.
  destruct Hc as [->|[->|[->|[->|[->|[->| ->]]]]]]; by vm_compute.
Qed.

Lemma rest_time_roundtrip `{!TimestampLaws} ts dt :
  0 <= nanos ts < 1000000000 → proto_to_chrono ts = Some dt →
  str_of (json_object [("t"%string, time_json (Some ts))]) "t" ≫= parse_rfc3339_to_proto = Some ts.
Proof.
  intros Hn Hts. unfold str_of. json_field. unfold time_json, or_null, timestamp_to_rfc3339.
  change (from_timestamp _ _) with (proto_to_chrono ts). rewrite Hts. cbn.
  unfold parse_rfc3339_to_proto. rewrite rfc3339_roundtrip. f_equal. by eapply ts_roundtrip.
Qed.

Lemma payload_roundtrip p :
  payload_wide p → parse_record_event_properties (event_properties_to_json (Some p)) = Some p.
Proof.
  intros Hw. assert (H64 : ∀ n, is_i64 n → json_as_i64 (JNumber n) = Some n).
  { unfold is_i64. intros n Hn. cbn.
    by rewrite (proj2 (Z.leb_le _ _)), (proj2 (Z.leb_le _ _)) by lia. }
  assert (H32 : ∀ n, is_i32 n → default 0 (as_i32 <$> json_as_i64 (JNumber n)) = n).
  { intros n Hn. rewrite H64 by (unfold is_i32, is_i64, i32_min, i32_max, i64_max in *; lia).
    by apply as_i32_id. }
  destruct p; cbn [event_properties_to_json payload_wide] in *;
    unfold parse_record_event_properties, text, str_of, int32; do 2 json_field;
    rewrite ?H32, ?H64 by done; done.
Qed.
End roundtrip.
