(* ===== verification/Gateway.v ===== *)
(** * The REST gateway ([headlines-rest-gateway/src/lib.rs], [error.rs])

    Authentication of REST requests, the forwarding of each route to its gRPC method on
    the trusted listener, and the error envelope. *)

From S2P Require Import Prelude Libs Instances Subject Errors Tso TimeSource Nonce Wire Strategy Interceptor Content Rpc AccountService ArticleService ReaderServices Events EventService Rest.

(** ** Statuses and errors *)

(** [tonic::Code] and its number. *)
Inductive TonicCode : Type :=
  | COk | CCancelled | CUnknown | CInvalidArgument | CDeadlineExceeded | CNotFound
  | CAlreadyExists | CPermissionDenied | CResourceExhausted | CFailedPrecondition | CAborted
  | COutOfRange | CUnimplemented | CInternal | CUnavailable | CDataLoss | CUnauthenticated.
Definition code_number (c : TonicCode) : Z :=
  match c with
  | COk => 0 | CCancelled => 1 | CUnknown => 2 | CInvalidArgument => 3 | CDeadlineExceeded => 4
  | CNotFound => 5 | CAlreadyExists => 6 | CPermissionDenied => 7 | CResourceExhausted => 8
  | CFailedPrecondition => 9 | CAborted => 10 | COutOfRange => 11 | CUnimplemented => 12
  | CInternal => 13 | CUnavailable => 14 | CDataLoss => 15 | CUnauthenticated => 16
  end.

(** [tonic::Status]: [details] are the bytes of a [google.rpc.Status]. *)
Record GrpcStatus := { gs_code : TonicCode; gs_message : str; gs_details : bytes }.
Definition bare_status (c : TonicCode) (msg : str) : GrpcStatus :=
  {| gs_code := c; gs_message := msg; gs_details := [] |}.

(** [prost] and [tonic-types]: the codecs of [google.rpc.Status] (its list of [Any]s: type
    URL and bytes) and of [ErrorInfo]. *)
Class TonicTypesLib := {
  rpc_status_decode : bytes → option (list (str * bytes));
  error_info_decode : bytes → option ErrorInfo;
}.

(** [axum::extract::rejection::JsonRejection] *)
Inductive JsonRejection : Type :=
  | MissingJsonContentType
  | JsonDataError (e : str)
  | JsonSyntaxError (e : str)
  | BytesRejection (e : str)
  | OtherRejection (e : str).

Inductive GatewayError : Type :=
  | Grpc (s : GrpcStatus)
  | Transport (msg : str)
  | JsonReject (http_status : Z) (grpc_code : TonicCode) (message : str).

(** [From<JsonRejection> for GatewayError] *)
Definition from_rejection (r : JsonRejection) : GatewayError :=
  match r with
  | MissingJsonContentType =>
    JsonReject 415 CInvalidArgument (lit "expected request with Content-Type: application/json")
  | JsonDataError e | JsonSyntaxError e =>
    JsonReject 400 CInvalidArgument (lit "malformed JSON: " ++ e)
  | BytesRejection e => JsonReject 429 CResourceExhausted (lit "request body too large: " ++ e)
  | OtherRejection e => JsonReject 400 CInvalidArgument e
  end.

(** [grpc_code_to_http] *)
Definition grpc_code_to_http (c : TonicCode) : Z :=
  match c with
  | COk => 200
  | CInvalidArgument => 400
  | CUnauthenticated => 401
  | CPermissionDenied => 403
  | CNotFound => 404
  | CAlreadyExists => 409
  | CFailedPrecondition => 400
  | CResourceExhausted => 429
  | CUnimplemented => 501
  | CInternal => 500
  | CUnavailable => 503
  | CCancelled | CUnknown | CDeadlineExceeded | CAborted | COutOfRange | CDataLoss => 500
  end.

Definition ERROR_INFO_URL : str := lit "type.googleapis.com/google.rpc.ErrorInfo".

Section envelope.
Context `{TonicTypesLib}.

(** [any_to_json_detail] *)
Definition any_to_json_detail (any : str * bytes) : Json :=
  let stub := json_object [("@type"%string, JString any.1)] in
  if str_eqb any.1 ERROR_INFO_URL then
    match error_info_decode any.2 with
    | Some info => json_object
      [("@type", JString any.1); ("reason", JString (ei_reason info));
       ("domain", JString (ei_domain info));
       ("metadata", JObject (attrs_to_json (ei_metadata info)))]%string
    | None => stub
    end
  else stub.
(** [decode_status_details] *)
Definition decode_status_details (details : bytes) : list Json :=
  if bool_decide (details = []) then []
  else match rpc_status_decode details with
       | Some anys => any_to_json_detail <$> anys
       | None => []
       end.

(** [IntoResponse for GatewayError]: the HTTP status and the JSON body. *)
Definition into_response (e : GatewayError) : Z * Json :=
  let envelope code message details := json_object
    [("code", JNumber code); ("message", JString message); ("details", JArray details)]%string in
  match e with
  | Grpc s => (grpc_code_to_http (gs_code s),
               envelope (code_number (gs_code s)) (gs_message s)
                 (decode_status_details (gs_details s)))
  | Transport msg => (503, envelope (code_number CUnavailable) msg [])
  | JsonReject http_status grpc_code message =>
    (http_status, envelope (code_number grpc_code) message [])
  end.
End envelope.

(** ** The upstream methods *)

(** Messages the services do not need records for. *)
Record CreateAccountResponse := { car_account : option ProtoAccount; car_key_id : str }.
Record CreateUserResponse := { cur_user : option ProtoUser; cur_key_id : str }.
Record TombstoneArticleRequest := { ta_id : str; ta_reason : str }.
Record RedactArticleVersionRequest := {
  ra_article_id : str; ra_version : Z; ra_redaction_reason : str }.
Record EdgeRequest := { eq_user_id : str; eq_account_id : str }.
(** An owner's listing, with the flag some of them have. *)
Record PageRequest := {
  pq_owner_id : str; pq_page_size : Z; pq_page_token : str; pq_flag : bool }.
Record ReplaceFeedRequest := { rf_user_id : str; rf_article_ids : list str }.
Record UpdatePreferencesRequest := {
  up_preferences : option NotificationPreferences; up_update_mask : option (list str) }.

(** The gRPC methods behind the routes, with their messages. *)
Inductive Rpc : Type :=
  | CreateAccount | GetAccount
  | CreateUser | GetUser | UpdateUser | DeleteUser | AddUserKey | RevokeUserKey
  | PublishArticle | GetArticle | ListAccountArticles | EditArticle | TombstoneArticle
  | RedactArticleVersion
  | CreateDraft | GetDraft | UpdateDraft | DeleteDraft | ListAccountDrafts | PublishDraft
  | FollowAccount | UnfollowAccount | GetFollow | ListUserFollows | ListAccountFollowers
  | ReplaceRecommendationFeed | GetRecommendationFeed | GetFollowFeed | StreamAccountArticles
  | RecordEvent | RecordEventBatch | ListEvents
  | Notification (r : NotificationRpc).
Definition RequestOf (r : Rpc) : Type :=
  match r with
  | CreateAccount => CreateAccountRequest
  | CreateUser => CreateUserRequest
  | UpdateUser => UpdateUserRequest
  | AddUserKey => AddKeyRequest
  | RevokeUserKey => RevokeKeyRequest
  | PublishArticle | CreateDraft => PublishArticleRequest
  | EditArticle => EditArticleRequest
  | TombstoneArticle => TombstoneArticleRequest
  | RedactArticleVersion => RedactArticleVersionRequest
  | UpdateDraft => UpdateDraftRequest
  | FollowAccount | UnfollowAccount | GetFollow => EdgeRequest
  | ListAccountArticles | ListAccountDrafts | ListUserFollows | ListAccountFollowers
  | GetRecommendationFeed | GetFollowFeed | StreamAccountArticles => PageRequest
  | ReplaceRecommendationFeed => ReplaceFeedRequest
  | RecordEvent => RecordEventRequest
  | RecordEventBatch => list RecordEventRequest
  | ListEvents => ListEventsRequest
  | Notification SendNotification => SendNotificationRequest
  | Notification SendNotificationBatch => list SendNotificationRequest
  | Notification ListUserNotifications => PageRequest
  | Notification UpdateUserNotificationPreferences => UpdatePreferencesRequest
  | _ => str   (* one id *)
  end.
(** The replies of the notification methods are never used. *)
Definition ResponseOf (r : Rpc) : Type :=
  match r with
  | CreateAccount => CreateAccountResponse
  | GetAccount => ProtoAccount
  | CreateUser => CreateUserResponse
  | GetUser | UpdateUser | DeleteUser => ProtoUser
  | AddUserKey | RevokeUserKey => ProtoKey
  | PublishArticle | GetArticle | EditArticle | TombstoneArticle | PublishDraft => ProtoArticle
  | CreateDraft | GetDraft | UpdateDraft => ProtoDraft
  | RedactArticleVersion | DeleteDraft => ()
  | ListAccountArticles => list ProtoArticle * str
  | ListAccountDrafts => list ProtoDraftSummary * str
  | FollowAccount | UnfollowAccount | GetFollow => ProtoFollow
  | ListUserFollows | ListAccountFollowers => list ProtoFollow * str
  | ReplaceRecommendationFeed => Z
  | GetRecommendationFeed => list WireFeedItem * str
  | GetFollowFeed | StreamAccountArticles => list (option ProtoArticle) * str
  | RecordEvent => ProtoEvent
  | RecordEventBatch => list ProtoEvent * Z
  | ListEvents => list ProtoEvent * str
  | Notification _ => ()
  end.

(** ** Requests, state and effects *)

(** What the extractors of a route give: method, original path and query, headers, and
    the body when the route reads one.  The path parameters are arguments of the routes. *)
Record HttpRequest := {
  h_method : str;
  h_path : str;
  h_query : option str;
  h_headers : HeaderMap;
  h_body : result JsonRejection Json;
}.

(** Generated and third-party code: [prost]'s encoding of the messages, the serialiser
    [serde] derives for [Subject], the parser of metadata values, and the decoder of
    query strings. *)
Class GatewayLib := {
  encode_to_vec : ∀ r, RequestOf r → bytes;
  subject_to_json : Subject → result str str;
  metadata_value : str → bool;
  form_decode : str → list (str * str);
}.

Abbreviation Metadata := (gmap str str).
(** [GatewayState]: the strategy with the replay store, and the clients of the trusted
    listener; [σ] is the state behind them. *)
Record GatewayState (σ : Type) := {
  auth_strategy : σ → SignedRequestParts → result AuthError Subject * σ;
  client : ∀ r, Metadata → RequestOf r → σ → result GrpcStatus (ResponseOf r) * σ;
}.
Arguments auth_strategy {σ} _.
Arguments client {σ} _.

(** A handler: it may fail, and moves the state behind the strategy and the clients. *)
Definition GW (σ A : Type) : Type := σ → result GatewayError A * σ.
#[export] Instance GW_ret {σ} : MRet (GW σ) := λ A a s, (Ok a, s).
#[export] Instance GW_bind {σ} : MBind (GW σ) := λ A B f m s,
  match m s with (Ok a, s) => f a s | (Err e, s) => (Err e, s) end.
Definition of_result {σ A} (r : result GatewayError A) : GW σ A := λ s, (r, s).

Section gateway.
Context `{UuidLib, ChronoLib, Base64Lib, CryptoLib, GatewayLib} {σ : Type}.
Context (state : GatewayState σ).

(** [auth_err_to_gateway_err] *)
Definition auth_err_to_gateway_err (e : AuthError) : GatewayError :=
  Grpc (bare_status CUnauthenticated (auth_error_display e)).
Definition malformed_header : GatewayError :=
  Grpc (bare_status CUnauthenticated (lit "malformed_authorization_header")).

(** The parts [attach_auth] asks the strategy about. *)
Definition rest_parts (rq : HttpRequest) (parsed : ParsedAuthHeader) (proto_bytes : bytes) :
    SignedRequestParts :=
  {| srp_method := h_method rq; srp_path := h_path rq;
     srp_canonical_query := canonicalize_query (default [] (h_query rq));
     srp_request_hash := sha256 proto_bytes;
     srp_key_id := pah_key_id parsed; srp_algo := pah_algo parsed;
     srp_ts := pah_ts parsed; srp_nonce := pah_nonce parsed;
     srp_signature := pah_signature parsed |}.
(** [strategy.authenticate(..)?] and a client's method with [?]. *)
Definition run_strategy (parts : SignedRequestParts) : GW σ Subject := λ s,
  match auth_strategy state s parts with
  | (Ok subject, s) => (Ok subject, s)
  | (Err e, s) => (Err (auth_err_to_gateway_err e), s)
  end.
Definition call_client (r : Rpc) (metadata : Metadata) (message : RequestOf r) :
    GW σ (ResponseOf r) := λ s,
  match client state r metadata message s with
  | (Ok resp, s) => (Ok resp, s)
  | (Err status, s) => (Err (Grpc status), s)
  end.

(** The [match] of [attach_auth]: who is calling. *)
Definition rest_subject (rq : HttpRequest) (proto_bytes : bytes) : GW σ Subject :=
  match header_get AUTHORIZATION (h_headers rq) with
  | None => mret Anonymous
  | Some value =>
    raw ← of_result (ok_or malformed_header value);
    parsed ← of_result (map_err (λ _, malformed_header) (parse_authorization_header raw));
    run_strategy (rest_parts rq parsed proto_bytes)
  end.
(** [attach_auth], on the metadata of the outgoing request. *)
Definition attach_auth (rq : HttpRequest) (proto_bytes : bytes) (metadata : Metadata) :
    GW σ Metadata :=
  subject ← rest_subject rq proto_bytes;
  json ← of_result (map_err (λ e, Grpc (bare_status CInternal
                                          (lit "subject serialization failed: " ++ e)))
                     (subject_to_json subject));
  if metadata_value json then
    mret (delete (lit "authorization") (<[TRUSTED_SUBJECT_HEADER := json]> metadata))
  else of_result (Err (Grpc (bare_status CInternal (lit "subject metadata encode failed")))).

(** The end of every handler: a fresh request with this message, [attach_auth], the call
    of the client with [?]. *)
Definition forward (rq : HttpRequest) (r : Rpc) (message : RequestOf r) : GW σ (ResponseOf r) :=
  metadata ← attach_auth rq (encode_to_vec r message) ∅;
  call_client r metadata message.

(** [EnvelopeJson]: the body as JSON, or the rejection. *)
Definition json_body (rq : HttpRequest) : GW σ Json :=
  of_result (map_err from_rejection (h_body rq)).
(** [Query<HashMap<..>>]: of a repeated key the last value counts. *)
Definition qs_pairs (rq : HttpRequest) : list (str * str) := form_decode (default [] (h_query rq)).
Definition qs_get (rq : HttpRequest) (key : string) : option str :=
  snd <$> last (filter (λ kv, kv.1 = lit key) (qs_pairs rq)).
Definition qs_page_size (rq : HttpRequest) : Z := default 0 (qs_get rq "page_size" ≫= parse_i32).
Definition qs_flag (rq : HttpRequest) (key : string) : bool :=
  default false ((λ v, str_eqb v (lit "true")) <$> qs_get rq key).
Definition qs_page (rq : HttpRequest) (owner_id : str) (flag : bool) : PageRequest :=
  {| pq_owner_id := owner_id; pq_page_size := qs_page_size rq;
     pq_page_token := or_default (qs_get rq "page_token"); pq_flag := flag |}.

Definition empty_json : Json := json_object [].

(** ** The routes *)

(** [create_account], [get_account] *)
Definition rest_create_account (rq : HttpRequest) : GW σ Json :=
  body ← json_body rq;
  resp ← forward rq CreateAccount
    {| ca_short_name := text body "short_name"; ca_author_name := text body "author_name";
       ca_author_url := text body "author_url";
       ca_initial_key := parse_public_key <$> json_get "initial_key" body |};
  mret (json_object [("account", or_null account_to_json (car_account resp));
                     ("key_id", JString (car_key_id resp))]%string).
Definition rest_get_account (id : str) (rq : HttpRequest) : GW σ Json :=
  resp ← forward rq GetAccount id;
  mret (account_to_json resp).

(** [create_user], [get_user], [update_user], [delete_user] *)
Definition rest_create_user (rq : HttpRequest) : GW σ Json :=
  body ← json_body rq;
  resp ← forward rq CreateUser
    {| cu_display_name := text body "display_name";
       cu_initial_key := parse_public_key <$> json_get "initial_key" body |};
  mret (json_object [("user", or_null user_to_json (cur_user resp));
                     ("key_id", JString (cur_key_id resp))]%string).
Definition rest_get_user (id : str) (rq : HttpRequest) : GW σ Json :=
  resp ← forward rq GetUser id;
  mret (user_to_json resp).
Definition rest_update_user (id : str) (rq : HttpRequest) : GW σ Json :=
  body ← json_body rq;
  resp ← forward rq UpdateUser
    {| uur_user := Some {| pu_id := id; pu_display_name := text body "display_name";
                           pu_status := 0; pu_deleted_at := None; pu_created_at := None |};
       uur_update_mask := parse_field_mask <$> json_get "update_mask" body |};
  mret (user_to_json resp).
Definition rest_delete_user (id : str) (rq : HttpRequest) : GW σ Json :=
  resp ← forward rq DeleteUser id;
  mret (user_to_json resp).
(** [add_user_key], [revoke_user_key] *)
Definition rest_add_user_key (id : str) (rq : HttpRequest) : GW σ Json :=
  body ← json_body rq;
  resp ← forward rq AddUserKey
    {| ak_owner_id := id; ak_key := parse_public_key <$> json_get "key" body |};
  mret (user_key_to_json resp).
Definition rest_revoke_user_key (id key_id : str) (rq : HttpRequest) : GW σ Json :=
  resp ← forward rq RevokeUserKey {| rk_owner_id := id; rk_key_id := key_id |};
  mret (user_key_to_json resp).

(** The message of [publish_article] and [create_draft]. *)
Definition publish_message (account_id : str) (body : Json) : PublishArticleRequest :=
  {| pr_account_id := account_id; pr_title := text body "title";
     pr_author_name := text body "author_name"; pr_author_url := text body "author_url";
     pr_content := content_of body |}.
(** [publish_article], [get_article_handler], [list_account_articles] *)
Definition rest_publish_article (account_id : str) (rq : HttpRequest) : GW σ Json :=
  body ← json_body rq;
  resp ← forward rq PublishArticle (publish_message account_id body);
  mret (article_to_json resp).
Definition rest_get_article (id : str) (rq : HttpRequest) : GW σ Json :=
  resp ← forward rq GetArticle id;
  mret (article_to_json resp).
Definition rest_list_account_articles (account_id : str) (rq : HttpRequest) : GW σ Json :=
  resp ← forward rq ListAccountArticles (qs_page rq account_id (qs_flag rq "include_tombstoned"));
  mret (page_json article_summary_to_json resp).
(** [edit_article], [tombstone_article], [redact_article_version] *)
Definition rest_edit_article (id : str) (rq : HttpRequest) : GW σ Json :=
  body ← json_body rq;
  resp ← forward rq EditArticle
    {| er_id := id;
       er_edit := (λ v, {| pe_title := text v "title"; pe_author_name := text v "author_name";
                           pe_author_url := text v "author_url"; pe_content := content_of v |})
                  <$> json_get "edit" body;
       er_update_mask := parse_field_mask <$> json_get "update_mask" body |};
  mret (article_to_json resp).
Definition rest_tombstone_article (id : str) (rq : HttpRequest) : GW σ Json :=
  body ← json_body rq;
  resp ← forward rq TombstoneArticle {| ta_id := id; ta_reason := text body "reason" |};
  mret (article_to_json resp).
Definition rest_redact_article_version (article_id version : str) (rq : HttpRequest) :
    GW σ Json :=
  body ← json_body rq;
  v ← of_result (ok_or (Grpc (bare_status CInvalidArgument (lit "version must be an int")))
                   (parse_i32 version));
  forward rq RedactArticleVersion
    {| ra_article_id := article_id; ra_version := v;
       ra_redaction_reason := text body "redaction_reason" |};;
  mret empty_json.

(** [create_draft], [get_draft], [update_draft], [delete_draft] *)
Definition rest_create_draft (account_id : str) (rq : HttpRequest) : GW σ Json :=
  body ← json_body rq;
  resp ← forward rq CreateDraft (publish_message account_id body);
  mret (draft_to_json resp).
Definition rest_get_draft (id : str) (rq : HttpRequest) : GW σ Json :=
  resp ← forward rq GetDraft id;
  mret (draft_to_json resp).
Definition rest_update_draft (id : str) (rq : HttpRequest) : GW σ Json :=
  body ← json_body rq;
  resp ← forward rq UpdateDraft
    {| ud_draft := (λ v, {| pd_id := id; pd_account_id := []; pd_title := text v "title";
                            pd_author_name := text v "author_name";
                            pd_author_url := text v "author_url"; pd_content := content_of v;
                            pd_created_at := None; pd_updated_at := None |})
                   <$> json_get "draft" body;
       ud_update_mask := parse_field_mask <$> json_get "update_mask" body |};
  mret (draft_to_json resp).
Definition rest_delete_draft (id : str) (rq : HttpRequest) : GW σ Json :=
  forward rq DeleteDraft id;;
  mret empty_json.
(** [list_account_drafts], [publish_draft] *)
Definition rest_list_account_drafts (account_id : str) (rq : HttpRequest) : GW σ Json :=
  resp ← forward rq ListAccountDrafts (qs_page rq account_id false);
  mret (page_json draft_summary_to_json resp).
Definition rest_publish_draft (id : str) (rq : HttpRequest) : GW σ Json :=
  resp ← forward rq PublishDraft id;
  mret (article_to_json resp).

(** [follow_user], [unfollow_user], [get_follow] *)
Definition rest_follow_user (user_id : str) (rq : HttpRequest) : GW σ Json :=
  body ← json_body rq;
  resp ← forward rq FollowAccount
    {| eq_user_id := user_id; eq_account_id := text body "account_id" |};
  mret (follow_to_json resp).
Definition rest_unfollow_user (user_id account_id : str) (rq : HttpRequest) : GW σ Json :=
  resp ← forward rq UnfollowAccount {| eq_user_id := user_id; eq_account_id := account_id |};
  mret (follow_to_json resp).
Definition rest_get_follow (user_id account_id : str) (rq : HttpRequest) : GW σ Json :=
  resp ← forward rq GetFollow {| eq_user_id := user_id; eq_account_id := account_id |};
  mret (follow_to_json resp).
(** [list_user_follows], [list_account_followers] *)
Definition rest_list_user_follows (user_id : str) (rq : HttpRequest) : GW σ Json :=
  resp ← forward rq ListUserFollows (qs_page rq user_id (qs_flag rq "include_unfollowed"));
  mret (page_json follow_to_json resp).
Definition rest_list_account_followers (account_id : str) (rq : HttpRequest) : GW σ Json :=
  resp ← forward rq ListAccountFollowers (qs_page rq account_id (qs_flag rq "include_unfollowed"));
  mret (page_json follow_to_json resp).

(** [replace_recommendation_feed], [get_recommendation_feed], [get_follow_feed],
    [stream_account_articles] *)
Definition rest_replace_recommendation_feed (user_id : str) (rq : HttpRequest) : GW σ Json :=
  body ← json_body rq;
  resp ← forward rq ReplaceRecommendationFeed
    {| rf_user_id := user_id; rf_article_ids := array_of body "article_ids" (omap json_as_str) |};
  mret (json_object [("stored_count"%string, JNumber resp)]).
Definition rest_get_recommendation_feed (user_id : str) (rq : HttpRequest) : GW σ Json :=
  resp ← forward rq GetRecommendationFeed (qs_page rq user_id false);
  mret (page_json feed_item_to_json resp).
Definition rest_get_follow_feed (user_id : str) (rq : HttpRequest) : GW σ Json :=
  resp ← forward rq GetFollowFeed (qs_page rq user_id false);
  mret (page_json follow_feed_item_to_json resp).
Definition rest_stream_account_articles (account_id : str) (rq : HttpRequest) : GW σ Json :=
  resp ← forward rq StreamAccountArticles (qs_page rq account_id false);
  mret (page_json follow_feed_item_to_json resp).

(** [record_event], [record_event_batch] *)
Definition rest_record_event (rq : HttpRequest) : GW σ Json :=
  body ← json_body rq;
  resp ← forward rq RecordEvent (parse_record_event_request body);
  mret (event_to_json resp).
Definition rest_record_event_batch (rq : HttpRequest) : GW σ Json :=
  body ← json_body rq;
  resp ← forward rq RecordEventBatch (array_of body "events" (map parse_record_event_request));
  mret (json_object [("recorded"%string, JArray (event_to_json <$> resp.1));
                     ("stored_count"%string, JNumber resp.2)]).
(** The loop of [list_events] over the query pairs. *)
Definition default_list_events : ListEventsRequest :=
  {| le_user_id := []; le_article_id := []; le_types := []; le_received_after := None;
     le_received_before := None; le_page_size := 0; le_page_token := [] |}.
Definition list_events_param (q : ListEventsRequest) (kv : str * str) : ListEventsRequest :=
  let '(k, v) := kv in
  let '(Build_ListEventsRequest user_id article_id types after before size token) := q in
  if str_eqb k (lit "user_id") then
    Build_ListEventsRequest v article_id types after before size token
  else if str_eqb k (lit "article_id") then
    Build_ListEventsRequest user_id v types after before size token
  else if str_eqb k (lit "page_size") then
    Build_ListEventsRequest user_id article_id types after before (default 0 (parse_i32 v)) token
  else if str_eqb k (lit "page_token") then
    Build_ListEventsRequest user_id article_id types after before size v
  else if str_eqb k (lit "received_after") then
    Build_ListEventsRequest user_id article_id types (parse_rfc3339_to_proto v) before size token
  else if str_eqb k (lit "received_before") then
    Build_ListEventsRequest user_id article_id types after (parse_rfc3339_to_proto v) size token
  else if str_eqb k (lit "types") || str_eqb k (lit "types[]") then
    Build_ListEventsRequest user_id article_id
      (types ++ match parse_event_type_str v with Some t => [t] | None => [] end)
      after before size token
  else q.
(** [list_events] *)
Definition rest_list_events (rq : HttpRequest) : GW σ Json :=
  resp ← forward rq ListEvents (foldl list_events_param default_list_events (qs_pairs rq));
  mret (page_json event_to_json resp).

(** [send_notification], [send_notification_batch], [list_user_notifications],
    [mark_notification_read], [mark_all_user_notifications_read],
    [get_user_notification_preferences], [update_user_notification_preferences] *)
Definition rest_send_notification (rq : HttpRequest) : GW σ Json :=
  body ← json_body rq;
  forward rq (Notification SendNotification) (parse_send_notification_request body);;
  mret empty_json.
Definition rest_send_notification_batch (rq : HttpRequest) : GW σ Json :=
  body ← json_body rq;
  forward rq (Notification SendNotificationBatch)
    (array_of body "notifications" (map parse_send_notification_request));;
  mret empty_json.
Definition rest_list_user_notifications (user_id : str) (rq : HttpRequest) : GW σ Json :=
  forward rq (Notification ListUserNotifications) (qs_page rq user_id (qs_flag rq "unread_only"));;
  mret empty_json.
Definition rest_mark_notification_read (id : str) (rq : HttpRequest) : GW σ Json :=
  forward rq (Notification MarkNotificationRead) id;;
  mret empty_json.
Definition rest_mark_all_read (user_id : str) (rq : HttpRequest) : GW σ Json :=
  forward rq (Notification MarkAllUserNotificationsRead) user_id;;
  mret empty_json.
Definition rest_get_preferences (user_id : str) (rq : HttpRequest) : GW σ Json :=
  forward rq (Notification GetUserNotificationPreferences) user_id;;
  mret empty_json.
Definition rest_update_preferences (user_id : str) (rq : HttpRequest) : GW σ Json :=
  body ← json_body rq;
  let preferences :=
    match json_get "preferences" body with
    | Some v => let p := parse_notification_preferences v in
      {| nps_user_id := user_id; nps_disabled_channels := nps_disabled_channels p;
         nps_disabled_kinds := nps_disabled_kinds p; nps_quiet_hours := nps_quiet_hours p;
         nps_updated_at := nps_updated_at p |}
    | None => {| nps_user_id := user_id; nps_disabled_channels := []; nps_disabled_kinds := [];
                 nps_quiet_hours := None; nps_updated_at := None |}
    end in
  forward rq (Notification UpdateUserNotificationPreferences)
    {| up_preferences := Some preferences;
       up_update_mask := parse_field_mask <$> json_get "update_mask" body |};;
  mret empty_json.

(** ** The router *)

(** The routes of [build_router] with their path parameters; matching a path against
    them is [axum]'s. *)
Inductive Route : Type :=
  | Healthz | OpenapiJson
  | RCreateAccount | RGetAccount (id : str)
  | RCreateUser | RGetUser (id : str) | RUpdateUser (id : str) | RDeleteUser (id : str)
  | RAddUserKey (id : str) | RRevokeUserKey (id key_id : str)
  | RPublishArticle (account_id : str) | RListAccountArticles (account_id : str)
  | RGetArticle (id : str) | REditArticle (id : str) | RTombstoneArticle (id : str)
  | RRedactArticleVersion (article_id version : str)
  | RCreateDraft (account_id : str) | RListAccountDrafts (account_id : str)
  | RGetDraft (id : str) | RUpdateDraft (id : str) | RDeleteDraft (id : str)
  | RPublishDraft (id : str)
  | RFollowUser (user_id : str) | RListUserFollows (user_id : str)
  | RGetFollow (user_id account_id : str) | RUnfollowUser (user_id account_id : str)
  | RListAccountFollowers (account_id : str)
  | RReplaceRecommendationFeed (user_id : str) | RGetRecommendationFeed (user_id : str)
  | RGetFollowFeed (user_id : str) | RStreamAccountArticles (account_id : str)
  | RRecordEvent | RListEvents | RRecordEventBatch
  | RSendNotification | RSendNotificationBatch | RListUserNotifications (user_id : str)
  | RMarkNotificationRead (id : str) | RMarkAllRead (user_id : str)
  | RGetPreferences (user_id : str) | RUpdatePreferences (user_id : str).

(** [OPENAPI_JSON] is a generated file. *)
Context (openapi : Json).

(** [build_router], with the two constant routes [get_healthz] and [get_openapi]. *)
Definition serve (route : Route) : HttpRequest → GW σ Json :=
  match route with
  | Healthz => λ _, mret (json_object [("status"%string, JString (lit "ok"))])
  | OpenapiJson => λ _, mret openapi
  | RCreateAccount => rest_create_account
  | RGetAccount id => rest_get_account id
  | RCreateUser => rest_create_user
  | RGetUser id => rest_get_user id
  | RUpdateUser id => rest_update_user id
  | RDeleteUser id => rest_delete_user id
  | RAddUserKey id => rest_add_user_key id
  | RRevokeUserKey id key_id => rest_revoke_user_key id key_id
  | RPublishArticle account_id => rest_publish_article account_id
  | RListAccountArticles account_id => rest_list_account_articles account_id
  | RGetArticle id => rest_get_article id
  | REditArticle id => rest_edit_article id
  | RTombstoneArticle id => rest_tombstone_article id
  | RRedactArticleVersion article_id version => rest_redact_article_version article_id version
  | RCreateDraft account_id => rest_create_draft account_id
  | RListAccountDrafts account_id => rest_list_account_drafts account_id
  | RGetDraft id => rest_get_draft id
  | RUpdateDraft id => rest_update_draft id
  | RDeleteDraft id => rest_delete_draft id
  | RPublishDraft id => rest_publish_draft id
  | RFollowUser user_id => rest_follow_user user_id
  | RListUserFollows user_id => rest_list_user_follows user_id
  | RGetFollow user_id account_id => rest_get_follow user_id account_id
  | RUnfollowUser user_id account_id => rest_unfollow_user user_id account_id
  | RListAccountFollowers account_id => rest_list_account_followers account_id
  | RReplaceRecommendationFeed user_id => rest_replace_recommendation_feed user_id
  | RGetRecommendationFeed user_id => rest_get_recommendation_feed user_id
  | RGetFollowFeed user_id => rest_get_follow_feed user_id
  | RStreamAccountArticles account_id => rest_stream_account_articles account_id
  | RRecordEvent => rest_record_event
  | RListEvents => rest_list_events
  | RRecordEventBatch => rest_record_event_batch
  | RSendNotification => rest_send_notification
  | RSendNotificationBatch => rest_send_notification_batch
  | RListUserNotifications user_id => rest_list_user_notifications user_id
  | RMarkNotificationRead id => rest_mark_notification_read id
  | RMarkAllRead user_id => rest_mark_all_read user_id
  | RGetPreferences user_id => rest_get_preferences user_id
  | RUpdatePreferences user_id => rest_update_preferences user_id
  end.
(** The HTTP status and body of the answer. *)
Definition respond `{TonicTypesLib} (route : Route) (rq : HttpRequest) (s : σ) : (Z * Json) * σ :=
  match serve route rq s with
  | (Ok json, s) => ((200, json), s)
  | (Err e, s) => (into_response e, s)
  end.
End gateway.

(** ** Every route is one authenticated call *)

Section routes.
Context `{UuidLib, ChronoLib, Base64Lib, CryptoLib, GatewayLib} {σ : Type}.
Context (state : GatewayState σ) (openapi : Json) (rq : HttpRequest).

(** The handler calls the method once, with a message that depends on the request alone. *)
Definition calls (r : Rpc) (h : GW σ Json) : Prop :=
  ∃ message (render : ResponseOf r → Json), ∀ s,
    h s = match forward state rq r message s with
          | (Ok resp, s) => (Ok (render resp), s)
          | (Err e, s) => (Err e, s)
          end.
(** It refuses the request or calls one method once, and does nothing else to the state. *)
Definition one_call (r : Rpc) (h : GW σ Json) : Prop :=
  (∃ e, ∀ s, h s = (Err e, s)) ∨ calls r h.

Lemma one_call_bind_result {A} r (x : result GatewayError A) (f : A → GW σ Json) :
  (∀ a, one_call r (f a)) → one_call r (of_result x ≫= f).
Proof.
  intros Hf. destruct x as [a|e]; [apply (Hf a)|left]. by exists e.
Qed.
Lemma one_call_body r (f : Json → GW σ Json) :
  (∀ a, one_call r (f a)) → one_call r (json_body rq ≫= f).
Proof. apply one_call_bind_result. Qed.
Lemma calls_forward r message (f : ResponseOf r → GW σ Json) :
  (∃ render, ∀ resp, f resp = mret (render resp)) → calls r (forward state rq r message ≫= f).
Proof.
  intros [render Hf]. exists message, render. intros s. unfold mbind, GW_bind.
  destruct (forward state rq r message s) as [[resp|e] s']; [|done]. by rewrite Hf.
Qed.
Lemma one_call_forward r message (f : ResponseOf r → GW σ Json) :
  (∃ render, ∀ resp, f resp = mret (render resp)) →
  one_call r (forward state rq r message ≫= f).
Proof. right. by apply calls_forward. Qed.

Ltac head_of t := lazymatch t with ?f _ => head_of f | _ => t end.

(** The method a route stands for; the two constant routes stand for none. *)
Definition route_rpc (route : Route) : option Rpc :=
  match route with
  | Healthz | OpenapiJson => None
  | RCreateAccount => Some CreateAccount
  | RGetAccount _ => Some GetAccount
  | RCreateUser => Some CreateUser
  | RGetUser _ => Some GetUser
  | RUpdateUser _ => Some UpdateUser
  | RDeleteUser _ => Some DeleteUser
  | RAddUserKey _ => Some AddUserKey
  | RRevokeUserKey _ _ => Some RevokeUserKey
  | RPublishArticle _ => Some PublishArticle
  | RListAccountArticles _ => Some ListAccountArticles
  | RGetArticle _ => Some GetArticle
  | REditArticle _ => Some EditArticle
  | RTombstoneArticle _ => Some TombstoneArticle
  | RRedactArticleVersion _ _ => Some RedactArticleVersion
  | RCreateDraft _ => Some CreateDraft
  | RListAccountDrafts _ => Some ListAccountDrafts
  | RGetDraft _ => Some GetDraft
  | RUpdateDraft _ => Some UpdateDraft
  | RDeleteDraft _ => Some DeleteDraft
  | RPublishDraft _ => Some PublishDraft
  | RFollowUser _ => Some FollowAccount
  | RListUserFollows _ => Some ListUserFollows
  | RGetFollow _ _ => Some GetFollow
  | RUnfollowUser _ _ => Some UnfollowAccount
  | RListAccountFollowers _ => Some ListAccountFollowers
  | RReplaceRecommendationFeed _ => Some ReplaceRecommendationFeed
  | RGetRecommendationFeed _ => Some GetRecommendationFeed
  | RGetFollowFeed _ => Some GetFollowFeed
  | RStreamAccountArticles _ => Some StreamAccountArticles
  | RRecordEvent => Some RecordEvent
  | RListEvents => Some ListEvents
  | RRecordEventBatch => Some RecordEventBatch
  | RSendNotification => Some (Notification SendNotification)
  | RSendNotificationBatch => Some (Notification SendNotificationBatch)
  | RListUserNotifications _ => Some (Notification ListUserNotifications)
  | RMarkNotificationRead _ => Some (Notification MarkNotificationRead)
  | RMarkAllRead _ => Some (Notification MarkAllUserNotificationsRead)
  | RGetPreferences _ => Some (Notification GetUserNotificationPreferences)
  | RUpdatePreferences _ => Some (Notification UpdateUserNotificationPreferences)
  end.
Lemma serve_calls route r : route_rpc route = Some r → one_call r (serve state openapi route rq).
Proof.
  intros Hr. destruct route; (discriminate Hr || injection Hr as <-); cbn [serve];
    match goal with |- one_call _ ?h => let f := head_of h in unfold f end;
    repeat (first [apply one_call_body | apply one_call_bind_result]; intros); cbv zeta;
    match goal with |- one_call _ (mbind ?f (forward _ _ ?r ?m)) =>
      apply (one_call_forward r m f) end;
    eexists; intros; reflexivity.
Qed.
(** What a handler reads before it calls: a JSON body, and for a redaction a version. *)
Definition reads_as_call (route : Route) : Prop :=
  is_ok (h_body rq) = true ∧
  ∀ article_id version, route = RRedactArticleVersion article_id version → is_Some (parse_i32 version).
Lemma calls_body r (f : Json → GW σ Json) :
  is_ok (h_body rq) = true → (∀ body, calls r (f body)) → calls r (json_body rq ≫= f).
Proof. unfold json_body. destruct (h_body rq) as [body|]; [|done]. intros _ Hf. apply (Hf body). Qed.
Lemma serve_reads route r :
  route_rpc route = Some r → reads_as_call route → calls r (serve state openapi route rq).
Proof.
  intros Hr [Hbody Hversion].
  destruct route; (discriminate Hr || injection Hr as <-); cbn [serve];
    match goal with |- calls _ ?h => let f := head_of h in unfold f end;
    try (apply calls_body; [exact Hbody|intros body]); cbv zeta;
    try (destruct (Hversion _ _ eq_refl) as [v ->]; change (of_result _ ≫= ?k) with (k v); cbv beta);
    match goal with |- calls _ (mbind ?f (forward _ _ ?r ?m)) =>
      apply (calls_forward r m f) end;
    eexists; intros; reflexivity.
Qed.
(** A credential the strategy turns down ends the call. *)
Lemma forward_refused r message value parsed s e s' :
  header_get AUTHORIZATION (h_headers rq) = Some (Some value) →
  parse_authorization_header value = Ok parsed →
  auth_strategy state s (rest_parts rq parsed (encode_to_vec r message)) = (Err e, s') →
  forward state rq r message s = (Err (auth_err_to_gateway_err e), s').
Proof.
  intros Hh Hp Hs. unfold forward, attach_auth, rest_subject. rewrite Hh.
  unfold mbind, GW_bind, of_result. cbn [ok_or]. rewrite Hp. cbn [map_err].
  unfold run_strategy. by rewrite Hs.
Qed.
Lemma serve_one_call route :
  route = Healthz ∨ route = OpenapiJson ∨ ∃ r, one_call r (serve state openapi route rq).
Proof.
  destruct (route_rpc route) as [r|] eqn:Hr; [|destruct route; by auto].
  right; right. exists r. by apply serve_calls.
Qed.
End routes.

(** ** What the routes render, they read back *)

(** C25. The JSON of the replies is the JSON of the requests: posting the rendered
    [live] part of an article, or a rendered draft, as a new article or draft submits the
    same title, author fields and content tree, at every depth; and posting a rendered
    event submits the same event, for every payload whose numbers fit their fields. *)
Theorem rest_renderings_read_back `{ChronoLib, !ChronoLaws, !TimestampLaws} :
  (∀ account_id live,
     publish_message account_id (article_live_to_json live) =
     {| pr_account_id := account_id; pr_title := pal_title live;
        pr_author_name := pal_author_name live; pr_author_url := pal_author_url live;
        pr_content := pal_content live |}) ∧
  (∀ draft,
     publish_message (pd_account_id draft) (draft_to_json draft) =
     {| pr_account_id := pd_account_id draft; pr_title := pd_title draft;
        pr_author_name := pd_author_name draft; pr_author_url := pd_author_url draft;
        pr_content := pd_content draft |}) ∧
  (∀ e ts dt p, 0 <= pev_type e <= 6 →
     pev_occurred_at e = Some ts → 0 <= nanos ts < 1000000000 → proto_to_chrono ts = Some dt →
     pev_properties e = Some p → payload_wide p →
     parse_record_event_request (event_to_json e) =
     {| re_user_id := pev_user_id e; re_article_id := pev_article_id e; re_type := pev_type e;
        re_occurred_at := pev_occurred_at e; re_surface := pev_surface e;
        re_properties := pev_properties e |}).
Proof.
  assert (Hcontent : ∀ fields nodes, assoc "content" (reverse fields) = Some (nodes_to_json_array nodes) →
            content_of (json_object fields) = nodes).
  { intros fields nodes Hf. unfold content_of. rewrite json_get_object, Hf.
    apply rest_nodes_roundtrip. }
  split_and!.
  - intros account_id live. unfold publish_message, article_live_to_json, text, str_of.
    rewrite (Hcontent _ (pal_content live)) by done. by json_field.
  - intros draft. unfold publish_message, draft_to_json, text, str_of.
    rewrite (Hcontent _ (pd_content draft)) by done. by json_field.
  - intros e ts dt p Ht Hat Hn Hdt Hp Hw.
    unfold parse_record_event_request, event_to_json, text, str_of. json_field.
    rewrite event_type_str_roundtrip, Hp, payload_roundtrip by done. f_equal. rewrite Hat.
    pose proof (rest_time_roundtrip ts dt Hn Hdt) as Htime. unfold str_of in Htime.
    by rewrite json_get_object in Htime.
Qed.

(** ** Through the trusted listener *)

Section trusted.
Context `{UuidLib, ChronoLib, Base64Lib, CryptoLib, GatewayLib} {σ : Type}.
Variable strategy : σ → SignedRequestParts → result AuthError Subject * σ.
(** The listener: the deserialiser of [Subject], the authorization table, the methods'
    paths, and the services behind. *)
Variable from_json : str → option Subject.
Variable table : str → option AuthSpec.
Variable rpc_path : Rpc → str.
Variable service : Subject → ∀ r, RequestOf r → σ → result GrpcStatus (ResponseOf r) * σ.

(** A client of the trusted listener: the request goes through its layers, and the
    service sees the subject they leave. *)
Definition trusted_client (r : Rpc) (metadata : Metadata) (message : RequestOf r) (s : σ) :
    result GrpcStatus (ResponseOf r) * σ :=
  let req := {| rq_method := lit "POST"; rq_path := rpc_path r; rq_query := None;
                rq_headers := (λ v, [Some v]) <$> metadata;
                rq_body := Ok (encode_to_vec r message); rq_subject := None |} in
  match trusted_stack from_json table (λ seen, default Anonymous (rq_subject seen)) req with
  | FromService subject => service subject r message s
  | UnauthResponse msg => (Err (bare_status CUnauthenticated msg), s)
  | Deny msg => (Err (bare_status CPermissionDenied msg), s)
  end.
Definition rest_server : GatewayState σ :=
  {| auth_strategy := strategy; client := trusted_client |}.

(** Who a REST request runs as: nobody without the header, else whom the strategy
    returned for this method, path, query and forwarded message. *)
Inductive rest_identified (rq : HttpRequest) (proto_bytes : bytes) (s : σ) : Subject → σ → Prop :=
  | rest_anonymous :
      header_get AUTHORIZATION (h_headers rq) = None →
      rest_identified rq proto_bytes s Anonymous s
  | rest_signed value parsed parts subject s1 :
      header_get AUTHORIZATION (h_headers rq) = Some (Some value) →
      parse_authorization_header value = Ok parsed →
      srp_method parts = h_method rq → srp_path parts = h_path rq →
      srp_canonical_query parts = canonicalize_query (default [] (h_query rq)) →
      srp_request_hash parts = sha256 proto_bytes →
      srp_key_id parts = pah_key_id parsed → srp_algo parts = pah_algo parsed →
      srp_ts parts = pah_ts parsed → srp_nonce parts = pah_nonce parsed →
      srp_signature parts = pah_signature parsed →
      strategy s parts = (Ok subject, s1) →
      rest_identified rq proto_bytes s subject s1.
(** The request touched nothing but the strategy's state. *)
Definition only_authenticated (s s' : σ) : Prop :=
  s' = s ∨ ∃ parts, s' = (strategy s parts).2.

Lemma rest_subject_spec rq proto_bytes s :
  let (r, s1) := rest_subject rest_server rq proto_bytes s in
  match r with
  | Ok subject => rest_identified rq proto_bytes s subject s1 ∧ only_authenticated s s1
  | Err e => only_authenticated s s1 ∧
             ∃ msg, e = Grpc (bare_status CUnauthenticated msg)
  end.
Proof.
  unfold rest_subject. destruct (header_get AUTHORIZATION (h_headers rq)) as [value|] eqn:Hh.
  2: { cbn. split; [by apply rest_anonymous|by left]. }
  unfold of_result, mbind, GW_bind, malformed_header.
  destruct value as [raw|]; cbn [ok_or]; [|by split; [left|eexists]].
  destruct (parse_authorization_header raw) as [parsed|e] eqn:Hp; cbn [map_err];
    [|by split; [left|eexists]].
  unfold run_strategy. cbn [auth_strategy rest_server].
  destruct (strategy s (rest_parts rq parsed proto_bytes)) as [[subject|e] s1] eqn:Hs.
  - split; [by eapply (rest_signed _ _ _ _ _ (rest_parts rq parsed proto_bytes))|]. right. eexists. by rewrite Hs.
  - split; [right; eexists; by rewrite Hs|by eexists].
Qed.

(** Forwarding a message: it is refused before the service, or the service runs it as the
    caller, who is permitted. *)
Definition served (rq : HttpRequest) (s : σ) (r : Rpc) (message : RequestOf r)
    (reply : result GrpcStatus (ResponseOf r)) (s' : σ) : Prop :=
  ∃ subject spec s1, rest_identified rq (encode_to_vec r message) s subject s1 ∧
    table (rpc_path r) = Some spec ∧ is_allowed subject spec = true ∧
    service subject r message s1 = (reply, s').

Lemma forward_spec rq r message s res s'
    (Hjson : ∀ subject json, subject_to_json subject = Ok json → from_json json = Some subject) :
  forward rest_server rq r message s = (res, s') →
  (only_authenticated s s' ∧ ∃ e, res = Err e) ∨
  ∃ reply, served rq s r message reply s' ∧ res = map_err Grpc reply.
Proof.
  unfold forward, attach_auth. unfold mbind, GW_bind.
  pose proof (rest_subject_spec rq (encode_to_vec r message) s) as Hsub.
  destruct (rest_subject _ _ _ s) as [[subject|e] s1];
    [|intros [= <- <-]; left; destruct Hsub; eauto].
  destruct Hsub as [Hid Hauth]. unfold of_result.
  destruct (subject_to_json subject) as [json|e] eqn:Hj; cbn [map_err];
    [|intros [= <- <-]; left; eauto].
  destruct (metadata_value json); cbn [mret GW_ret]; [|intros [= <- <-]; left; eauto].
  unfold call_client. cbn [client rest_server]. unfold trusted_client, trusted_stack, trusted_interceptor.
  cbn [rq_headers]. unfold header_get at 1. rewrite lookup_fmap, lookup_delete_ne by by vm_compute.
  rewrite lookup_insert_eq. cbn [fmap option_fmap option_map mbind option_bind head].
  rewrite (Hjson _ _ Hj). unfold authorization. cbn [rq_subject with_subject rq_path with_headers from_option id].
  destruct (table (rpc_path r)) as [spec|] eqn:Ht; [|intros [= <- <-]; left; eauto].
  destruct (is_allowed subject spec) eqn:Ha; [|intros [= <- <-]; left; eauto].
  destruct (service subject r message s1) as [reply s2] eqn:Hs. intros Hres. right. exists reply.
  destruct reply; injection Hres as <- <-; (split; [by exists subject, spec, s1|done]).
Qed.

(** C4. Through the REST gateway, on every route, a service runs at most once and
    only for a permitted subject: anonymous when there is no [Authorization] header, else
    the one the strategy returned for exactly this method, path, query and the message
    that is forwarded, whatever else the client sends; the reply is the service's, and
    otherwise nothing but the replay store is touched and the answer is an error. *)
Theorem rest_service_runs_as_signer openapi route rq s res s' :
  (∀ subject json, subject_to_json subject = Ok json → from_json json = Some subject) →
  serve rest_server openapi route rq s = (res, s') → route ≠ Healthz → route ≠ OpenapiJson →
  (only_authenticated s s' ∧ ∃ e, res = Err e) ∨
  ∃ r message reply (render : ResponseOf r → Json),
    served rq s r message reply s' ∧ res = map_err Grpc (render <$> reply).
Proof.
  intros Hjson Hrun Hh Ho.
  destruct (serve_one_call rest_server openapi rq route) as
    [?|[?|(r & [[e Hres]|(message & render & Hcall)])]]; [done|done| |].
  - rewrite Hres in Hrun. injection Hrun as <- <-. left. split; [by left|by eexists].
  - rewrite Hcall in Hrun. destruct (forward rest_server rq r message s) as [fres s1] eqn:Hf.
    apply forward_spec in Hf as [[Hauth [e ->]]|(reply & Hserved & ->)]; [| |done].
    + injection Hrun as <- <-. left. by eauto.
    + right. exists r, message, reply, render. destruct reply; cbn in Hrun; by injection Hrun as <- <-.
Qed.
End trusted.

(** ** What the routes lose *)

(** A listing filtered by a type the gateway does not know is not refused but unfiltered. *)
Lemma unknown_event_type_ignored `{ChronoLib} q v :
  parse_event_type_str v = None → list_events_param q (lit "types", v) = q.
Proof.
  intros Hv. destruct q. unfold list_events_param.
  repeat match goal with |- context [str_eqb (lit ?a) (lit ?b)] =>
    let e := eval vm_compute in (str_eqb (lit a) (lit b)) in
    change (str_eqb (lit a) (lit b)) with e end.
  cbv iota. cbn [orb]. by rewrite Hv, app_nil_r.
Qed.
(** An integer beyond 32 bits is cut, not refused. *)
Lemma large_position_is_cut :
  parse_record_event_properties
    (json_object [("open"%string, json_object [("position"%string, JNumber 4294967299)])]) =
  Some (OpenProperties [] 3).
Proof. by vm_compute. Qed.

(** ** Errors over REST *)

(** The code of a service error on the wire. *)
Definition wire_code (c : Code) : TonicCode :=
  match c with
  | NotFound => CNotFound
  | FailedPrecondition => CFailedPrecondition
  | AlreadyExists => CAlreadyExists
  | InvalidArgumentCode => CInvalidArgument
  | ResourceExhausted => CResourceExhausted
  | PermissionDenied => CPermissionDenied
  | UnauthenticatedCode => CUnauthenticated
  | Unimplemented => CUnimplemented
  | InternalCode => CInternal
  end.

(** [Status::with_error_details], and what [tonic-types] documents: the decoders read the
    one [ErrorInfo] back. *)
Class ErrorDetailsLib := error_details_encode : TonicCode → str → ErrorInfo → bytes.
Class ErrorDetailsLaws `{TonicTypesLib, ErrorDetailsLib} : Prop := {
  error_details_nonempty : ∀ c m i, error_details_encode c m i ≠ [];
  error_details_roundtrip : ∀ c m i, ∃ b,
    rpc_status_decode (error_details_encode c m i) = Some [(ERROR_INFO_URL, b)] ∧
    error_info_decode b = Some i;
}.

Section errors.
Context `{UuidLaws, ChronoLaws, ErrorDetailsLaws}.

(** A service error as a gRPC client gets it. *)
Definition on_wire (e : HeadlinesError) : GrpcStatus :=
  let st := status_from e in
  let c := wire_code (st_code st) in
  {| gs_code := c; gs_message := st_message st;
     gs_details := error_details_encode c (st_message st) (st_details st) |}.
Definition error_info_json (i : ErrorInfo) : Json := json_object
  [("@type", JString ERROR_INFO_URL); ("reason", JString (ei_reason i));
   ("domain", JString (ei_domain i)); ("metadata", JObject (attrs_to_json (ei_metadata i)))]%string.

Lemma wire_code_inj c c' : code_number (wire_code c) = code_number (wire_code c') → c = c'.
Proof. by destruct c, c'. Qed.

Lemma error_response e :
  into_response (Grpc (on_wire e)) =
  (grpc_code_to_http (wire_code (code e)), json_object
     [("code", JNumber (code_number (wire_code (code e))));
      ("message", JString (error_display e));
      ("details", JArray [error_info_json (st_details (status_from e))])]%string).
Proof.
  assert (Hcode : st_code (status_from e) = code e ∧ st_message (status_from e) = error_display e).
  { unfold status_from, code. by destruct (code_and_reason e). }
  destruct Hcode as [Hcode Hmsg]. unfold into_response, on_wire. cbn [gs_code gs_message gs_details].
  rewrite Hcode, Hmsg. do 4 f_equal. unfold decode_status_details.
  rewrite bool_decide_eq_false_2 by apply error_details_nonempty.
  destruct (error_details_roundtrip (wire_code (code e)) (error_display e)
    (st_details (status_from e))) as (b & -> & Hb).
  cbn. unfold any_to_json_detail. cbn [fst snd].
  change (str_eqb ERROR_INFO_URL ERROR_INFO_URL) with true. cbv iota. rewrite Hb. done.
Qed.

(** What the body of an answer says about the error. *)
Definition body_says (e : HeadlinesError) (body : Json) : Prop :=
  json_get "code" body = Some (JNumber (code_number (wire_code (code e)))) ∧
  json_get "message" body = Some (JString (error_display e)) ∧
  ∃ info, json_get "details" body = Some (JArray [info]) ∧
    json_get "reason" info = Some (JString (reason e)) ∧
    json_to_attrs <$> (json_get "metadata" info ≫= json_as_object) = Some (metadata e).

Lemma error_body e :
  ∃ body, into_response (Grpc (on_wire e)) = (grpc_code_to_http (wire_code (code e)), body) ∧
    body_says e body.
Proof.
  assert (Hinfo : ei_reason (st_details (status_from e)) = reason e ∧
                  ei_metadata (st_details (status_from e)) = metadata e).
  { unfold status_from, reason. by destruct (code_and_reason e). }
  destruct Hinfo as [Hr Hm]. rewrite error_response. eexists. split; [reflexivity|].
  split; [by json_field|]. split; [by json_field|]. eexists. split; [by json_field|].
  unfold error_info_json. rewrite Hr, Hm. split; [by json_field|]. json_field.
  cbn. by rewrite attrs_roundtrip.
Qed.
Lemma body_says_inj e1 e2 body : body_says e1 body → body_says e2 body → e1 = e2.
Proof.
  intros (Hc & Hm & i & Hi & Hr & Hd) (Hc2 & Hm2 & i2 & Hi2 & Hr2 & Hd2).
  apply status_identifies_error. unfold status_from. unfold code, reason in *.
  destruct (code_and_reason e1) as [c1 r1], (code_and_reason e2) as [c2 r2]. cbn [fst snd] in *.
  rewrite Hi in Hi2. injection Hi2 as <-. rewrite Hr in Hr2. rewrite Hd in Hd2.
  rewrite Hm in Hm2. rewrite Hc in Hc2. injection Hc2 as ->%wire_code_inj. congruence.
Qed.

(** C23. REST loses nothing of an error: every service error becomes an HTTP error
    (4xx, 500 or 501) whose body names the gRPC code, the message, the stable reason and
    the metadata, and two errors with the same body are the same error, payload
    included. *)
Theorem rest_errors_identify :
  (∀ e, ∃ http body, into_response (Grpc (on_wire e)) = (http, body) ∧
     http ∈ [400; 401; 403; 404; 409; 429; 500; 501] ∧ body_says e body) ∧
  ∀ e1 e2, (into_response (Grpc (on_wire e1))).2 = (into_response (Grpc (on_wire e2))).2 → e1 = e2.
Proof.
  split.
  - intros e. destruct (error_body e) as (body & Hb & Hs). eexists _, body. split; [done|].
    split; [|done]. unfold code. destruct (code_and_reason e) as [c r]. destruct c; cbn; set_solver.
  - intros e1 e2. destruct (error_body e1) as (b1 & -> & Hs1), (error_body e2) as (b2 & -> & Hs2).
    cbn [snd]. intros <-. by apply (body_says_inj e1 e2 b1).
Qed.
End errors.

(** ** Examples *)

Definition toy_gateway : GatewayLib := {|
  encode_to_vec _ _ := [1%N];
  subject_to_json s :=
    match s with
    | Subject.User u k => Ok [85; u; k]%N
    | Anonymous => Ok [65]%N
    | _ => Err (lit "unsupported")
    end;
  metadata_value _ := true;
  form_decode _ := [];
|}.
Definition toy_subject_from_json (s : str) : option Subject :=
  match s with
  | [85; u; k]%N => Some (Subject.User u k)
  | [65]%N => Some Anonymous
  | _ => None
  end.
Definition toy_tonic_types : TonicTypesLib := {|
  rpc_status_decode b := Some [(ERROR_INFO_URL, b)];
  error_info_decode b :=
    match b with
    | [Npos p] => (λ i : str * str * gmap str str,
                     {| ei_reason := i.1.1; ei_domain := i.1.2; ei_metadata := i.2 |}) <$> decode p
    | _ => None
    end;
|}.
Definition toy_error_details : ErrorDetailsLib := λ _ _ i,
  [Npos (encode (ei_reason i, ei_domain i, ei_metadata i))].
Lemma toy_error_details_laws : @ErrorDetailsLaws toy_tonic_types toy_error_details.
Proof.
  split; [done|]. intros c m i. eexists. split; [done|]. cbn. rewrite decode_encode. by destruct i.
Qed.

Section witnesses.
#[local] Existing Instances toy_uuid toy_uuid_laws toy_chrono toy_chrono_laws toy_timestamp_laws
  toy_base64 toy_crypto toy_gateway toy_tonic_types toy_error_details toy_error_details_laws.

Lemma rest_renderings_read_back_witness :
  pr_content (publish_message (lit "1") (article_live_to_json
    {| pal_current_version := 1; pal_title := lit "t"; pal_author_name := []; pal_author_url := [];
       pal_content := [NodeElement (lit "p") ∅ [NodeText (lit "hi")]]; pal_redacted := false;
       pal_published_at := None; pal_updated_at := None |})) =
  [NodeElement (lit "p") ∅ [NodeText (lit "hi")]].
Proof. destruct rest_renderings_read_back as (Hlive & _). rewrite Hlive. done. Defined.

Lemma rest_errors_identify_witness :
  (into_response (Grpc (on_wire (UserNotFound 5)))).2 ≠
  (into_response (Grpc (on_wire (UserNotFound 6)))).2.
Proof.
  destruct rest_errors_identify as [_ Hinj]. intros Heq%Hinj. discriminate Heq.
Defined.

(** A server whose strategy knows one caller, with a counter as its state; reading a user
    is open to users. *)
Definition toy_strategy (s : nat) (parts : SignedRequestParts) : result AuthError Subject * nat :=
  if str_eqb (srp_path parts) (lit "/v1/users/2") then (Ok (Subject.User 2%N 20%N), S s)
  else (Err (AuthUnauthenticated (lit "unknown key")), s).
Definition toy_table : str → option AuthSpec :=
  table_lookup [(lit "/get-user", {| allowed := [CUserSelf]; spec_scopes := [] |})].
Definition toy_path (r : Rpc) : str :=
  match r with GetUser => lit "/get-user" | _ => lit "/other" end.
Definition toy_service (subject : Subject) (r : Rpc) (message : RequestOf r) (s : nat) :
    result GrpcStatus (ResponseOf r) * nat :=
  (Err (bare_status CNotFound (lit "gone")), (s + 100)%nat).
Definition toy_rest : GatewayState nat :=
  rest_server toy_strategy toy_subject_from_json toy_table toy_path toy_service.
Definition toy_get_user : HttpRequest :=
  {| h_method := lit "GET"; h_path := lit "/v1/users/2"; h_query := None;
     h_headers := {[ AUTHORIZATION := [Some (render_header
        [HKeyId 9; HAlgo (lit "ed25519"); HTs (from_parts 990 0); HNonce [7]%N; HSig [1]%N])] ]};
     h_body := Err MissingJsonContentType |}.

Lemma rest_service_runs_as_signer_witness :
  ∃ res, serve toy_rest JNull (RGetUser (uuid_display 2%N)) toy_get_user 0%nat = (res, 101%nat).
Proof.
  assert (∃ res s', serve toy_rest JNull (RGetUser (uuid_display 2%N)) toy_get_user 0%nat = (res, s')
    ∧ s' = 101%nat) as (res & s' & Hrun & Hs)
    by (eexists _, _; split; [vm_compute; reflexivity|reflexivity]).
  exists res. rewrite Hrun. f_equal.
  destruct (rest_service_runs_as_signer toy_strategy toy_subject_from_json toy_table toy_path
    toy_service JNull (RGetUser (uuid_display 2%N)) toy_get_user 0%nat res s') as [_|_];
    [|exact Hrun|done|done|exact Hs|exact Hs].
  intros subject json Hj. destruct subject; try discriminate Hj; by injection Hj as <-.
Defined.
End witnesses.
