(* ===== verification/Seed.v ===== *)
(** * The demo seed pipeline ([headlines-server/src/seed/plan.rs], [state.rs],
    [articles.rs], [runner.rs])

    The runner drives the public gRPC listener and a few SQL statements, and records the
    ids it was given in a state file between its steps. *)

From S2P Require Import Prelude Tso Libs Instances Subject Errors Strategy Db Events Content Rpc Accounts AccountService ArticleService ReaderServices EventService Rest Gateway Wire SeedClient Markdown Frontmatter.

(** ** The plan *)

Record AccountSpec := { as_short_name : str; as_author_name : str; as_author_url : str }.
Definition account_spec (short name url : string) : str * AccountSpec :=
  (lit short, {| as_short_name := lit short; as_author_name := lit name; as_author_url := lit url |}).
Definition ACCOUNTS : list (str * AccountSpec) :=
  [account_spec "techblog" "TechBlog Editorial" "https://example.com/techblog";
   account_spec "worldnews" "World News Desk" "https://example.com/worldnews";
   account_spec "tutorials" "Tutorials Team" "https://example.com/tutorials";
   account_spec "opinion" "Opinion Page" "https://example.com/opinion";
   account_spec "videos" "Videos Studio" "https://example.com/videos"].
Definition pair_lit (p : string * string) : str * str := (lit p.1, lit p.2).
Definition USERS : list (str * str) := pair_lit <$>
  [("alice", "Alice Reader"); ("bob", "Bob Reader"); ("carol", "Carol Reader");
   ("dave", "Dave Reader"); ("eve", "Eve Reader"); ("frank", "Frank Reader");
   ("grace", "Grace Reader")]%string.
Definition list_lit (p : string * list string) : str * list str := (lit p.1, lit <$> p.2).
Definition SYSTEMS : list (str * list str) := list_lit <$>
  [("demo-ranker", ["feeds.recommendation.write"; "feeds.recommendation.read"; "events.read";
                    "articles.stream"]);
   ("demo-admin", ["accounts.write"; "accounts.admin"; "accounts.delete"; "articles.write";
                   "articles.tombstone"; "articles.redact"; "articles.stream"; "events.read";
                   "events.write"; "users.admin"; "feeds.recommendation.write";
                   "feeds.recommendation.read"; "admin.*"])]%string.
Definition FOLLOWS : list (str * list str) := list_lit <$>
  [("alice", ["techblog"; "tutorials"]); ("bob", ["worldnews"]);
   ("carol", ["techblog"; "worldnews"; "tutorials"; "opinion"; "videos"]);
   ("dave", ["opinion"; "videos"]); ("eve", ["techblog"; "videos"]);
   ("frank", ["worldnews"; "opinion"]); ("grace", ["tutorials"])]%string.

(** [iter().map(..).collect::<HashMap>().get(..)]: of repeated keys the last counts. *)
Definition plan_get {A} (plan : list (str * A)) (name : str) : option A :=
  (list_to_map (reverse plan) : gmap str A) !! name.

(** ** The state file *)

Record IdRecord := { id_id : str; id_key_id : str }.
(** [SeedState]; a [BTreeMap] iterates in key order. *)
Record SeedState := mkState {
  ss_accounts : gmap str IdRecord;
  ss_users : gmap str IdRecord;
  ss_systems : gmap str IdRecord;
  ss_articles : gmap str str;
  ss_drafts : gmap str str;
}.
Definition default_state : SeedState := mkState ∅ ∅ ∅ ∅ ∅.
Definition add_account (k : str) (r : IdRecord) (s : SeedState) : SeedState :=
  mkState (<[k := r]> (ss_accounts s)) (ss_users s) (ss_systems s) (ss_articles s) (ss_drafts s).
Definition add_user (k : str) (r : IdRecord) (s : SeedState) : SeedState :=
  mkState (ss_accounts s) (<[k := r]> (ss_users s)) (ss_systems s) (ss_articles s) (ss_drafts s).
Definition add_system (k : str) (r : IdRecord) (s : SeedState) : SeedState :=
  mkState (ss_accounts s) (ss_users s) (<[k := r]> (ss_systems s)) (ss_articles s) (ss_drafts s).
Definition add_article (k id : str) (s : SeedState) : SeedState :=
  mkState (ss_accounts s) (ss_users s) (ss_systems s) (<[k := id]> (ss_articles s)) (ss_drafts s).
Definition add_draft (k id : str) (s : SeedState) : SeedState :=
  mkState (ss_accounts s) (ss_users s) (ss_systems s) (ss_articles s) (<[k := id]> (ss_drafts s)).
Definition known {A} (m : gmap str A) (name : str) : bool := bool_decide (is_Some (m !! name)).

Definition entry_leb {A} (a b : str * A) : bool := str_leb a.1 b.1.
Definition btree {A} (m : gmap str A) : list (str * A) := sort_by entry_leb (map_to_list m).

(** ** Articles on disk *)

(** [LoadedArticle]; [load_account_articles]: the [.md] files of a directory, sorted. *)
Record LoadedArticle := { la_account : str; la_filename : str; la_article : SeedArticle }.
Definition load_account_articles (account : str) (dir : option Dir) : list LoadedArticle :=
  match dir with
  | None => []
  | Some files =>
    (λ f, {| la_account := account; la_filename := f.1; la_article := parse_article f.2 |}) <$>
      filter (λ f, is_Some (strip_suffix (lit ".md") f.1) ∧ f.1 ≠ lit ".md") (btree files)
  end.

(** ** The runner's effects *)

(** The database behind the server, and the state file. *)
Record SeedWorld := mkSeedWorld { sw_world : World; sw_file : option SeedState }.
(** An [anyhow] error, by its outermost message. *)
Definition SM (A : Type) : Type := Env → SeedWorld → result str A * SeedWorld.
#[export] Instance SM_ret : MRet SM := λ A a env w, (Ok a, w).
#[export] Instance SM_bind : MBind SM := λ A B f m env w,
  match m env w with (Ok a, w) => f a env w | (Err e, w) => (Err e, w) end.
Definition bail {A} (msg : str) : SM A := λ _ w, (Err msg, w).
Definition of_res {A} (r : result str A) : SM A := λ _ w, (r, w).
(** An operation on the server or its database. *)
Definition on_world {E A} (f : E → str) (m : M E A) : SM A := λ env w,
  let (r, w') := m env (sw_world w) in (map_err f r, mkSeedWorld w' (sw_file w)).
(** [state.save] *)
Definition save (s : SeedState) : SM () := λ _ w, (Ok (), mkSeedWorld (sw_world w) (Some s)).
(** [SeedState::load_or_default] *)
Definition load_or_default : SM SeedState := λ _ w, (Ok (default default_state (sw_file w)), w).
Definition remove_file : SM () := λ _ w, (Ok (), mkSeedWorld (sw_world w) None).

(** A loop over a list that updates the state. *)
Fixpoint for_state {A} (f : A → SeedState → SM SeedState) (l : list A) (s : SeedState) :
    SM SeedState :=
  match l with
  | [] => mret s
  | x :: l => s ← f x s; for_state f l s
  end.
Fixpoint for_unit {A} (f : A → SM ()) (l : list A) : SM () :=
  match l with
  | [] => mret ()
  | x :: l => _ ← f x; for_unit f l
  end.

(** [rand_chacha::ChaCha8Rng] with [rand]'s [gen_range] (upper end excluded), [shuffle] and
    [choose]. *)
Inductive IntTy : Type := I32 | U32 | I64.
Class RngLib := {
  Rng : Type;
  seed_from_u64 : Z → Rng;
  gen_range : IntTy → Z → Z → Rng → Z * Rng;
  shuffle : list str → Rng → list str * Rng;
  choose : list str → Rng → option str * Rng;
}.
Class RngLaws `{RngLib} : Prop := {
  gen_range_bounds ty lo hi r : lo < hi → lo <= (gen_range ty lo hi r).1 < hi;
  shuffle_permutes l r : (shuffle l r).1 ≡ₚ l;
  choose_member l r x : (choose l r).1 = Some x → x ∈ l;
  choose_some l r : l ≠ [] → is_Some (choose l r).1;
}.

(** ** SQL of the runner *)

Definition select_systems (name : str) : Stmt (list Uuid) :=
  query (λ d, sys_id <$> rows_where (λ r, str_eqb (sys_name r) name) (systems d)).
Definition select_system_key (system_id : Uuid) : Stmt (list Uuid) :=
  query (λ d, take 1 (key_key_id <$>
    rows_where (λ r, bool_decide (key_owner r = system_id)) (system_keys d))).
Definition set_systems t (d : Db) : Db :=
  mkDb (accounts d) (account_keys d) (articles d) (articles_live d) (articles_tombstone d)
    (article_versions d) (drafts d) (users d) (user_keys d) (follows d)
    (feed_recommendation d) t (system_scopes d) (system_keys d) (tso_high_water d) (events d).
Definition set_system_scopes t (d : Db) : Db :=
  mkDb (accounts d) (account_keys d) (articles d) (articles_live d) (articles_tombstone d)
    (article_versions d) (drafts d) (users d) (user_keys d) (follows d)
    (feed_recommendation d) (systems d) t (system_keys d) (tso_high_water d) (events d).
Definition insert_system (r : SystemRow) : Stmt () :=
  insert_stmt (λ d,
    [(present (systems d) (sys_id r), DUnique (lit "systems"));
     (negb (bool_decide (rows_where (λ r', str_eqb (sys_name r') (sys_name r)) (systems d) = [])),
      DUnique (lit "systems"))])
    (λ d, set_systems (<[sys_id r := r]> (systems d)) d).
Definition insert_system_key (r : KeyRow) : Stmt () :=
  insert_stmt (λ d,
    [(present (system_keys d) (key_owner r, key_key_id r), DUnique (lit "system_keys"));
     (negb (present (systems d) (key_owner r)), DForeignKey (lit "system_keys"))])
    (λ d, set_system_keys (<[(key_owner r, key_key_id r) := r]> (system_keys d)) d).
Definition insert_system_scope (system_id : Uuid) (scope : str) : Stmt () :=
  insert_stmt (λ d,
    [(bool_decide ((system_id, scope) ∈ system_scopes d), DUnique (lit "system_scopes"));
     (negb (present (systems d) system_id), DForeignKey (lit "system_scopes"))])
    (λ d, set_system_scopes ({[(system_id, scope)]} ∪ system_scopes d) d).
Definition set_created_at (id : Uuid) (t : DateTime) : Stmt () :=
  execute (λ d, set_articles
    (alter (λ r, mkArticle (art_id r) (art_account_id r) (art_state r) t) id (articles d)) d).
Definition redact_first_version (id : Uuid) (reason : str) (now : DateTime) : Stmt () :=
  execute (λ d, set_article_versions
    (alter (λ r, mkVersion (ver_article_id r) (ver_version r) (ver_title r) (ver_author_name r)
                   (ver_author_url r) None (Some now) (Some reason) (ver_created_at r))
       (id, 1) (article_versions d)) d).

(** The [DELETE FROM ..] statements of [clear_demo_data]: a table that others refer to can
    only be emptied when no row refers to it. *)
Definition delete_all (referrers : Db → list (str * bool)) (f : Db → Db) : Stmt () := λ d,
  match filter (λ r, r.2 = true) (referrers d) with
  | (table, _) :: _ => (Err (DForeignKey table), d)
  | [] => (Ok (), f d)
  end.
Definition some_rows {K A} `{Countable K} (m : gmap K A) : bool := negb (bool_decide (m = ∅)).
Definition article_refs (d : Db) : list (str * bool) :=
  [(lit "articles_live", some_rows (articles_live d));
   (lit "articles_tombstone", some_rows (articles_tombstone d));
   (lit "article_versions", some_rows (article_versions d))].
Definition account_refs (d : Db) : list (str * bool) :=
  [(lit "account_keys", some_rows (account_keys d)); (lit "articles", some_rows (articles d));
   (lit "drafts", some_rows (drafts d)); (lit "follows", some_rows (follows d))].
Definition user_refs (d : Db) : list (str * bool) :=
  [(lit "user_keys", some_rows (user_keys d)); (lit "follows", some_rows (follows d));
   (lit "feed_recommendation", some_rows (feed_recommendation d))].
Definition system_refs (d : Db) : list (str * bool) :=
  [(lit "system_keys", some_rows (system_keys d));
   (lit "system_scopes", negb (bool_decide (system_scopes d = ∅)))].
Definition no_refs (d : Db) : list (str * bool) := [].
Definition clear_stmts : list (Stmt ()) :=
  [delete_all no_refs (set_events ∅); delete_all no_refs (set_feed_recommendation ∅);
   delete_all no_refs (set_follows ∅); delete_all no_refs (set_article_versions ∅);
   delete_all no_refs (set_articles_live ∅); delete_all no_refs (set_articles_tombstone ∅);
   delete_all article_refs (set_articles ∅); delete_all no_refs (set_drafts ∅);
   delete_all no_refs (set_account_keys ∅); delete_all account_refs (set_accounts ∅);
   delete_all no_refs (set_user_keys ∅); delete_all user_refs (set_users ∅);
   delete_all no_refs (set_system_keys ∅); delete_all no_refs (set_system_scopes ∅);
   delete_all system_refs (set_systems ∅)].

(** [x as usize], and [usize] arithmetic, on a 64-bit target. *)
Definition as_usize (z : Z) : Z := z mod 18446744073709551616.

Section runner.
Context `{UuidLib, ChronoLib, Base64Lib, SignerLib, GatewayLib, RngLib, MarkdownLib, DieselLib}.

(** The public gRPC listener: a method called with the request's metadata. *)
Variable call : ∀ r, Metadata → RequestOf r → M GrpcStatus (ResponseOf r).
(** The demo directory: the key files of a kind, the article files of an account. *)
Variable key_dirs : str → Dir.
Variable demo_files : str → str → option Dir.

Definition sql {A} (q : Stmt A) : SM A := on_world diesel_display (stmt q).
(** A statement with the server's [now()]. *)
Definition sql_now {A} (q : DateTime → Stmt A) : SM A := λ env w,
  sql (q (now_at env (w_tick (sw_world w)))) env w.
Definition db_get : SM () := on_world (λ _, lit "acquire connection") get_conn.
Definition fresh : SM Uuid := on_world id new_uuid.
Definition now : SM DateTime := on_world id utc_now.
(** A call with [.with_context(..)?]. *)
Definition rpc (context : str) (r : Rpc) (md : Metadata) (msg : RequestOf r) : SM (ResponseOf r) :=
  on_world (λ _, context) (call r md msg).
(** [Uuid::parse_str(..)?] *)
Definition parse_id (s : str) : SM Uuid := of_res (uuid_parse_str s).

(** [signed_request] *)
Definition signed_request (r : Rpc) (msg : RequestOf r) (sk : SigningKey) (key_id : Uuid)
    (full_method : string) : SM Metadata :=
  t ← now;
  nonce ← fresh;
  mret {[ lit "authorization" :=
    signed_header (encode_to_vec r msg) sk key_id (lit full_method) (t / 1000000) nonce ]}.

(** *** Step 1: [seed_systems] *)
Definition seed_system (key : LoadedKey) (state : SeedState) : SM SeedState :=
  let name := lk_name key in
  if known (ss_systems state) name then mret state
  else
    scopes ← of_res (ok_or (lit "no scope plan for system " ++ name) (plan_get SYSTEMS name));
    system_id ← fresh;
    key_id ← fresh;
    existing ← sql (select_systems name);
    match existing with
    | found :: _ =>
      key_rows ← sql (select_system_key found);
      let kid := match key_rows with r :: _ => uuid_display r | [] => [] end in
      mret (add_system name {| id_id := uuid_display found; id_key_id := kid |} state)
    | [] =>
      _ ← sql (insert_system (mkSystem system_id name (lit "active")));
      _ ← sql_now (λ t, insert_system_key (mkKey system_id key_id (lit "ed25519")
                          (lk_public_b64 key) (lit "active") t None));
      _ ← for_unit (λ scope, sql (insert_system_scope system_id scope)) scopes;
      mret (add_system name {| id_id := uuid_display system_id; id_key_id := uuid_display key_id |}
              state)
    end.
Definition seed_systems (keys : list LoadedKey) (state : SeedState) : SM SeedState :=
  _ ← db_get; for_state seed_system keys state.

(** *** Step 2: [seed_accounts] *)
Definition seed_account (key : LoadedKey) (state : SeedState) : SM SeedState :=
  let name := lk_name key in
  if known (ss_accounts state) name then mret state
  else
    spec ← of_res (ok_or (lit "no plan for account " ++ name) (plan_get ACCOUNTS name));
    resp ← rpc (lit "CreateAccount(" ++ name ++ lit ")") CreateAccount ∅
      {| ca_short_name := as_short_name spec; ca_author_name := as_author_name spec;
         ca_author_url := as_author_url spec;
         ca_initial_key := Some {| pk_algo := lit "ed25519"; pk_public_key := lk_public_b64 key |} |};
    account ← of_res (ok_or (lit "CreateAccount response missing account") (car_account resp));
    mret (add_account name {| id_id := pac_id account; id_key_id := car_key_id resp |} state).
Definition seed_accounts (keys : list LoadedKey) (state : SeedState) : SM SeedState :=
  for_state seed_account keys state.

(** *** Step 3: [seed_users] *)
Definition seed_user (key : LoadedKey) (state : SeedState) : SM SeedState :=
  let name := lk_name key in
  if known (ss_users state) name then mret state
  else
    let display := default name (plan_get USERS name) in
    resp ← rpc (lit "CreateUser(" ++ name ++ lit ")") CreateUser ∅
      {| cu_display_name := display;
         cu_initial_key := Some {| pk_algo := lit "ed25519"; pk_public_key := lk_public_b64 key |} |};
    user ← of_res (ok_or (lit "CreateUser response missing user") (cur_user resp));
    mret (add_user name {| id_id := pu_id user; id_key_id := cur_key_id resp |} state).
Definition seed_users (keys : list LoadedKey) (state : SeedState) : SM SeedState :=
  for_state seed_user keys state.

(** *** Step 4: [seed_articles], [publish_one] *)
Definition article_request (account_id : Uuid) (a : SeedArticle) : PublishArticleRequest :=
  let fm := sa_frontmatter a in
  {| pr_account_id := uuid_display account_id; pr_title := fm_title fm;
     pr_author_name := default (lit "Demo Author") (fm_author_name fm);
     pr_author_url := default (lit "https://example.com") (fm_author_url fm);
     pr_content := markdown_to_nodes (sa_body a) |}.

(** The state transitions of the front matter. *)
Definition apply_state (fm : Frontmatter) (sk : SigningKey) (key_id article_id : Uuid)
    (id map_key : str) : SM () :=
  match fm_state fm with
  | None => mret ()
  | Some state =>
    if str_eqb state (lit "tombstone") then
      let req := {| ta_id := id;
                    ta_reason := default (lit "demo tombstone") (fm_tombstone_reason fm) |} in
      md ← signed_request TombstoneArticle req sk key_id
             "/headlines.v1.ArticleService/TombstoneArticle";
      _ ← rpc (lit "TombstoneArticle(" ++ map_key ++ lit ")") TombstoneArticle md req;
      mret ()
    else if str_eqb state (lit "redacted-current") then
      _ ← db_get;
      sql_now (redact_first_version article_id
                 (default (lit "demo redaction") (fm_redaction_reason fm)))
    else mret ()
  end.

Definition publish_one (account_id key_id : Uuid) (sk : SigningKey) (la : LoadedArticle)
    (map_key : str) (state : SeedState) : SM SeedState :=
  let fm := sa_frontmatter (la_article la) in
  let req := article_request account_id (la_article la) in
  md ← signed_request PublishArticle req sk key_id "/headlines.v1.ArticleService/PublishArticle";
  resp ← rpc (lit "PublishArticle(" ++ map_key ++ lit ")") PublishArticle md req;
  article_id ← parse_id (pa_id resp);
  let state := add_article map_key (pa_id resp) state in
  _ ← match fm_created_at fm ≫= λ t, match parse_from_rfc3339 t with Ok dt => Some dt | Err _ => None end with
      | Some dt => _ ← db_get; sql (set_created_at article_id dt)
      | None => mret ()
      end;
  _ ← apply_state fm sk key_id article_id (pa_id resp) map_key;
  mret state.

Definition map_key (name filename : str) : str := name ++ lit "/" ++ filename.

Definition seed_account_articles (key : LoadedKey) (state : SeedState) : SM SeedState :=
  let name := lk_name key in
  record ← of_res (ok_or (lit "missing account for " ++ name) (ss_accounts state !! name));
  account_id ← parse_id (id_id record);
  key_id ← parse_id (id_key_id record);
  for_state (λ la state,
      let k := map_key name (la_filename la) in
      if known (ss_articles state) k then mret state
      else publish_one account_id key_id (lk_signing_key key) la k state)
    (load_account_articles name (demo_files (lit "articles") name)) state.
Definition seed_articles (keys : list LoadedKey) (state : SeedState) : SM SeedState :=
  for_state seed_account_articles keys state.

(** *** Step 5: [seed_follows] *)

(** The call of [Follow]: [AlreadyExists] is a success.  [status_display] is [tonic]'s
    [Display] of a status. *)
Variable status_display : GrpcStatus → str.
Definition call_follow (md : Metadata) (req : EdgeRequest) (user_name acct : str) : SM () := λ env w,
  match call FollowAccount md req env (sw_world w) with
  | (Ok _, w') => (Ok (), mkSeedWorld w' (sw_file w))
  | (Err e, w') =>
    (match gs_code e with
     | CAlreadyExists => Ok ()
     | _ => Err (lit "Follow(" ++ user_name ++ lit " " ++ [8594%N] ++ lit " " ++ acct ++ lit "): " ++
                   status_display e)
     end, mkSeedWorld w' (sw_file w))
  end.
Definition seed_follow (user_key : LoadedKey) (user_id key_id : Uuid) (user_name acct : str)
    (state : SeedState) : SM () :=
  match ss_accounts state !! acct with
  | None => mret ()
  | Some record =>
    let req := {| eq_user_id := uuid_display user_id; eq_account_id := id_id record |} in
    md ← signed_request FollowAccount req (lk_signing_key user_key) key_id
           "/headlines.v1.FollowService/Follow";
    call_follow md req user_name acct
  end.
Definition seed_follows (keys : list LoadedKey) (state : SeedState) : SM () :=
  for_unit (λ plan : str * list str,
      let key := (list_to_map (reverse ((λ k, (lk_name k, k)) <$> keys)) : gmap str LoadedKey) !! plan.1 in
      match key, ss_users state !! plan.1 with
      | Some user_key, Some record =>
        match uuid_parse_str (id_id record), uuid_parse_str (id_key_id record) with
        | Ok user_id, Ok key_id =>
          for_unit (λ acct, seed_follow user_key user_id key_id plan.1 acct state) plan.2
        | _, _ => mret ()
        end
      | _, _ => mret ()
      end) FOLLOWS.

(** *** Step 6: [seed_drafts] *)
Definition seed_account_drafts (key : LoadedKey) (state : SeedState) : SM SeedState :=
  let name := lk_name key in
  match ss_accounts state !! name with
  | None => mret state
  | Some record =>
    account_id ← parse_id (id_id record);
    key_id ← parse_id (id_key_id record);
    for_state (λ la state,
        let k := map_key name (la_filename la) in
        if known (ss_drafts state) k then mret state
        else
          let req := article_request account_id (la_article la) in
          md ← signed_request CreateDraft req (lk_signing_key key) key_id
                 "/headlines.v1.DraftService/CreateDraft";
          resp ← rpc (lit "CreateDraft(" ++ k ++ lit ")") CreateDraft md req;
          mret (add_draft k (pd_id resp) state))
      (load_account_articles name (demo_files (lit "drafts") name)) state
  end.
Definition seed_drafts (keys : list LoadedKey) (state : SeedState) : SM SeedState :=
  for_state seed_account_drafts keys state.

(** *** Step 7: [seed_recommendation_feeds] *)
Definition find_key (name : str) (keys : list LoadedKey) : option LoadedKey :=
  find (λ k, str_eqb (lk_name k) name) keys.
(** The shuffled pool of one user, cut to 15. *)
Definition pick_articles (articles : list str) (rng : Rng) : list str * Rng :=
  let (pool, rng) := shuffle articles rng in (take 15 pool, rng).
Fixpoint replace_feeds (ranker : LoadedKey) (key_id : Uuid) (articles : list str)
    (users : list (str * IdRecord)) (rng : Rng) : SM () :=
  match users with
  | [] => mret ()
  | (_, record) :: users =>
    let (pick, rng) := pick_articles articles rng in
    let req := {| rf_user_id := id_id record; rf_article_ids := pick |} in
    md ← signed_request ReplaceRecommendationFeed req (lk_signing_key ranker) key_id
           "/headlines.v1.FeedRecommendationService/ReplaceRecommendationFeed";
    _ ← rpc (lit "ReplaceRecommendationFeed") ReplaceRecommendationFeed md req;
    replace_feeds ranker key_id articles users rng
  end.
Definition seed_recommendation_feeds (keys : list LoadedKey) (state : SeedState) (rng_seed : Z) :
    SM () :=
  ranker ← of_res (ok_or (lit "demo-ranker key not loaded") (find_key (lit "demo-ranker") keys));
  record ← of_res (ok_or (lit "demo-ranker not seeded") (ss_systems state !! lit "demo-ranker"));
  key_id ← parse_id (id_key_id record);
  let all_articles := (btree (ss_articles state)).*2 in
  if bool_decide (all_articles = []) then mret ()
  else replace_feeds ranker key_id all_articles (btree (ss_users state)) (seed_from_u64 rng_seed).

(** *** Step 8: [seed_events] *)
Definition pick_surface (rng : Rng) : str * Rng :=
  let (r, rng) := gen_range U32 0 100 rng in
  (if r <? 60 then lit "web" else if r <? 90 then lit "mobile" else lit "tablet", rng).
Definition lognormal_dwell (rng : Rng) : Z * Rng :=
  let (base, rng) := gen_range I64 500 5000 rng in
  let (a, rng) := gen_range I32 0 10 rng in
  let amplifier := if a =? 0 then 10 else 1 in
  (base * amplifier, rng).
(** [now_minus_jitter], given the time read. *)
Definition minus_jitter (now : DateTime) (rng : Rng) : Timestamp * Rng :=
  let (jitter_minutes, rng) := gen_range I64 0 (6 * 60) rng in
  (ts_to_proto (now - jitter_minutes * 60 * 1000000000), rng).
(** The type of an event, with its properties. *)
Definition pick_properties (rng : Rng) : Z * Properties * Rng :=
  let (etype_pick, rng) := gen_range I32 0 100 rng in
  if etype_pick <? 50 then
    let (position, rng) := gen_range I32 0 20 rng in (1, Impression (lit "follow") position, rng)
  else if etype_pick <? 75 then
    let (position, rng) := gen_range I32 0 20 rng in
    (2, OpenProperties (lit "recommendation") position, rng)
  else if etype_pick <? 90 then
    let (dwell_ms, rng) := lognormal_dwell rng in (3, Dwell dwell_ms, rng)
  else (4, Like, rng).
(** One turn of the inner loop. *)
Definition one_event (user_id : str) (articles : list str) (now : DateTime) (rng : Rng) :
    RecordEventRequest * Rng :=
  let (article, rng) := choose articles rng in
  let '(etype, props, rng) := pick_properties rng in
  let (occurred_at, rng) := minus_jitter now rng in
  let (surface, rng) := pick_surface rng in
  ({| re_user_id := user_id; re_article_id := default (uuid_display 0%N) article;
      re_type := etype; re_occurred_at := Some occurred_at; re_surface := surface;
      re_properties := Some props |}, rng).
Fixpoint build_batch (user_id : str) (articles : list str) (batch_size : nat) (rng : Rng) :
    SM (list RecordEventRequest * Rng) :=
  match batch_size with
  | O => mret ([], rng)
  | S n =>
    t ← now;
    let (event, rng) := one_event user_id articles t rng in
    rest ← build_batch user_id articles n rng;
    mret (event :: rest.1, rest.2)
  end.
(** The [while] loop; [usize] arithmetic. *)
Fixpoint event_loop (fuel : nat) (user_key : LoadedKey) (key_id : Uuid) (user_id : str)
    (articles : list str) (target emitted : Z) (rng : Rng) : SM Rng :=
  match fuel with
  | O => mret rng
  | S fuel =>
    if emitted <? target then
      let batch_size := Z.min (target - emitted) 100 in
      '(events, rng) ← build_batch user_id articles (Z.to_nat batch_size) rng;
      md ← signed_request RecordEventBatch events (lk_signing_key user_key) key_id
             "/headlines.v1.EventService/RecordEventBatch";
      resp ← rpc (lit "RecordEventBatch") RecordEventBatch md events;
      let emitted := as_usize (emitted + as_usize resp.2) in
      if resp.2 =? 0 then mret rng
      else event_loop fuel user_key key_id user_id articles target emitted rng
    else mret rng
  end.
Definition target_per_user (users : nat) : Z := 3000 / Z.max (Z.of_nat users) 1.
Fixpoint events_for (keys : gmap str LoadedKey) (articles : list str) (target : Z)
    (users : list (str * IdRecord)) (rng : Rng) : SM () :=
  match users with
  | [] => mret ()
  | (name, record) :: users =>
    match keys !! name with
    | None => events_for keys articles target users rng
    | Some user_key =>
      key_id ← parse_id (id_key_id record);
      rng ← event_loop (S (Z.to_nat target)) user_key key_id (id_id record) articles target 0 rng;
      events_for keys articles target users rng
    end
  end.
Definition seed_events (keys : list LoadedKey) (state : SeedState) (rng_seed : Z) : SM () :=
  let articles := (btree (ss_articles state)).*2 in
  if bool_decide (articles = []) then mret ()
  else
    events_for (list_to_map (reverse ((λ k, (lk_name k, k)) <$> keys))) articles
      (target_per_user (size (ss_users state))) (btree (ss_users state))
      (seed_from_u64 (as_usize (rng_seed + 1))).

(** *** [--reset] *)
Definition clear_demo_data : SM () := _ ← db_get; for_unit sql clear_stmts.

(** *** [build_channel]: attempts to connect until 15 s have passed *)
(** The connection, and [Endpoint::from_shared] with the [Debug] text of the endpoint. *)
Variable connect : M str ().
Variable endpoint : result str str.
Definition attempt : SM (result str ()) := λ env w,
  let (r, w') := connect env (sw_world w) in (Ok r, mkSeedWorld w' (sw_file w)).
Fixpoint dial (fuel : nat) (endpoint_debug : str) (deadline : Z) (last_err : option str) : SM () :=
  match fuel with
  | O => bail (lit "out of fuel")
  | S fuel =>
    t ← now;
    if t <? deadline then
      c ← attempt;
      match c with
      | Ok () => mret ()
      | Err e => dial fuel endpoint_debug deadline (Some e)
      end
    else bail (lit "could not connect to gRPC server at " ++ endpoint_debug ++ lit ": " ++
                 default (lit "unknown") last_err)
  end.
Definition build_channel (fuel : nat) : SM () :=
  endpoint_debug ← of_res endpoint;
  t ← now;
  dial fuel endpoint_debug (t + 15 * 1000000000) None.

(** *** [run_seed] *)
Definition run_seed (fuel : nat) (rng_seed : Z) (skip_articles reset : bool) : SM () :=
  _ ← (if reset then _ ← clear_demo_data; remove_file else mret ());
  state ← load_or_default;
  system_keys ← of_res (load_kind (key_dirs (lit "system")));
  account_keys ← of_res (load_kind (key_dirs (lit "account")));
  user_keys ← of_res (load_kind (key_dirs (lit "user")));
  state ← seed_systems system_keys state;
  _ ← save state;
  _ ← build_channel fuel;
  state ← seed_accounts account_keys state;
  _ ← save state;
  state ← seed_users user_keys state;
  _ ← save state;
  if skip_articles : bool then mret ()
  else
    state ← seed_articles account_keys state;
    _ ← save state;
    _ ← seed_follows user_keys state;
    state ← seed_drafts account_keys state;
    _ ← save state;
    _ ← seed_recommendation_feeds system_keys state rng_seed;
    seed_events user_keys state rng_seed.
End runner.

(** ** A step run again *)

(** Every record of [s] is in [s']. *)
Record extends (s s' : SeedState) : Prop := {
  ext_accounts : ss_accounts s ⊆ ss_accounts s';
  ext_users : ss_users s ⊆ ss_users s';
  ext_systems : ss_systems s ⊆ ss_systems s';
  ext_articles : ss_articles s ⊆ ss_articles s';
  ext_drafts : ss_drafts s ⊆ ss_drafts s';
}.
#[export] Instance extends_preorder : PreOrder extends.
Proof. split; [by split|]. intros s1 s2 s3 [] []. by split; etrans. Qed.

Lemma known_true {A} (m : gmap str A) k : known m k = true ↔ is_Some (m !! k).
Proof. apply bool_decide_eq_true. Qed.
Lemma known_false {A} (m : gmap str A) k : known m k = false ↔ m !! k = None.
Proof. unfold known. by rewrite bool_decide_eq_false, eq_None_not_Some. Qed.
Lemma known_mono {A} (m m' : gmap str A) k : m ⊆ m' → known m k = true → known m' k = true.
Proof. rewrite !known_true. intros Hm [x Hx]. exists x. by eapply lookup_weaken. Qed.

Lemma sm_bind_ok {A B} (m : SM A) (f : A → SM B) env w b w' :
  (m ≫= f) env w = (Ok b, w') ↔ ∃ a w1, m env w = (Ok a, w1) ∧ f a env w1 = (Ok b, w').
Proof.
  unfold mbind, SM_bind. destruct (m env w) as [[a|e] w1] eqn:Hm.
  - split; [by eauto|]. by intros (? & ? & [= <- <-] & ?).
  - split; [done|]. by intros (? & ? & ? & ?).
Qed.
Lemma sm_ret {A} (a : A) env w b w' : (mret a : SM A) env w = (Ok b, w') ↔ a = b ∧ w = w'.
Proof. unfold mret, SM_ret. split; [by intros [= -> ->]|by intros [-> ->]]. Qed.
Lemma sm_res {A} (r : result str A) env w b w' : of_res r env w = (Ok b, w') ↔ r = Ok b ∧ w = w'.
Proof. unfold of_res. split; [by intros [= -> ->]|by intros [-> ->]]. Qed.
Lemma sm_bind_res {A B} a (r : result str A) (f : A → SM B) env w :
  r = Ok a → (of_res r ≫= f) env w = f a env w.
Proof. by intros ->. Qed.

(** Opens a successful run of the runner into its steps. *)
Ltac sm_inv H :=
  lazymatch type of H with
  | (_ ≫= _) _ _ = (Ok _, _) =>
    let a := fresh "a" in let w := fresh "w" in let Hm := fresh "Hm" in
    apply sm_bind_ok in H as (a & w & Hm & H); cbv beta in H; sm_inv H; sm_inv Hm
  | mret _ _ _ = (Ok _, _) => apply sm_ret in H as [? ?]; subst
  | of_res _ _ _ = (Ok _, _) => apply sm_res in H as [H ?]; subst
  | _ => idtac
  end.

Lemma extends_insert {A} (m : gmap str A) k x : known m k = false → m ⊆ <[k := x]> m.
Proof. intros Hk%known_false. by apply insert_subseteq. Qed.
Lemma known_insert {A} (m : gmap str A) k x : known (<[k := x]> m) k = true.
Proof. apply known_true. rewrite lookup_insert_eq. by eexists. Qed.

(** A loop whose turns each leave [P] true of their element, to stay. *)
Lemma for_state_fills {A} (P : A → SeedState → Prop) (f : A → SeedState → SM SeedState) s0 :
  (∀ x s s', extends s s' → P x s → P x s') →
  ∀ l, (∀ x s env w s' w', x ∈ l → extends s0 s → f x s env w = (Ok s', w') →
        extends s s' ∧ P x s') →
  ∀ s env w s' w', extends s0 s → for_state f l s env w = (Ok s', w') →
  extends s s' ∧ ∀ x, x ∈ l → P x s'.
Proof.
  intros Hmono. induction l as [|x l IH]; intros Hf s env w s' w' H0 Hrun; cbn [for_state] in Hrun.
  - sm_inv Hrun. split; [done|]. by intros x ?%not_elem_of_nil.
  - apply sm_bind_ok in Hrun as (s1 & w1 & Hx & Hl).
    apply Hf in Hx as [He1 HP]; [|by left|done].
    apply IH in Hl as [He2 Hall]; [|by intros; eapply Hf; [right|..]|by etrans].
    split; [by etrans|]. intros y [->|Hy]%elem_of_cons; [by eapply Hmono|by apply Hall].
Qed.
Lemma for_state_skips {A} (f : A → SeedState → SM SeedState) l s env w :
  (∀ x, x ∈ l → f x s env w = (Ok s, w)) → for_state f l s env w = (Ok s, w).
Proof.
  induction l as [|x l IH]; intros Hf; [done|]. cbn [for_state].
  unfold mbind, SM_bind. rewrite Hf by (by left). apply IH. intros. apply Hf. by right.
Qed.

Section rerun.
Context `{UuidLib, ChronoLib, Base64Lib, SignerLib, GatewayLib, MarkdownLib, DieselLib}.
Variable call : ∀ r, Metadata → RequestOf r → M GrpcStatus (ResponseOf r).
Variable demo_files : str → str → option Dir.

(** What each step leaves in the state for one key. *)
Definition has_system (key : LoadedKey) (s : SeedState) : Prop :=
  known (ss_systems s) (lk_name key) = true.
Definition has_account (key : LoadedKey) (s : SeedState) : Prop :=
  known (ss_accounts s) (lk_name key) = true.
Definition has_user (key : LoadedKey) (s : SeedState) : Prop :=
  known (ss_users s) (lk_name key) = true.
(** The account has a usable record, and every file of it one in [records]. *)
Definition has_files (kind : string) (records : SeedState → gmap str str) (key : LoadedKey)
    (s : SeedState) : Prop :=
  (∃ record a k, ss_accounts s !! lk_name key = Some record ∧
     uuid_parse_str (id_id record) = Ok a ∧ uuid_parse_str (id_key_id record) = Ok k) ∧
  ∀ la, la ∈ load_account_articles (lk_name key) (demo_files (lit kind) (lk_name key)) →
    known (records s) (map_key (lk_name key) (la_filename la)) = true.

Lemma has_files_mono kind records key s s' :
  (records s ⊆ records s') → extends s s' → has_files kind records key s → has_files kind records key s'.
Proof.
  intros Hr [Ha _ _ _ _] [(r & a & k & Hrec & ? & ?) Hf]. split.
  - exists r, a, k. split; [by eapply lookup_weaken|done].
  - intros la Hla. eapply known_mono; [done|]. by apply Hf.
Qed.

Lemma seed_system_fills key s env w s' w' :
  seed_system key s env w = (Ok s', w') → extends s s' ∧ has_system key s'.
Proof.
  unfold seed_system, has_system. destruct (known _ _) eqn:Hk; intros Hrun.
  - by sm_inv Hrun.
  - apply sm_bind_ok in Hrun as (scopes & w1 & _ & Hrun).
    do 3 apply sm_bind_ok in Hrun as (? & ? & _ & Hrun).
    case_match; sm_inv Hrun; (split; [|apply known_insert]); split; cbn; try done; by apply extends_insert.
Qed.
Lemma seed_account_fills key s env w s' w' :
  seed_account call key s env w = (Ok s', w') → extends s s' ∧ has_account key s'.
Proof.
  unfold seed_account, has_account. destruct (known _ _) eqn:Hk; intros Hrun; sm_inv Hrun; [done|].
  split; [|apply known_insert]. split; cbn; try done. by apply extends_insert.
Qed.
Lemma seed_user_fills key s env w s' w' :
  seed_user call key s env w = (Ok s', w') → extends s s' ∧ has_user key s'.
Proof.
  unfold seed_user, has_user. destruct (known _ _) eqn:Hk; intros Hrun; sm_inv Hrun; [done|].
  split; [|apply known_insert]. split; cbn; try done. by apply extends_insert.
Qed.
Lemma publish_one_fills a kid sk la k s env w s' w' :
  known (ss_articles s) k = false →
  publish_one call a kid sk la k s env w = (Ok s', w') →
  extends s s' ∧ known (ss_articles s') k = true.
Proof.
  unfold publish_one. intros Hk Hrun. sm_inv Hrun. split; [|apply known_insert].
  split; cbn; try done. by apply extends_insert.
Qed.

Lemma seed_account_articles_fills key s env w s' w' :
  seed_account_articles call demo_files key s env w = (Ok s', w') →
  extends s s' ∧ has_files "articles" ss_articles key s'.
Proof.
  unfold seed_account_articles, parse_id. intros Hrun.
  apply sm_bind_ok in Hrun as (r & w1 & Hr & Hrun). apply sm_res in Hr as [Hr%ok_or_ok ->].
  apply sm_bind_ok in Hrun as (a & w2 & Ha & Hrun). apply sm_res in Ha as [Ha ->].
  apply sm_bind_ok in Hrun as (k & w3 & Hk & Hrun). apply sm_res in Hk as [Hk ->].
  apply (for_state_fills (λ la s, known (ss_articles s) (map_key (lk_name key) (la_filename la)) = true) _ s)
    in Hrun as [He Hall]; [| | |done].
  - split; [done|]. split; [|done]. exists r, a, k. split; [|done].
    eapply lookup_weaken; [done|]. apply He.
  - intros la ?? He. apply known_mono, He.
  - intros la s1 env1 ? s2 ? _ _ Hla. destruct (known _ _) eqn:Hkn; [by sm_inv Hla|].
    exact (publish_one_fills _ _ _ _ _ _ _ _ _ _ Hkn Hla).
Qed.
Lemma seed_account_drafts_fills key s env w s' w' :
  seed_account_drafts call demo_files key s env w = (Ok s', w') →
  extends s s' ∧ (has_account key s → has_files "drafts" ss_drafts key s').
Proof.
  unfold seed_account_drafts, parse_id. destruct (ss_accounts s !! lk_name key) as [r|] eqn:Hr; intros Hrun.
  2:{ sm_inv Hrun. split; [done|]. unfold has_account. rewrite known_true, Hr. by intros []. }
  apply sm_bind_ok in Hrun as (a & w2 & Ha & Hrun). apply sm_res in Ha as [Ha ->].
  apply sm_bind_ok in Hrun as (k & w3 & Hk & Hrun). apply sm_res in Hk as [Hk ->].
  apply (for_state_fills (λ la s, known (ss_drafts s) (map_key (lk_name key) (la_filename la)) = true) _ s)
    in Hrun as [He Hall]; [| | |done].
  - split; [done|]. intros _. split; [|done]. exists r, a, k. split; [|done].
    eapply lookup_weaken; [done|]. apply He.
  - intros la ?? He. apply known_mono, He.
  - intros la s1 env1 ? s2 ? _ _ Hla. destruct (known _ _) eqn:Hkn; sm_inv Hla; [done|].
    split; [|apply known_insert]. split; cbn; try done. by apply extends_insert.
Qed.

Lemma seed_account_articles_skips key s env w :
  has_files "articles" ss_articles key s →
  seed_account_articles call demo_files key s env w = (Ok s, w).
Proof.
  intros [(r & a & k & Hr & Ha & Hk) Hf]. unfold seed_account_articles.
  rewrite Hr, (sm_bind_res r) by done. unfold parse_id.
  rewrite (sm_bind_res a), (sm_bind_res k) by done.
  apply for_state_skips. intros la Hla. by rewrite (Hf la Hla).
Qed.
Lemma seed_account_drafts_skips key s env w :
  has_files "drafts" ss_drafts key s →
  seed_account_drafts call demo_files key s env w = (Ok s, w).
Proof.
  intros [(r & a & k & Hr & Ha & Hk) Hf]. unfold seed_account_drafts. rewrite Hr. unfold parse_id.
  rewrite (sm_bind_res a), (sm_bind_res k) by done.
  apply for_state_skips. intros la Hla. by rewrite (Hf la Hla).
Qed.

(** C38. Each of the steps that record ids is idempotent once it has succeeded: it keeps every
    record, has one for each key or file it was given, and run again with the state it
    returned it makes no call and changes nothing.  (The systems step takes a connection
    first.) *)
Theorem seeding_twice_is_once keys s s' env w w' env2 w2 :
  (seed_systems keys s env w = (Ok s', w') → extends s s' ∧ (∀ k, k ∈ keys → has_system k s') ∧
     seed_systems keys s' env2 w2 = (db_get ≫= λ _, mret s') env2 w2) ∧
  (seed_accounts call keys s env w = (Ok s', w') →
     extends s s' ∧ (∀ k, k ∈ keys → has_account k s') ∧
     seed_accounts call keys s' env2 w2 = (Ok s', w2)) ∧
  (seed_users call keys s env w = (Ok s', w') → extends s s' ∧ (∀ k, k ∈ keys → has_user k s') ∧
     seed_users call keys s' env2 w2 = (Ok s', w2)) ∧
  (seed_articles call demo_files keys s env w = (Ok s', w') →
     extends s s' ∧ (∀ k, k ∈ keys → has_files "articles" ss_articles k s') ∧
     seed_articles call demo_files keys s' env2 w2 = (Ok s', w2)) ∧
  ((∀ k, k ∈ keys → has_account k s) →
   seed_drafts call demo_files keys s env w = (Ok s', w') →
     extends s s' ∧ (∀ k, k ∈ keys → has_files "drafts" ss_drafts k s') ∧
     seed_drafts call demo_files keys s' env2 w2 = (Ok s', w2)).
Proof.
  split_and!.
  - unfold seed_systems. intros Hrun. apply sm_bind_ok in Hrun as (? & ? & _ & Hrun).
    apply (for_state_fills has_system _ s) in Hrun as [He Hall];
      [|by intros ??? He; apply known_mono, He|by intros; eapply seed_system_fills|done].
    split_and!; [done..|]. unfold mbind, SM_bind. destruct (db_get env2 w2) as [[?|?] ?]; [|done].
    apply for_state_skips. intros k Hk. unfold seed_system. by rewrite (Hall k Hk).
  - intros Hrun. apply (for_state_fills has_account _ s) in Hrun as [He Hall];
      [|by intros ??? He; apply known_mono, He|by intros; eapply seed_account_fills|done].
    split_and!; [done..|]. apply for_state_skips. intros k Hk. unfold seed_account.
    by rewrite (Hall k Hk).
  - intros Hrun. apply (for_state_fills has_user _ s) in Hrun as [He Hall];
      [|by intros ??? He; apply known_mono, He|by intros; eapply seed_user_fills|done].
    split_and!; [done..|]. apply for_state_skips. intros k Hk. unfold seed_user.
    by rewrite (Hall k Hk).
  - intros Hrun. apply (for_state_fills (has_files "articles" ss_articles) _ s) in Hrun as [He Hall];
      [|by intros ??? He; apply has_files_mono; [apply He|]|by intros; eapply seed_account_articles_fills|done].
    split_and!; [done..|]. apply for_state_skips. intros k Hk.
    by apply seed_account_articles_skips, Hall.
  - intros Hacc Hrun.
    apply (for_state_fills (has_files "drafts" ss_drafts) _ s) in Hrun as [He Hall];
      [|by intros ??? He; apply has_files_mono; [apply He|]| |done].
    + split_and!; [done..|]. apply for_state_skips. intros k Hk.
      by apply seed_account_drafts_skips, Hall.
    + intros k s1 ? ? ? ? Hk He Hf. destruct (seed_account_drafts_fills _ _ _ _ _ _ Hf) as [? Hd].
      split; [done|]. apply Hd. eapply known_mono; [apply He|by apply Hacc].
Qed.
End rerun.

(** ** The generated events *)

(** [DateTime::from_timestamp] of the times up to the year 9999. *)
Class TimestampRange `{ChronoLib} : Prop :=
  from_timestamp_range s n : 0 <= s <= 253402300799 → 0 <= n < 1000000000 →
    from_timestamp s n = Some (s * 1000000000 + n).

Section generated.
Context `{UuidLib, ChronoLib, RngLib, !UuidLaws, !TimestampRange, !RngLaws}.
Variables (articles : list str) (user_id : str) (user : Uuid).
Hypothesis Harticles : articles ≠ [].
Hypothesis Hids : Forall (λ a, ∃ i, uuid_parse_str a = Ok i) articles.
Hypothesis Huser : uuid_parse_str user_id = Ok user.

Ltac draw ty lo hi :=
  match goal with |- context [gen_range ty lo hi ?r] =>
    let H := fresh "Hr" in
    pose proof (gen_range_bounds ty lo hi r ltac:(lia)) as H;
    destruct (gen_range ty lo hi r) as [? ?]; cbn [fst] in H end.

Lemma pick_surface_ok rng : (pick_surface rng).1 ∈ (lit <$> ["web"; "mobile"; "tablet"]%string).
Proof.
  unfold pick_surface. draw U32 0 100. cbn [fst].
  repeat case_match; cbn [fmap list_fmap fst]; rewrite !elem_of_cons; auto.
Qed.
Lemma lognormal_dwell_ok rng : 500 <= (lognormal_dwell rng).1 <= 49990.
Proof. unfold lognormal_dwell. draw I64 500 5000. draw I32 0 10. cbn [fst]. case_match; lia. Qed.
Lemma pick_properties_ok rng :
  let '(t, p, _) := pick_properties rng in payload_ok t p ∧ payload_wide p.
Proof.
  assert (lit "follow" ∈ FEED_KINDS ∧ lit "recommendation" ∈ FEED_KINDS) as [Hf Hrec].
  { unfold FEED_KINDS. cbn [fmap list_fmap]. rewrite !elem_of_cons. auto. }
  unfold pick_properties. draw I32 0 100.
  destruct (z <? 50); [|destruct (z <? 75); [|destruct (z <? 90)]].
  - draw I32 0 20. cbn. unfold feed_payload, is_i32, i32_min, i32_max. split_and!; (done || lia).
  - draw I32 0 20. cbn. unfold feed_payload, is_i32, i32_min, i32_max. split_and!; (done || lia).
  - match goal with |- context [lognormal_dwell ?r] => pose proof (lognormal_dwell_ok r) as Hd;
      destruct (lognormal_dwell r) end. cbn in *. unfold is_i64, i64_max. lia.
  - done.
Qed.
Lemma minus_jitter_ok now rng :
  6 * 3600 * 1000000000 <= now <= 253402300799 * 1000000000 →
  ∃ t, proto_to_chrono (minus_jitter now rng).1 = Some t ∧ now - 359 * 60 * 1000000000 <= t <= now.
Proof.
  intros Hn. unfold minus_jitter. draw I64 0 (6 * 60). cbn [fst]. unfold proto_to_chrono, ts_to_proto.
  set (t := now - z * 60 * 1000000000). cbn [seconds nanos].
  pose proof (Z.mod_pos_bound t 1000000000 ltac:(lia)).
  unfold as_u32. rewrite (Z.mod_small (t mod _)) by lia.
  exists t. split; [|lia]. rewrite from_timestamp_range; [|split|done].
  - f_equal. pose proof (Z.div_mod t 1000000000 ltac:(lia)). lia.
  - apply Z.div_pos; lia.
  - apply Z.div_le_upper_bound; lia.
Qed.

Context `{UnicodeLib}.
Variables (subject : Subject) (server_now : DateTime).
Hypothesis Hsubject : ∀ u k, subject = Subject.User u k → user = u.

(** The window of client clocks that fits the server's. *)
Definition in_step (now : DateTime) : Prop :=
  6 * 3600 * 1000000000 <= now <= 253402300799 * 1000000000 ∧
  server_now - 18 * 3600 * 1000000000 <= now <= server_now + 60 * 1000000000.

Lemma web_surfaces s : s ∈ (lit <$> ["web"; "mobile"; "tablet"]%string) →
  (1 <= length s <= 32)%nat ∧ Forall (λ c, surface_char c = true) s.
Proof.
  cbn [fmap list_fmap]. rewrite !elem_of_cons, elem_of_nil.
  intros [->|[->|[->|[]]]]; (split; [by vm_compute; lia|by repeat constructor]).
Qed.
Lemma chosen_article rng : ∃ a, (choose articles rng).1 = Some a ∧ ∃ i, uuid_parse_str a = Ok i.
Proof.
  destruct (choose_some articles rng Harticles) as [a Ha]. exists a. split; [done|].
  apply choose_member in Ha. by eapply Forall_forall in Hids.
Qed.
Lemma payload_type t p : payload_ok t p → ∃ s, event_type_string t = Ok s.
Proof. destruct p; cbn; try (intros [-> _]; by eexists); intros ->; by eexists. Qed.

Lemma one_event_ok now rng :
  in_step now →
  ∃ record, prepare_event subject (one_event user_id articles now rng).1 server_now = Ok record ∧
    er_user_id record = user.
Proof.
  intros [Hn Hw]. unfold one_event.
  pose proof (chosen_article rng) as (a & Ha & i & Hi).
  destruct (choose articles rng) as [o rng1]; cbn [fst] in Ha; subst o.
  pose proof (pick_properties_ok rng1) as Hp. destruct (pick_properties rng1) as [[t p] rng2].
  pose proof (minus_jitter_ok now rng2 Hn) as (occ & Hocc & Hjit).
  destruct (minus_jitter now rng2) as [ts rng3]. cbn [fst] in Hocc.
  pose proof (pick_surface_ok rng3) as Hs. destruct (pick_surface rng3) as [surf rng4].
  cbn [fst default] in *. apply web_surfaces in Hs. destruct Hp as [Hp _].
  destruct (payload_type _ _ Hp) as [s Hty].
  exists {| er_user_id := user; er_article_id := Some i; er_type := s; er_occurred_at := occ;
            er_surface := surf; er_properties := payload_json p |}.
  split; [|done]. apply prepare_event_spec. split; cbn; [done|done|by eauto|done|done|lia|done|by eauto].
Qed.

(** Every batch the seeder builds is accepted by the event service: whatever the random
    numbers are, as long as the clock of the seeder is at most 60 s ahead of the server's
    and at most 18 h behind, a batch has the number of events asked for and each of them
    is prepared, as an event of the user, by the service. *)
Theorem seeded_events_are_valid n rng env w :
  (∀ i, (w_tick (sw_world w) <= i < w_tick (sw_world w) + n)%nat → in_step (now_at env i)) →
  ∃ events rng' w' records, build_batch user_id articles n rng env w = (Ok (events, rng'), w') ∧
    length events = n ∧ w_db (sw_world w') = w_db (sw_world w) ∧
    try_map (λ ev, prepare_event subject ev server_now) events = Ok records ∧
    Forall (λ r, er_user_id r = user) records.
Proof.
  revert rng w. induction n as [|n IH]; intros rng w Hclock.
  - exists [], rng, w, []. done.
  - cbn [build_batch]. unfold mbind at 1, SM_bind at 1. unfold now, on_world at 1, utc_now. cbn [map_err].
    set (t := now_at env (w_tick (sw_world w))).
    destruct (one_event_ok t rng) as (r & Hr & Hu); [apply Hclock; lia|].
    destruct (one_event user_id articles t rng) as [ev rng1]. cbn [fst] in Hr.
    edestruct (IH rng1) as (evs & rng2 & w2 & rs & Hrun & Hl & Hdb & Hrs & Hus);
      [|unfold mbind, SM_bind; rewrite Hrun].
    { cbn. intros i Hi. apply Hclock. lia. }
    exists (ev :: evs), rng2, w2, (r :: rs). split_and!; [done|cbn; congruence|done| |by constructor].
    cbn [try_map]. rewrite Hr. cbn. by rewrite Hrs.
Qed.
End generated.

(** ** Loops end *)

Section loops.
Context `{UuidLib, ChronoLib, Base64Lib, SignerLib, GatewayLib, RngLib}.
Variable call : ∀ r, Metadata → RequestOf r → M GrpcStatus (ResponseOf r).

(** The [while] loop of [seed_events] ends, whatever the server answers: more turns than
    the target change nothing, as long as a reply does not count a negative number. *)
Lemma event_loop_ends fuel more key kid user_id articles target emitted rng env w :
  (∀ md evs env w resp w', call RecordEventBatch md evs env w = (Ok resp, w') →
    0 <= resp.2 <= i32_max) →
  0 <= emitted → target <= u32_max → target - emitted < Z.of_nat fuel →
  event_loop call (fuel + more) key kid user_id articles target emitted rng env w =
  event_loop call fuel key kid user_id articles target emitted rng env w.
Proof.
  intros Hcall. revert emitted rng w. induction fuel as [|fuel IH]; intros emitted rng w Hge Ht Hf.
  - cbn [event_loop plus]. destruct more as [|more]; [done|]. cbn [event_loop].
    by rewrite (proj2 (Z.ltb_ge emitted target)) by lia.
  - cbn [event_loop plus]. destruct (Z.ltb_spec emitted target); [|done].
    unfold mbind, SM_bind. destruct (build_batch _ _ _ _ _ _) as [[[evs rng']|e] w1]; [|done].
    destruct (signed_request _ _ _ _ _ _ _) as [[md|e] w2]; [|done].
    unfold rpc, on_world. destruct (call RecordEventBatch md evs env _) as [[resp|e] w3] eqn:Hresp; [|done].
    cbn [map_err]. apply Hcall in Hresp. destruct (Z.eqb_spec resp.2 0); [done|].
    unfold u32_max, i32_max in *. assert (as_usize (emitted + as_usize resp.2) = emitted + resp.2) as ->.
    { unfold as_usize. rewrite (Z.mod_small resp.2), Z.mod_small by lia. done. }
    apply IH; lia.
Qed.

(** [build_channel] gives up in time: when the clock gains at least the 250 ms of the pause
    between two readings, 62 turns are enough. *)
Lemma dial_ends (connect : M str ()) env w last fuel ep deadline :
  (∀ n m, (n < m)%nat → now_at env n + 250000000 <= now_at env m) →
  (∀ w, (w_tick w <= w_tick (connect env w).2)%nat) →
  0 < Z.of_nat fuel → deadline - now_at env (w_tick (sw_world w)) <= 250000000 * (Z.of_nat fuel - 1) →
  (dial connect fuel ep deadline last env w).1 ≠ Err (lit "out of fuel").
Proof.
  intros Hclock Hmono. revert w last. induction fuel as [|fuel IH]; intros w last Hpos Hd; [lia|].
  cbn [dial]. unfold mbind at 1, SM_bind at 1. unfold now, on_world at 1, utc_now. cbn [map_err].
  destruct (Z.ltb_spec (now_at env (w_tick (sw_world w))) deadline); [|by destruct last].
  unfold mbind, SM_bind, attempt. cbn [sw_world].
  destruct (connect env _) as [[[]|e] w1] eqn:Hc; [done|].
  assert ((w_tick (sw_world w) < w_tick w1)%nat) as Hlt.
  { pose proof (Hmono (mkWorld (w_db (sw_world w)) (S (w_tick (sw_world w))))) as Hm.
    rewrite Hc in Hm. cbn in Hm. lia. }
  pose proof (Hclock _ _ Hlt). apply IH; cbn [sw_world]; lia.
Qed.
End loops.

(** ** Reset *)

Section reset.
Context `{DieselLib}.

Fixpoint execute_all (l : list (Stmt ())) (d : Db) : option Db :=
  match l with
  | [] => Some d
  | q :: l => match q d with (Ok _, d) => execute_all l d | _ => None end
  end.
Lemma for_unit_sql l env w d :
  quiet env → execute_all l (w_db (sw_world w)) = Some d →
  ∃ w', for_unit sql l env w = (Ok (), w') ∧ w_db (sw_world w') = d ∧ sw_file w' = sw_file w.
Proof.
  intros Hq. revert w. induction l as [|q l IH]; intros w Hl; cbn [execute_all] in Hl.
  { simplify_eq. by exists w. }
  cbn [for_unit]. unfold mbind, SM_bind, sql, on_world. rewrite stmt_quiet by done.
  destruct (q (w_db (sw_world w))) as [[[]|e] d1]; [|done]. cbn [map_err].
  destruct (IH (mkSeedWorld (mkWorld d1 (S (w_tick (sw_world w)))) (sw_file w)) Hl) as (w' & ? & ? & ?).
  by exists w'.
Qed.

(** The database with nothing in it but the mark of the timestamp source. *)
Definition emptied (d : Db) : Db :=
  mkDb ∅ ∅ ∅ ∅ ∅ ∅ ∅ ∅ ∅ ∅ ∅ ∅ ∅ ∅ (tso_high_water d) ∅.
(** [--reset] empties the database: undisturbed, the deletions succeed in the order they
    are made in, whatever rows refer to each other, and no table but the one of the
    timestamp source keeps a row. *)
Theorem reset_empties_tables env w :
  quiet env →
  ∃ w', clear_demo_data env w = (Ok (), w') ∧ sw_file w' = sw_file w ∧
    w_db (sw_world w') = emptied (w_db (sw_world w)).
Proof.
  intros Hq. unfold clear_demo_data, mbind, SM_bind, db_get, on_world. rewrite conn_quiet by done.
  cbn [map_err].
  destruct (for_unit_sql clear_stmts env (mkSeedWorld (tick (sw_world w)) (sw_file w)) (emptied (w_db (sw_world w)))) as (w' & Hrun & Hd & Hf);
    [done| |unfold tick in Hrun; rewrite Hrun; by exists w'].
  unfold tick. cbn [sw_world w_db]. by destruct (w_db (sw_world w)).
Qed.
End reset.

(** ** A step that fails *)

Section interrupted.
Context `{UuidLib, ChronoLib, Base64Lib, SignerLib, GatewayLib, MarkdownLib, DieselLib}.

Definition keeps_file {A} (m : SM A) : Prop := ∀ env w, sw_file (m env w).2 = sw_file w.

Lemma keeps_ret {A} (a : A) : keeps_file (mret a).
Proof. done. Qed.
Lemma keeps_res {A} (r : result str A) : keeps_file (of_res r).
Proof. done. Qed.
Lemma keeps_world {E A} (f : E → str) (m : M E A) : keeps_file (on_world f m).
Proof. intros env w. unfold on_world. by destruct (m env _). Qed.
Lemma keeps_bind {A B} (m : SM A) (f : A → SM B) :
  keeps_file m → (∀ a, keeps_file (f a)) → keeps_file (m ≫= f).
Proof.
  intros Hm Hf env w. unfold mbind, SM_bind. pose proof (Hm env w) as Hw.
  destruct (m env w) as [[a|e] w1]; cbn in Hw; [|done]. by rewrite Hf.
Qed.
Lemma keeps_for_state {A} (f : A → SeedState → SM SeedState) l s :
  (∀ x s, keeps_file (f x s)) → keeps_file (for_state f l s).
Proof.
  intros Hf. revert s. induction l as [|x l IH]; intros s; [apply keeps_ret|].
  by apply keeps_bind.
Qed.
Lemma keeps_for_unit {A} (f : A → SM ()) l : (∀ x, keeps_file (f x)) → keeps_file (for_unit f l).
Proof.
  intros Hf. induction l as [|x l IH]; [apply keeps_ret|]. by apply keeps_bind.
Qed.
Lemma keeps_sql_now {A} (q : DateTime → Stmt A) : keeps_file (sql_now q).
Proof. intros env w. apply keeps_world. Qed.
Create HintDb keeps.
Hint Resolve keeps_ret keeps_res keeps_world keeps_sql_now keeps_for_state keeps_for_unit : keeps.
Ltac keeps :=
  repeat first [ progress eauto with keeps | apply keeps_bind; intros
               | match goal with |- keeps_file (if ?b then _ else _) => destruct b end
               | match goal with |- keeps_file (match ?b with _ => _ end) => destruct b end ].

Variable call : ∀ r, Metadata → RequestOf r → M GrpcStatus (ResponseOf r).
Variable demo_files : str → str → option Dir.

(** A step never writes the state file: only [save] does, once the whole step is done.
    So a step that fails leaves the file as it was, and the ids of everything it had made
    until then are forgotten. *)
Lemma steps_keep_file keys s :
  keeps_file (seed_systems keys s) ∧ keeps_file (seed_accounts call keys s) ∧
  keeps_file (seed_users call keys s) ∧ keeps_file (seed_articles call demo_files keys s) ∧
  keeps_file (seed_drafts call demo_files keys s).
Proof.
  split_and!; [apply keeps_bind; [apply keeps_world|intros _]| | | |]; apply keeps_for_state;
    intros k t; unfold seed_system, seed_account, seed_user, seed_account_articles,
    seed_account_drafts, publish_one, apply_state, signed_request, rpc, sql, parse_id, now, fresh, db_get;
    cbv zeta; keeps; apply keeps_for_state; intros; keeps.
Qed.
End interrupted.

(** ** Examples *)

Section witnesses.
#[local] Existing Instances toy_uuid toy_uuid_laws toy_chrono toy_base64 toy_crypto toy_signer
  toy_gateway toy_markdown toy_diesel toy_url toy_unicode.

(** A generator that counts. *)
Definition toy_rng : RngLib := {|
  Rng := Z;
  seed_from_u64 z := z;
  gen_range _ lo hi r := (lo + r mod (hi - lo), r + 7);
  shuffle l r := (reverse l, r + 7);
  choose l r := (head l, r + 7);
|}.
#[local] Existing Instance toy_rng.
Lemma toy_rng_laws : RngLaws.
Proof.
  split; cbn.
  - intros _ lo hi r Hlt. pose proof (Z.mod_pos_bound r (hi - lo) ltac:(lia)). lia.
  - intros l _. by rewrite reverse_Permutation.
  - intros [|y l] _ x [= <-]. by left.
  - by intros [|y l] _ Hl; [|eexists].
Qed.
Lemma toy_timestamp_range : TimestampRange.
Proof. by intros s n _ _. Qed.

(** A server that only creates accounts, with the handler of the account service. *)
Definition toy_call (r : Rpc) : Metadata → RequestOf r → M GrpcStatus (ResponseOf r) :=
  match r with
  | CreateAccount => λ _ req,
      map_errM (λ _, bare_status CInternal [])
        (reply ← create_account (registry_with_default registry_new) Open Subject.Anonymous req;
         mret {| car_account := Some reply.1; car_key_id := reply.2 |})
  | _ => λ _ _, throw (bare_status CUnimplemented [])
  end.
Definition toy_loaded (name : string) : LoadedKey :=
  {| lk_name := lit name; lk_signing_key := 5%N; lk_public_b64 := b64_encode (replicate 32 5%N) |}.
Definition toy_world : SeedWorld := mkSeedWorld (mkWorld empty_db 0) None.

Lemma seeding_twice_is_once_witness :
  ∃ s w, seed_accounts toy_call [toy_loaded "techblog"; toy_loaded "opinion"] default_state toy_env
      toy_world = (Ok s, w) ∧ size (ss_accounts s) = 2%nat ∧
    seed_accounts toy_call [toy_loaded "techblog"; toy_loaded "opinion"] s toy_env w = (Ok s, w).
Proof.
  assert (∃ s w, seed_accounts toy_call [toy_loaded "techblog"; toy_loaded "opinion"] default_state
    toy_env toy_world = (Ok s, w) ∧ size (ss_accounts s) = 2%nat) as (s & w & Hrun & Hs)
    by (eexists _, _; split; vm_compute; reflexivity).
  exists s, w. split_and!; [exact Hrun|exact Hs|].
  destruct (seeding_twice_is_once toy_call (λ _ _, None) [toy_loaded "techblog"; toy_loaded "opinion"]
    default_state s toy_env toy_world w toy_env w) as (_ & Hacc & _).
  by destruct (Hacc Hrun) as (_ & _ & Htwice).
Defined.

(** A step that fails half-way and is run again makes its first account twice. *)
Example interrupted_step_repeats :
  let keys := [toy_loaded "techblog"; toy_loaded "unplanned"] in
  let w1 := (seed_accounts toy_call keys default_state toy_env toy_world).2 in
  let w2 := (seed_accounts toy_call keys (default default_state (sw_file w1)) toy_env w1).2 in
  size (accounts (w_db (sw_world w1))) = 1%nat ∧ size (accounts (w_db (sw_world w2))) = 2%nat.
Proof. by vm_compute. Qed.

Lemma seeded_events_are_valid_witness :
  ∃ events rng' w' records,
    build_batch (uuid_display 7%N) [uuid_display 9%N] 100 42
      {| fault := λ _, None; now_at := λ n, 1700000000000000000 + Z.of_nat n; fresh_at := λ n, 0%N;
         others := λ _ d, d |} toy_world = (Ok (events, rng'), w') ∧ length events = 100%nat ∧
    w_db (sw_world w') = empty_db ∧
    try_map (λ ev, prepare_event (Subject.User 7%N 1%N) ev 1700000000000000000) events = Ok records ∧
    Forall (λ r, er_user_id r = 7%N) records.
Proof.
  refine (@seeded_events_are_valid toy_uuid toy_chrono toy_rng toy_timestamp_range toy_rng_laws
    [uuid_display 9%N] (uuid_display 7%N) 7%N ltac:(done) _ ltac:(by vm_compute) toy_unicode
    (Subject.User 7%N 1%N) 1700000000000000000 _ 100 42 _ toy_world _).
  - constructor; [|done]. exists 9%N. by vm_compute.
  - by intros u k [= <- _].
  - intros i Hi. unfold in_step. cbn in Hi |- *. lia.
Defined.

Lemma reset_empties_tables_witness :
  ∃ w', clear_demo_data toy_env (mkSeedWorld (mkWorld toy_db 0) (Some default_state)) = (Ok (), w') ∧
    sw_file w' = Some default_state ∧ w_db (sw_world w') = empty_db.
Proof.
  apply (reset_empties_tables toy_env (mkSeedWorld (mkWorld toy_db 0) (Some default_state)) toy_env_quiet).
Defined.
End witnesses.
