(* ===== verification/Resolver.v ===== *)
(** * The Postgres key resolver and timestamp store
    ([headlines-auth/src/postgres_resolver.rs], [time/postgres_store.rs])

    Which subject a wire key id authenticates as, by probing the three key tables;
    and the singleton row behind the timestamp oracle. *)

From S2P Require Import Prelude Libs Instances Errors Subject Db Accounts Strategy.

(** ** [PostgresKeyResolver] *)

Definition ACTIVE_STATUS : str := lit "active".

(** [ActiveMatch], with the table's name; and what the probes have collected. *)
Definition ActiveMatch : Type := str * ResolvedKey.
Record Probed := { active_matches : list ActiveMatch; nonactive_tables : list str }.

(** The rows of a table with the key id.  The id alone is not the primary key, so
    [first] takes one of several rows, in no particular order. *)
Definition key_rows (kind : KeyKind) (key_id : Uuid) (d : Db) : list KeyRow :=
  rows_where (λ r, bool_decide (key_key_id r = key_id)) (keys_of kind d).
Definition active_key_rows (kind : KeyKind) (key_id : Uuid) (d : Db) : list KeyRow :=
  rows_where (λ r, bool_decide (key_key_id r = key_id)
                   && str_eqb (key_status r) ACTIVE_STATUS) (keys_of kind d).

(** [system_scopes] of a system. *)
Definition scopes_of (system_id : Uuid) (d : Db) : list str :=
  (filter (λ s : Uuid * str, s.1 = system_id) (elements (system_scopes d))).*2.

Section resolver.
Context `{DieselLib, Base64Lib, UuidLib}.

Definition resolve_internal (ctx : string) (e : DieselError) : ResolveError :=
  ResolveInternal (lit ctx ++ lit ": " ++ diesel_display e).
Definition rrun {A} (ctx : string) (q : Stmt A) : M ResolveError A :=
  map_errM (resolve_internal ctx) (stmt q).
Definition rrun_opt {A} (ctx : string) (q : Stmt A) : M ResolveError (option A) :=
  map_errM (resolve_internal ctx) (optional (stmt q)).

(** The report of a key id that is active in several tables; [{:?}] of the list of
    their names. *)
Definition collision (key_id : Uuid) (tables : list str) : ResolveError :=
  ResolveInternal (lit "cross-table key_id collision: " ++ uuid_display key_id ++
                   lit " present in [" ++
                   join (lit ", ") ((λ t, [34%N] ++ t ++ [34%N]) <$> tables) ++ lit "]").

(** One of the three sections of [resolve]: the active row, or else whether there is
    a row at all. *)
Definition probe (kind : KeyKind) (table : str) (ctx ctx_status : string) (key_id : Uuid)
    (subject : Uuid → M ResolveError Subject) (p : Probed) : M ResolveError Probed :=
  found ← rrun_opt ctx (first_row (λ d, head (active_key_rows kind key_id d)));
  match found with
  | Some row =>
    s ← subject (key_owner row);
    public_key ← lift (map_err (λ e, ResolveInternal (lit "base64 decode: " ++ e))
                         (b64_decode (key_public_key row)));
    mret {| active_matches := active_matches p ++
              [(table, {| rk_algo := key_algo row; rk_public_key := public_key;
                          rk_subject := s |})];
            nonactive_tables := nonactive_tables p |}
  | None =>
    inactive ← rrun_opt ctx_status (first_row (λ d, key_status <$> head (key_rows kind key_id d)));
    mret (if bool_decide (is_Some inactive) then
            {| active_matches := active_matches p; nonactive_tables := nonactive_tables p ++ [table] |}
          else p)
  end.

(** [resolve] *)
Definition pg_resolve (key_id : Uuid) : M ResolveError ResolvedKey :=
  map_errM (λ _, ResolveInternal (lit "acquire conn: acquire diesel-async connection from deadpool"))
    get_conn;;
  p ← probe KAccount (lit "account_keys") "select account_keys" "select account_keys status" key_id
        (λ account_id, mret (Subject.Account account_id key_id))
        {| active_matches := []; nonactive_tables := [] |};
  p ← probe KUser (lit "user_keys") "select user_keys" "select user_keys status" key_id
        (λ user_id, mret (Subject.User user_id key_id)) p;
  p ← probe KSystem (lit "system_keys") "select system_keys" "select system_keys status" key_id
        (λ system_id,
           scopes ← rrun "select system_scopes" (query (scopes_of system_id));
           mret (Subject.System system_id key_id scopes)) p;
  match active_matches p with
  | [] => match nonactive_tables p with
          | [] => throw ResolveNotFound
          | _ => throw Revoked
          end
  | [(_, resolved)] => mret resolved
  | matches => throw (collision key_id matches.*1)
  end.

(** ** What it resolves to *)

(** No table has an active row with the key id. *)
Definition no_active_row (key_id : Uuid) (d : Db) : Prop :=
  ∀ kind pk r, keys_of kind d !! pk = Some r → key_key_id r = key_id →
    key_status r ≠ lit "active".

Lemma active_key_rows_elem kind key_id d r :
  r ∈ active_key_rows kind key_id d ↔
  (key_key_id r = key_id ∧ key_status r = lit "active") ∧ ∃ pk, keys_of kind d !! pk = Some r.
Proof.
  unfold active_key_rows. rewrite elem_of_rows_where, andb_true_iff, bool_decide_eq_true.
  by rewrite str_eqb_eq.
Qed.

Lemma no_active_head kind key_id d :
  no_active_row key_id d → head (active_key_rows kind key_id d) = None.
Proof.
  intros Hn. destruct (active_key_rows kind key_id d) as [|r l] eqn:Hl; [done|].
  assert (Hr : r ∈ active_key_rows kind key_id d) by (rewrite Hl; set_solver).
  apply active_key_rows_elem in Hr as [[Hid Hst] [pk Hpk]]. by destruct (Hn kind pk r Hpk Hid).
Qed.

(** A single-row lookup that succeeded saw the database it leaves. *)
Lemma rrun_opt_first {A} ctx (f : Db → option A) env w o w' :
  rrun_opt ctx (first_row f) env w = (Ok o, w') →
  o = f (w_db w') ∧ w_db w' = others env (w_tick w) (w_db w).
Proof.
  intros [(a & -> & [Hr _]%stmt_ok)|[-> Hr]]%map_errM_ok%optional_ok.
  - unfold first_row in Hr. destruct (f _) eqn:Hf; simplify_eq/=. split; congruence.
  - revert Hr. unfold stmt, first_row. destruct (fault _ _) as [[msg applied]|]; [done|].
    destruct (f _) eqn:Hf; intros; simplify_eq/=. split; congruence.
Qed.

(** A probe of a database with no active row finds no match, and asks for no scopes. *)
Lemma probe_no_active kind table c1 c2 key_id subject p env w p' w' :
  (∀ n d, no_active_row key_id d → no_active_row key_id (others env n d)) →
  no_active_row key_id (w_db w) →
  probe kind table c1 c2 key_id subject p env w = (Ok p', w') →
  active_matches p' = active_matches p ∧ no_active_row key_id (w_db w').
Proof.
  intros Ho Hw (found & w1 & [-> Hd1]%rrun_opt_first & Hr)%bind_ok.
  assert (Hw1 : no_active_row key_id (w_db w1)) by (rewrite Hd1; auto).
  rewrite (no_active_head kind key_id _ Hw1) in Hr.
  apply bind_ok in Hr as (o & w2 & [-> Hd2]%rrun_opt_first & Hr).
  unfold mret, M_ret in Hr. simplify_eq. rewrite Hd2. split; [by case_bool_decide|auto].
Qed.

(** A key id with no active row in any key table never authenticates: the
    resolver does not return a subject for it, whatever fails and whatever other
    requests do, as long as they do not create or reactivate such a row. *)
Theorem revoked_key_never_resolves key_id env w :
  (∀ n d, no_active_row key_id d → no_active_row key_id (others env n d)) →
  no_active_row key_id (w_db w) →
  ∃ e, (pg_resolve key_id env w).1 = Err e.
Proof.
  intros Ho Hw. destruct (pg_resolve key_id env w) as [[k|e] w'] eqn:Hr; [exfalso|by eexists].
  apply bind_ok in Hr as (u & w0 & Hc & Hr). assert (Hw0 : w_db w0 = w_db w).
  { apply map_errM_ok in Hc. unfold get_conn in Hc. destruct (fault _ _); by simplify_eq/=. }
  rewrite <- Hw0 in Hw. clear Hc Hw0.
  apply bind_ok in Hr as (p1 & w1 & [Hp1 Hw1]%probe_no_active & Hr); [|done..].
  apply bind_ok in Hr as (p2 & w2 & [Hp2 Hw2]%probe_no_active & Hr); [|done..].
  apply bind_ok in Hr as (p3 & w3 & [Hp3 Hw3]%probe_no_active & Hr); [|done..].
  rewrite Hp3, Hp2, Hp1 in Hr. simpl in Hr. by destruct (nonactive_tables p3).
Qed.

(** ** Without failures: the exactly-one rule *)

(** The row a table offers, and the subject of its owner. *)
Definition candidate (key_id : Uuid) (d : Db) (kind : KeyKind) : option (KeyKind * KeyRow) :=
  pair kind <$> head (active_key_rows kind key_id d).
Definition table_name (kind : KeyKind) : str :=
  match kind with
  | KAccount => lit "account_keys"
  | KUser => lit "user_keys"
  | KSystem => lit "system_keys"
  end.
Definition subject_of (d : Db) (kind : KeyKind) (owner key_id : Uuid) : Subject :=
  match kind with
  | KAccount => Subject.Account owner key_id
  | KUser => Subject.User owner key_id
  | KSystem => Subject.System owner key_id (scopes_of owner d)
  end.

(** A candidate as a resolved key. *)
Definition resolve_row (key_id : Uuid) (d : Db) (c : KeyKind * KeyRow) :
    result ResolveError ActiveMatch :=
  match b64_decode (key_public_key c.2) with
  | Ok pk => Ok (table_name c.1, {| rk_algo := key_algo c.2; rk_public_key := pk;
                                    rk_subject := subject_of d c.1 (key_owner c.2) key_id |})
  | Err e => Err (ResolveInternal (lit "base64 decode: " ++ e))
  end.

(** What the three probes together decide. *)
Definition resolve_spec (key_id : Uuid) (d : Db) : result ResolveError ResolvedKey :=
  matches ← try_map (resolve_row key_id d)
              (omap (candidate key_id d) [KAccount; KUser; KSystem]);
  match matches with
  | [] => if existsb (λ kind, negb (bool_decide (key_rows kind key_id d = [])))
               [KAccount; KUser; KSystem]
          then Err Revoked else Err ResolveNotFound
  | [(_, k)] => Ok k
  | _ => Err (collision key_id matches.*1)
  end.

(** The probe of one table, as a function. *)
Definition probe_spec (kind : KeyKind) (key_id : Uuid) (d : Db) (p : Probed) :
    result ResolveError Probed :=
  match candidate key_id d kind with
  | Some c =>
    m ← resolve_row key_id d c;
    Ok {| active_matches := active_matches p ++ [m]; nonactive_tables := nonactive_tables p |}
  | None =>
    Ok (if bool_decide (key_rows kind key_id d = []) then p
        else {| active_matches := active_matches p;
                nonactive_tables := nonactive_tables p ++ [table_name kind] |})
  end.

Lemma bind_rrun_opt {A B} env ctx (q : Db → option A) (f : option A → M ResolveError B) w :
  quiet env → (rrun_opt ctx (first_row q) ≫= f) env w = f (q (w_db w)) env (tick w).
Proof.
  intros Hq. rewrite bind_run. unfold rrun_opt, map_errM, optional. rewrite stmt_quiet by done.
  unfold first_row. by destruct (q (w_db w)).
Qed.

Lemma probe_quiet kind c1 c2 key_id subject p env w :
  quiet env →
  (∀ owner w', w_db w' = w_db w →
     reads (subject owner) env w' (Ok (subject_of (w_db w) kind owner key_id))) →
  reads (probe kind (table_name kind) c1 c2 key_id subject p) env w
    (probe_spec kind key_id (w_db w) p).
Proof.
  intros Hq Hs. unfold probe, probe_spec, candidate, reads. rewrite bind_rrun_opt by done.
  destruct (head _) as [row|]; simpl.
  - destruct (Hs (key_owner row) (tick w) eq_refl) as (w1 & Hm & Hd).
    rewrite bind_run, Hm. unfold resolve_row. simpl.
    destruct (b64_decode _) as [pk|e]; (eexists; split; [reflexivity|exact Hd]).
  - rewrite bind_rrun_opt by done. exists (tick (tick w)). split; [|done].
    rewrite w_db_tick. by destruct (key_rows kind key_id (w_db w)).
Qed.

(** The three probes and the final count, as a function. *)
Definition probes_spec (key_id : Uuid) (d : Db) : result ResolveError ResolvedKey :=
  p ← probe_spec KAccount key_id d {| active_matches := []; nonactive_tables := [] |};
  p ← probe_spec KUser key_id d p;
  p ← probe_spec KSystem key_id d p;
  match active_matches p with
  | [] => match nonactive_tables p with [] => Err ResolveNotFound | _ => Err Revoked end
  | [(_, resolved)] => Ok resolved
  | matches => Err (collision key_id matches.*1)
  end.

Lemma probes_spec_count key_id d : probes_spec key_id d = resolve_spec key_id d.
Proof.
  unfold probes_spec, resolve_spec, probe_spec. simpl.
  destruct (candidate key_id d KAccount) as [a|], (candidate key_id d KUser) as [u|],
    (candidate key_id d KSystem) as [s|]; simpl;
    repeat match goal with
    | |- context [resolve_row ?k ?d ?c] => destruct (resolve_row k d c) as [[? ?]|?]; simpl
    | |- context [bool_decide ?P] => destruct (bool_decide P); simpl
    end; reflexivity.
Qed.

(** The resolver, undisturbed, is the function. *)
Lemma pg_resolve_quiet key_id env w :
  quiet env → reads (pg_resolve key_id) env w (resolve_spec key_id (w_db w)).
Proof.
  intros Hq. rewrite <- probes_spec_count. unfold pg_resolve, probes_spec.
  unfold reads. rewrite bind_run. unfold map_errM at 1. rewrite conn_quiet by done.
  change (mkWorld (w_db w) (S (w_tick w))) with (tick w). rewrite <- (w_db_tick w).
  generalize (tick w). clear w. intros w.
  apply bind_reads; [apply (probe_quiet KAccount); [done|]; intros; by eexists|].
  intros p1 w1 Hd1. rewrite <- Hd1.
  apply bind_reads; [apply (probe_quiet KUser); [done|]; intros; by eexists|].
  intros p2 w2 Hd2. rewrite <- Hd2.
  apply bind_reads; [apply (probe_quiet KSystem); [done|]|].
  - intros owner w3 Hd3. rewrite <- Hd3. eexists. rewrite bind_run. unfold rrun, map_errM.
    rewrite stmt_quiet by done. split; reflexivity.
  - intros p3 w3 _. exists w3. split; [|done].
    destruct (active_matches p3) as [|[? ?] [|? ?]]; [destruct (nonactive_tables p3)|..]; done.
Qed.

(** C40. Without failures or other requests, resolving a key id is the exactly-one
    rule over the active rows of the three key tables: one table with an active row
    gives that row's key, with its owner as the subject (a system with its scopes);
    none gives [Revoked] when some table has a row and [NotFound] otherwise; several
    are refused as a collision, never the first one.  The database is only read. *)
Theorem resolve_exactly_one key_id env w :
  quiet env → reads (pg_resolve key_id) env w (resolve_spec key_id (w_db w)).
Proof. apply pg_resolve_quiet. Qed.

(** ** The high-water store of the timestamp oracle ([time/postgres_store.rs]) *)

(** A call to a [TsoHighWaterStore] and its answer; errors are the displayed
    [anyhow::Error], i.e. the outermost context. *)
Inductive StoreCall : Type := StoreRead | StoreWrite (last_physical_ms : Z).
Inductive StoreAnswer : Type := ReadValue (v : Z) | Written.

(** [InMemoryTsoStore] *)
Definition InMemoryTsoStore : Type := Z.
Definition mem_new : InMemoryTsoStore := 0.
Definition mem_call (c : StoreCall) (s : InMemoryTsoStore) : StoreAnswer * InMemoryTsoStore :=
  match c with
  | StoreRead => (ReadValue s, s)
  | StoreWrite v => (Written, v)
  end.

(** [PostgresTsoStore]: the singleton row, without its [updated_at]. *)
Definition anyhow_run {A} (ctx : string) (q : Stmt A) : M str A :=
  map_errM (λ _, lit ctx) (stmt q).
Definition anyhow_conn : M str () :=
  map_errM (λ _, lit "acquire diesel-async connection from deadpool") get_conn.

Definition store_read : M str Z :=
  anyhow_conn;;
  anyhow_run "seed tso_high_water row"
    (execute (λ d, set_tso_high_water (Some (default 0 (tso_high_water d))) d));;
  row ← anyhow_run "read tso_high_water.last_physical_ms" (first_row tso_high_water);
  mret (Z.max row 0).
Definition store_write (last_physical_ms : Z) : M str () :=
  anyhow_conn;;
  let target := Z.min last_physical_ms i64_max in
  anyhow_run "upsert tso_high_water.last_physical_ms"
    (execute (set_tso_high_water (Some target))).
Definition store_call (c : StoreCall) : M str StoreAnswer :=
  match c with
  | StoreRead => v ← store_read; mret (ReadValue v)
  | StoreWrite v => store_write v;; mret Written
  end.

(** The calls of a session, on either store. *)
Fixpoint mem_session (l : list StoreCall) (s : InMemoryTsoStore) : list StoreAnswer :=
  match l with
  | [] => []
  | c :: l => let '(a, s) := mem_call c s in a :: mem_session l s
  end.
Definition store_session (l : list StoreCall) : M str (list StoreAnswer) := mapM_ store_call l.

(** What the row stands for. *)
Definition stored_value (d : Db) : Z := Z.max (default 0 (tso_high_water d)) 0.

Lemma bind_anyhow {A B} env ctx (q : Stmt A) (f : A → M str B) w a d :
  quiet env → q (w_db w) = (Ok a, d) →
  (anyhow_run ctx q ≫= f) env w = f a env (tick (on_db (λ _, d) w)).
Proof. intros Hq Hs. rewrite bind_run. unfold anyhow_run, map_errM. by rewrite stmt_quiet, Hs. Qed.
Lemma bind_anyhow_conn {B} env (f : () → M str B) w :
  quiet env → (anyhow_conn ≫= f) env w = f () env (tick w).
Proof. intros Hq. rewrite bind_run. unfold anyhow_conn, map_errM. by rewrite conn_quiet. Qed.

(** One call answers as the in-memory store does and leaves the row standing for the
    in-memory value, as long as the value fits the signed column. *)
Lemma store_call_refines env c w :
  quiet env → (∀ v, c = StoreWrite v → 0 <= v <= i64_max) →
  ∃ w', store_call c env w = (Ok (mem_call c (stored_value (w_db w))).1, w') ∧
        stored_value (w_db w') = (mem_call c (stored_value (w_db w))).2.
Proof.
  intros Hq Hc. destruct c as [|v]; unfold store_call.
  - rewrite bind_run. unfold store_read. rewrite bind_anyhow_conn by done.
    erewrite bind_anyhow by done. erewrite bind_anyhow by done.
    eexists. split; [reflexivity|]. done.
  - specialize (Hc v eq_refl). rewrite bind_run. unfold store_write.
    rewrite bind_anyhow_conn by done. cbv zeta. unfold anyhow_run, map_errM.
    rewrite stmt_quiet by done. eexists. split; [reflexivity|].
    unfold stored_value. simpl. lia.
Qed.

Lemma store_session_refines env l w :
  quiet env → Forall (λ c, ∀ v, c = StoreWrite v → 0 <= v <= i64_max) l →
  (store_session l env w).1 = Ok (mem_session l (stored_value (w_db w))).
Proof.
  intros Hq Hl. revert w. unfold store_session.
  induction Hl as [|c l Hc _ IH]; intros w; [done|].
  destruct (store_call_refines env c w Hq Hc) as (w1 & Hr & Hd).
  cbn [mapM_ mem_session]. rewrite bind_run, Hr, bind_run.
  destruct (mem_call c _) as [a s] eqn:Hm. cbn in Hd. subst s.
  specialize (IH w1). destruct (mapM_ store_call l env w1) as [r w2]. cbn in IH |- *.
  by rewrite IH.
Qed.

(** The mark goes backwards when it is told to. *)
Lemma store_goes_backwards env w :
  quiet env →
  (store_session [StoreWrite 5; StoreWrite 3; StoreRead] env w).1 =
  Ok [Written; Written; ReadValue 3].
Proof.
  intros Hq. rewrite store_session_refines; [done|done|].
  repeat (apply Forall_cons; split; [|]); try done; intros v [= <-]; split; by vm_compute.
Qed.

(** Without failures, the Postgres store of the oracle's high-water mark is
    indistinguishable from the in-memory one: any session of reads and writes of
    values that fit the signed column is answered alike, from any row (none, or even a
    negative one, stands for zero).  In particular a write overwrites whatever was
    there, smaller values included. *)
Theorem postgres_store_refines env l w :
  quiet env → Forall (λ c, ∀ v, c = StoreWrite v → 0 <= v <= i64_max) l →
  (store_session l env w).1 = Ok (mem_session l (stored_value (w_db w))).
Proof. apply store_session_refines. Qed.
End resolver.

(** ** Witnesses *)

Section witnesses.
#[local] Existing Instances toy_diesel toy_base64 toy_uuid.

(** System 9's key 7, with two scopes, revoked or not. *)
Definition toy_key (status : str) : KeyRow :=
  mkKey 9%N 7%N (lit "ed25519") (b64_encode []) status 0 None.
Definition toy_keys (status : str) : Db :=
  mkDb ∅ ∅ ∅ ∅ ∅ ∅ ∅ ∅ ∅ ∅ ∅ ∅ {[(9%N, lit "a.read"); (9%N, lit "b.read")]}
    {[(9%N, 7%N) := toy_key status]} None ∅.

Lemma revoked_key_never_resolves_witness :
  ∃ e, (pg_resolve 7%N toy_env (mkWorld (toy_keys (lit "revoked")) 0)).1 = Err e.
Proof.
  apply (revoked_key_never_resolves 7%N toy_env (mkWorld (toy_keys (lit "revoked")) 0)).
  - intros n d Hd. exact Hd.
  - intros [] pk r; cbn; intros Hr _; try (by rewrite lookup_empty in Hr).
    apply lookup_singleton_Some in Hr as [_ <-]. done.
Defined.

Lemma resolve_exactly_one_witness :
  reads (pg_resolve 7%N) toy_env (mkWorld (toy_keys (lit "active")) 0)
    (resolve_spec 7%N (toy_keys (lit "active"))) ∧
  is_ok (resolve_spec 7%N (toy_keys (lit "active"))) = true.
Proof.
  split; [exact (resolve_exactly_one 7%N toy_env (mkWorld (toy_keys (lit "active")) 0)
                   toy_env_quiet)|vm_compute; reflexivity].
Defined.

Lemma postgres_store_refines_witness :
  (store_session [StoreWrite 5; StoreRead] toy_env (mkWorld empty_db 0)).1 =
  Ok [Written; ReadValue 5].
Proof.
  apply (postgres_store_refines toy_env [StoreWrite 5; StoreRead] (mkWorld empty_db 0)).
  - exact toy_env_quiet.
  - repeat (apply Forall_cons; split); try done; intros v [= <-]; split; by vm_compute.
Defined.
End witnesses.
