(* ===== verification/Net.v ===== *)
(** * Socket addresses ([core::net]'s [FromStr] and [Display], as
    [headlines-server/src/tailscale.rs] uses them)

    The parser of [ip:port] texts: dotted IPv4 addresses, and bracketed IPv6 addresses with
    an optional scope id. *)

From S2P Require Import Prelude.

(** [SocketAddr] *)
Inductive SocketAddr : Type :=
  | V4 (octets : list N) (port : N)
  | V6 (groups : list N) (scope_id port : N).
Definition port (a : SocketAddr) : N := match a with V4 _ p | V6 _ _ p => p end.

(** ** Readers: [None] leaves the input where it was *)

Definition P (A : Type) : Type := str → option (A * str).
#[export] Instance P_ret : MRet P := λ A a s, Some (a, s).
#[export] Instance P_bind : MBind P := λ A B f p s, '(a, s) ← p s; f a s.
Definition nothing {A} : P A := λ _, None.

(** [read_given_char], [read_separator] *)
Definition read_given_char (c : N) : P () := λ s,
  match s with x :: s => if (x =? c)%N then Some ((), s) else None | [] => None end.
Definition read_separator {A} (sep : N) (index : nat) (inner : P A) : P A :=
  match index with O => inner | S _ => _ ← read_given_char sep; inner end.

(** [char::to_digit] *)
Definition to_digit (radix c : N) : option N :=
  let d := (if is_ascii_digit c then Some (c - 48)
            else if is_ascii_lowercase c then Some (c - 87)
            else if is_ascii_uppercase c then Some (c - 55) else None)%N in
  d ← d; if (d <? radix)%N then Some d else None.
Definition is_digit (radix c : N) : bool := bool_decide (is_Some (to_digit radix c)).
Definition number (radix : N) (digits : str) : N :=
  foldl (λ acc c, acc * radix + default 0 (to_digit radix c))%N 0%N digits.

(** [read_number], into a type whose largest value is [max]: all digits are read. *)
Definition read_number (radix : N) (max_digits : option nat) (allow_zero_prefix : bool) (max : N) :
    P N := λ s,
  let (digits, rest) := span (is_digit radix) s in
  let too_long := match max_digits with Some m => (m <? length digits)%nat | None => false end in
  let zero_prefix := bool_decide (head digits = Some 48%N) && (1 <? length digits)%nat in
  if too_long || bool_decide (digits = []) || (negb allow_zero_prefix && zero_prefix) ||
     (max <? number radix digits)%N
  then None
  else Some (number radix digits, rest).

(** [read_ipv4_addr] *)
Fixpoint read_octets (n i : nat) : P (list N) :=
  match n with
  | O => mret []
  | S n =>
    octet ← read_separator 46 i (read_number 10 (Some 3%nat) false 255);
    octets ← read_octets n (S i);
    mret (octet :: octets)
  end.
Definition read_ipv4_addr : P (list N) := read_octets 4 0.

(** [read_groups]: up to [n] more of [limit] groups, the last two perhaps an IPv4
    address. *)
Fixpoint read_groups (n i limit : nat) (s : str) : list N * bool * str :=
  match n with
  | O => ([], false, s)
  | S n =>
    let ipv4 := if (i <? limit - 1)%nat then read_separator 58 i read_ipv4_addr else nothing in
    match ipv4 s with
    | Some ([a; b; c; d], s) => ([a * 256 + b; c * 256 + d]%N, true, s)
    | _ =>
      match read_separator 58 i (read_number 16 (Some 4%nat) true 65535) s with
      | Some (group, s) =>
        let '(groups, v4, s) := read_groups n (S i) limit s in (group :: groups, v4, s)
      | None => ([], false, s)
      end
    end
  end.
(** [read_ipv6_addr] *)
Definition read_ipv6_addr : P (list N) := λ s,
  let '(head, head_ipv4, s) := read_groups 8 0 8 s in
  if (length head =? 8)%nat then Some (head, s)
  else if head_ipv4 then None
  else
    '(_, s) ← (_ ← read_given_char 58; read_given_char 58) s;
    let limit := (8 - (length head + 1))%nat in
    let '(tail, _, s) := read_groups limit 0 limit s in
    Some (head ++ replicate (8 - length head - length tail) 0%N ++ tail, s).

(** [read_port], [read_scope_id] *)
Definition read_port : P N := _ ← read_given_char 58; read_number 10 None true 65535.
Definition read_scope_id : P N := _ ← read_given_char 37; read_number 10 None true 4294967295.

(** [read_socket_addr_v4], [read_socket_addr_v6] *)
Definition read_socket_addr_v4 : P SocketAddr :=
  ip ← read_ipv4_addr; p ← read_port; mret (V4 ip p).
Definition read_socket_addr_v6 : P SocketAddr :=
  _ ← read_given_char 91;
  ip ← read_ipv6_addr;
  scope_id ← (λ s, Some (match read_scope_id s with Some (i, s) => (i, s) | None => (0%N, s) end));
  _ ← read_given_char 93;
  p ← read_port;
  mret (V6 ip scope_id p).

(** [str::parse::<SocketAddr>] *)
Definition parse_socket_addr (s : str) : result str SocketAddr :=
  let read := match read_socket_addr_v4 s with Some r => Some r | None => read_socket_addr_v6 s end in
  match read with
  | Some (a, []) => Ok a
  | _ => Err (lit "invalid socket address syntax")
  end.

(** [Display] of an IPv4 address with its port. *)
Definition ipv4_display (octets : list N) : str := join (lit ".") (dec_N <$> octets).
Definition socket_v4_display (octets : list N) (p : N) : str :=
  ipv4_display octets ++ lit ":" ++ dec_N p.

(** ** Printed addresses are read back *)

Lemma to_digit_10 c : to_digit 10 c = if is_ascii_digit c then Some (digit_value c) else None.
Proof.
  unfold to_digit, digit_value. destruct (is_ascii_digit c) eqn:Hd; cbn.
  - unfold is_ascii_digit in Hd. apply andb_true_iff in Hd as [?%N.leb_le ?%N.leb_le].
    destruct (N.ltb_spec (c - 48) 10); [done|lia].
  - destruct (is_ascii_lowercase c) eqn:Hl; cbn.
    + unfold is_ascii_lowercase in Hl. apply andb_true_iff in Hl as [?%N.leb_le ?%N.leb_le].
      destruct (N.ltb_spec (c - 87) 10); [lia|done].
    + destruct (is_ascii_uppercase c) eqn:Hu; cbn; [|done].
      unfold is_ascii_uppercase in Hu. apply andb_true_iff in Hu as [?%N.leb_le ?%N.leb_le].
      destruct (N.ltb_spec (c - 55) 10); [lia|done].
Qed.
Lemma is_digit_10 c : is_digit 10 c = is_ascii_digit c.
Proof. unfold is_digit. rewrite to_digit_10. by destruct (is_ascii_digit c). Qed.
Lemma number_10 digits : Forall (λ c, is_ascii_digit c = true) digits →
  number 10 digits = dec_value 0 digits.
Proof.
  unfold number, dec_value. intros Hd.
  enough (∀ acc, foldl (λ acc c, acc * 10 + default 0 (to_digit 10 c))%N acc digits =
                 foldl (λ a c, a * 10 + digit_value c)%N acc digits) as He by apply He.
  induction Hd as [|c digits Hc _ IH]; intros acc; [done|]. cbn. by rewrite to_digit_10, Hc, IH.
Qed.

(** A printed octet has at most three digits and no leading zero. *)
Lemma octet_digits n : (n <= 255)%N →
  (length (dec_N n) <= 3)%nat ∧
  bool_decide (head (dec_N n) = Some 48%N) && (1 <? length (dec_N n))%nat = false.
Proof.
  intros Hn.
  assert (Hall : forallb (λ n, (length (dec_N n) <=? 3)%nat &&
    negb (bool_decide (head (dec_N n) = Some 48%N) && (1 <? length (dec_N n))%nat))
    (map N.of_nat (seq 0 256)) = true) by (vm_compute; reflexivity).
  rewrite forallb_forall in Hall. specialize (Hall n).
  destruct (andb_prop _ _ (Hall ltac:(apply in_map_iff; exists (N.to_nat n); split; [lia|apply in_seq; lia])))
    as [Hl%Nat.leb_le Hz%negb_true_iff]. by split.
Qed.
(** A printed number is read whole, up to a character that is no digit or the end. *)
Lemma read_number_dec n max_digits allow max rest :
  (n <= max)%N → max_digits = None ∧ allow = true ∨ max_digits = Some 3%nat ∧ (n <= 255)%N →
  (∀ c, head rest = Some c → is_ascii_digit c = false) →
  read_number 10 max_digits allow max (dec_N n ++ rest) = Some (n, rest).
Proof.
  intros Hmax Hcase Hrest. destruct (dec_N_spec n) as (Hd & Hv & Hne).
  assert (Hspan : span (is_digit 10) (dec_N n ++ rest) = (dec_N n, rest)).
  { clear Hv Hne. induction Hd as [|c s Hc _ IH]; cbn.
    - destruct rest as [|c rest]; [done|]. cbn. by rewrite is_digit_10, Hrest.
    - by rewrite is_digit_10, Hc, IH. }
  unfold read_number. rewrite Hspan, number_10, Hv by done.
  rewrite (bool_decide_eq_false_2 (dec_N n = [])), (proj2 (N.ltb_ge _ _)) by done.
  destruct Hcase as [[-> ->]|[-> [Hl Hz]%octet_digits]]; [done|].
  by rewrite Hz, andb_false_r, (proj2 (Nat.ltb_ge _ _)).
Qed.

Lemma read_dotted octets i rest :
  Forall (λ o, (o <= 255)%N) octets → octets ≠ [] →
  (∀ c, head rest = Some c → is_ascii_digit c = false) →
  read_octets (length octets) i
    ((if i is O then [] else [46%N]) ++ ipv4_display octets ++ rest) = Some (octets, rest).
Proof.
  intros Ho Hne Hrest. revert i. induction Ho as [|o octets Hle Ho IH]; intros i; [done|].
  cbn [length read_octets].
  assert (Hsep : ∀ (A : Type) (p : P A) t,
    read_separator 46 i p ((if i is O then [] else [46%N]) ++ t) = p t) by (by destruct i).
  unfold mbind at 1, P_bind at 1.
  destruct octets as [|o' octets].
  - unfold ipv4_display. cbn [fmap list_fmap join]. rewrite Hsep.
    rewrite read_number_dec by (done || by right). done.
  - assert (ipv4_display (o :: o' :: octets) = dec_N o ++ [46%N] ++ ipv4_display (o' :: octets)) as ->
      by done.
    rewrite <- !app_assoc, Hsep, read_number_dec; [|done|by right|by intros c [= <-]].
    cbn [mbind option_bind]. unfold mbind at 1, P_bind at 1.
    rewrite (IH ltac:(done) (S i)). done.
Qed.

(** The address of a listener on a dotted host is the address that was written. *)
Lemma parse_socket_v4 octets p :
  length octets = 4%nat → Forall (λ o, (o <= 255)%N) octets → (p <= 65535)%N →
  parse_socket_addr (socket_v4_display octets p) = Ok (V4 octets p).
Proof.
  intros Hl Ho Hp. unfold parse_socket_addr, read_socket_addr_v4, socket_v4_display, read_ipv4_addr.
  unfold mbind at 1, P_bind at 1.
  pose proof (read_dotted octets 0 (lit ":" ++ dec_N p) Ho) as Hd. rewrite Hl in Hd.
  cbn [app] in Hd. rewrite Hd; [|by destruct octets|by intros c [= <-]].
  cbn [mbind option_bind]. unfold read_port, mbind, P_bind.
  change (read_given_char 58 (lit ":" ++ dec_N p)) with (Some ((), dec_N p)).
  pose proof (read_number_dec p None true 65535 []) as Hn. rewrite app_nil_r in Hn.
  cbn [mbind option_bind]. by rewrite Hn by (done || by left).
Qed.

(** An IPv6 host needs brackets. *)
Example bare_ipv6_is_refused :
  parse_socket_addr (lit "fd7a::1:8080") = Err (lit "invalid socket address syntax") ∧
  parse_socket_addr (lit "[fd7a::1]:8080") = Ok (V6 [64890; 0; 0; 0; 0; 0; 0; 1]%N 0 8080).
Proof. by vm_compute. Qed.
Example embedded_ipv4_is_read :
  parse_socket_addr (lit "[::ffff:1.2.3.4]:080") =
    Ok (V6 [0; 0; 0; 0; 0; 65535; 258; 772]%N 0 80) ∧
  parse_socket_addr (lit "01.2.3.4:80") = Err (lit "invalid socket address syntax").
Proof. by vm_compute. Qed.
