(* ===== verification/Config.v ===== *)
(** * Start-up decisions ([headlines-server/src/config.rs], [cli.rs], [tailscale.rs] and the
    helpers of [main.rs])

    The layered configuration, the addresses that are bound, and what the configuration
    chooses: bootstrap modes, algorithms, time source, gateway target. *)

From S2P Require Import Prelude Libs Instances Tso Errors TimeSource Nonce Strategy Content Rpc ReaderServices EventService Net.

(** ** The configuration *)

Record ServerConfig := mkServerConfig {
  cfg_grpc_host : str;
  cfg_grpc_port : Z;
  cfg_rest_host : str;
  cfg_rest_port : Z;
  rest_gateway_target : str;
}.
Record DatabaseConfig := { db_url : str; db_max_connections : Z }.
Record AuthBootstrapConfig := { user_registration : str; account_registration : str }.
Record AuthTimeConfig := { time_source : str; horizon_seconds : Z }.
Record AuthConfig := {
  auth_bootstrap : AuthBootstrapConfig;
  auth_time : AuthTimeConfig;
  algorithms_enabled : list str;
}.
Record ObservabilityConfig := {
  log_level : str; log_format : str; otlp_endpoint : str; service_name : str }.
Record Config := mkConfig {
  cfg_server : ServerConfig;
  cfg_database : DatabaseConfig;
  cfg_auth : AuthConfig;
  articles_content_max_bytes : Z;
  feeds_replace_max_items : Z;
  events_batch_max_items : Z;
  cfg_observability : ObservabilityConfig;
}.

Definition DATABASE_URL_REQUIRED_PLACEHOLDER : str :=
  lit "REQUIRED: set HEADLINES_DATABASE__URL or [database].url in config.toml".
(** [Config::default] *)
Definition default_server : ServerConfig :=
  mkServerConfig (lit "0.0.0.0") 50051 (lit "0.0.0.0") 8080 (lit "in_process").
Definition default_config : Config := mkConfig default_server
  {| db_url := DATABASE_URL_REQUIRED_PLACEHOLDER; db_max_connections := 16 |}
  {| auth_bootstrap := {| user_registration := lit "open";
                          account_registration := lit "system_only" |};
     auth_time := {| time_source := lit "in_process_tso"; horizon_seconds := 30 |};
     algorithms_enabled := [lit "ed25519"] |}
  DEFAULT_CONTENT_MAX_BYTES DEFAULT_FEEDS_REPLACE_MAX_ITEMS DEFAULT_EVENTS_BATCH_MAX_ITEMS
  {| log_level := lit "info"; log_format := lit "json";
     otlp_endpoint := lit "http://otel-collector.internal:4317";
     service_name := lit "headlines" |}.

(** ** The command line *)

Inductive DemoCmd : Type :=
  | Seed (reset : bool) (path : str) (skip_articles : bool) (rng_seed : Z) (grpc_endpoint : option str)
  | CurlExamples (path base_url : str)
  | InitKeys (path : str).
Record Cli := {
  cli_config : option str;
  cli_grpc_host : option str;
  cli_grpc_port : option Z;
  cli_rest_host : option str;
  cli_rest_port : option Z;
  skip_migrations : bool;
  cli_command : option DemoCmd;
}.

Record CliServerOverrides := {
  ov_grpc_host : option str;
  ov_grpc_port : option Z;
  ov_rest_host : option str;
  ov_rest_port : option Z;
}.
(** [build_cli_overrides] *)
Definition build_cli_overrides (cli : Cli) : option CliServerOverrides :=
  if bool_decide (is_Some (cli_grpc_host cli)) || bool_decide (is_Some (cli_grpc_port cli)) ||
     bool_decide (is_Some (cli_rest_host cli)) || bool_decide (is_Some (cli_rest_port cli))
  then Some {| ov_grpc_host := cli_grpc_host cli; ov_grpc_port := cli_grpc_port cli;
               ov_rest_host := cli_rest_host cli; ov_rest_port := cli_rest_port cli |}
  else None.

(** [figment]: a stack of providers, and what they amount to.  Its documentation: of two
    values for a key the later provider's wins, and keys a provider lacks are untouched. *)
Class FigmentLib := {
  Figment : Type;
  serialized_defaults : Config → Figment;
  merge_toml : str → Figment → Figment;
  merge_env : str → str → Figment → Figment;
  merge_overrides : CliServerOverrides → Figment → Figment;
  extract : Figment → result str Config;
}.
Definition override_server (o : CliServerOverrides) (c : Config) : Config :=
  let s := cfg_server c in
  mkConfig
    (mkServerConfig (default (cfg_grpc_host s) (ov_grpc_host o))
       (default (cfg_grpc_port s) (ov_grpc_port o)) (default (cfg_rest_host s) (ov_rest_host o))
       (default (cfg_rest_port s) (ov_rest_port o)) (rest_gateway_target s))
    (cfg_database c) (cfg_auth c) (articles_content_max_bytes c) (feeds_replace_max_items c)
    (events_batch_max_items c) (cfg_observability c).
Class FigmentLaws `{FigmentLib} : Prop := {
  extract_defaults c : extract (serialized_defaults c) = Ok c;
  extract_overrides o f c : extract f = Ok c → extract (merge_overrides o f) = Ok (override_server o c);
  extract_overridden o f c : extract (merge_overrides o f) = Ok c → override_server o c = c;
}.

(** [validate_required_fields] *)
Definition database_url_required : str :=
  lit "database.url is required; set [database].url in config.toml or HEADLINES_DATABASE__URL env var".
Definition validate_required_fields (config : Config) : result str () :=
  let url := trim (db_url (cfg_database config)) in
  if bool_decide (url = []) || str_eqb url DATABASE_URL_REQUIRED_PLACEHOLDER
  then Err database_url_required else Ok ().

(** [Config::load] *)
Definition layers `{FigmentLib} (cli : Cli) : Figment :=
  let figment := serialized_defaults default_config in
  let figment := match cli_config cli with
                 | Some path => merge_toml path figment
                 | None => figment
                 end in
  let figment := merge_env (lit "HEADLINES_") (lit "__") figment in
  match build_cli_overrides cli with
  | Some o => merge_overrides o figment
  | None => figment
  end.
Definition load `{FigmentLib} (cli : Cli) : result str Config :=
  config ← map_err (λ _, lit "decode merged config") (extract (layers cli));
  _ ← validate_required_fields config;
  Ok config.

(** ** Addresses *)

Inductive BindSource : Type := FromTailscale | FromConfig.
Record BindAddrs := {
  grpc_addr : SocketAddr;
  rest_addr : SocketAddr;
  bind_grpc_host : str;
  bind_rest_host : str;
  bind_source : BindSource;
}.
(** [resolve_bind_from] *)
Definition bind_addr (surface : string) (host : str) (port : Z) : result str SocketAddr :=
  let addr := host ++ lit ":" ++ dec_Z port in
  map_err (λ e, lit "invalid " ++ lit surface ++ lit " bind address " ++ addr ++ lit ": " ++ e)
    (parse_socket_addr addr).
Definition resolve_bind_from (server : ServerConfig) (tailscale_ip : option str) :
    result str BindAddrs :=
  let '(grpc_host, rest_host, source) :=
    match trim <$> tailscale_ip with
    | Some (c :: ip) => (c :: ip, c :: ip, FromTailscale)
    | _ => (cfg_grpc_host server, cfg_rest_host server, FromConfig)
    end in
  grpc ← bind_addr "grpc" grpc_host (cfg_grpc_port server);
  rest ← bind_addr "rest" rest_host (cfg_rest_port server);
  Ok {| grpc_addr := grpc; rest_addr := rest; bind_grpc_host := grpc_host;
        bind_rest_host := rest_host; bind_source := source |}.

(** ** What the configuration chooses *)

(** [parse_bootstrap_mode] *)
Definition parse_bootstrap_mode `{UnicodeLib} (s : str) : result str BootstrapMode :=
  if str_eqb s (lit "open") then Ok Open
  else if str_eqb s (lit "system_only") then Ok SystemOnly
  else Err (lit "invalid auth.bootstrap.account_registration: " ++ str_debug s).

(** [build_algorithm_registry] *)
Fixpoint register_all `{CryptoLib} (names : list str) (reg : AlgorithmRegistry) :
    result str AlgorithmRegistry :=
  match names with
  | [] => Ok reg
  | name :: names =>
    if str_eqb name (lit "ed25519") then register_all names (registry_with Ed25519 reg)
    else Err (lit "unknown signature algorithm in [auth.algorithms].enabled: " ++ name)
  end.
Definition build_algorithm_registry `{CryptoLib} (config : Config) : result str AlgorithmRegistry :=
  if bool_decide (algorithms_enabled (cfg_auth config) = []) then
    Err (lit "[auth.algorithms].enabled must contain at least one algorithm")
  else register_all (algorithms_enabled (cfg_auth config)) registry_new.

(** [TimeSourceArc]: the word of the running oracle, or the horizon of the dev clock. *)
Inductive TimeSourceArc : Type :=
  | InProcessTsoArc (config : InProcessTsoConfig) (last : Z)
  | LocalClockArc (horizon_ms : Z).
(** [now] and [validate], from the wall reading. *)
Definition arc_now (wall_ms : Z) (t : TimeSourceArc) : result TimeError Tso * TimeSourceArc :=
  match t with
  | InProcessTsoArc config last =>
    let (r, last) := issue wall_ms last in (r, InProcessTsoArc config last)
  | LocalClockArc _ => (local_now wall_ms, t)
  end.
#[export] Instance arc_validate : TimeSource (TimeSourceArc * Z) := λ t ts,
  match t.1 with
  | InProcessTsoArc config last => validate_sync t.2 last (cfg_horizon_ms config) ts
  | LocalClockArc horizon_ms => local_validate t.2 horizon_ms ts
  end.

(** [saturating_mul] on [u64]. *)
Definition sat_mul (a b : Z) : Z := Z.min (a * b) u64_max.
(** [build_time_source]; [stored] is what the high-water store answers, [clock] the readings
    of the wall clock; [None] when [fuel] readings were not enough. *)
Definition build_time_source `{UnicodeLib} (fuel : nat) (clock : nat → Z) (stored : result str Z)
    (config : Config) : option (result str TimeSourceArc) :=
  let source := time_source (auth_time (cfg_auth config)) in
  if str_eqb source (lit "in_process_tso") then
    let cfg := {| cfg_horizon_ms := sat_mul (horizon_seconds (auth_time (cfg_auth config))) 1000;
                  flush_interval_ms := 1000 |} in
    match stored with
    | Err _ => Some (Err (lit "init InProcessTso"))
    | Ok stored => (λ last, Ok (InProcessTsoArc cfg last)) <$> new_with_clock fuel clock stored cfg
    end
  else if str_eqb source (lit "local_clock") then Some (Ok (LocalClockArc 30000))
  else Some (Err (lit "invalid auth.time.source: " ++ str_debug source)).

(** The target the REST gateway dials. *)
Definition rest_endpoint (config : Config) (trusted_addr : str) : str :=
  let target := rest_gateway_target (cfg_server config) in
  if str_eqb target (lit "in_process") then lit "http://" ++ trusted_addr
  else if starts_with (lit "http://") target || starts_with (lit "https://") target then target
  else lit "http://" ++ target.

(** ** [main], up to the listeners *)

Record Booted `{CryptoLib, LruLib NonceKey Tso} := {
  bt_bind : BindAddrs;
  bt_time_source : TimeSourceArc;
  bt_nonce_store : NonceStore;
  bt_algos : AlgorithmRegistry;
  bt_account_bootstrap : BootstrapMode;
  bt_user_bootstrap : BootstrapMode;
}.

Section boot.
Context `{CryptoLib, UnicodeLib, LruLib NonceKey Tso}.

(** What [main] builds from the configuration, in its order; the database connection and
    the migrations lie between the addresses and the time source. *)
Definition boot (fuel : nat) (clock : nat → Z) (stored : result str Z)
    (tailscale_ip : option str) (config : Config) : option (result str Booted) :=
  match resolve_bind_from (cfg_server config) tailscale_ip with
  | Err e => Some (Err e)
  | Ok bind =>
    time_source ← build_time_source fuel clock stored config;
    nonce_store ← nonce_store_new;
    Some (
      time_source ← time_source;
      algos ← build_algorithm_registry config;
      let bootstrap := auth_bootstrap (cfg_auth config) in
      account_bootstrap ← parse_bootstrap_mode (account_registration bootstrap);
      user_bootstrap ← parse_bootstrap_mode (user_registration bootstrap);
      Ok {| bt_bind := bind; bt_time_source := time_source; bt_nonce_store := nonce_store;
            bt_algos := algos; bt_account_bootstrap := account_bootstrap;
            bt_user_bootstrap := user_bootstrap |})
  end.
End boot.

(** ** What start-up guarantees *)

Section configuration.
Context `{FigmentLaws}.

(** A flag beats the environment and the file, and no server starts without a database:
    whatever the layers below say, a loaded configuration has the hosts and ports of the
    command line, and a URL that is neither blank nor the placeholder. *)
Theorem loaded_config cli c :
  load cli = Ok c →
  (∀ h, cli_grpc_host cli = Some h → cfg_grpc_host (cfg_server c) = h) ∧
  (∀ p, cli_grpc_port cli = Some p → cfg_grpc_port (cfg_server c) = p) ∧
  (∀ h, cli_rest_host cli = Some h → cfg_rest_host (cfg_server c) = h) ∧
  (∀ p, cli_rest_port cli = Some p → cfg_rest_port (cfg_server c) = p) ∧
  trim (db_url (cfg_database c)) ≠ [] ∧
  trim (db_url (cfg_database c)) ≠ DATABASE_URL_REQUIRED_PLACEHOLDER.
Proof.
  unfold load. destruct (extract (layers cli)) as [c'|e] eqn:Hx; [|done]. cbn [map_err mbind result_bind].
  unfold validate_required_fields.
  destruct (bool_decide_reflect (trim (db_url (cfg_database c')) = [])); [done|].
  destruct (str_eqb _ _) eqn:Hp; [done|]. cbn [orb mbind result_bind]. intros [= <-].
  assert (Ho : match build_cli_overrides cli with
               | Some o => override_server o c' = c'
               | None => True
               end).
  { unfold layers in Hx. destruct (build_cli_overrides cli); [|done]. by eapply extract_overridden. }
  unfold build_cli_overrides in Ho. apply str_eqb_neq in Hp.
  split_and!; [intros h Hc..|done|done]; rewrite Hc in Ho; rewrite ?bool_decide_eq_true_2 in Ho by done;
    rewrite ?orb_true_r in Ho; cbn [orb] in Ho; by rewrite <- Ho.
Qed.
End configuration.

Section booted.
Context `{CryptoLib, UnicodeLib, LruLib NonceKey Tso}.

Lemma register_all_spec names reg :
  Forall (λ n, n = lit "ed25519") names → names ≠ [] →
  register_all names reg = Ok (<[lit "ed25519" := Ed25519]> reg).
Proof.
  intros Hn. revert reg. induction Hn as [|n names -> Hn IH]; intros reg Hne; [done|].
  cbn [register_all]. change (str_eqb (lit "ed25519") (lit "ed25519")) with true. cbv iota.
  destruct names as [|n' names]; [done|]. rewrite IH by done. unfold registry_with. change (alg_name Ed25519) with (lit "ed25519").
  f_equal. apply (insert_insert_eq (M := gmap str)).
Qed.
Lemma register_all_ok names reg reg' :
  register_all names reg = Ok reg' → Forall (λ n, n = lit "ed25519") names.
Proof.
  revert reg; induction names as [|n names IH]; intros reg; [done|]. cbn [register_all].
  destruct (str_eqb n (lit "ed25519")) eqn:Hn; [|done]. apply str_eqb_eq in Hn as ->.
  intros Hr. constructor; [done|]. by eapply IH.
Qed.
Lemma registry_ok config reg :
  build_algorithm_registry config = Ok reg ↔
  algorithms_enabled (cfg_auth config) ≠ [] ∧
  Forall (λ n, n = lit "ed25519") (algorithms_enabled (cfg_auth config)) ∧
  reg = {[ lit "ed25519" := Ed25519 ]}.
Proof.
  unfold build_algorithm_registry.
  destruct (bool_decide_reflect (algorithms_enabled (cfg_auth config) = [])) as [He|He].
  { split; [done|]. by intros [? _]. }
  split.
  - intros Hr. pose proof (register_all_ok _ _ _ Hr) as Hf. split_and!; [done..|].
    rewrite register_all_spec in Hr by done. by injection Hr as <-.
  - intros (_ & Hf & ->). by rewrite register_all_spec.
Qed.

Definition mode_name (m : BootstrapMode) : str :=
  match m with Open => lit "open" | SystemOnly => lit "system_only" end.
Lemma parse_bootstrap_mode_ok s m : parse_bootstrap_mode s = Ok m ↔ s = mode_name m.
Proof.
  unfold parse_bootstrap_mode. destruct (str_eqb s (lit "open")) eqn:Ho.
  { apply str_eqb_eq in Ho as ->. split; [by intros [= <-]|by destruct m]. }
  destruct (str_eqb s (lit "system_only")) eqn:Hs.
  { apply str_eqb_eq in Hs as ->. split; [by intros [= <-]|by destruct m]. }
  apply str_eqb_neq in Ho, Hs. split; [done|]. by destruct m.
Qed.

(** Start-up decides everything up front: it succeeds exactly when the addresses parse, the
    time source is known and its store answers, the list of algorithms has nothing but
    [ed25519] in it and something, and both modes are spelt right; what is then running has
    exactly the algorithm, the default nonce store and the modes that were asked for. *)
Theorem boot_spec fuel clock stored tailscale_ip config b :
  boot fuel clock stored tailscale_ip config = Some (Ok b) ↔
  resolve_bind_from (cfg_server config) tailscale_ip = Ok (bt_bind b) ∧
  build_time_source fuel clock stored config = Some (Ok (bt_time_source b)) ∧
  nonce_store_new = Some (bt_nonce_store b) ∧
  algorithms_enabled (cfg_auth config) ≠ [] ∧
  Forall (λ n, n = lit "ed25519") (algorithms_enabled (cfg_auth config)) ∧
  bt_algos b = {[ lit "ed25519" := Ed25519 ]} ∧
  account_registration (auth_bootstrap (cfg_auth config)) = mode_name (bt_account_bootstrap b) ∧
  user_registration (auth_bootstrap (cfg_auth config)) = mode_name (bt_user_bootstrap b).
Proof.
  unfold boot. destruct (resolve_bind_from _ _) as [bind|e]; [|split; [done|by intros [? _]]].
  destruct (build_time_source _ _ _ _) as [[ts|e]|]; cbn [mbind option_bind];
    [| |split; [done|by intros (_ & ? & _)]].
  2:{ destruct nonce_store_new; (split; [done|by intros (_ & ? & _)]). }
  destruct nonce_store_new as [store|]; cbn [mbind option_bind result_bind];
    [|split; [done|by intros (_ & _ & ? & _)]].
  split.
  - intros Hb. destruct (build_algorithm_registry config) as [algos|e] eqn:Ha; [|done].
    apply registry_ok in Ha as (? & ? & ->). cbn [mbind result_bind] in Hb.
    destruct (parse_bootstrap_mode (account_registration _)) as [ma|] eqn:Hma; [|done].
    destruct (parse_bootstrap_mode (user_registration _)) as [mu|] eqn:Hmu; [|done].
    apply parse_bootstrap_mode_ok in Hma, Hmu. cbn in Hb. simplify_eq. by split_and!.
  - intros (Hbind & Hts & Hst & Hne & Hall & Halg & Hma & Hmu).
    destruct b as [bb bts bst ba bma bmu]. cbn in *. simplify_eq.
    rewrite (proj2 (registry_ok config _)) by done. cbn [mbind result_bind].
    apply parse_bootstrap_mode_ok in Hma, Hmu. by rewrite Hma, Hmu.
Qed.

Lemma boot_horizons fuel clock stored tailscale_ip config b tso last :
  boot fuel clock stored tailscale_ip config = Some (Ok b) →
  bt_time_source b = InProcessTsoArc tso last →
  horizon_seconds (auth_time (cfg_auth config)) <= 30 →
  ns_horizon_ms (bt_nonce_store b) = 30000 ∧
  cfg_horizon_ms tso = horizon_seconds (auth_time (cfg_auth config)) * 1000.
Proof.
  intros (_ & Hts & Hst & _)%boot_spec Harc Hh.
  assert (Hhor : ns_horizon_ms (bt_nonce_store b) = 30000) by (by injection Hst as <-).
  split; [exact Hhor|]. rewrite Harc in Hts. unfold build_time_source in Hts.
  destruct (str_eqb _ (lit "in_process_tso")).
  - destruct stored; [|done]. destruct (new_with_clock _ _ _ _); [|done]. cbn in Hts.
    injection Hts as <- _. cbn. unfold sat_mul, u64_max. lia.
  - by destruct (str_eqb _ (lit "local_clock")).
Qed.
(** The horizons of replay protection are a matter of configuration: a server that starts
    with the oracle and a horizon of at most 30 s accepts no signed request twice as long as
    its records are prompt and its clock never behind its highest by more than what is left of
    the 30 s, in every interleaving of validations, records and clock movements. *)
Theorem booted_server_refuses_replays `{!LruLaws NonceKey Tso}
    fuel clock stored tailscale_ip config b tso last wall s :
  boot fuel clock stored tailscale_ip config = Some (Ok b) →
  bt_time_source b = InProcessTsoArc tso last →
  horizon_seconds (auth_time (cfg_auth config)) <= 30 →
  rtc (pipeline_step (cfg_horizon_ms tso)) (pipeline_init wall last (bt_nonce_store b)) s →
  (∀ a, a ∈ pl_accepted s → ∃ now, sat_sub now (physical_ms (ac_entry a).2) <= cfg_horizon_ms tso ∧
     ac_high a - now <= 30000 - horizon_seconds (auth_time (cfg_auth config)) * 1000) →
  NoDup (ac_entry <$> pl_accepted s).
Proof.
  intros Hboot Harc Hh Hr Hprompt. destruct (boot_horizons _ _ _ _ _ _ _ _ Hboot Harc Hh) as [Hns Hcfg].
  apply (accepted_once_NoDup 30000).
  - rewrite <- Hns. eapply accepted_distinct, Hr. lia.
  - apply Forall_forall. intros a (now & Hp & Hs)%Hprompt.
    apply (prompt_in_time (cfg_horizon_ms tso) 30000 now); [done|lia].
Qed.

(** *** The addresses *)

(** [TAILSCALE_IP] decides both hosts when it is set to something; a dotted host is bound
    as it was written, with the configured ports. *)
Theorem bind_follows_tailscale server ip octets :
  length octets = 4%nat → Forall (λ o, (o <= 255)%N) octets →
  0 <= cfg_grpc_port server <= 65535 → 0 <= cfg_rest_port server <= 65535 →
  trim ip = ipv4_display octets →
  resolve_bind_from server (Some ip) =
  Ok {| grpc_addr := V4 octets (Z.to_N (cfg_grpc_port server));
        rest_addr := V4 octets (Z.to_N (cfg_rest_port server));
        bind_grpc_host := trim ip; bind_rest_host := trim ip; bind_source := FromTailscale |}.
Proof.
  intros Hl Ho Hg Hr Hip. unfold resolve_bind_from. cbn [fmap option_fmap option_map].
  assert (Hne : ∃ c t, trim ip = c :: t).
  { destruct octets as [|o [|o' octets]]; [done..|]. rewrite Hip. unfold ipv4_display.
    cbn [fmap list_fmap join]. destruct (dec_N_spec o) as (_ & _ & Hne).
    destruct (dec_N o); [done|]. by eexists _, _. }
  destruct Hne as (c & t & Hct). rewrite Hct. rewrite <- Hct, Hip. unfold bind_addr.
  assert (Hport : ∀ p, 0 <= p → dec_Z p = dec_N (Z.to_N p)).
  { intros p Hp. unfold dec_Z. by rewrite (proj2 (Z.ltb_ge p 0)). }
  rewrite !Hport by lia.
  pose proof (parse_socket_v4 octets (Z.to_N (cfg_grpc_port server)) Hl Ho ltac:(lia)) as Hpg.
  pose proof (parse_socket_v4 octets (Z.to_N (cfg_rest_port server)) Hl Ho ltac:(lia)) as Hpr.
  unfold socket_v4_display in Hpg, Hpr. by rewrite Hpg, Hpr.
Qed.
End booted.

(** ** The dev clock and replays

    [LocalClock] accepts timestamps up to its horizon ahead of the wall clock, while the
    nonce store forgets an entry when a record is more than its horizon newer. *)
Section local_clock.
Context `{LruLib NonceKey Tso}.

(** Requests as they arrive: the wall reading, the key and nonce, the timestamp; each is
    validated and then recorded. *)
Fixpoint local_accepts (horizon_ms : Z) (l : list (Z * (NonceKey * Tso))) (store : NonceStore) :
    list bool :=
  match l with
  | [] => []
  | (wall, (key, ts)) :: l =>
    match validate (LocalClockArc horizon_ms, wall) ts with
    | Err _ => false :: local_accepts horizon_ms l store
    | Ok _ =>
      let (r, store) := record store (nk_key_id key) (nk_nonce key) ts in
      is_ok r :: local_accepts horizon_ms l store
    end
  end.
End local_clock.

(** ** Examples *)

Section witnesses.
#[local] Existing Instances toy_crypto toy_unicode toy_cache.

(** Layers that only have the defaults and the command line. *)
Definition toy_figment : FigmentLib := {|
  Figment := Config;
  serialized_defaults c := c;
  merge_toml _ c :=
    mkConfig (cfg_server c) {| db_url := lit "postgres://db"; db_max_connections := 16 |}
      (cfg_auth c) (articles_content_max_bytes c) (feeds_replace_max_items c)
      (events_batch_max_items c) (cfg_observability c);
  merge_env _ _ c := c;
  merge_overrides := override_server;
  extract := Ok;
|}.
#[local] Existing Instance toy_figment.
Lemma toy_figment_laws : FigmentLaws.
Proof.
  split; cbn; [done|by intros o f c [= ->]|]. intros o f c [= <-].
  destruct o as [[] [] [] []]; done.
Qed.
Definition toy_cli (config : option str) : Cli :=
  {| cli_config := config; cli_grpc_host := None; cli_grpc_port := Some 6000;
     cli_rest_host := None; cli_rest_port := None; skip_migrations := false; cli_command := None |}.

Lemma loaded_config_witness :
  load (toy_cli None) = Err database_url_required ∧
  ∃ c, load (toy_cli (Some (lit "c.toml"))) = Ok c ∧ cfg_grpc_port (cfg_server c) = 6000.
Proof.
  split; [vm_compute; reflexivity|].
  assert (∃ c, load (toy_cli (Some (lit "c.toml"))) = Ok c) as [c Hc]
    by (eexists; vm_compute; reflexivity).
  exists c. split; [exact Hc|].
  destruct (@loaded_config toy_figment toy_figment_laws _ c Hc) as (_ & Hp & _).
  by apply Hp.
Defined.

Definition toy_config : Config :=
  match load (toy_cli (Some (lit "c.toml"))) with Ok c => c | Err _ => default_config end.
Definition toy_boot := boot 1 (λ _, 1700000000000) (Ok 0) None toy_config.
Definition toy_tso : InProcessTsoConfig := {| cfg_horizon_ms := 30000; flush_interval_ms := 1000 |}.
Definition toy_booted : Booted := {|
  bt_bind := {| grpc_addr := V4 [0; 0; 0; 0]%N 6000; rest_addr := V4 [0; 0; 0; 0]%N 8080;
                bind_grpc_host := lit "0.0.0.0"; bind_rest_host := lit "0.0.0.0";
                bind_source := FromConfig |};
  bt_time_source := InProcessTsoArc toy_tso (as_u64 (from_parts 1700000000000 0));
  bt_nonce_store := default_store;
  bt_algos := {[ lit "ed25519" := Ed25519 ]};
  bt_account_bootstrap := SystemOnly;
  bt_user_bootstrap := Open;
|}.
(** The defaults and a database URL are enough to start. *)
Lemma default_configuration_boots : toy_boot = Some (Ok toy_booted).
Proof.
  apply boot_spec. split_and!; try reflexivity; [vm_compute; reflexivity..|done|].
  vm_compute. by repeat constructor.
Qed.

Lemma booted_server_refuses_replays_witness :
  NoDup (ac_entry <$> pl_accepted (run 30000
    [Time 1700000000005 0; Validate (sent 7 1700000000000); Record_ (sent 7 1700000000000);
     Validate (sent 7 1700000000000); Record_ (sent 7 1700000000000)]
    (pipeline_init 1700000000000 (as_u64 (from_parts 1700000000000 0)) default_store))).
Proof.
  eapply (@booted_server_refuses_replays _ _ toy_cache toy_cache_laws _ _ _ _ _ toy_booted toy_tso
    _ _ _ default_configuration_boots eq_refl).
  - apply Z.leb_le. vm_compute. reflexivity.
  - apply run_sound.
  - intros a Ha. exists 1700000000005. revert a Ha. apply Forall_forall, (bool_decide_unpack _).
    vm_compute. exact I.
Defined.

Lemma bind_follows_tailscale_witness :
  resolve_bind_from default_server (Some (lit " 100.64.0.7 ")) =
  Ok {| grpc_addr := V4 [100; 64; 0; 7]%N 50051; rest_addr := V4 [100; 64; 0; 7]%N 8080;
        bind_grpc_host := lit "100.64.0.7"; bind_rest_host := lit "100.64.0.7";
        bind_source := FromTailscale |}.
Proof.
  apply (bind_follows_tailscale default_server (lit " 100.64.0.7 ") [100; 64; 0; 7]%N);
    [done|by repeat constructor|done|done|by vm_compute].
Defined.

(** With the dev clock a captured request is accepted again one second after a second
    request, dated ahead, has driven it out of the nonce store. *)
Example local_clock_admits_replay :
  local_accepts 30000
    [(1000000, sent 7 1030000); (1000001, sent 7 1030000);
     (1031000, sent 8 1061000); (1031000, sent 7 1030000)] default_store =
  [true; false; true; true].
Proof. by vm_compute. Qed.
End witnesses.
