(* ===== verification/Writes.v ===== *)
(** * The writes of the services ([headlines-store/src/repo])

    Every repository call that can change the database, as data; what one step of it can do
    to the tables; and that every such step keeps the invariants of every component. *)

From S2P Require Import Prelude Libs Instances Errors Db Paging Articles Drafts Follows Accounts Feeds Events.

(** ** The calls *)

Inductive Write : Type :=
  | WAccountCreate (new : NewAccount)
  | WAccountUpdate (id : Uuid) (update : AccountUpdate)
  | WAccountDelete (id : Uuid)
  | WUserCreate (new : NewUser)
  | WUserUpdate (id : Uuid) (update : UserUpdate)
  | WUserDelete (id : Uuid)
  | WKeyCreate (new : NewKey)
  | WKeyRevoke (kind : KeyKind) (parent_id key_id : Uuid)
  | WPublish (new : NewArticle)
  | WEdit (id : Uuid) (edit : ArticleEdit)
  | WTombstone (id : Uuid) (reason : option str)
  | WRedact (id : Uuid) (version : Z) (reason : str)
  | WDraftCreate (new : NewDraft)
  | WDraftUpdate (id : Uuid) (update : DraftUpdate)
  | WDraftDelete (id : Uuid)
  | WDraftPublish (id : Uuid)
  | WFollow (user_id account_id : Uuid)
  | WUnfollow (user_id account_id : Uuid)
  | WReplaceFeed (user_id : Uuid) (article_ids : list Uuid)
  | WRecordEvents (records : list EventRecord).

(** ** One step of a write *)

(** A column update of a draft. *)
Definition draft_write (f : DraftRow → DraftRow) : Prop :=
  ∀ r, dr_id (f r) = dr_id r ∧ dr_account_id (f r) = dr_account_id r.

Inductive effect `{DieselLib} : Write → Db → Db → Prop :=
  | eff_account_create new now d :
      accounts d !! nac_id new = None →
      effect (WAccountCreate new) d
        (set_accounts (<[nac_id new := new_account_row new now]> (accounts d)) d)
  | eff_account_update id u f d :
      account_write f → effect (WAccountUpdate id u) d (update_account f id d)
  | eff_account_delete id now d :
      effect (WAccountDelete id) d (update_account (deleted_account now) id d)
  | eff_user_create new now d :
      users d !! nus_id new = None →
      effect (WUserCreate new) d (set_users (<[nus_id new := new_user_row new now]> (users d)) d)
  | eff_user_update id u f d :
      user_write f → effect (WUserUpdate id u) d (update_user f id d)
  | eff_user_delete id now d :
      effect (WUserDelete id) d (update_user (deleted_user now) id d)
  | eff_key_create new now d :
      nk_kind new ≠ KSystem → keys_of (nk_kind new) d !! (nk_parent_id new, nk_key_id new) = None →
      effect (WKeyCreate new) d
        (set_keys_of (nk_kind new) (<[(nk_parent_id new, nk_key_id new) := new_key_row new now]>
                                      (keys_of (nk_kind new) d)) d)
  | eff_key_revoke kind p k now d :
      kind ≠ KSystem → effect (WKeyRevoke kind p k) d (update_key kind (revoked_key now) p k d)
  | eff_publish new now d :
      articles d !! na_id new = None → effect (WPublish new) d (published new now d)
  | eff_edit id edit now d a l cur :
      articles d !! id = Some a → art_state a ≠ lit "tombstone" →
      articles_live d !! id = Some l →
      article_versions d !! (id, live_current_version l) = Some cur →
      1 <= as_i32 (live_current_version l + 1) →
      article_versions d !! (id, as_i32 (live_current_version l + 1)) = None →
      effect (WEdit id edit) d
        (edited id (edited_version edit id (as_i32 (live_current_version l + 1)) cur now) now d)
  | eff_tombstone id reason now d a :
      articles d !! id = Some a → art_state a ≠ lit "tombstone" →
      effect (WTombstone id reason) d (tombstoned id reason now d)
  | eff_redact id v reason now d a row :
      articles d !! id = Some a → article_versions d !! (id, v) = Some row →
      ver_redacted_at row = None →
      effect (WRedact id v reason) d
        (redacted id v reason now
           (str_eqb (art_state a) (lit "live")
            && bool_decide (live_current_version <$> articles_live d !! id = Some v)) d)
  | eff_draft_create new now d :
      drafts d !! nd_id new = None →
      effect (WDraftCreate new) d (set_drafts (<[nd_id new := new_draft_row new now]> (drafts d)) d)
  | eff_draft_update id u f d : draft_write f → effect (WDraftUpdate id u) d (update_draft f id d)
  | eff_draft_delete id d : effect (WDraftDelete id) d (delete_draft id d)
  | eff_draft_publish id row now d :
      drafts d !! id = Some row → articles d !! dr_id row = None →
      effect (WDraftPublish id) d (delete_draft id (draft_published row now d))
  | eff_follow_new u a now d :
      follows d !! (u, a) = None →
      effect (WFollow u a) d (set_follows (<[(u, a) := active_row u a now]> (follows d)) d)
  | eff_follow_again u a r now d :
      follows d !! (u, a) = Some r →
      effect (WFollow u a) d (set_follows (<[(u, a) := reactivated now r]> (follows d)) d)
  | eff_unfollow u a now d : effect (WUnfollow u a) d (update_follow (deactivated now) u a d)
  | eff_replace_feed u ids t d :
      (∀ u' p, u' ≠ u → t !! (u', p) = feed_recommendation d !! (u', p)) →
      effect (WReplaceFeed u ids) d (set_feed_recommendation t d)
  | eff_record_events records rows d :
      NoDup (ev_id <$> rows) → rows_of records rows →
      (∀ r, r ∈ rows → ev_type r ∈ event_types ∧ events d !! ev_id r = None) →
      effect (WRecordEvents records) d (add_events rows d).

(** Discarding a reply. *)
Lemma preserves_void {E A} P (m : M E A) : preserves P (m;; mret ()) ↔ preserves P m.
Proof.
  split; intros Hm env w Ho Hw; specialize (Hm env w Ho Hw); unfold mbind, M_bind in *;
    by destruct (m env w) as [[?|?] ?].
Qed.

Section perform.
Context `{DieselLib, ChronoLib, Base64Lib, SerdeLib}.

(** What a predicate must allow for a write to keep it. *)
Definition allows (P : Db → Prop) (w : Write) : Prop := ∀ d d', P d → effect w d d' → P d'.

(** A call keeps what its effect keeps, whatever fails and whatever other requests that keep
    it do in between. *)
Lemma account_writes_keep P :
  (∀ new, allows P (WAccountCreate new) → preserves P (account_create new)) ∧
  (∀ id u, allows P (WAccountUpdate id u) → preserves P (account_update id u)) ∧
  (∀ id, allows P (WAccountDelete id) → preserves P (account_soft_delete id)).
Proof.
  split_and!.
  - intros new HP. unfold account_create. preserve.
    apply preserves_run_now; intros now; apply returning_preserves, insert_preserves.
    intros d Hd Hv. rewrite ?Forall_cons, Forall_nil in Hv. cbn in Hv. destruct_and? Hv.
    apply (HP d); [done|]. by apply eff_account_create, present_false.
  - intros id u HP. unfold account_update.
    assert (Hf : ∀ ctx o f, (∀ s, account_write (f s)) → preserves P (account_field ctx o f id)).
    { intros ctx [s|] f Hf; unfold account_field; [|preserve].
      apply preserves_run, execute_preserves. intros d Hd. apply (HP d); [done|]. by constructor. }
    preserve; apply Hf; by constructor.
  - intros id HP. unfold account_soft_delete. preserve.
    apply preserves_map_err, preserves_optional, preserves_stmt, update_returning_preserves.
    intros d Hd. apply (HP d); [done|]. by constructor.
Qed.
Lemma user_writes_keep P :
  (∀ new, allows P (WUserCreate new) → preserves P (user_create new)) ∧
  (∀ id u, allows P (WUserUpdate id u) → preserves P (user_update id u)) ∧
  (∀ id, allows P (WUserDelete id) → preserves P (user_soft_delete id)).
Proof.
  split_and!.
  - intros new HP. unfold user_create. preserve.
    apply preserves_run_now; intros now; apply returning_preserves, insert_preserves.
    intros d Hd Hv. rewrite ?Forall_cons, Forall_nil in Hv. cbn in Hv. destruct_and? Hv.
    apply (HP d); [done|]. by apply eff_user_create, present_false.
  - intros id u HP. unfold user_update. preserve.
    apply preserves_run, execute_preserves. intros d Hd. apply (HP d); [done|]. by repeat constructor.
  - intros id HP. unfold user_soft_delete. preserve.
    apply preserves_map_err, preserves_optional, preserves_stmt, update_returning_preserves.
    intros d Hd. apply (HP d); [done|]. by constructor.
Qed.
Lemma key_writes_keep P :
  (∀ new, allows P (WKeyCreate new) → preserves P (key_create new)) ∧
  (∀ kind p k, allows P (WKeyRevoke kind p k) → preserves P (key_revoke kind p k)).
Proof.
  split.
  - intros new HP. unfold key_create. destruct (nk_kind new) eqn:Hk; preserve;
      apply preserves_run_now; intros now; apply returning_preserves, insert_preserves;
      intros d Hd Hv; rewrite ?Forall_cons, Forall_nil in Hv; cbn in Hv; destruct_and? Hv;
      pose proof (eff_key_create new now d) as Heff; rewrite Hk in Heff;
      apply (HP d); [done|by apply Heff; [|apply present_false]|done|by apply Heff; [|apply present_false]].
  - intros kind p k HP. unfold key_revoke, key_revoke_in. destruct kind; preserve;
      apply preserves_run, update_returning_preserves; intros d Hd; (apply (HP d); [done|]);
      by constructor.
Qed.
Lemma article_writes_keep P :
  (∀ new, allows P (WPublish new) → preserves P (article_publish new)) ∧
  (∀ id e, allows P (WEdit id e) → preserves P (article_edit id e)) ∧
  (∀ id r, allows P (WTombstone id r) → preserves P (article_tombstone id r)) ∧
  (∀ id v r, allows P (WRedact id v r) → preserves P (article_redact_version id v r)).
Proof.
  pose proof (article_get_preserves P) as Hget.
  split_and!; intros * HP; unfold article_publish, article_edit, article_tombstone, article_redact_version;
    preserve; try apply Hget; apply preserves_tx; intros env w [] w' Hw Hr.
  - apply publish_tx_ok in Hr as [? ->]. eapply HP; [done|]. by constructor.
  - apply edit_tx_ok in Hr as (x & l & cur & ? & ? & ? & ? & ? & ? & ->).
    eapply HP; [done|]. by eapply eff_edit.
  - apply tombstone_tx_ok in Hr as (x & ? & ? & ->). eapply HP; [done|]. by eapply eff_tombstone.
  - apply redact_tx_ok in Hr as (x & row & ? & ? & ? & ->). eapply HP; [done|]. by eapply eff_redact.
Qed.
Lemma draft_writes_keep P :
  (∀ new, allows P (WDraftCreate new) → preserves P (draft_create new)) ∧
  (∀ id u, allows P (WDraftUpdate id u) → preserves P (draft_update id u)) ∧
  (∀ id, allows P (WDraftDelete id) → preserves P (draft_delete id)) ∧
  (∀ id, allows P (WDraftPublish id) → preserves P (draft_publish id)).
Proof.
  split_and!.
  - intros new HP. unfold draft_create. preserve. apply preserves_run, returning_preserves, insert_preserves.
    intros d Hd Hv. rewrite ?Forall_cons, Forall_nil in Hv. cbn in Hv. destruct_and? Hv.
    apply (HP d); [done|]. by apply eff_draft_create, present_false.
  - intros id u HP. unfold draft_update. preserve. apply preserves_tx_stepwise. unfold draft_update_tx.
    assert (Hf : ∀ A ctx (o : option A) f, (∀ x, draft_write (f x)) → preserves P (update_field ctx o f id)).
    { intros A ctx [x|] f Hf; unfold update_field; [|preserve].
      apply preserves_tx_run, execute_preserves. intros d Hd. apply (HP d); [done|]. by constructor. }
    preserve; try (by apply Hf). apply preserves_tx_run, execute_preserves. intros d Hd.
    apply (HP d); [done|]. by constructor.
  - intros id HP. unfold draft_delete. preserve. apply preserves_run, execute_count_preserves.
    intros d Hd. apply (HP d); [done|]. by constructor.
  - intros id HP. unfold draft_publish. preserve. apply preserves_tx. intros env w p w' Hw Hr.
    apply draft_publish_tx_ok in Hr as (row & Hrow & Hnone & -> & _).
    apply (HP (w_db w)); [done|]. by constructor.
Qed.
Lemma follow_writes_keep P :
  (∀ u a, allows P (WFollow u a) → preserves P (follow u a)) ∧
  (∀ u a, allows P (WUnfollow u a) → preserves P (unfollow u a)).
Proof.
  split.
  - intros u ac HP. unfold follow. preserve; (apply preserves_run; intros d Hd; unfold upsert_follow;
      destruct (follows d !! (u, ac)) as [r|] eqn:Hr; [apply (HP d); [done|by constructor]|]);
      (apply (returning_preserves P); [|done]; apply insert_preserves; intros d' Hd' Hv;
       rewrite ?Forall_cons, Forall_nil in Hv; cbn in Hv; destruct_and? Hv;
       apply (HP d'); [done|]; by apply eff_follow_new, present_false).
  - intros u ac HP. unfold unfollow. preserve. apply preserves_run, update_returning_preserves.
    intros d Hd. apply (HP d); [done|]. by constructor.
Qed.
Lemma feed_replace_keeps P u ids :
  allows P (WReplaceFeed u ids) → preserves P (feed_replace u ids).
Proof.
  intros HP. unfold feed_replace. preserve. apply preserves_tx. intros env w [] w' Hw Hr.
  unfold replace_tx, insert_feed_rows in Hr.
  apply bind_ok in Hr as (x0 & w1 & Hd%tx_execute_ok & Hr).
  assert (Hdel : ∀ u' p, u' ≠ u → filter (λ r : Uuid * Z * Uuid, r.1.1 ≠ u) (feed_recommendation (w_db w)) !! (u', p) =
                   feed_recommendation (w_db w) !! (u', p)).
  { intros u' p Hne. apply option_eq. intros x. rewrite map_lookup_filter_Some. cbn. naive_solver. }
  case_bool_decide as Hids.
  - unfold mret, M_ret in Hr. injection Hr as <-. rewrite Hd. apply (HP (w_db w)); [done|]. by constructor.
  - apply tx_insert_ok in Hr as [-> _]. rewrite Hd.
    apply (HP (w_db w)); [done|]. unfold delete_feed. cbn. apply (eff_replace_feed u ids _ (w_db w)).
    intros u' p Hne. rewrite lookup_union_r; [by apply Hdel|].
    apply not_elem_of_list_to_map_1. intros (r' & Hk & Hin)%list_elem_of_fmap.
    unfold new_feed_rows in Hin. apply elem_of_lookup_imap in Hin as (i & id & -> & _).
    cbn in Hk. congruence.
Qed.
Lemma event_writes_keep P :
  (∀ r, allows P (WRecordEvents [r]) → preserves P (event_record r)) ∧
  (∀ l, allows P (WRecordEvents l) → preserves P (event_record_batch l)).
Proof.
  split.
  - intros r HP. apply event_record_preserves. intros d rows Hd Hnd Hof Hrows.
    apply (HP d); [done|]. by constructor.
  - intros l HP. apply event_record_batch_preserves. intros d rows Hd Hnd Hof Hrows.
    apply (HP d); [done|]. by constructor.
Qed.
End perform.

(** ** Every write keeps every invariant *)

(** The invariants of the components together. *)
Record db_inv (d : Db) : Prop := {
  di_articles : family_inv d;
  di_identity : identity_inv d;
  di_follows : follows_ok d;
  di_drafts : drafts_keyed d;
  di_events : events_ok d;
}.

Lemma family_inv_frame d d' :
  articles d' = articles d → articles_live d' = articles_live d →
  articles_tombstone d' = articles_tombstone d → article_versions d' = article_versions d →
  family_inv d → family_inv d'.
Proof. intros Ha Hl Ht Hv Hinv id. apply (family_ok_frame d); congruence || done. Qed.
Lemma identity_inv_frame d d' :
  accounts d' = accounts d → users d' = users d → (∀ kind, keys_of kind d' = keys_of kind d) →
  identity_inv d → identity_inv d'.
Proof.
  intros Ha Hu Hk [? ? Hks]. split; [by rewrite Ha|by rewrite Hu|]. intros kind. rewrite Hk. apply Hks.
Qed.

(** A step changes the article family as the article repository does or leaves it. *)
Lemma effect_articles `{DieselLib} w d d' : effect w d d' → family_inv d → family_inv d'.
Proof.
  intros Heff Hinv. destruct Heff as [| | | | | |new now d _ _|kind p k now d _|new now d Hn
    |id e now d a l cur|id reason now d a|id v reason now d a row| | | |id row now d Hrow Hn| | | | |];
    try (by apply (family_inv_frame d));
    try (by apply (family_inv_frame d); first [destruct (nk_kind new)|destruct kind]).
  - eapply change_family; [done|]. apply change_publish; [apply new_rows_fresh|done].
  - eapply change_family; [done|]. by eapply change_edit.
  - eapply change_family; [done|]. by eapply change_tombstone.
  - eapply change_family; [done|]. by eapply change_redact.
  - apply (family_inv_frame (draft_published row now d)); [done..|].
    eapply change_family; [done|]. by apply change_publish; [apply draft_rows_fresh|].
Qed.
Lemma effect_identity `{DieselLib} w d d' : effect w d d' → identity_inv d → identity_inv d'.
Proof.
  intros Heff Hinv. destruct Heff as [new now d Hn|id u f d Hf|id now d|new now d Hn|id u f d Hf|id now d
    |new now d _ Hn|kind p k now d _| | |id reason now d|id v reason now d| | | | | | | | |];
    try (eapply change_identity; [exact Hinv|by repeat constructor]).
  all: try (apply (identity_inv_frame d); [try done..|exact Hinv]; by intros []).
  - apply (identity_inv_frame d); [| |intros []|exact Hinv]; by destruct (_ && _).
Qed.
Lemma effect_drafts `{DieselLib} w d d' : effect w d d' → drafts_keyed d → drafts_keyed d'.
Proof.
  intros Heff Hinv. destruct Heff as [| | | | | |new now d _ _|kind p k now d _| | | 
    |id v reason now d a row|new now d Hn|id u f d Hf|id d|id row now d| | | | |]; try exact Hinv.
  - by destruct (nk_kind new).
  - by destruct kind.
  - by destruct (_ && _).
  - unfold drafts_keyed. cbn. by apply insert_forall.
  - unfold drafts_keyed. cbn. apply alter_forall; [done|]. intros r Hr. by rewrite (proj1 (Hf r)).
  - intros i r. cbn. intros [_ Hr]%lookup_delete_Some. by apply Hinv.
  - intros i r. cbn. intros [_ Hr]%lookup_delete_Some. by apply Hinv.
Qed.
Lemma effect_follows `{DieselLib} w d d' : effect w d d' → follows_ok d → follows_ok d'.
Proof.
  intros Heff Hinv. destruct Heff as [| | | | | |new now d _ _|kind p k now d _| | | 
    |id v reason now d a row| | | | |u a now d Hn|u a r now d Hr|u a now d| |]; try exact Hinv.
  - by destruct (nk_kind new).
  - by destruct kind.
  - by destruct (_ && _).
  - by apply (follows_ok_insert d u a (Following now)).
  - destruct (Hinv u a r Hr) as [e He]. apply (follows_ok_insert d u a (Following now)); [done|].
    by destruct e; simplify_eq/=.
  - by apply deactivate_ok.
Qed.
Lemma effect_events `{DieselLib} w d d' : effect w d d' → events_ok d → events_ok d'.
Proof.
  intros Heff Hinv. destruct Heff as [| | | | | |new now d _ _|kind p k now d _| | | 
    |id v reason now d a row| | | | | | | | |records rows d Hnd Hof Hrows]; try exact Hinv.
  - by destruct (nk_kind new).
  - by destruct kind.
  - by destruct (_ && _).
  - intros id r [[Hr <-]|[_ Hr]]%add_events_lookup; [|by apply Hinv|done].
    split; [done|]. by destruct (Hrows r Hr).
Qed.
Lemma effect_inv `{DieselLib} w d d' : db_inv d → effect w d d' → db_inv d'.
Proof.
  intros [] Heff. split; [by eapply effect_articles|by eapply effect_identity|by eapply effect_follows
    |by eapply effect_drafts|by eapply effect_events].
Qed.

(** ** No write loses a row *)

(** What a row keeps saying, whatever happens to it. *)
Definition account_kept (r r' : AccountRow) : Prop :=
  acc_created_at r' = acc_created_at r ∧
  (acc_status r = lit "deleted" → acc_status r' = lit "deleted").
Definition user_kept (r r' : UserRow) : Prop :=
  usr_created_at r' = usr_created_at r ∧
  (usr_status r = lit "deleted" → usr_status r' = lit "deleted").
Definition key_kept (r r' : KeyRow) : Prop :=
  key_algo r' = key_algo r ∧ key_public_key r' = key_public_key r ∧
  (key_status r = lit "revoked" → key_status r' = lit "revoked").
Definition article_kept (r r' : ArticleRow) : Prop :=
  art_account_id r' = art_account_id r ∧ art_created_at r' = art_created_at r ∧
  (art_state r = lit "tombstone" → art_state r' = lit "tombstone").
Definition rows_kept {K A} `{Countable K} (R : A → A → Prop) (m m' : gmap K A) : Prop :=
  ∀ k r, m !! k = Some r → ∃ r', m' !! k = Some r' ∧ R r r'.

(** The rows of the tables that are never emptied. *)
Record retained (d d' : Db) : Prop := {
  re_accounts : rows_kept account_kept (accounts d) (accounts d');
  re_users : rows_kept user_kept (users d) (users d');
  re_keys kind : rows_kept key_kept (keys_of kind d) (keys_of kind d');
  re_articles : rows_kept article_kept (articles d) (articles d');
  re_versions : rows_kept (λ _ _, True) (article_versions d) (article_versions d');
  re_follows : rows_kept (λ _ _, True) (follows d) (follows d');
  re_events : rows_kept eq (events d) (events d');
}.

Section rows.
Context {K A : Type} `{Countable K} (R : A → A → Prop).

Lemma rows_kept_refl `{!Reflexive R} (m : gmap K A) : rows_kept R m m.
Proof. intros k r Hr. by exists r. Qed.
Lemma rows_kept_trans `{!Transitive R} (m1 m2 m3 : gmap K A) :
  rows_kept R m1 m2 → rows_kept R m2 m3 → rows_kept R m1 m3.
Proof.
  intros H12 H23 k r (r2 & Hr2 & ?)%H12. apply H23 in Hr2 as (r3 & ? & ?). exists r3.
  split; [done|by etrans].
Qed.
Lemma rows_kept_insert `{!Reflexive R} (m : gmap K A) k x :
  (∀ r, m !! k = Some r → R r x) → rows_kept R m (<[k := x]> m).
Proof.
  intros Hk i r Hr. destruct (decide (i = k)) as [->|Hi].
  - exists x. rewrite lookup_insert_eq. auto.
  - exists r. by rewrite lookup_insert_ne.
Qed.
Lemma rows_kept_alter `{!Reflexive R} (f : A → A) (m : gmap K A) k :
  (∀ r, R r (f r)) → rows_kept R m (alter f k m).
Proof.
  intros Hf i r Hr. destruct (decide (i = k)) as [->|Hi].
  - exists (f r). by rewrite lookup_alter_eq, Hr.
  - exists r. by rewrite lookup_alter_ne.
Qed.
End rows.
#[export] Instance account_kept_preorder : PreOrder account_kept.
Proof. split; [by intros r|]. intros r1 r2 r3 [??] [??]. split; [congruence|auto]. Qed.
#[export] Instance user_kept_preorder : PreOrder user_kept.
Proof. split; [by intros r|]. intros r1 r2 r3 [??] [??]. split; [congruence|auto]. Qed.
#[export] Instance key_kept_preorder : PreOrder key_kept.
Proof. split; [by intros r|]. intros r1 r2 r3 (?&?&?) (?&?&?). split_and!; [congruence..|auto]. Qed.
#[export] Instance article_kept_preorder : PreOrder article_kept.
Proof. split; [by intros r|]. intros r1 r2 r3 (?&?&?) (?&?&?). split_and!; [congruence..|auto]. Qed.
#[export] Instance any_preorder {A} : PreOrder (λ _ _ : A, True).
Proof. done. Qed.

#[export] Instance retained_preorder : PreOrder retained.
Proof.
  split.
  - intros d. split; intros; apply rows_kept_refl; apply _.
  - intros d1 d2 d3 [] []. split; intros; (eapply rows_kept_trans; [apply _|eauto..]).
Qed.

Create HintDb kept.
#[local] Hint Extern 1 (rows_kept _ _ _) => apply rows_kept_refl; apply _ : kept.
#[local] Hint Extern 2 (rows_kept _ _ (<[_ := _]> _)) =>
  apply rows_kept_insert; [apply _|intros; by simplify_eq] : kept.
#[local] Hint Extern 2 (rows_kept _ _ (alter _ _ _)) =>
  apply rows_kept_alter; [apply _|done] : kept.

Lemma retained_keys kind t d :
  rows_kept key_kept (keys_of kind d) t → retained d (set_keys_of kind t d).
Proof.
  intros Ht. split; try (intros kind'; rewrite keys_of_set; case_decide; subst; auto with kept);
    destruct kind; cbn; auto with kept.
Qed.
Lemma retained_events rows d :
  (∀ r, r ∈ rows → events d !! ev_id r = None) → NoDup (ev_id <$> rows) →
  retained d (add_events rows d).
Proof.
  intros Hrows Hnd. split; cbn; auto with kept. intros id r Hr. exists r. split; [|done].
  apply (add_events_lookup rows d id r); [done|]. right. split; [|done].
  intros r' Hr' <-. rewrite (Hrows r' Hr') in Hr. done.
Qed.
Lemma effect_retained `{DieselLib} w d d' : effect w d d' → retained d d'.
Proof.
  intros Heff. destruct Heff as [new now d Hn|id u f d Hf|id now d|new now d Hn|id u f d Hf|id now d
    |new now d _ Hn|kind p k now d _|new now d Hn|id e now d a l cur Ha Hst Hl Hc Hv Hn
    |id reason now d a Ha Hst|id v reason now d a row Ha Hrow Hred| | | |id row now d Hrow Hn
    |u a now d Hn|u a r now d Hr|u a now d|u ids t d Hu|records rows d Hnd Hof Hrows];
    try (destruct Hf); try (split; cbn; auto with kept; fail).
  - by apply retained_keys, rows_kept_insert; [apply _|intros; simplify_eq].
  - by apply retained_keys, rows_kept_alter; [apply _|].
  - destruct (_ && _); split; cbn; auto with kept.
  - apply retained_events; [|done]. intros r Hr. by destruct (Hrows r Hr).
Qed.
