(* ===== verification/Policy.v ===== *)
(** * Who may write what ([headlines-api/src/services], [headlines-proto]'s annotations)

    The rows that belong to an account and to a user; which writes concern them; and the
    access-control policy the handlers implement, against which [Server] proves them. *)

From S2P Require Import Prelude Libs Instances Subject Errors Db Paging Articles Drafts Follows Accounts Feeds Events Rpc AccountService ArticleService ReaderServices EventService Writes.

(** ** What belongs to an account and to a user *)

(** The two databases hold the same about the account: its row and keys, its articles with
    their versions, its drafts; none of them is missing in either. *)
Record same_account (a : Uuid) (d d' : Db) : Prop := {
  sa_row : accounts d' !! a = accounts d !! a;
  sa_keys k : account_keys d' !! (a, k) = account_keys d !! (a, k);
  sa_articles id r : art_account_id r = a → articles d !! id = Some r ↔ articles d' !! id = Some r;
  sa_family id r : art_account_id r = a → articles d !! id = Some r →
    articles_live d' !! id = articles_live d !! id ∧
    articles_tombstone d' !! id = articles_tombstone d !! id ∧
    ∀ v, article_versions d' !! (id, v) = article_versions d !! (id, v);
  sa_drafts id r : dr_account_id r = a → drafts d !! id = Some r ↔ drafts d' !! id = Some r;
}.
(** The same about the user: its row and keys, its follows, its recommendations, its events. *)
Record same_user (u : Uuid) (d d' : Db) : Prop := {
  su_row : users d' !! u = users d !! u;
  su_keys k : user_keys d' !! (u, k) = user_keys d !! (u, k);
  su_follows a : follows d' !! (u, a) = follows d !! (u, a);
  su_feed p : feed_recommendation d' !! (u, p) = feed_recommendation d !! (u, p);
  su_events id r : ev_user_id r = u → events d !! id = Some r ↔ events d' !! id = Some r;
}.

#[export] Instance same_account_equiv a : Equivalence (same_account a).
Proof.
  split.
  - by intros d.
  - intros d d' [Hr Hk Ha Hf Hd]. split; [done|done|by intros; rewrite Ha| |by intros; rewrite Hd].
    intros id r Hid Hl. destruct (Hf id r Hid) as (-> & -> & Hv); [by apply Ha|]. split_and!; [done..|].
    intros v. by rewrite Hv.
  - intros d1 d2 d3 [Hr Hk Ha Hf Hd] [Hr' Hk' Ha' Hf' Hd'].
    split; [by rewrite Hr'|intros; by rewrite Hk'|intros; by rewrite Ha, Ha'| |intros; by rewrite Hd, Hd'].
    intros id r Hid Hl. destruct (Hf id r Hid Hl) as (<- & <- & Hv).
    destruct (Hf' id r Hid) as (-> & -> & Hv'); [by apply Ha|]. split_and!; [done..|].
    intros v. by rewrite Hv', Hv.
Qed.
#[export] Instance same_user_equiv u : Equivalence (same_user u).
Proof.
  split.
  - by intros d.
  - intros d d' [Hr Hk Hf Hp He]. split; try done. by intros; rewrite He.
  - intros d1 d2 d3 [Hr Hk Hf Hp He] [Hr' Hk' Hf' Hp' He'].
    split; [by rewrite Hr'|intros; by rewrite Hk'|intros; by rewrite Hf'|intros; by rewrite Hp'
           |intros; by rewrite He, He'].
Qed.

(** A write that concerns the account, in this database; and the user. *)
Definition article_of (a : Uuid) (d : Db) (id : Uuid) : Prop :=
  ∃ r, articles d !! id = Some r ∧ art_account_id r = a.
Definition draft_of (a : Uuid) (d : Db) (id : Uuid) : Prop :=
  ∃ r, drafts d !! id = Some r ∧ dr_account_id r = a.
Definition about_account (a : Uuid) (d : Db) (w : Write) : Prop :=
  match w with
  | WAccountCreate new => nac_id new = a
  | WAccountUpdate id _ | WAccountDelete id => id = a
  | WKeyCreate new => nk_kind new = KAccount ∧ nk_parent_id new = a
  | WKeyRevoke kind p _ => kind = KAccount ∧ p = a
  | WPublish new => na_account_id new = a
  | WEdit id _ | WTombstone id _ | WRedact id _ _ => article_of a d id
  | WDraftCreate new => nd_account_id new = a
  | WDraftUpdate id _ | WDraftDelete id | WDraftPublish id => draft_of a d id
  | _ => False
  end.
Definition about_user (u : Uuid) (w : Write) : Prop :=
  match w with
  | WUserCreate new => nus_id new = u
  | WUserUpdate id _ | WUserDelete id => id = u
  | WKeyCreate new => nk_kind new = KUser ∧ nk_parent_id new = u
  | WKeyRevoke kind p _ => kind = KUser ∧ p = u
  | WFollow id _ | WUnfollow id _ | WReplaceFeed id _ => id = u
  | WRecordEvents records => ∃ r, r ∈ records ∧ er_user_id r = u
  | _ => False
  end.

(** What an insert and an update leave of the rows with a property. *)
Lemma insert_rows_iff {K A} `{Countable K} (Q : A → Prop) (m : gmap K A) k x :
  ¬ Q x → (∀ r, m !! k = Some r → ¬ Q r) →
  ∀ i r, Q r → m !! i = Some r ↔ <[k := x]> m !! i = Some r.
Proof.
  intros Hx Hk i r Hr. rewrite lookup_insert_Some. destruct (decide (k = i)) as [->|Hi]; [|naive_solver].
  split; [intros Hm; by destruct (Hk _ Hm)|]. by intros [[_ ->]|[? _]].
Qed.
Lemma alter_rows_iff {K A} `{Countable K} (Q : A → Prop) (f : A → A) (m : gmap K A) k :
  (∀ r, m !! k = Some r → ¬ Q r ∧ ¬ Q (f r)) →
  ∀ i r, Q r → m !! i = Some r ↔ alter f k m !! i = Some r.
Proof.
  intros Hk i r Hr. destruct (decide (k = i)) as [->|Hi]; [|by rewrite lookup_alter_ne].
  rewrite lookup_alter_eq. split.
  - intros Hm. by destruct (Hk _ Hm).
  - intros (x & Hm & ->)%fmap_Some. by destruct (Hk _ Hm).
Qed.
Lemma alter_row {K A} `{Countable K} (f : A → A) (m : gmap K A) k r :
  alter f k m !! k = Some r → ∃ r0, m !! k = Some r0 ∧ r = f r0.
Proof. rewrite lookup_alter_eq. intros (r0 & ? & ?)%fmap_Some. by exists r0. Qed.
Lemma delete_rows_iff {K A} `{Countable K} (Q : A → Prop) (m : gmap K A) k :
  (∀ r, m !! k = Some r → ¬ Q r) → ∀ i r, Q r → m !! i = Some r ↔ delete k m !! i = Some r.
Proof.
  intros Hk i r Hr. rewrite lookup_delete_Some. split; [|naive_solver].
  intros Hm. split; [|done]. intros ->. by destruct (Hk _ Hm).
Qed.

(** A write that does not concern an account leaves it as it is. *)
Section effects.
Variable a : Uuid.

(** The article tables alone decide an account's articles. *)
Lemma same_account_articles d d' :
  accounts d' = accounts d → account_keys d' = account_keys d → drafts d' = drafts d →
  (∀ id r, art_account_id r = a → articles d !! id = Some r ↔ articles d' !! id = Some r) →
  (∀ id, article_of a d id →
    articles_live d' !! id = articles_live d !! id ∧
    articles_tombstone d' !! id = articles_tombstone d !! id ∧
    ∀ v, article_versions d' !! (id, v) = article_versions d !! (id, v)) →
  same_account a d d'.
Proof.
  intros Ha Hk Hd Hr Hf. split; [by rewrite Ha|by rewrite Hk|done| |by rewrite Hd].
  intros id r Hid Hl. apply Hf. by exists r.
Qed.
Lemma publish_rows_account ar lr vr d :
  art_account_id ar ≠ a → articles d !! art_id ar = None → same_account a d (publish_rows ar lr vr d).
Proof.
  intros Ha Hn. apply same_account_articles; [done..| |].
  - cbn. apply insert_rows_iff; [done|]. intros r. by rewrite Hn.
  - intros id (r & Hr & _). cbn.
    assert (art_id ar ≠ id) by congruence.
    rewrite !lookup_insert_ne by done. split_and!; [done..|].
    intros v. by rewrite lookup_insert_ne by congruence.
Qed.
Lemma drafts_account t d :
  (∀ id r, dr_account_id r = a → drafts d !! id = Some r ↔ t !! id = Some r) →
  same_account a d (set_drafts t d).
Proof. intros Ht. by split. Qed.
(** Changes of the rows of one article of somebody else. *)
Lemma article_account id d d' :
  accounts d' = accounts d → account_keys d' = account_keys d → drafts d' = drafts d →
  ¬ article_of a d id → ¬ article_of a d' id →
  (∀ i, i ≠ id → articles d' !! i = articles d !! i ∧ articles_live d' !! i = articles_live d !! i ∧
     articles_tombstone d' !! i = articles_tombstone d !! i ∧
     ∀ v, article_versions d' !! (i, v) = article_versions d !! (i, v)) →
  same_account a d d'.
Proof.
  intros Ha Hk Hd Hn Hn' Hi. apply same_account_articles; [done..| |].
  - intros i r Hr. destruct (decide (i = id)) as [->|Hne].
    + split; intros Hl; [destruct Hn|destruct Hn']; by exists r.
    + by rewrite (proj1 (Hi i Hne)).
  - intros i Hof. assert (i ≠ id) as Hne by congruence. apply (Hi i Hne).
Qed.

Lemma effect_account `{DieselLib} w d d' :
  effect w d d' → ¬ about_account a d w → same_account a d d'.
Proof.
  intros Heff Hn. destruct Heff as [new now d Hf|id u f d Hf|id now d|new now d Hf|id u f d Hf|id now d
    |new now d _ Hf|kind p k now d _|new now d Hf|id e now d ar l cur Ha Hst Hl Hc Hv Hno
    |id reason now d ar Ha Hst|id v reason now d ar row Ha Hrow Hred|new now d Hf|id u f d Hf|id d
    |id row now d Hrow Hno|u ac now d Hf|u ac r now d Hr|u ac now d|u ids t d Hu|records rows d Hnd Hof Hrows];
    cbn [about_account] in Hn; try (by split).
  - split; try done. cbn. by rewrite lookup_insert_ne.
  - split; try done. cbn. by rewrite lookup_alter_ne.
  - split; try done. cbn. by rewrite lookup_alter_ne.
  - destruct (nk_kind new) eqn:Hk; split; try done. cbn. intros k. rewrite lookup_insert_ne; [done|]. intros Heq. apply Hn. split; [done|congruence].
  - destruct kind; split; try done. cbn. intros k'. rewrite lookup_alter_ne; [done|]. intros Heq. apply Hn. split; [done|congruence].
  - by apply publish_rows_account.
  - apply (article_account id); [done..|]. intros i Hi. cbn.
    rewrite lookup_alter_ne by done. split_and!; [done..|].
    intros v. by rewrite lookup_insert_ne by congruence.
  - apply (article_account id); [done..| |].
    + intros (r & (r0 & Hr & ->)%alter_row & Hacc). apply Hn. by exists r0.
    + intros i Hi. cbn. by rewrite lookup_alter_ne, lookup_delete_ne, lookup_insert_ne.
  - destruct (_ && _); (apply (article_account id); [done..|]); intros i Hi; cbn;
      rewrite ?lookup_alter_ne by done; (split_and!; [done..|]); intros v';
      by rewrite lookup_alter_ne by congruence.
  - apply drafts_account, insert_rows_iff; [done|]. intros r. by rewrite Hf.
  - apply drafts_account, (alter_rows_iff (λ r, dr_account_id r = a)). intros r Hr.
    rewrite (proj2 (Hf r)). split; intros Hd; apply Hn; by exists r.
  - apply drafts_account, (delete_rows_iff (λ r, dr_account_id r = a)). intros r Hr Hd. apply Hn. by exists r.
  - trans (draft_published row now d).
    + apply publish_rows_account; [|done]. intros Hd. apply Hn. by exists row.
    + apply drafts_account, (delete_rows_iff (λ r, dr_account_id r = a)). intros r Hr Hd. apply Hn. by exists r.
Qed.
End effects.

Lemma add_events_user `{DieselLib} u records rows d :
  NoDup (ev_id <$> rows) → rows_of records rows → (∀ r, r ∈ records → er_user_id r ≠ u) →
  (∀ r, r ∈ rows → events d !! ev_id r = None) → same_user u d (add_events rows d).
Proof.
  intros Hnd Hof Hu Hn. split; try done. intros id r Hr. rewrite add_events_lookup by done. split.
  - intros Hl. right. split; [|done]. intros r' Hr' <-. by rewrite Hn in Hl.
  - intros [[Hin _]|[_ ?]]; [|done]. apply Hof in Hin as (i & now & rec & Hin & ->). by destruct (Hu rec Hin).
Qed.
Lemma effect_user `{DieselLib} u w d d' : effect w d d' → ¬ about_user u w → same_user u d d'.
Proof.
  intros Heff Hn. destruct Heff as [new now d Hf|id up f d Hf|id now d|new now d Hf|id up f d Hf|id now d
    |new now d _ Hf|kind p k now d _|new now d Hf|id e now d ar l cur Ha Hst Hl Hc Hv Hno
    |id reason now d ar Ha Hst|id v reason now d ar row Ha Hrow Hred|new now d Hf|id up f d Hf|id d
    |id row now d Hrow Hno|u' ac now d Hf|u' ac r now d Hr|u' ac now d|u' ids t d Hu|records rows d Hnd Hof Hrows];
    cbn [about_user] in Hn; try (by split).
  - split; try done. cbn. by rewrite lookup_insert_ne.
  - split; try done. cbn. by rewrite lookup_alter_ne.
  - split; try done. cbn. by rewrite lookup_alter_ne.
  - destruct (nk_kind new) eqn:Hk; split; try done. cbn. intros k. rewrite lookup_insert_ne; [done|].
    intros Heq. apply Hn. split; [done|congruence].
  - destruct kind; split; try done. cbn. intros k'. rewrite lookup_alter_ne; [done|].
    intros Heq. apply Hn. split; [done|congruence].
  - by destruct (_ && _).
  - split; try done. cbn. intros ac'. by rewrite lookup_insert_ne by congruence.
  - split; try done. cbn. intros ac'. by rewrite lookup_insert_ne by congruence.
  - split; try done. cbn. intros ac'. by rewrite lookup_alter_ne by congruence.
  - split; try done. cbn. intros p. by apply Hu.
  - eapply add_events_user; [done|done| |intros r Hr; by destruct (Hrows r Hr)].
    intros r Hr Hu. apply Hn. by exists r.
Qed.

(** ** The policy *)

Section policy.
Variables (account_mode user_mode : BootstrapMode) (s : Subject) (P : Db → Prop).

(** Who may register: anyone in the open mode; only nobody-in-particular is turned away in
    the other. *)
Definition registers (mode : BootstrapMode) : Prop := ¬ (s = Anonymous ∧ mode = SystemOnly).

(** The articles and drafts of an owner the subject acts for, in some database on the way. *)
Definition acts_on_article (scope : string) (id : Uuid) : Prop :=
  ∃ d a, P d ∧ articles d !! id = Some a ∧ account_allowed s (art_account_id a) scope = true.
Definition acts_on_draft (scope : string) (id : Uuid) : Prop :=
  ∃ d r, P d ∧ drafts d !! id = Some r ∧ account_allowed s (dr_account_id r) scope = true.

Definition authorised (w : Write) : Prop :=
  match w with
  | WAccountCreate _ => registers account_mode
  | WAccountUpdate id _ => account_allowed s id "accounts.admin" = true
  | WAccountDelete id => account_allowed s id "accounts.delete" = true
  | WUserCreate _ => registers user_mode
  | WUserUpdate id _ => user_allowed s id "users.admin" = true
  | WUserDelete id => user_allowed s id "users.delete" = true
  | WKeyCreate new =>
    let p := nk_parent_id new in
    match nk_kind new with
    | KAccount => account_allowed s p "accounts.admin" = true ∨
                  (registers account_mode ∧ ∃ d, P d ∧ accounts d !! p = None)
    | KUser => user_allowed s p "users.admin" = true ∨
               (registers user_mode ∧ ∃ d, P d ∧ users d !! p = None)
    | KSystem => False
    end
  | WKeyRevoke kind p _ =>
    match kind with
    | KAccount => account_allowed s p "accounts.admin" = true
    | KUser => user_allowed s p "users.admin" = true
    | KSystem => False
    end
  | WPublish new => account_allowed s (na_account_id new) "articles.write" = true
  | WEdit id _ => acts_on_article "articles.write" id
  | WTombstone id _ => acts_on_article "articles.tombstone" id
  | WRedact _ _ _ => scoped_system s "articles.redact" = true
  | WDraftCreate new => account_allowed s (nd_account_id new) "drafts.write" = true
  | WDraftUpdate id _ | WDraftDelete id => acts_on_draft "drafts.write" id
  | WDraftPublish id => acts_on_draft "articles.write" id
  | WFollow u _ | WUnfollow u _ => user_allowed s u "follows.write" = true
  | WReplaceFeed _ _ => scoped_system s "feeds.recommendation.write" = true
  | WRecordEvents records => ∀ r, r ∈ records → user_allowed s (er_user_id r) "events.write" = true
  end.
End policy.

(** Somebody else: not the account's own key, and no system whose scopes reach it. *)
Definition stranger_to_account (s : Subject) (a : Uuid) : Prop :=
  ∀ scope, account_allowed s a scope = false.
Definition stranger_to_user (s : Subject) (u : Uuid) : Prop :=
  ∀ scope, user_allowed s u scope = false.

Lemma scoped_allowed s a scope :
  scoped_system s scope = true → account_allowed s a scope = true ∧ user_allowed s a scope = true.
Proof. by destruct s. Qed.

(** What a stranger may write is never about the account: not even a registration is, or
    the key that comes with one. *)
Lemma stranger_account `{DieselLib} am um s a d0 w :
  stranger_to_account s a → is_Some (accounts d0 !! a) →
  authorised am um s (same_account a d0) w → allows (same_account a d0) w.
Proof.
  intros Hs [ra Hra] Hw d d' Hd Heff. trans d; [done|]. eapply effect_account; [done|].
  assert (Hhere : ∀ d, same_account a d0 d → accounts d !! a = Some ra).
  { intros d1 Hd1. by rewrite (sa_row _ _ _ Hd1). }
  assert (Hart : ∀ scope id, acts_on_article s (same_account a d0) scope id → ¬ article_of a d id).
  { intros scope id (d1 & r1 & Hd1 & Hr1 & Hal) (r & Hr & Ha).
    apply (sa_articles _ _ _ Hd) in Hr; [|done]. apply (sa_articles _ _ _ Hd1) in Hr; [|done].
    simplify_eq. by rewrite Hs in Hal. }
  assert (Hdraft : ∀ scope id, acts_on_draft s (same_account a d0) scope id → ¬ draft_of a d id).
  { intros scope id (d1 & r1 & Hd1 & Hr1 & Hal) (r & Hr & Ha).
    apply (sa_drafts _ _ _ Hd) in Hr; [|done]. apply (sa_drafts _ _ _ Hd1) in Hr; [|done].
    simplify_eq. by rewrite Hs in Hal. }
  destruct w; cbn [authorised about_account] in *; try (by intros []); try (by eapply Hart); try (by eapply Hdraft);
    try (intros <-; by rewrite Hs in Hw).
  - intros Hid. inversion Heff; subst. specialize (Hhere d Hd). congruence.
  - intros [Hk <-]. rewrite Hk in Hw. destruct Hw as [Hw|[_ (d1 & Hd1 & Hn)]]; [by rewrite Hs in Hw|].
    specialize (Hhere d1 Hd1). congruence.
  - intros [-> <-]. by rewrite Hs in Hw.
  - intros _. apply (scoped_allowed s a) in Hw as [Hw _]. by rewrite Hs in Hw.
Qed.
Lemma stranger_user `{DieselLib} am um s u d0 w :
  stranger_to_user s u → is_Some (users d0 !! u) →
  authorised am um s (same_user u d0) w → allows (same_user u d0) w.
Proof.
  intros Hs [ru Hru] Hw d d' Hd Heff. trans d; [done|]. eapply effect_user; [done|].
  assert (Hhere : ∀ d, same_user u d0 d → users d !! u = Some ru).
  { intros d1 Hd1. by rewrite (su_row _ _ _ Hd1). }
  destruct w; cbn [authorised about_user] in *; try (by intros []); try (intros <-; by rewrite Hs in Hw).
  - intros Hid. inversion Heff; subst. specialize (Hhere d Hd). congruence.
  - intros [Hk <-]. rewrite Hk in Hw. destruct Hw as [Hw|[_ (d1 & Hd1 & Hn)]]; [by rewrite Hs in Hw|].
    specialize (Hhere d1 Hd1). congruence.
  - intros [-> <-]. by rewrite Hs in Hw.
  - intros _. apply (scoped_allowed s u) in Hw as [_ Hw]. by rewrite Hs in Hw.
  - intros (r & Hr & <-). specialize (Hw r Hr). by rewrite Hs in Hw.
Qed.

(** ** Accounts and users alike *)

Inductive Owner : Type := OwnerAccount (a : Uuid) | OwnerUser (u : Uuid).
Definition same_owner (o : Owner) : Db → Db → Prop :=
  match o with OwnerAccount a => same_account a | OwnerUser u => same_user u end.
Definition exists_owner (o : Owner) (d : Db) : Prop :=
  match o with
  | OwnerAccount a => is_Some (accounts d !! a)
  | OwnerUser u => is_Some (users d !! u)
  end.
Definition stranger (s : Subject) (o : Owner) : Prop :=
  match o with
  | OwnerAccount a => stranger_to_account s a
  | OwnerUser u => stranger_to_user s u
  end.

#[export] Instance same_owner_equiv o : Equivalence (same_owner o).
Proof. destruct o; apply _. Qed.
Lemma stranger_keeps `{DieselLib} am um s o d0 w :
  stranger s o → exists_owner o d0 →
  authorised am um s (same_owner o d0) w → allows (same_owner o d0) w.
Proof. destruct o; [apply stranger_account|apply stranger_user]. Qed.

(** ** Nobody in particular *)

(** The second database is the first with registrations: new accounts and users with new
    keys, where the mode lets anyone register, and nothing else. *)
Record registered (account_mode user_mode : BootstrapMode) (d d' : Db) : Prop := {
  rg_accounts : accounts d ⊆ accounts d' ∧ account_keys d ⊆ account_keys d';
  rg_users : users d ⊆ users d' ∧ user_keys d ⊆ user_keys d';
  rg_account_mode : account_mode = SystemOnly →
    accounts d' = accounts d ∧ account_keys d' = account_keys d;
  rg_user_mode : user_mode = SystemOnly → users d' = users d ∧ user_keys d' = user_keys d;
  rg_articles : articles d' = articles d ∧ articles_live d' = articles_live d ∧
    articles_tombstone d' = articles_tombstone d ∧ article_versions d' = article_versions d;
  rg_drafts : drafts d' = drafts d;
  rg_readers : follows d' = follows d ∧ feed_recommendation d' = feed_recommendation d;
  rg_systems : systems d' = systems d ∧ system_scopes d' = system_scopes d ∧
    system_keys d' = system_keys d;
  rg_events : events d' = events d;
}.
Lemma registered_refl am um d : registered am um d d.
Proof. by split. Qed.

Lemma anonymous_keeps `{DieselLib} am um d0 w :
  authorised am um Anonymous (registered am um d0) w → allows (registered am um d0) w.
Proof.
  intros Hw d d' Hd Heff. destruct Hd as [[Ha Hk] [Hu Huk] Ham Hum Hart Hdr Hre Hsy Hev].
  assert (Hopen : ∀ mode, registers Anonymous mode → mode = SystemOnly → False) by (intros mode Hr ->; by apply Hr).
  destruct Heff as [new now d Hf|id up f d Hf|id now d|new now d Hf|id up f d Hf|id now d
    |new now d Hsys Hf|kind p k now d _|new now d Hf|id e now d ar l cur Har Hst Hl Hc Hv Hno
    |id reason now d ar Hart' Hst|id v reason now d ar row Har Hrow Hred|new now d Hf|id up f d Hf|id d
    |id row now d Hrow Hno|u' ac now d Hf|u' ac r now d Hr|u' ac now d|u' ids t d Hu'|records rows d Hnd Hof Hrows];
    cbn [authorised] in Hw; try done; try (by destruct Hw as (? & ? & ? & ? & ?)); try (by destruct kind).
  - split; cbn; try done; [split; [|done]|by intros Hm; destruct (Hopen _ Hw Hm)].
    by etrans; [|apply insert_subseteq].
  - split; cbn; try done; [split; [|done]|by intros Hm; destruct (Hopen _ Hw Hm)].
    by etrans; [|apply insert_subseteq].
  - destruct (nk_kind new) eqn:Hkind; [|clear Hsys|done]; destruct Hw as [Hw|[Hw _]]; try done.
    + split; cbn; try done; [split; [done|]|by intros Hm; destruct (Hopen _ Hw Hm)].
      by etrans; [|apply insert_subseteq].
    + split; cbn; try done; [split; [done|]|by intros Hm; destruct (Hopen _ Hw Hm)].
      by etrans; [|apply insert_subseteq].
  - assert (rows = []) as ->.
    { destruct rows as [|row rows]; [done|]. destruct (Hof row) as (i & n & r & Hr & ->); [by left|].
      by specialize (Hw r Hr). }
    split; cbn; try done. unfold add_events. cbn. by rewrite (left_id_L ∅ (∪)).
Qed.
