(* ===== verification/Server.v ===== *)
(** * The methods of the server ([headlines-server/src/main.rs], [headlines-api/src/services])

    Every RPC with its path and the handler that answers it over the Postgres repositories,
    as [main] wires them; and the proof that every write of every handler is one the policy
    permits. *)

From S2P Require Import Prelude Libs Instances Subject AuthTable Errors Tso TimeSource Nonce Wire Strategy Interceptor Db Paging Articles Drafts Follows Accounts Feeds Events Content Rpc AccountService ArticleService ReaderServices EventService Rest Gateway Writes Policy.

(** ** The methods *)

(** The methods the gateway forwards to, and those only gRPC clients reach. *)
Inductive Method : Type :=
  | OnRest (r : Rpc)
  | UpdateAccount | DeleteAccount | AddAccountKey | RevokeAccountKey.
Definition MessageOf (m : Method) : Type :=
  match m with
  | OnRest r => RequestOf r
  | UpdateAccount => UpdateAccountRequest
  | DeleteAccount => str
  | AddAccountKey => AddKeyRequest
  | RevokeAccountKey => RevokeKeyRequest
  end.
Definition ReplyOf (m : Method) : Type :=
  match m with
  | OnRest r => ResponseOf r
  | UpdateAccount | DeleteAccount => ProtoAccount
  | AddAccountKey | RevokeAccountKey => ProtoKey
  end.

#[export] Instance notification_rpc_eq_dec : EqDecision NotificationRpc.
Proof. solve_decision. Defined.
#[export] Instance rpc_eq_dec : EqDecision Rpc.
Proof. solve_decision. Defined.
#[export] Instance method_eq_dec : EqDecision Method.
Proof. solve_decision. Defined.

(** The path of a method: its service and its name. *)
Definition rest_path (r : Rpc) : str :=
  match r with
  | CreateAccount => method_path "AccountService" "CreateAccount"
  | GetAccount => method_path "AccountService" "GetAccount"
  | CreateUser => method_path "UserService" "CreateUser"
  | GetUser => method_path "UserService" "GetUser"
  | UpdateUser => method_path "UserService" "UpdateUser"
  | DeleteUser => method_path "UserService" "DeleteUser"
  | AddUserKey => method_path "UserService" "AddUserKey"
  | RevokeUserKey => method_path "UserService" "RevokeUserKey"
  | PublishArticle => method_path "ArticleService" "PublishArticle"
  | GetArticle => method_path "ArticleService" "GetArticle"
  | ListAccountArticles => method_path "ArticleService" "ListAccountArticles"
  | EditArticle => method_path "ArticleService" "EditArticle"
  | TombstoneArticle => method_path "ArticleService" "TombstoneArticle"
  | RedactArticleVersion => method_path "ArticleService" "RedactArticleVersion"
  | CreateDraft => method_path "DraftService" "CreateDraft"
  | GetDraft => method_path "DraftService" "GetDraft"
  | UpdateDraft => method_path "DraftService" "UpdateDraft"
  | DeleteDraft => method_path "DraftService" "DeleteDraft"
  | ListAccountDrafts => method_path "DraftService" "ListAccountDrafts"
  | PublishDraft => method_path "DraftService" "PublishDraft"
  | FollowAccount => method_path "FollowService" "Follow"
  | UnfollowAccount => method_path "FollowService" "Unfollow"
  | GetFollow => method_path "FollowService" "GetFollow"
  | ListUserFollows => method_path "FollowService" "ListUserFollows"
  | ListAccountFollowers => method_path "FollowService" "ListAccountFollowers"
  | ReplaceRecommendationFeed => method_path "FeedRecommendationService" "ReplaceRecommendationFeed"
  | GetRecommendationFeed => method_path "FeedRecommendationService" "GetRecommendationFeed"
  | GetFollowFeed => method_path "FeedFollowService" "GetFollowFeed"
  | StreamAccountArticles => method_path "AccountStreamService" "StreamAccountArticles"
  | RecordEvent => method_path "EventService" "RecordEvent"
  | RecordEventBatch => method_path "EventService" "RecordEventBatch"
  | ListEvents => method_path "EventService" "ListEvents"
  | Notification r => lit "/headlines.v1." ++ lit (rpc_name r)
  end.
Definition rpc_path (m : Method) : str :=
  match m with
  | OnRest r => rest_path r
  | UpdateAccount => method_path "AccountService" "UpdateAccount"
  | DeleteAccount => method_path "AccountService" "DeleteAccount"
  | AddAccountKey => method_path "AccountService" "AddAccountKey"
  | RevokeAccountKey => method_path "AccountService" "RevokeAccountKey"
  end.
Definition notification_rpcs : list NotificationRpc :=
  [SendNotification; SendNotificationBatch; ListUserNotifications; MarkNotificationRead;
   MarkAllUserNotificationsRead; GetUserNotificationPreferences; UpdateUserNotificationPreferences].
Definition all_methods : list Method :=
  (OnRest <$>
    [CreateAccount; GetAccount; CreateUser; GetUser; UpdateUser; DeleteUser; AddUserKey;
     RevokeUserKey; PublishArticle; GetArticle; ListAccountArticles; EditArticle;
     TombstoneArticle; RedactArticleVersion; CreateDraft; GetDraft; UpdateDraft; DeleteDraft;
     ListAccountDrafts; PublishDraft; FollowAccount; UnfollowAccount; GetFollow;
     ListUserFollows; ListAccountFollowers; ReplaceRecommendationFeed; GetRecommendationFeed;
     GetFollowFeed; StreamAccountArticles; RecordEvent; RecordEventBatch; ListEvents]
    ++ (Notification <$> notification_rpcs)) ++
  [UpdateAccount; DeleteAccount; AddAccountKey; RevokeAccountKey].
(** The routers [add_service] installs: the first method with the path. *)
Definition route (path : str) : option Method :=
  head (filter (λ m, rpc_path m = path) all_methods).

(** ** The handlers behind the methods *)

(** What [main] hands to the constructors of the services. *)
Record Settings := {
  set_algos : AlgorithmRegistry;
  set_account_bootstrap : BootstrapMode;
  set_user_bootstrap : BootstrapMode;
  set_content_max_bytes : Z;
  set_replace_max_items : Z;
  set_batch_max_items : Z;
}.

Definition list_request (q : PageRequest) : ListRequest :=
  {| lr_account_id := pq_owner_id q; lr_page_size := pq_page_size q;
     lr_page_token := pq_page_token q; lr_include_tombstoned := pq_flag q |}.
Definition feed_message (page : list ProtoFeedItem * str) : list WireFeedItem * str :=
  ((λ i, {| wf_position := pfi_position i; wf_article := Some (pfi_article i) |}) <$> page.1, page.2).
Definition items_message (page : list ProtoArticle * str) : list (option ProtoArticle) * str :=
  (Some <$> page.1, page.2).

Section handlers.
Context `{UuidLib, ChronoLib, Base64Lib, UrlLib, SerdeLib, UnicodeLib, DieselLib}.
Context (settings : Settings) (time_now : M TimeError Tso) (s : Subject).

Definition handle_rest (r : Rpc) : RequestOf r → M Fault (ResponseOf r) :=
  let max := set_content_max_bytes settings in
  match r return RequestOf r → M Fault (ResponseOf r) with
  | CreateAccount => λ q,
    '(account, key_id) ← create_account (set_algos settings) (set_account_bootstrap settings) s q;
    mret {| car_account := Some account; car_key_id := key_id |}
  | GetAccount => get_account
  | CreateUser => λ q,
    '(user, key_id) ← create_user (set_algos settings) (set_user_bootstrap settings) s q;
    mret {| cur_user := Some user; cur_key_id := key_id |}
  | GetUser => get_user s
  | UpdateUser => update_user_rpc s
  | DeleteUser => delete_user s
  | AddUserKey => add_user_key (set_algos settings) s
  | RevokeUserKey => revoke_user_key s
  | PublishArticle => publish_article max s
  | GetArticle => get_article
  | ListAccountArticles => λ q, list_account_articles (list_request q)
  | EditArticle => edit_article max s
  | TombstoneArticle => λ q, tombstone_article s (ta_id q) (ta_reason q)
  | RedactArticleVersion => λ q,
    redact_article_version (ra_article_id q) (ra_version q) (ra_redaction_reason q)
  | CreateDraft => create_draft max s
  | GetDraft => get_draft s
  | UpdateDraft => update_draft_rpc max s
  | DeleteDraft => delete_draft_rpc s
  | ListAccountDrafts => λ q, list_account_drafts s (list_request q)
  | PublishDraft => publish_draft max s
  | FollowAccount => λ q, follow_rpc s (eq_user_id q) (eq_account_id q)
  | UnfollowAccount => λ q, unfollow_rpc s (eq_user_id q) (eq_account_id q)
  | GetFollow => λ q, get_follow_rpc s (eq_user_id q) (eq_account_id q)
  | ListUserFollows => λ q,
    list_user_follows s (pq_owner_id q) (pq_flag q) (pq_page_size q) (pq_page_token q)
  | ListAccountFollowers => λ q,
    list_account_followers s (pq_owner_id q) (pq_flag q) (pq_page_size q) (pq_page_token q)
  | ReplaceRecommendationFeed => λ q,
    replace_recommendation_feed s (set_replace_max_items settings) (rf_user_id q) (rf_article_ids q)
  | GetRecommendationFeed => λ q,
    page ← get_recommendation_feed s (pq_owner_id q) (pq_page_size q) (pq_page_token q);
    mret (feed_message page)
  | GetFollowFeed => λ q,
    page ← get_follow_feed s (pq_owner_id q) (pq_page_size q) (pq_page_token q);
    mret (items_message page)
  | StreamAccountArticles => λ q,
    page ← stream_account_articles s (pq_owner_id q) (pq_page_size q) (pq_page_token q);
    mret (items_message page)
  | RecordEvent => record_event s time_now
  | RecordEventBatch => record_event_batch s time_now (set_batch_max_items settings)
  | ListEvents => list_events s
  | Notification r => λ _, notification_rpc r
  end.
Definition handle (m : Method) : MessageOf m → M Fault (ReplyOf m) :=
  match m return MessageOf m → M Fault (ReplyOf m) with
  | OnRest r => handle_rest r
  | UpdateAccount => update_account_rpc s
  | DeleteAccount => delete_account s
  | AddAccountKey => add_account_key (set_algos settings) s
  | RevokeAccountKey => revoke_account_key s
  end.
End handlers.

(** ** Every write is authorised *)

(** A successful run shows [Q] of its result, as long as the predicate is kept. *)
Definition yields {E A} (P : Db → Prop) (m : M E A) (Q : A → Prop) : Prop :=
  ∀ env w a w', (∀ n db, P db → P (others env n db)) → P (w_db w) →
    m env w = (Ok a, w') → Q a.

Section yields.
Context `{DieselLib} (P : Db → Prop).

Lemma preserves_bind_yields {E A B} (m : M E A) (f : A → M E B) Q :
  preserves P m → yields P m Q → (∀ a, Q a → preserves P (f a)) → preserves P (m ≫= f).
Proof.
  intros Hm HQ Hf env w Ho Hw. specialize (Hm env w Ho Hw). unfold mbind, M_bind.
  destruct (m env w) as [[a|e] w1] eqn:Hr; [|done]. apply Hf; [|done..]. by eapply HQ.
Qed.
Lemma yields_bind {E A B} (m : M E A) (f : A → M E B) Q Q' :
  preserves P m → yields P m Q → (∀ a, Q a → yields P (f a) Q') → yields P (m ≫= f) Q'.
Proof.
  intros Hm HQ Hf env w b w' Ho Hw (a & w1 & Hr & Hr')%bind_ok.
  pose proof (Hm env w Ho Hw) as Hw1. rewrite Hr in Hw1. exact (Hf a (HQ env w a w1 Ho Hw Hr) env w1 b w' Ho Hw1 Hr').
Qed.
Lemma yields_true {E A} (m : M E A) : yields P m (λ _, True).
Proof. done. Qed.
Lemma yields_call {A} (m : M HeadlinesError A) Q : yields P m Q → yields P (call m) Q.
Proof. intros Hm env w a w' Ho Hw Hr%call_ok. by eapply Hm. Qed.
Lemma yields_check {A} (r : result HeadlinesError A) : yields P (check r) (λ a, r = Ok a).
Proof. intros env w a w' _ _ Hr. by apply check_ok in Hr as [-> _]. Qed.
Lemma yields_mono {E A} (m : M E A) (Q Q' : A → Prop) :
  yields P m Q → (∀ a, Q a → Q' a) → yields P m Q'.
Proof. intros Hm HQ env w a w' Ho Hw Hr. eapply HQ, Hm; done. Qed.
Lemma yields_some_or {E A} (e : E) (o : option A) : yields P (some_or e o) (λ a, o = Some a).
Proof. intros env w a w' _ _ Hr. by apply some_or_ok in Hr as [-> _]. Qed.

(** The row a lookup finds was there, in a database that satisfied the predicate. *)
Lemma yields_lookup {E A} (g : DieselError → E) (f : Db → option A) :
  yields P (map_errM g (optional (stmt (first_row f)))) (λ o, ∃ d, P d ∧ o = f d).
Proof.
  intros env w o w' Ho Hw [(a & -> & [Hr _]%stmt_ok)|[-> Hr]]%map_errM_ok%optional_ok.
  - unfold first_row in Hr. destruct (f _) eqn:Hf; simplify_eq/=.
    exists (others env (w_tick w) (w_db w)). split; [by apply Ho|done].
  - revert Hr. unfold stmt, first_row. destruct (fault _ _) as [[msg applied]|]; [by intros [=]|].
    destruct (f _) eqn:Hf; intros; simplify_eq/=.
    exists (others env (w_tick w) (w_db w)). split; [by apply Ho|done].
Qed.
(** An insert that succeeded found its key free. *)
Lemma yields_insert {A} ctx viol f (g : DateTime → Db → A) :
  yields P (run_now ctx (λ now, returning (insert_stmt (viol now) (f now)) (g now)))
    (λ _, ∃ d now, P d ∧ Forall (λ v, v.1 = false) (viol now d)).
Proof.
  intros env w a w' Ho Hw [Hr _]%map_errM_ok%stmt_ok. unfold returning, insert_stmt in Hr.
  destruct (filter _ _) as [|[b e] l] eqn:Hl; [|done].
  exists (others env (w_tick w) (w_db w)), (now_at env (w_tick w)). split; [by apply Ho|].
  apply Forall_forall. intros [[] e] Hv; [|done].
  exfalso. apply (not_elem_of_nil (true, e)). rewrite <- Hl. by apply list_elem_of_filter.
Qed.
End yields.

Section reads.
Context `{UuidLib, ChronoLib, Base64Lib, SerdeLib, DieselLib} (P : Db → Prop).

Lemma account_get_reads id : preserves P (account_get id).
Proof. unfold account_get. preserve. Qed.
Lemma user_get_reads id : preserves P (user_get id).
Proof. unfold user_get. preserve. Qed.
Lemma draft_get_reads id : preserves P (draft_get id).
Proof. unfold draft_get. preserve. Qed.
Lemma key_list_reads kind id : preserves P (key_list_active kind id).
Proof. unfold key_list_active, key_list_in. preserve. Qed.
Lemma article_list_reads id all size token : preserves P (article_list_by_account id all size token).
Proof.
  unfold article_list_by_account. preserve. apply preserves_mapM. intros r. apply hydrate_preserves.
Qed.
Lemma draft_list_reads id size token : preserves P (draft_list_by_account id size token).
Proof. unfold draft_list_by_account. preserve. Qed.
Lemma follow_get_reads u a : preserves P (follow_get u a).
Proof. unfold follow_get. preserve. Qed.
Lemma follow_by_user_reads u all size token : preserves P (follow_list_by_user u all size token).
Proof. unfold follow_list_by_user, follow_list. preserve. Qed.
Lemma follow_by_account_reads a all size token : preserves P (follow_list_by_account a all size token).
Proof. unfold follow_list_by_account, follow_list. preserve. Qed.
Lemma feed_get_reads u size token : preserves P (feed_get u size token).
Proof. unfold feed_get. preserve. Qed.
Lemma follow_feed_reads u size token : preserves P (follow_feed_get u size token).
Proof. unfold follow_feed_get. preserve. Qed.
Lemma account_stream_reads a size token : preserves P (account_stream a size token).
Proof.
  unfold account_stream. preserve. apply preserves_run. intros d Hd. unfold stream_query.
  by destruct (_ && _).
Qed.

(** The owner a read shows is the owner in the table. *)
Lemma article_get_shows id :
  yields P (article_get id)
    (λ x, ∃ d a, P d ∧ articles d !! id = Some a ∧ as_account_id (a_summary x) = art_account_id a).
Proof.
  eapply yields_bind; [apply preserves_conn|apply yields_true|intros _ _].
  eapply yields_bind; [preserve|apply yields_lookup|intros o (d & Hd & ->)].
  eapply yields_bind; [preserve|apply yields_some_or|intros a Ha].
  intros env w x w' Ho Hw ([sm c] & w1 & Hh & Hr)%bind_ok. exists d, a. split_and!; [done..|].
  unfold mret, M_ret in Hr. simplify_eq. cbn [a_summary]. unfold hydrate in Hh.
  apply bind_ok in Hh as ([] & w2 & _ & Hh).
  - apply bind_ok in Hh as (l & w3 & _ & Hh). apply bind_ok in Hh as (v & w4 & _ & Hh).
    unfold mret, M_ret in Hh. by simplify_eq.
  - apply bind_ok in Hh as (t & w3 & _ & Hh). unfold mret, M_ret in Hh. by simplify_eq.
Qed.
Lemma draft_get_shows id :
  yields P (draft_get id)
    (λ x, ∃ d r, P d ∧ drafts d !! id = Some r ∧ d_account_id x = dr_account_id r).
Proof.
  eapply yields_bind; [apply preserves_conn|apply yields_true|intros _ _].
  eapply yields_bind; [preserve|apply yields_lookup|intros o (d & Hd & ->)].
  intros env w x w' Ho Hw Hr. apply some_or_ok in Hr as [Hx _].
  unfold select_draft in Hx. apply fmap_Some in Hx as (r & Hr & ->). by exists d, r.
Qed.
Lemma account_create_shows new :
  yields P (account_create new) (λ _, ∃ d, P d ∧ accounts d !! nac_id new = None).
Proof.
  eapply yields_bind; [apply preserves_conn|apply yields_true|intros _ _].
  intros env w x w' Ho Hw (row & w1 & Hr & _)%bind_ok.
  apply (yields_insert P _ (λ _ d, [(present (accounts d) (nac_id new), DUnique (lit "accounts"))])
    (λ now d, set_accounts (<[nac_id new := new_account_row new now]> (accounts d)) d)
    (λ now _, new_account_row new now)) in Hr as (d & now & Hd & Hv); [|done..].
  exists d. split; [done|]. rewrite Forall_cons in Hv. cbn in Hv. apply present_false, Hv.
Qed.
Lemma user_create_shows new :
  yields P (user_create new) (λ _, ∃ d, P d ∧ users d !! nus_id new = None).
Proof.
  eapply yields_bind; [apply preserves_conn|apply yields_true|intros _ _].
  intros env w x w' Ho Hw (row & w1 & Hr & _)%bind_ok.
  apply (yields_insert P _ (λ _ d, [(present (users d) (nus_id new), DUnique (lit "users"))])
    (λ now d, set_users (<[nus_id new := new_user_row new now]> (users d)) d)
    (λ now _, new_user_row new now)) in Hr as (d & now & Hd & Hv); [|done..].
  exists d. split; [done|]. rewrite Forall_cons in Hv. cbn in Hv. apply present_false, Hv.
Qed.
End reads.

Lemma owner_allowed_eq s a scope : owner_allowed s a scope = account_allowed s a scope.
Proof.
  destruct s; try done. cbn. apply bool_decide_ext. split; [by intros [= ->]|by intros ->].
Qed.
Lemma self_or_system_eq s u scope : self_or_system s u scope = user_allowed s u scope.
Proof.
  unfold self_or_system. destruct s; cbn; rewrite ?orb_false_r; try done.
  apply bool_decide_ext. split; [by intros [= ->]|by intros ->].
Qed.

Section authorised.
Context `{UuidLib, ChronoLib, Base64Lib, UrlLib, SerdeLib, UnicodeLib, DieselLib}.
Context (settings : Settings) (time_now : M TimeError Tso) (s : Subject) (P : Db → Prop).
Abbreviation may := (authorised (set_account_bootstrap settings) (set_user_bootstrap settings) s P).
Hypothesis Hmay : ∀ w, may w → allows P w.
Hypothesis Htime : preserves P time_now.

(** A read behind a handler keeps the predicate. *)
Ltac read_keeps :=
  lazymatch goal with
  | |- preserves _ (call (accounts_get _)) => apply preserves_call, account_get_reads
  | |- preserves _ (call (users_get _)) => apply preserves_call, user_get_reads
  | |- preserves _ (call (drafts_get _)) => apply preserves_call, draft_get_reads
  | |- preserves _ (call (articles_get _)) => apply preserves_call, article_get_preserves
  | |- preserves _ (call (keys_list_active _ _)) => apply preserves_call, key_list_reads
  | |- preserves _ (call (articles_list _ _ _ _)) => apply preserves_call, article_list_reads
  | |- preserves _ (call (drafts_list _ _ _)) => apply preserves_call, draft_list_reads
  | |- preserves _ (call (follows_get _ _)) => apply preserves_call, follow_get_reads
  | |- preserves _ (call (follows_list_by_user _ _ _ _)) => apply preserves_call, follow_by_user_reads
  | |- preserves _ (call (follows_list_by_account _ _ _ _)) => apply preserves_call, follow_by_account_reads
  | |- preserves _ (call (feeds_get _ _ _)) => apply preserves_call, feed_get_reads
  | |- preserves _ (call (follow_feeds_get _ _ _)) => apply preserves_call, follow_feed_reads
  | |- preserves _ (call (streams_stream _ _ _)) => apply preserves_call, account_stream_reads
  | |- preserves _ (call (events_list _ _ _)) => apply preserves_call, event_list_preserves
  end.
#[local] Hint Extern 1 (preserves _ (call _)) => read_keeps : preserve.

Lemma active_account_keeps id : preserves P (active_account id).
Proof. unfold active_account. preserve. Qed.
Lemma active_user_keeps id : preserves P (active_user id).
Proof. unfold active_user. preserve. Qed.
#[local] Hint Resolve active_account_keeps active_user_keeps : preserve.

(** Walks through a handler, keeping the outcome of its guards. *)
Ltac walk :=
  repeat first
    [ solve [eauto 3 with preserve]
    | match goal with
      | |- preserves _ (if negb ?b then _ else _) => destruct b eqn:?; cbn [negb]
      | |- preserves _ (if ?b then _ else _) => destruct b eqn:?
      | |- preserves _ (match ?x with _ => _ end) => destruct x eqn:?
      | |- preserves _ (let _ := _ in _) => cbv zeta
      | |- preserves _ (call (articles_get ?id) ≫= _) =>
        eapply preserves_bind_yields; [eauto with preserve|apply yields_call, article_get_shows|];
        intros ? (? & ? & ? & ? & ?)
      | |- preserves _ (call (drafts_get ?id) ≫= _) =>
        eapply preserves_bind_yields; [eauto with preserve|apply yields_call, draft_get_shows|];
        intros ? (? & ? & ? & ? & ?)
      | |- preserves _ (call (accounts_create ?new) ≫= _) =>
        eapply preserves_bind_yields; [|apply yields_call, account_create_shows|intros ? ?]
      | |- preserves _ (call (users_create ?new) ≫= _) =>
        eapply preserves_bind_yields; [|apply yields_call, user_create_shows|intros ? ?]
      end
    | apply preserves_bind; [|intros ?] ].

Lemma account_handlers_keep :
  (∀ q, preserves P (create_account (set_algos settings) (set_account_bootstrap settings) s q)) ∧
  (∀ q, preserves P (update_account_rpc s q)) ∧
  (∀ q, preserves P (delete_account s q)) ∧
  (∀ q, preserves P (add_account_key (set_algos settings) s q)) ∧
  (∀ q, preserves P (revoke_account_key s q)).
Proof.
  destruct (account_writes_keep P) as (Hc & Hu & Hd). destruct (key_writes_keep P) as (Hkc & Hkr).
  split_and!; intros q.
  - unfold create_account. destruct (_ && _) eqn:Hreg; [preserve|].
    assert (registers s (set_account_bootstrap settings)) as Hr.
    { intros [Hs Hm]. by rewrite !bool_decide_eq_true_2 in Hreg. }
    walk; [by apply preserves_call, Hc, Hmay|]. apply preserves_call, Hkc, Hmay. right. by split.
  - unfold update_account_rpc. walk. by apply preserves_call, Hu, Hmay.
  - unfold delete_account. walk. by apply preserves_call, Hd, Hmay.
  - unfold add_account_key. walk. apply preserves_call, Hkc, Hmay. by left.
  - unfold revoke_account_key. walk. by apply preserves_call, Hkr, Hmay.
Qed.
Lemma user_handlers_keep :
  (∀ q, preserves P (create_user (set_algos settings) (set_user_bootstrap settings) s q)) ∧
  (∀ q, preserves P (get_user s q)) ∧
  (∀ q, preserves P (update_user_rpc s q)) ∧
  (∀ q, preserves P (delete_user s q)) ∧
  (∀ q, preserves P (add_user_key (set_algos settings) s q)) ∧
  (∀ q, preserves P (revoke_user_key s q)).
Proof.
  destruct (user_writes_keep P) as (Hc & Hu & Hd). destruct (key_writes_keep P) as (Hkc & Hkr).
  split_and!; intros q.
  - unfold create_user. destruct (_ && _) eqn:Hreg; [preserve|].
    assert (registers s (set_user_bootstrap settings)) as Hr.
    { intros [Hs Hm]. by rewrite !bool_decide_eq_true_2 in Hreg. }
    walk; [by apply preserves_call, Hc, Hmay|]. apply preserves_call, Hkc, Hmay. right. by split.
  - unfold get_user. walk.
  - unfold update_user_rpc. walk. by apply preserves_call, Hu, Hmay.
  - unfold delete_user. walk. by apply preserves_call, Hd, Hmay.
  - unfold add_user_key. walk. apply preserves_call, Hkc, Hmay. by left.
  - unfold revoke_user_key. walk. by apply preserves_call, Hkr, Hmay.
Qed.

(** The owner that was checked is the owner in the table. *)
Lemma acts_article id scope d a x :
  P d → articles d !! id = Some a → as_account_id (a_summary x) = art_account_id a →
  owner_allowed s (as_account_id (a_summary x)) scope = true → acts_on_article s P scope id.
Proof. rewrite owner_allowed_eq. intros Hd Ha -> Hal. by exists d, a. Qed.
Lemma acts_draft id scope d r x :
  P d → drafts d !! id = Some r → d_account_id x = dr_account_id r →
  owner_allowed s (d_account_id x) scope = true → acts_on_draft s P scope id.
Proof. rewrite owner_allowed_eq. intros Hd Hr -> Hal. by exists d, r. Qed.

Lemma article_handlers_keep max :
  (∀ q, preserves P (publish_article max s q)) ∧
  (∀ id, preserves P (get_article id)) ∧
  (∀ q, preserves P (list_account_articles q)) ∧
  (∀ q, preserves P (edit_article max s q)) ∧
  (∀ id reason, preserves P (tombstone_article s id reason)) ∧
  ((∀ id version reason, allows P (WRedact id version reason)) →
   ∀ id version reason, preserves P (redact_article_version id version reason)).
Proof.
  destruct (article_writes_keep P) as (Hp & He & Ht & Hr).
  split_and!.
  - intros q. unfold publish_article. walk. apply preserves_call, Hp, Hmay. cbn.
    by rewrite <- owner_allowed_eq.
  - intros id. unfold get_article. walk.
  - intros q. unfold list_account_articles. walk.
  - intros q. unfold edit_article. walk. apply preserves_call, He, Hmay. cbn. by eapply acts_article.
  - intros id reason. unfold tombstone_article. walk. apply preserves_call, Ht, Hmay. cbn. by eapply acts_article.
  - intros Hs id version reason. unfold redact_article_version. walk.
Qed.
Lemma draft_handlers_keep max :
  (∀ q, preserves P (create_draft max s q)) ∧
  (∀ id, preserves P (get_draft s id)) ∧
  (∀ q, preserves P (update_draft_rpc max s q)) ∧
  (∀ id, preserves P (delete_draft_rpc s id)) ∧
  (∀ q, preserves P (list_account_drafts s q)) ∧
  (∀ id, preserves P (publish_draft max s id)).
Proof.
  destruct (draft_writes_keep P) as (Hc & Hu & Hd & Hp).
  split_and!.
  - intros q. unfold create_draft. walk. apply preserves_call, Hc, Hmay. cbn.
    by rewrite <- owner_allowed_eq.
  - intros id. unfold get_draft. walk.
  - intros q. unfold update_draft_rpc. walk. apply preserves_call, Hu, Hmay. cbn. by eapply acts_draft.
  - intros id. unfold delete_draft_rpc. walk. apply preserves_call, Hd, Hmay. cbn. by eapply acts_draft.
  - intros q. unfold list_account_drafts. walk.
  - intros id. unfold publish_draft. walk. apply preserves_call, Hp, Hmay. cbn. by eapply acts_draft.
Qed.

(** The edge calls start with the ids of the edge, of a user the caller acts for. *)
Lemma edge_request_shows scope raw_u raw_a :
  yields P (edge_request s scope raw_u raw_a) (λ e, user_allowed s e.1 scope = true).
Proof.
  intros env w [u a] w' _ _ Hr. unfold edge_request in Hr. rpc_inv Hr. cbn.
  by rewrite <- self_or_system_eq, <- negb_false_iff.
Qed.
Lemma edge_request_keeps scope raw_u raw_a : preserves P (edge_request s scope raw_u raw_a).
Proof. unfold edge_request. walk. Qed.
Lemma reader_handlers_keep max :
  (∀ u a, preserves P (follow_rpc s u a)) ∧
  (∀ u a, preserves P (unfollow_rpc s u a)) ∧
  (∀ u a, preserves P (get_follow_rpc s u a)) ∧
  (∀ u all size token, preserves P (list_user_follows s u all size token)) ∧
  (∀ a all size token, preserves P (list_account_followers s a all size token)) ∧
  (∀ u ids, preserves P (replace_recommendation_feed s max u ids)) ∧
  (∀ u size token, preserves P (get_recommendation_feed s u size token)) ∧
  (∀ u size token, preserves P (get_follow_feed s u size token)) ∧
  (∀ a size token, preserves P (stream_account_articles s a size token)).
Proof.
  destruct (follow_writes_keep P) as (Hf & Hu).
  split_and!; intros.
  - unfold follow_rpc. eapply preserves_bind_yields; [apply edge_request_keeps|apply edge_request_shows|].
    intros [u' a'] Hal. walk. by apply preserves_call, Hf, Hmay.
  - unfold unfollow_rpc. eapply preserves_bind_yields; [apply edge_request_keeps|apply edge_request_shows|].
    intros [u' a'] Hal. walk. by apply preserves_call, Hu, Hmay.
  - unfold get_follow_rpc. apply preserves_bind; [apply edge_request_keeps|]. intros [u' a']. walk.
  - unfold list_user_follows. walk.
  - unfold list_account_followers. walk.
  - unfold replace_recommendation_feed. walk. by apply preserves_call, feed_replace_keeps, Hmay.
  - unfold get_recommendation_feed. walk.
  - unfold get_follow_feed. walk.
  - unfold stream_account_articles. walk.
Qed.

(** Who may submit an event may submit it for its user. *)
Lemma prepared_for req now r :
  is_authorized_writer s = true → prepare_event s req now = Ok r →
  user_allowed s (er_user_id r) "events.write" = true.
Proof.
  intros Hwr Hv%prepare_event_spec. unfold is_authorized_writer in Hwr. unfold user_allowed.
  destruct s as [u k| | |]; [|done..]. apply bool_decide_eq_true. symmetry. by eapply ve_owner.
Qed.
Lemma event_handlers_keep max :
  (∀ q, preserves P (record_event s time_now q)) ∧
  (∀ q, preserves P (record_event_batch s time_now max q)) ∧
  (∀ q, preserves P (list_events s q)).
Proof.
  destruct (event_writes_keep P) as (Hr & Hb). pose proof (preserves_tso_now time_now P Htime) as Hnow.
  split_and!; intros q.
  - unfold record_event. destruct (is_authorized_writer s) eqn:Hwr; cbn [negb]; [|preserve].
    apply preserves_bind; [done|intros now].
    eapply preserves_bind_yields; [preserve|apply yields_check|intros r Hok]. walk.
    apply preserves_call, Hr, Hmay. intros r' ->%list_elem_of_singleton. eapply prepared_for; [exact Hwr|exact Hok].
  - unfold record_event_batch. destruct (is_authorized_writer s) eqn:Hwr; cbn [negb]; [|preserve].
    destruct (bool_decide _); [preserve|]. destruct (_ <? _); [preserve|].
    apply preserves_bind; [done|intros now].
    eapply preserves_bind_yields; [preserve|apply yields_check|intros l Hok%try_map_ok]. walk.
    apply preserves_call, Hb, Hmay. intros r' [i Hi]%list_elem_of_lookup.
    destruct (Forall2_lookup_r _ _ _ _ _ Hok Hi) as (x & _ & Hx). eapply prepared_for; [exact Hwr|exact Hx].
  - unfold list_events. walk.
Qed.

(** Every write of every handler is one the policy permits, so what permitted writes keep,
    the handler keeps; the redaction is the one handler that leaves its check to the layer
    in front. *)
Lemma handle_keeps m (q : MessageOf m) :
  (m = OnRest RedactArticleVersion → ∀ id v reason, allows P (WRedact id v reason)) →
  preserves P (handle settings time_now s m q).
Proof.
  intros Hredact.
  destruct account_handlers_keep as (? & ? & ? & ? & ?).
  destruct user_handlers_keep as (? & ? & ? & ? & ? & ?).
  destruct (article_handlers_keep (set_content_max_bytes settings)) as (? & ? & ? & ? & ? & ?).
  destruct (draft_handlers_keep (set_content_max_bytes settings)) as (? & ? & ? & ? & ? & ?).
  destruct (reader_handlers_keep (set_replace_max_items settings)) as (? & ? & ? & ? & ? & ? & ? & ? & ?).
  destruct (event_handlers_keep (set_batch_max_items settings)) as (? & ? & ?).
  destruct m as [[]| | | |]; cbn [handle handle_rest]; auto.
  - apply preserves_bind; [auto|]. intros [ac k]. apply preserves_ret.
  - unfold get_account. walk.
  - apply preserves_bind; [auto|]. intros [u k]. apply preserves_ret.
  - apply preserves_bind; [auto|]. intros page. apply preserves_ret.
  - apply preserves_bind; [auto|]. intros page. apply preserves_ret.
  - apply preserves_bind; [auto|]. intros page. apply preserves_ret.
  - apply preserves_throw.
Qed.
End authorised.
