(* ===== verification/Doors.v ===== *)
(** * The assembled server ([headlines-server/src/main.rs])

    The public listener and the REST gateway in front of the methods, over the Postgres
    resolver and the nonce store; histories of requests on both; and what follows for the
    whole: the integrity of the database, and who can change what. *)

From S2P Require Import Prelude Libs Instances Subject AuthTable Errors Tso TimeSource Nonce Wire Strategy Interceptor Db Paging Articles Drafts Follows Accounts Feeds Events Content Rpc AccountService ArticleService ReaderServices EventService Rest Gateway Resolver Net Config Writes Policy Server.

(** ** Paths *)

Lemma route_path path m : route path = Some m → rpc_path m = path.
Proof.
  unfold route. intros Hr. destruct (filter _ all_methods) as [|m' l] eqn:Hf; [done|].
  injection Hr as <-. assert (m' ∈ filter (λ m, rpc_path m = path) all_methods) as Hin by (rewrite Hf; by left).
  by apply list_elem_of_filter in Hin as [? _].
Qed.
Lemma all_methods_complete m : m ∈ all_methods.
Proof. destruct m as [r| | | |]; [destruct r as [| | | | | | | | | | | | | | | | | | | | | | | | | | | | | | | |r]; [..|destruct r]|..]; apply (bool_decide_unpack _); vm_compute; exact I. Qed.
Lemma redact_permitted s :
  reaches s (rpc_path (OnRest RedactArticleVersion)) → scoped_system s "articles.redact" = true.
Proof.
  intros (spec & Hl & Ha).
  assert (table_lookup AUTH_TABLE (rpc_path (OnRest RedactArticleVersion)) =
          Some {| allowed := [CSystem]; spec_scopes := [lit "articles.redact"] |}) as Hspec
    by (vm_compute; reflexivity).
  rewrite Hspec in Hl. injection Hl as <-. clear Hspec. apply is_allowed_spec in Ha as [Hc Hs].
  destruct s as [| |sys k scopes|]; cbn [class allowed spec_scopes] in *; set_solver.
Qed.

(** ** The doors *)

Definition fault_status `{UuidLib, ChronoLib, ErrorDetailsLib} (f : Fault) : GrpcStatus :=
  match f with
  | Domain e => on_wire e
  | Denied msg => bare_status CPermissionDenied msg
  end.

(** The resolver's answer, as the strategy sees it. *)
#[export] Instance resolved_answer : KeyResolver (result ResolveError ResolvedKey) := λ answer _, answer.

(** What comes in from outside. *)
Inductive Incoming : Type :=
  | ToGrpc (req : Request)
  | ToRest (where_ : Route) (rq : HttpRequest).

Section doors.
Context `{UuidLib, ChronoLib, Base64Lib, CryptoLib, UrlLib, SerdeLib, UnicodeLib, DieselLib,
          GatewayLib, TonicTypesLib, ErrorDetailsLib}.
Context {T N : Type} `{TimeSource T, NonceStoreI N}.
(** The configuration, the readings of the time source, [prost]'s decoding of a body, the
    deserialiser of [Subject] and the gateway's document. *)
Context (settings : Settings) (clock_at : Env → World → T) (clock_now : Env → World → result TimeError Tso).
Context (decode_message : ∀ m, result () bytes → result GrpcStatus (MessageOf m)).
Context (from_json : str → option Subject) (openapi : Json).

(** The time source is in memory. *)
Definition time_now : M TimeError Tso := λ env w,
  (clock_now env w, mkWorld (w_db w) (S (w_tick w))).

(** The strategy over the Postgres resolver, with the database and the nonce store. *)
Definition pg_strategy (env : Env) (st : World * N) (parts : SignedRequestParts) :
    result AuthError Subject * (World * N) :=
  let (key, w) := pg_resolve (srp_key_id parts) env st.1 in
  let self := {| srs_resolver := key; srs_algos := set_algos settings;
                 srs_time_source := clock_at env w |} in
  let (r, store) := authenticate self st.2 parts in
  (r, (w, store)).

(** The routers of the ten services; [subject_from] is anonymous without an extension. *)
Definition grpc_service (seen : Request) : M GrpcStatus {m : Method & ReplyOf m} :=
  match route (rq_path seen) with
  | None => throw (bare_status CUnimplemented [])
  | Some m =>
    message ← lift (decode_message m (rq_body seen));
    reply ← map_errM fault_status
              (handle settings time_now (default Anonymous (rq_subject seen)) m message);
    mret (existT m reply)
  end.

(** The public listener: the layers, then the routers. *)
Definition public_listener (env : Env) (st : World * N) (req : Request) :
    Response (result GrpcStatus {m : Method & ReplyOf m}) * (World * N) * list str :=
  match public_stack (pg_strategy env) ProtoBodyHasher (table_lookup AUTH_TABLE) (λ seen, seen)
          st req with
  | (FromService seen, (w, store), labels) =>
    let (r, w) := grpc_service seen env w in (FromService r, (w, store), labels)
  | (UnauthResponse msg, st, labels) => (UnauthResponse msg, st, labels)
  | (Deny msg, st, labels) => (Deny msg, st, labels)
  end.

(** The REST gateway over the trusted listener. *)
Definition rest_service (env : Env) (s : Subject) (r : Rpc) (q : RequestOf r) (st : World * N) :
    result GrpcStatus (ResponseOf r) * (World * N) :=
  let (reply, w) := map_errM fault_status (handle_rest settings time_now s r q) env st.1 in
  (reply, (w, st.2)).
Definition rest_gateway (env : Env) : GatewayState (World * N) :=
  rest_server (pg_strategy env) from_json (table_lookup AUTH_TABLE) rest_path (rest_service env).

(** The state after a request, and after a history of them. *)
Definition receive (env : Env) (st : World * N) (i : Incoming) : World * N :=
  match i with
  | ToGrpc req => (public_listener env st req).1.2
  | ToRest where_ rq => (respond (rest_gateway env) openapi where_ rq st).2
  end.
Fixpoint serve_all (l : list (Env * Incoming)) (st : World * N) : World * N :=
  match l with
  | [] => st
  | (env, i) :: l => serve_all l (receive env st i)
  end.

(** What the strategy can be asked to check for a request, and when it is not asked. *)
Definition credential (i : Incoming) (parts : SignedRequestParts) : Prop :=
  match i with
  | ToGrpc req => ∃ value parsed body hash,
      mjoin (header_get AUTHORIZATION (rq_headers req)) = Some value ∧
      parse_authorization_header value = Ok parsed ∧
      rq_body req = Ok body ∧ ProtoBodyHasher body = Ok hash ∧
      parts = signed_parts req parsed hash
  | ToRest _ rq => ∃ value parsed message,
      header_get AUTHORIZATION (h_headers rq) = Some (Some value) ∧
      parse_authorization_header value = Ok parsed ∧ parts = rest_parts rq parsed message
  end.
Definition unidentified (i : Incoming) : Prop :=
  match i with
  | ToGrpc req => mjoin (header_get AUTHORIZATION (rq_headers req)) = None
  | ToRest _ rq => header_get AUTHORIZATION (h_headers rq) = None
  end.

(** *** What a request comes to *)

#[local] Opaque AUTH_TABLE.

Lemma map_errM_world {E F A} (f : E → F) (m : M E A) env w : (map_errM f m env w).2 = (m env w).2.
Proof. unfold map_errM. by destruct (m env w) as [[?|?] ?]. Qed.
Lemma probe_reads P kind table c1 c2 key_id subject p :
  (∀ u, preserves P (subject u)) → preserves P (probe kind table c1 c2 key_id subject p).
Proof.
  intros Hs. unfold probe.
  apply preserves_bind; [by apply preserves_map_err, preserves_optional, preserves_stmt, first_row_preserves|intros [row|]].
  - apply preserves_bind; [apply Hs|intros s0]. apply preserves_bind; [apply preserves_lift|intros k]. apply preserves_ret.
  - apply preserves_bind; [by apply preserves_map_err, preserves_optional, preserves_stmt, first_row_preserves|intros o]. apply preserves_ret.
Qed.
Lemma pg_resolve_reads P key_id : preserves P (pg_resolve key_id).
Proof.
  assert (Hprobe : ∀ kind table c1 c2 subject p, (∀ u, preserves P (subject u)) →
            preserves P (probe kind table c1 c2 key_id subject p)) by (intros; by apply probe_reads).
  unfold pg_resolve. apply preserves_bind; [apply preserves_map_err, preserves_conn|intros _].
  apply preserves_bind; [apply Hprobe; intros; apply preserves_ret|intros p1].
  apply preserves_bind; [apply Hprobe; intros; apply preserves_ret|intros p2].
  apply preserves_bind.
  - apply Hprobe. intros u. apply preserves_bind; [by apply preserves_map_err, preserves_stmt, query_preserves|intros sc; apply preserves_ret].
  - intros p3. destruct (active_matches p3) as [|[t k] [|]];
      [destruct (nonactive_tables p3)| |]; first [apply preserves_ret|apply preserves_throw].
Qed.
Lemma pg_strategy_keeps (P : Db → Prop) env st parts :
  (∀ n d, P d → P (others env n d)) → P (w_db st.1) → P (w_db (pg_strategy env st parts).2.1).
Proof.
  intros Ho Hw. unfold pg_strategy. pose proof (pg_resolve_reads P (srp_key_id parts) env st.1 Ho Hw) as Hr.
  destruct (pg_resolve _ env st.1) as [key w]. by destruct (authenticate _ _ _) as [r store].
Qed.

(** How a request got in: as nobody, or as whom the strategy said. *)
Definition entered (env : Env) (st : World * N) (i : Incoming) (subject : Subject) (st1 : World * N) :
    Prop :=
  (unidentified i ∧ subject = Anonymous ∧ st1 = st) ∨
  ∃ parts, credential i parts ∧ pg_strategy env st parts = (Ok subject, st1).

Hypothesis Hjson : ∀ subject json, subject_to_json subject = Ok json → from_json json = Some subject.

Lemma grpc_service_cases env w seen subject :
  rq_subject seen = Some subject →
  (grpc_service seen env w).2 = w ∨
  ∃ m q, rpc_path m = rq_path seen ∧
    (grpc_service seen env w).2 = (handle settings time_now subject m q env w).2.
Proof.
  intros Hs. unfold grpc_service. rewrite Hs. cbn [from_option]. change (id subject) with subject.
  destruct (route (rq_path seen)) as [m|] eqn:Hr; [|by left]. apply route_path in Hr.
  destruct (decode_message m (rq_body seen)) as [q|e]; [|by left]. right. exists m, q. split; [done|].
  rewrite <- (map_errM_world fault_status). unfold mbind at 1, M_bind, lift. unfold mbind, M_bind.
  by destruct (map_errM fault_status (handle settings time_now subject m q) env w) as [[?|?] ?].
Qed.
Lemma receive_cases env st i :
  receive env st i = st ∨
  (∃ parts, receive env st i = (pg_strategy env st parts).2) ∨
  ∃ subject st1, entered env st i subject st1 ∧
    (receive env st i = st1 ∨
     ∃ m q, reaches subject (rpc_path m) ∧
       receive env st i = ((handle settings time_now subject m q env st1.1).2, st1.2)).
Proof.
  destruct i as [req|where_ rq]; cbn [receive].
  - unfold public_listener.
    pose proof (public_stack_cases (pg_strategy env) ProtoBodyHasher (table_lookup AUTH_TABLE) st req) as Hc.
    destruct (public_stack _ _ _ _ _ _) as [[[seen|msg|msg] st1] labels].
    + destruct Hc as (subject & spec & Hsub & Hid & Hl & Ha & _ & Hp). right; right.
      assert (Hreach : reaches subject (rq_path req)) by (exists spec; split; [exact Hl|exact Ha]).
      clear Hl Ha. exists subject, st1. split.
      { destruct Hid as [Hh|value parsed body hash sub st2 Hh Hpa Hb Hha Hst].
        - left. split; [exact Hh|split; reflexivity].
        - right. exists (signed_parts req parsed hash). split; [|exact Hst].
          exists value, parsed, body, hash. split_and!; first [assumption|reflexivity]. }
      destruct st1 as [w store].
      destruct (grpc_service_cases env w seen subject Hsub) as [Hg|(m & q & Hm & Hg)];
        destruct (grpc_service seen env w) as [r w']; cbn [fst snd] in *; subst w'; [left; reflexivity|right].
      exists m, q. split; [|reflexivity]. rewrite Hm, Hp. exact Hreach.
    + cbn. destruct Hc as [->|(v & p & b & h & _ & _ & _ & _ & ->)]; [by left|by right; left; eexists].
    + cbn. destruct Hc as [->|(v & p & b & h & _ & _ & _ & _ & ->)]; [by left|by right; left; eexists].
  - unfold respond.
    destruct (serve_one_call (rest_gateway env) openapi rq where_) as
      [->|[->|(r & [[e Hres]|(message & render & Hcall)])]]; [by left|by left|by rewrite Hres; left|].
    rewrite Hcall.
    destruct (forward (rest_gateway env) rq r message st) as [fres st2] eqn:Hf.
    apply forward_spec in Hf as [[Hauth [e ->]]|(reply & Hserved & ->)]; [| |exact Hjson].
    + cbn. destruct Hauth as [->|[parts ->]]; [by left|right; left; by eexists].
    + right; right. destruct Hserved as (subject & spec & st1 & Hid & Hl & Ha & Hrun).
      assert (Hreach : reaches subject (rest_path r)) by (exists spec; split; [exact Hl|exact Ha]).
      clear Hl Ha. exists subject, st1. split.
      { destruct Hid as [Hh|value parsed parts sub s1 Hh Hp ? ? ? ? ? ? ? ? ? Hst].
        - left. split; [exact Hh|split; reflexivity].
        - right. exists parts. split; [|exact Hst]. exists value, parsed, (encode_to_vec r message).
          split_and!; [exact Hh|exact Hp|]. destruct parts. cbn in *. subst. reflexivity. }
      right. exists (OnRest r), message. split; [exact Hreach|]. unfold rest_service in Hrun.
      rewrite (surjective_pairing (map_errM _ _ _ _)), map_errM_world in Hrun.
      injection Hrun as <- <-. destruct (map_errM _ _ _ _).1; reflexivity.
Qed.

(** Nobody is let in on the request's credentials: it is answered as unauthenticated, on the
    public listener always, on the gateway when it reads as the call of a method (what does
    not is refused as such before, and the two constant routes answer everybody); and through
    either door it changes nothing. *)
Definition locked_out (env : Env) (st : World * N) (i : Incoming) : Prop :=
  (∀ subject st1, ¬ entered env st i subject st1) ∧
  (∀ req, i = ToGrpc req → ∃ msg, (public_listener env st req).1.1 = UnauthResponse msg) ∧
  (∀ where_ rq, i = ToRest where_ rq → is_Some (route_rpc where_) → reads_as_call rq where_ →
     (respond (rest_gateway env) openapi where_ rq st).1.1 = 401) ∧
  ∀ P : Db → Prop, (∀ n d, P d → P (others env n d)) → P (w_db st.1) → P (w_db (receive env st i).1).
Lemma refused_locked_out env st i :
  (∃ parts, credential i parts) →
  (∀ parts, credential i parts → ∃ e st', pg_strategy env st parts = (Err e, st')) →
  locked_out env st i.
Proof.
  intros [parts0 Hc0] Hrefused.
  assert (Hno : ∀ subject st1, ¬ entered env st i subject st1).
  { intros subject st1 [(Hun & _ & _)|(parts & Hc & Hs)].
    - destruct i as [req|where_ rq]; [destruct Hc0 as (value & ? & ? & ? & Hh & _)|destruct Hc0 as (value & ? & ? & Hh & _)];
        cbn in Hun; congruence.
    - destruct (Hrefused parts Hc) as (e & st' & He). congruence. }
  split; [exact Hno|]. split; [|split].
  - intros req ->. destruct (Hrefused parts0 Hc0) as (e & st' & Hs).
    destruct Hc0 as (value & parsed & body & hash & Hh & Hp & Hb & Hha & ->).
    exists (auth_error_display e). unfold public_listener.
    erewrite public_stack_refuses; [|exact Hh|exact Hp|exact Hb|exact Hha|exact Hs]. reflexivity.
  - intros where_ rq -> [r Hr] Hread. destruct Hc0 as (value & parsed & _ & Hh & Hp & _).
    destruct (serve_reads (rest_gateway env) openapi rq where_ r Hr Hread) as (message & render & Hcall).
    destruct (Hrefused (rest_parts rq parsed (encode_to_vec r message))) as (e & st' & Hs).
    { by exists value, parsed, (encode_to_vec r message). }
    unfold respond. rewrite Hcall.
    rewrite (forward_refused (rest_gateway env) rq r message value parsed st e st' Hh Hp Hs). reflexivity.
  - intros P HoP HP. destruct (receive_cases env st i) as [->|[[parts ->]|(subject & st1 & Hent & _)]];
      [exact HP|by apply pg_strategy_keeps|by destruct (Hno subject st1)].
Qed.

(** A history keeps a predicate when everybody who gets in may only write what it allows. *)
Abbreviation account_mode := (set_account_bootstrap settings).
Abbreviation user_mode := (set_user_bootstrap settings).
Lemma serve_all_keeps (P : Db → Prop) (l : list (Env * Incoming)) st :
  (∀ env i, (env, i) ∈ l → ∀ n d, P d → P (others env n d)) →
  (∀ env i st subject st1, (env, i) ∈ l → P (w_db st.1) → entered env st i subject st1 →
     ∀ w, authorised account_mode user_mode subject P w → allows P w) →
  P (w_db st.1) → P (w_db (serve_all l st).1).
Proof.
  revert st. induction l as [|[env i] l IH]; intros st Ho Hin Hw; [done|]. cbn [serve_all].
  assert (Hoe : ∀ n d, P d → P (others env n d)) by (by eapply Ho; left).
  apply IH; [by intros; eapply Ho; [right|]|by intros; eapply Hin; [right| | |]|].
  destruct (receive_cases env st i) as [->|[[parts ->]|(subject & st1 & Hent & Hr)]];
    [done|by apply pg_strategy_keeps|].
  assert (Hst1 : P (w_db st1.1)).
  { destruct Hent as [(_ & _ & ->)|(parts & _ & Hs)]; [done|].
    pose proof (pg_strategy_keeps P env st parts Hoe Hw) as Hk. by rewrite Hs in Hk. }
  destruct Hr as [->|(m & q & Hreach & ->)]; [done|]. cbn [fst].
  assert (Hmay := Hin env i st subject st1 ltac:(by left) Hw Hent).
  apply (handle_keeps settings time_now subject P Hmay); [by intros env' w' _ ?| |done|done].
  intros -> id v reason. apply Hmay. cbn. by apply redact_permitted.
Qed.
End doors.

(** ** Integrity *)

Section integrity.
Context `{UuidLib, ChronoLib, Base64Lib, UrlLib, SerdeLib, UnicodeLib, DieselLib}.

(** What every write keeps, every handler keeps. *)
Lemma handle_effects (P : Db → Prop) settings clock s m (q : MessageOf m) :
  (∀ w, allows P w) → preserves P (handle settings (time_now clock) s m q).
Proof. intros HP. apply handle_keeps; [intros; apply HP|by intros env w _ ?|intros; apply HP]. Qed.
Lemma inv_allowed w : allows db_inv w.
Proof. intros d d' Hd Heff. by eapply effect_inv. Qed.
Lemma retained_allowed d0 w : allows (retained d0) w.
Proof. intros d d' Hd Heff. etrans; [exact Hd|by eapply effect_retained]. Qed.

(** Everybody else keeps the records. *)
Definition others_retain (env : Env) : Prop := ∀ n d, retained d (others env n d).

(** C9. No RPC of anybody, permitted or not, breaks the database: each one keeps the invariants
    of the article tables, of accounts, users and keys, of the follow edges, of the drafts
    and of the event log together, and loses no account, user, key, article, version, edge
    or event; deletions, revocations and tombstones stay, and a key keeps its material. This
    holds whatever fails at any statement, and however such requests interleave. *)
Theorem rpcs_keep_integrity settings clock s m (q : MessageOf m) d0 :
  preserves db_inv (handle settings (time_now clock) s m q) ∧
  preserves (retained d0) (handle settings (time_now clock) s m q).
Proof.
  split; apply handle_effects; [apply inv_allowed|apply retained_allowed].
Qed.

(** The routers and the authorization table cover the same methods: every path of the table
    is routed to the method of that path and every method has its entry, so no RPC is refused
    for want of an entry and no entry lacks a handler. *)
Theorem routes_match_table :
  (∀ m, route (rpc_path m) = Some m ∧ is_Some (table_lookup AUTH_TABLE (rpc_path m))) ∧
  (∀ path, path ∈ AUTH_TABLE.*1 → ∃ m, route path = Some m ∧ rpc_path m = path).
Proof.
  assert (Hm : forallb (λ m, bool_decide (route (rpc_path m) = Some m) &&
                 bool_decide (is_Some (table_lookup AUTH_TABLE (rpc_path m)))) all_methods = true)
    by (vm_compute; reflexivity).
  assert (Ht : forallb (λ path, bool_decide (is_Some (route path))) AUTH_TABLE.*1 = true)
    by (vm_compute; reflexivity).
  rewrite forallb_forall in Hm, Ht. split.
  - intros m. assert (m ∈ all_methods) as Hin by apply all_methods_complete.
    apply list_elem_of_In, Hm, andb_true_iff in Hin as [Hr Hl].
    split; eapply bool_decide_eq_true_1; [exact Hr|exact Hl].
  - intros path Hp. apply list_elem_of_In, Ht, bool_decide_eq_true_1 in Hp as [m Hr].
    exists m. split; [exact Hr|]. apply route_path, Hr.
Qed.
End integrity.

(** ** Who can change what *)

(** What a policy asks is monotone in the databases it may have looked at. *)
Lemma authorised_mono am um s (P P' : Db → Prop) w :
  (∀ d, P d → P' d) → authorised am um s P w → authorised am um s P' w.
Proof.
  intros HP. assert (Ha : ∀ scope id, acts_on_article s P scope id → acts_on_article s P' scope id).
  { intros scope id (d & a & ? & ? & ?). exists d, a. auto. }
  assert (Hd : ∀ scope id, acts_on_draft s P scope id → acts_on_draft s P' scope id).
  { intros scope id (d & a & ? & ? & ?). exists d, a. auto. }
  destruct w; cbn [authorised]; auto.
  destruct (nk_kind new); [| |done]; (intros [?|[? (d & ? & ?)]]; [by left|right]); eauto.
Qed.
Lemma effect_systems `{DieselLib} w d d' : effect w d d' → system_keys d' = system_keys d.
Proof.
  intros Heff. destruct Heff as [| | | | | |new now d Hk _|kind p k now d Hk| | | |id v reason now d a row| | | | | | | | |];
    try done; [by destruct (nk_kind new)|by destruct kind|by destruct (_ && _)].
Qed.

(** What stays in place around an owner: its rows, the order of the key tables, and the
    systems' keys. *)
Definition guarded (o : Owner) (d0 d : Db) : Prop :=
  same_owner o d0 d ∧ identity_inv d ∧ system_keys d = system_keys d0.
Lemma stranger_guarded `{DieselLib} am um s o d0 w :
  stranger s o → exists_owner o d0 →
  authorised am um s (guarded o d0) w → allows (guarded o d0) w.
Proof.
  intros Hs Hex Hw d d' (Hd & Hi & Hsys) Heff. split_and!.
  - apply (authorised_mono _ _ _ _ (same_owner o d0)) in Hw; [|by intros ? []].
    by eapply stranger_keeps.
  - by eapply effect_identity.
  - by rewrite (effect_systems _ _ _ Heff).
Qed.

(** The owner's rows of a key table. *)
Definition owner_key (o : Owner) (kind : KeyKind) (owner : Uuid) : Prop :=
  match o with
  | OwnerAccount a => kind = KAccount ∧ owner = a
  | OwnerUser u => kind = KUser ∧ owner = u
  end.
Lemma guarded_keys o d0 d kind pk r :
  guarded o d0 d → keys_of kind d !! pk = Some r → kind = KSystem ∨ owner_key o kind pk.1 →
  keys_of kind d0 !! pk = Some r.
Proof.
  intros (Hd & _ & Hsys) Hr. destruct pk as [p k]. cbn [fst]. intros [->|Ho].
  - cbn in *. by rewrite <- Hsys.
  - destruct o; destruct Ho as [-> ->]; cbn in *.
    + by rewrite <- (sa_keys _ _ _ Hd).
    + by rewrite <- (su_keys _ _ _ Hd).
Qed.

Section resolving.
Context `{UuidLib, Base64Lib, DieselLib} (P : Db → Prop) (key_id : Uuid).

(** Whom an active row authenticates as. *)
Definition speaks_as (kind : KeyKind) (owner : Uuid) (s : Subject) : Prop :=
  match kind with
  | KAccount => s = Subject.Account owner key_id
  | KUser => s = Subject.User owner key_id
  | KSystem => ∃ scopes, s = Subject.System owner key_id scopes
  end.
(** A resolved key is an active row of a key table. *)
Definition resolved_from (k : ResolvedKey) : Prop :=
  ∃ kind d pk r, P d ∧ keys_of kind d !! pk = Some r ∧ key_key_id r = key_id ∧
    key_status r = lit "active" ∧ rk_algo k = key_algo r ∧
    b64_decode (key_public_key r) = Ok (rk_public_key k) ∧ speaks_as kind (key_owner r) (rk_subject k).
Definition all_from (p : Probed) : Prop := ∀ m, m ∈ active_matches p → resolved_from m.2.

Lemma probe_shows kind table c1 c2 subject p :
  (∀ u, preserves P (subject u)) → (∀ u, yields P (subject u) (speaks_as kind u)) →
  all_from p → yields P (probe kind table c1 c2 key_id subject p) all_from.
Proof.
  intros Hkeep Hspeak Hp. unfold probe.
  eapply yields_bind; [by apply preserves_map_err, preserves_optional, preserves_stmt, first_row_preserves
                      |apply yields_lookup|intros [row|] (d & Hd & Hrow)].
  - eapply yields_bind; [apply Hkeep|apply Hspeak|intros s Hs].
    intros env w p' w' Ho Hw (key & w1 & Hk & Hr)%bind_ok.
    unfold mret, M_ret in Hr. simplify_eq. unfold lift in Hk.
    destruct (b64_decode (key_public_key row)) as [bytes|e] eqn:Hb; [|done]. cbn in Hk. simplify_eq.
    intros m [Hm|Hm%list_elem_of_singleton]%elem_of_app; [by apply Hp|subst m].
    symmetry in Hrow. apply head_Some_elem_of, active_key_rows_elem in Hrow as [[Hid Hst] [pk Hpk]].
    exists kind, d, pk, row. by split_and!.
  - intros env w p' w' Ho Hw (o & w1 & _ & Hr)%bind_ok. unfold mret, M_ret in Hr. simplify_eq.
    by destruct (bool_decide (is_Some o)).
Qed.
Lemma pg_resolve_shows : yields P (pg_resolve key_id) resolved_from.
Proof.
  assert (Hprobe : ∀ kind table c1 c2 subject p, (∀ u, preserves P (subject u)) →
            preserves P (probe kind table c1 c2 key_id subject p)) by (intros; by apply probe_reads).
  assert (Hscopes : ∀ u, preserves P (scopes ← rrun "select system_scopes" (query (scopes_of u));
                                     mret (Subject.System u key_id scopes))).
  { intros u. apply preserves_bind; [by apply preserves_map_err, preserves_stmt, query_preserves|]. intros; apply preserves_ret. }
  unfold pg_resolve.
  eapply yields_bind; [apply preserves_map_err, preserves_conn|apply yields_true|intros _ _].
  eapply yields_bind; [apply Hprobe; intros; apply preserves_ret|apply probe_shows; [intros; apply preserves_ret| |]|intros p1 H1'].
  { intros u env w s w' _ _ Hr. unfold mret, M_ret in Hr. by simplify_eq. }
  { intros m Hm. by apply not_elem_of_nil in Hm. }
  eapply yields_bind; [apply Hprobe; intros; apply preserves_ret|apply probe_shows; [intros; apply preserves_ret| |done]|intros p2 H2'].
  { intros u env w s w' _ _ Hr. unfold mret, M_ret in Hr. by simplify_eq. }
  eapply yields_bind; [apply Hprobe, Hscopes|apply probe_shows; [apply Hscopes| |done]|intros p3 H3'].
  { intros u env w s w' _ _ (sc & w1 & _ & Hr)%bind_ok. unfold mret, M_ret in Hr. simplify_eq. by exists sc. }
  intros env w k w' _ _ Hr. destruct (active_matches p3) as [|[t k'] [|]] eqn:Hm.
  - by destruct (nonactive_tables p3).
  - unfold mret, M_ret in Hr. simplify_eq. apply (H3' (t, k)). rewrite Hm. by left.
  - done.
Qed.
End resolving.

Section histories.
Context `{UuidLib, ChronoLib, Base64Lib, CryptoLib, UrlLib, SerdeLib, UnicodeLib, DieselLib,
          GatewayLib, TonicTypesLib, ErrorDetailsLib}.
Context {T N : Type} `{TimeSource T, NonceStoreI N}.
Context (settings : Settings) (clock_at : Env → World → T) (clock_now : Env → World → result TimeError Tso).
Context (decode_message : ∀ m, result () bytes → result GrpcStatus (MessageOf m)).
Context (from_json : str → option Subject) (openapi : Json).
Abbreviation served :=
  (serve_all settings clock_at clock_now decode_message from_json openapi).

(** The request is signed with a key of the owner, or of a system, that is active in this
    database: for what the strategy is asked to check, an enabled algorithm verifies the
    canonical string under it. *)
Definition signed_for (o : Owner) (d : Db) (i : Incoming) : Prop :=
  ∃ parts kind pk r key algo, credential i parts ∧
    keys_of kind d !! pk = Some r ∧ key_key_id r = srp_key_id parts ∧ key_status r = lit "active" ∧
    (kind = KSystem ∨ owner_key o kind pk.1) ∧
    key_algo r = srp_algo parts ∧ set_algos settings !! srp_algo parts = Some algo ∧
    b64_decode (key_public_key r) = Ok key ∧
    alg_verify algo key (as_bytes (build_canonical_string parts)) (srp_signature parts) = Ok ().

(** Without such a signature, whoever the strategy lets in is a stranger. *)
Lemma unsigned_stranger env st i subject st1 o d0 :
  (∀ n d, guarded o d0 d → guarded o d0 (others env n d)) → guarded o d0 (w_db st.1) →
  ¬ signed_for o d0 i → entered settings clock_at env st i subject st1 → stranger subject o.
Proof.
  intros Ho Hw Hno [(_ & -> & _)|(parts & Hc & Hs)]; [by destruct o|].
  unfold pg_strategy in Hs. destruct (pg_resolve (srp_key_id parts) env st.1) as [key w] eqn:Hres.
  set (self := {| srs_resolver := key; srs_algos := _; srs_time_source := _ |}) in Hs.
  destruct (authenticate self st.2 parts) as [r store] eqn:Hauth. injection Hs as -> <-.
  unfold authenticate in Hauth. destruct (check_request self parts) as [sub|e] eqn:Hcheck; [|done].
  destruct (record_nonce _ _ _ _) as [[[]|e] store'] eqn:Hrec; [|done]. injection Hauth as -> _.
  apply check_request_ok in Hcheck as (k & algo & [Hk Halgo Hen Hsig _] & ->).
  unfold self in *. cbn in Hk, Hen. unfold resolve, resolved_answer in Hk. subst key.
  destruct (pg_resolve_shows (guarded o d0) (srp_key_id parts) env st.1 k w Ho Hw Hres)
    as (kind & d & pk & row & Hd & Hrow & Hid & Hst & Hka & Hb & Hspeak).
  assert (Hown : key_owner row = pk.1) by apply (ii_keys d (proj1 (proj2 Hd)) kind pk row Hrow).
  rewrite Hown in Hspeak.
  assert (Hkeys : kind = KSystem ∨ owner_key o kind pk.1 → False).
  { intros Hkind. apply Hno. exists parts, kind, pk, row, (rk_public_key k), algo. split_and!; try done.
    - by eapply guarded_keys.
    - congruence. }
  destruct kind; cbn in Hspeak.
  - rewrite Hspeak. destruct o as [a|u]; [|done]. intros scope. cbn. apply bool_decide_eq_false.
    intros Heq. apply Hkeys. right. by split.
  - rewrite Hspeak. destruct o as [a|u]; [done|]. intros scope. cbn. apply bool_decide_eq_false.
    intros Heq. apply Hkeys. right. by split.
  - exfalso. apply Hkeys. by left.
Qed.

(** C5. Only its own keys, and systems, change what belongs to an account or a user: through a
    history of requests of any kind, on the public listener and through the REST gateway,
    none of which is signed with an active key of the owner or of a system, every row of the
    owner stays as it was and none is added in its name: profile and keys, articles with all
    versions, drafts; profile and keys, follows, recommendations, events. *)
Theorem owners_rows_need_their_key o l st :
  (∀ subject json, subject_to_json subject = Ok json → from_json json = Some subject) →
  let d0 := w_db st.1 in
  identity_inv d0 → exists_owner o d0 →
  (∀ env i, (env, i) ∈ l → (∀ n d, guarded o d0 d → guarded o d0 (others env n d)) ∧
                           ¬ signed_for o d0 i) →
  same_owner o d0 (w_db (served l st).1).
Proof.
  intros Hjson d0 Hid Hex Hl.
  assert (guarded o d0 (w_db (served l st).1)) as [? _]; [|done].
  apply serve_all_keeps; [exact Hjson|by intros env i Hi; apply (Hl env i)| |by split_and!].
  intros env i st1 subject st2 Hi Hw Hent w Hmay. destruct (Hl env i Hi) as [Ho Hno].
  eapply stranger_guarded; [|exact Hex|exact Hmay]. by eapply unsigned_stranger.
Qed.

Lemma unidentified_history l st :
  (∀ subject json, subject_to_json subject = Ok json → from_json json = Some subject) →
  let modes := registered (set_account_bootstrap settings) (set_user_bootstrap settings) in
  let d0 := w_db st.1 in
  (∀ env i, (env, i) ∈ l → (∀ n d, modes d0 d → modes d0 (others env n d)) ∧ unidentified i) →
  modes d0 (w_db (served l st).1).
Proof.
  intros Hjson modes d0 Hl. apply serve_all_keeps; [exact Hjson|by intros env i Hi; apply (Hl env i)| |apply registered_refl].
  intros env i st1 subject st2 Hi Hw Hent w. destruct (Hl env i Hi) as [Ho Hun].
  destruct Hent as [(_ & -> & _)|(parts & Hc & _)]; [apply anonymous_keeps|].
  destruct i; cbn in Hun, Hc.
  - destruct Hc as (v & ? & ? & ? & Hh & _). congruence.
  - destruct Hc as (v & ? & ? & Hh & _). congruence.
Qed.
(** C8. Requests without credentials: whatever they are and however many, on both doors, they
    add at most new accounts and new users with their keys, each only where the bootstrap
    mode is open, and leave everything that was there and every other table as it was. *)
Theorem nobody_only_registers l st :
  (∀ subject json, subject_to_json subject = Ok json → from_json json = Some subject) →
  let modes := registered (set_account_bootstrap settings) (set_user_bootstrap settings) in
  let d0 := w_db st.1 in
  (∀ env i, (env, i) ∈ l → (∀ n d, modes d0 d → modes d0 (others env n d)) ∧ unidentified i) →
  modes d0 (w_db (served l st).1).
Proof. apply unidentified_history. Qed.
End histories.

(** ** From the configuration *)

(** What [main] passes on of the configuration and of what it built from it. *)
Definition settings_of `{CryptoLib, LruLib NonceKey Tso} (config : Config) (b : Booted) : Settings := {|
  set_algos := bt_algos b;
  set_account_bootstrap := bt_account_bootstrap b;
  set_user_bootstrap := bt_user_bootstrap b;
  set_content_max_bytes := articles_content_max_bytes config;
  set_replace_max_items := feeds_replace_max_items config;
  set_batch_max_items := events_batch_max_items config;
|}.

Section closed.
Context `{UuidLib, ChronoLib, Base64Lib, CryptoLib, UrlLib, SerdeLib, UnicodeLib, DieselLib,
          GatewayLib, TonicTypesLib, ErrorDetailsLib, LruLib NonceKey Tso}.
Context {T : Type} `{TimeSource T}.

Lemma closed_registration d d' :
  registered SystemOnly SystemOnly d d' → d' = set_tso_high_water (tso_high_water d') d.
Proof.
  intros [_ _ Ha Hu Hart Hdr Hre Hsy Hev]. destruct (Ha eq_refl), (Hu eq_refl). destruct_and!.
  destruct d, d'. cbn in *. unfold set_tso_high_water. cbn. subst. reflexivity.
Qed.
(** C10. A server started with both registrations reserved for systems is read-only to whoever
    shows no credentials: after any history of such requests the database is what it was, but
    for the row of the timestamp oracle. *)
Theorem closed_server_is_read_only fuel clock stored tailscale_ip config b
    clock_at clock_now decode_message from_json openapi l (st : World * NonceStore) :
  boot fuel clock stored tailscale_ip config = Some (Ok b) →
  account_registration (auth_bootstrap (cfg_auth config)) = lit "system_only" →
  user_registration (auth_bootstrap (cfg_auth config)) = lit "system_only" →
  (∀ subject json, subject_to_json subject = Ok json → from_json json = Some subject) →
  let d0 := w_db st.1 in
  (∀ env i, (env, i) ∈ l → (∀ n d, others env n d = d) ∧ unidentified i) →
  let d := w_db (serve_all (settings_of config b) clock_at clock_now decode_message from_json
                   openapi l st).1 in
  d = set_tso_high_water (tso_high_water d) d0.
Proof.
  intros (_ & _ & _ & _ & _ & _ & Ham & Hum)%boot_spec Ha Hu Hjson d0 Hl. cbv zeta.
  rewrite Ha in Ham. rewrite Hu in Hum.
  assert (bt_account_bootstrap b = SystemOnly) as Hma by (by destruct (bt_account_bootstrap b)).
  assert (bt_user_bootstrap b = SystemOnly) as Hmu by (by destruct (bt_user_bootstrap b)).
  apply closed_registration. rewrite <- Hma at 1. rewrite <- Hmu.
  change (bt_account_bootstrap b) with (set_account_bootstrap (settings_of config b)).
  change (bt_user_bootstrap b) with (set_user_bootstrap (settings_of config b)).
  apply unidentified_history; [exact Hjson|]. intros env i Hi. destruct (Hl env i Hi) as [Ho Hun].
  split; [|exact Hun]. intros n d Hd. by rewrite Ho.
Qed.
End closed.

(** ** Examples *)

Section witnesses.
#[local] Existing Instances toy_uuid toy_chrono toy_base64 toy_crypto toy_url toy_serde
  toy_unicode toy_diesel toy_gateway toy_tonic_types toy_error_details.
#[local] Instance no_replays : NonceStoreI () := λ s _ _ _, (Ok (), s).

(** A server with the default modes. *)
Definition toy_settings : Settings := {|
  set_algos := {[ lit "ed25519" := Ed25519 ]};
  set_account_bootstrap := SystemOnly; set_user_bootstrap := Open;
  set_content_max_bytes := 1000; set_replace_max_items := 10; set_batch_max_items := 10;
|}.
Definition toy_clock (env : Env) (w : World) : TsoNow :=
  {| tn_wall := 1000; tn_last := 0; tn_horizon_ms := 30000 |}.
Definition toy_clock_now (env : Env) (w : World) : result TimeError Tso := Ok (from_parts 1000 0).
(** A decoder that knows the two registrations. *)
Definition toy_public_key : PublicKey :=
  {| pk_algo := lit "ed25519"; pk_public_key := b64_encode (replicate 32 5%N) |}.
Definition toy_decode_message (m : Method) (_ : result () bytes) : result GrpcStatus (MessageOf m) :=
  match m return result GrpcStatus (MessageOf m) with
  | OnRest CreateUser =>
    Ok {| cu_display_name := lit "Ann"; cu_initial_key := Some toy_public_key |}
  | OnRest CreateAccount =>
    Ok {| ca_short_name := lit "ann"; ca_author_name := lit "Ann"; ca_author_url := [];
          ca_initial_key := Some toy_public_key |}
  | _ => Err (bare_status CInternal (lit "decode"))
  end.
Definition toy_call_to (path : str) (headers : HeaderMap) : Incoming := ToGrpc
  {| rq_method := lit "POST"; rq_path := path; rq_query := None; rq_headers := headers;
     rq_body := Ok example_body; rq_subject := None |}.
Definition toy_served (l : list (Env * Incoming)) (st : World * ()) : World * () :=
  serve_all toy_settings toy_clock toy_clock_now toy_decode_message toy_subject_from_json JNull l st.
Lemma toy_subject_json subject json :
  subject_to_json subject = Ok json → toy_subject_from_json json = Some subject.
Proof. intros Hj. destruct subject; try discriminate Hj; by injection Hj as <-. Qed.

(** Nobody asks for a user, for an account, and for an account over the gateway. *)
Definition toy_registrations : list (Env * Incoming) :=
  pair toy_env <$>
  [toy_call_to (rest_path CreateUser) ∅; toy_call_to (rest_path CreateAccount) ∅;
   ToRest RCreateAccount {| h_method := lit "POST"; h_path := lit "/v1/accounts"; h_query := None;
                            h_headers := ∅; h_body := Ok JNull |}].
Example default_modes_register_users :
  let d := w_db (toy_served toy_registrations (mkWorld toy_db 1, ())).1 in
  size (users d) = 1%nat ∧ size (user_keys d) = 1%nat ∧ size (accounts d) = 1%nat.
Proof. vm_compute. done. Qed.

Lemma nobody_only_registers_witness :
  let d := w_db (toy_served toy_registrations (mkWorld toy_db 1, ())).1 in
  accounts d = accounts toy_db ∧ drafts d = ∅.
Proof.
  destruct (nobody_only_registers toy_settings toy_clock toy_clock_now toy_decode_message
    toy_subject_from_json JNull toy_registrations (mkWorld toy_db 1, ())) as [_ _ Hacc _ _ Hdr _ _ _].
  - exact toy_subject_json.
  - intros env i Hi. unfold toy_registrations in Hi.
    apply list_elem_of_fmap in Hi as (j & [= -> ->] & Hj). split; [by intros n d Hd|].
    repeat (apply elem_of_cons in Hj as [->|Hj]; [reflexivity|]). by apply not_elem_of_nil in Hj.
  - split; [apply (Hacc eq_refl)|exact Hdr].
Defined.

(** Account 1 has one key, 3; the requests are signed by key 9 of user 40, or not at all. *)
Definition guarded_db : Db :=
  set_user_keys {[ (40%N, 9%N) := mkKey 40 9 (lit "ed25519") (b64_encode example_key) (lit "active") 0 None ]}
    (set_account_keys {[ (1%N, 3%N) := mkKey 1 3 (lit "ed25519") (b64_encode example_key) (lit "active") 0 None ]}
       toy_db).
Lemma guarded_db_identity : identity_inv guarded_db.
Proof.
  split.
  - intros id r. cbn. intros [[<- <-]|[_ Hr]]%lookup_insert_Some; [by split; [|left]|by rewrite lookup_empty in Hr].
  - intros id r. cbn. by rewrite lookup_empty.
  - intros [] pk r; cbn; rewrite ?lookup_singleton_Some, ?lookup_empty; try done;
      intros [<- <-]; (split_and!; [done..|by left]).
Qed.
Definition strangers_requests : list (Env * Incoming) :=
  (toy_env, ToGrpc example_request) :: toy_registrations.
Lemma owners_rows_need_their_key_witness :
  same_account 1%N guarded_db (w_db (toy_served strangers_requests (mkWorld guarded_db 1, ())).1).
Proof.
  apply (owners_rows_need_their_key toy_settings toy_clock toy_clock_now toy_decode_message
    toy_subject_from_json JNull (OwnerAccount 1%N) strangers_requests (mkWorld guarded_db 1, ()));
    [exact toy_subject_json|exact guarded_db_identity|by eexists|].
  intros env i Hi. split.
  { unfold strangers_requests, toy_registrations in Hi. apply elem_of_cons in Hi as [[= -> ->]|Hi]; [done|].
    by apply list_elem_of_fmap in Hi as (j & [= -> ->] & Hj). }
  intros (parts & kind & pk & r & key & algo & Hc & Hr & Hkid & _ & Hown & _).
  unfold strangers_requests, toy_registrations in Hi. apply elem_of_cons in Hi as [[= -> ->]|Hi].
  - destruct Hc as (value & parsed & body & hash & Hh & Hp & _ & _ & ->).
    assert (pah_key_id parsed = 9%N) as Hnine.
    { assert (mjoin (header_get AUTHORIZATION (rq_headers example_request)) ≫=
              (λ v, match parse_authorization_header v with Ok p => Some (pah_key_id p) | Err _ => None end)
              = Some 9%N) as Heq by (vm_compute; reflexivity).
      rewrite Hh in Heq. cbn in Heq. rewrite Hp in Heq. by injection Heq. }
    cbn [srp_key_id signed_parts] in Hkid. rewrite Hnine in Hkid.
    destruct Hown as [->|[-> Hpk]]; cbn in Hr; [by rewrite lookup_empty in Hr|].
    apply lookup_singleton_Some in Hr as [<- <-]. discriminate Hkid.
  - apply list_elem_of_fmap in Hi as (j & [= -> ->] & Hj).
    assert (unidentified j) as Hun.
    { repeat (apply elem_of_cons in Hj as [->|Hj]; [reflexivity|]). by apply not_elem_of_nil in Hj. }
    destruct j; cbn in Hun, Hc.
    + destruct Hc as (v & ? & ? & ? & Hh & _). rewrite Hun in Hh. discriminate Hh.
    + destruct Hc as (v & ? & ? & Hh & _). rewrite Hun in Hh. discriminate Hh.
Defined.

(** The default configuration with both registrations closed. *)
#[local] Existing Instances toy_cache toy_figment.
Definition closed_config : Config :=
  let c := toy_config in
  mkConfig (cfg_server c) (cfg_database c)
    {| auth_bootstrap := {| user_registration := lit "system_only";
                            account_registration := lit "system_only" |};
       auth_time := auth_time (cfg_auth c); algorithms_enabled := algorithms_enabled (cfg_auth c) |}
    (articles_content_max_bytes c) (feeds_replace_max_items c) (events_batch_max_items c)
    (cfg_observability c).
Definition closed_booted : Booted := {|
  bt_bind := bt_bind toy_booted; bt_time_source := bt_time_source toy_booted;
  bt_nonce_store := default_store; bt_algos := bt_algos toy_booted;
  bt_account_bootstrap := SystemOnly; bt_user_bootstrap := SystemOnly;
|}.
Lemma closed_configuration_boots :
  boot 1 (λ _, 1700000000000) (Ok 0) None closed_config = Some (Ok closed_booted).
Proof.
  apply boot_spec. split_and!; try reflexivity; [vm_compute; reflexivity..|done|].
  vm_compute. by repeat constructor.
Qed.
Lemma closed_server_is_read_only_witness :
  accounts (w_db (serve_all (N := NonceStore) (settings_of closed_config closed_booted) toy_clock toy_clock_now
    toy_decode_message toy_subject_from_json JNull toy_registrations
    (mkWorld toy_db 1, default_store)).1) = accounts toy_db.
Proof.
  rewrite (closed_server_is_read_only _ _ _ _ _ _ toy_clock toy_clock_now toy_decode_message
    toy_subject_from_json JNull toy_registrations (mkWorld toy_db 1, default_store)
    closed_configuration_boots eq_refl eq_refl toy_subject_json); [reflexivity|].
  intros env i Hi. unfold toy_registrations in Hi.
  apply list_elem_of_fmap in Hi as (j & [= -> ->] & Hj). split; [by intros n d|].
  repeat (apply elem_of_cons in Hj as [->|Hj]; [reflexivity|]). by apply not_elem_of_nil in Hj.
Defined.
End witnesses.
