(* ===== verification/Routes.v ===== *)
(** * The REST surface ([build_router] of [headlines-rest-gateway/src/lib.rs] and the
    [google.api.http] rules of [proto/headlines/v1])

    Which verb and path every REST handler is mounted at, which verb and path the protocol
    files promise for every method, and that the two agree: a handler is mounted where its
    method is annotated, and calls that method. *)

From S2P Require Import Prelude Libs Instances Subject AuthTable Errors Tso TimeSource Nonce Wire Strategy Interceptor Db Content Rpc AccountService ArticleService ReaderServices EventService Rest Gateway Server Doors.

Inductive Verb : Type := GET | POST | PUT | PATCH | DELETE.
#[export] Instance Verb_eq_dec : EqDecision Verb.
Proof. solve_decision. Defined.

(** ** Where the handlers are mounted *)

(** [build_router] *)
Definition build_router (route : Route) : Verb * str :=
  match route with
  | Healthz => (GET, lit "/healthz")
  | OpenapiJson => (GET, lit "/openapi.json")
  | RCreateAccount => (POST, lit "/v1/accounts")
  | RGetAccount _ => (GET, lit "/v1/accounts/:id")
  | RCreateUser => (POST, lit "/v1/users")
  | RGetUser _ => (GET, lit "/v1/users/:id")
  | RUpdateUser _ => (PATCH, lit "/v1/users/:id")
  | RDeleteUser _ => (DELETE, lit "/v1/users/:id")
  | RAddUserKey _ => (POST, lit "/v1/users/:id/keys")
  | RRevokeUserKey _ _ => (POST, lit "/v1/users/:id/keys/:key_id/revoke")
  | RPublishArticle _ => (POST, lit "/v1/accounts/:account_id/articles")
  | RListAccountArticles _ => (GET, lit "/v1/accounts/:account_id/articles")
  | RGetArticle _ => (GET, lit "/v1/articles/:id")
  | REditArticle _ => (PATCH, lit "/v1/articles/:id")
  | RTombstoneArticle _ => (POST, lit "/v1/articles/:id/tombstone")
  | RRedactArticleVersion _ _ => (POST, lit "/v1/articles/:article_id/versions/:version/redact")
  | RCreateDraft _ => (POST, lit "/v1/accounts/:account_id/drafts")
  | RListAccountDrafts _ => (GET, lit "/v1/accounts/:account_id/drafts")
  | RGetDraft _ => (GET, lit "/v1/drafts/:id")
  | RUpdateDraft _ => (PATCH, lit "/v1/drafts/:id")
  | RDeleteDraft _ => (DELETE, lit "/v1/drafts/:id")
  | RPublishDraft _ => (POST, lit "/v1/drafts/:id/publish")
  | RFollowUser _ => (POST, lit "/v1/users/:user_id/follows")
  | RListUserFollows _ => (GET, lit "/v1/users/:user_id/follows")
  | RGetFollow _ _ => (GET, lit "/v1/users/:user_id/follows/:account_id")
  | RUnfollowUser _ _ => (DELETE, lit "/v1/users/:user_id/follows/:account_id")
  | RListAccountFollowers _ => (GET, lit "/v1/accounts/:account_id/followers")
  | RReplaceRecommendationFeed _ => (PUT, lit "/v1/users/:user_id/feed/recommendation")
  | RGetRecommendationFeed _ => (GET, lit "/v1/users/:user_id/feed/recommendation")
  | RGetFollowFeed _ => (GET, lit "/v1/users/:user_id/feed/follow")
  | RStreamAccountArticles _ => (GET, lit "/v1/accounts/:account_id/article-stream")
  | RRecordEvent => (POST, lit "/v1/events")
  | RListEvents => (GET, lit "/v1/events")
  | RRecordEventBatch => (POST, lit "/v1/events:batch")
  | RSendNotification => (POST, lit "/v1/notifications")
  | RSendNotificationBatch => (POST, lit "/v1/notifications:batch")
  | RListUserNotifications _ => (GET, lit "/v1/users/:user_id/notifications")
  | RMarkNotificationRead _ => (POST, lit "/v1/notifications/:id/read")
  | RMarkAllRead _ => (POST, lit "/v1/users/:user_id/notifications:mark-all-read")
  | RGetPreferences _ => (GET, lit "/v1/users/:user_id/notification-preferences")
  | RUpdatePreferences _ => (PATCH, lit "/v1/users/:user_id/notification-preferences")
  end.

(** ** What the protocol files promise *)

Definition account_rules : list (Method * (Verb * str)) :=
  [(OnRest CreateAccount, (POST, lit "/v1/accounts"));
   (OnRest GetAccount, (GET, lit "/v1/accounts/{id}"));
   (UpdateAccount, (PATCH, lit "/v1/accounts/{account.id}"));
   (DeleteAccount, (DELETE, lit "/v1/accounts/{id}"));
   (AddAccountKey, (POST, lit "/v1/accounts/{account_id}/keys"));
   (RevokeAccountKey, (POST, lit "/v1/accounts/{account_id}/keys/{key_id}/revoke"))].
Definition user_rules : list (Method * (Verb * str)) :=
  [(OnRest CreateUser, (POST, lit "/v1/users"));
   (OnRest GetUser, (GET, lit "/v1/users/{id}"));
   (OnRest UpdateUser, (PATCH, lit "/v1/users/{user.id}"));
   (OnRest DeleteUser, (DELETE, lit "/v1/users/{id}"));
   (OnRest AddUserKey, (POST, lit "/v1/users/{user_id}/keys"));
   (OnRest RevokeUserKey, (POST, lit "/v1/users/{user_id}/keys/{key_id}/revoke"))].
Definition article_rules : list (Method * (Verb * str)) :=
  [(OnRest PublishArticle, (POST, lit "/v1/accounts/{account_id}/articles"));
   (OnRest GetArticle, (GET, lit "/v1/articles/{id}"));
   (OnRest ListAccountArticles, (GET, lit "/v1/accounts/{account_id}/articles"));
   (OnRest EditArticle, (PATCH, lit "/v1/articles/{id}"));
   (OnRest TombstoneArticle, (POST, lit "/v1/articles/{id}/tombstone"));
   (OnRest RedactArticleVersion, (POST, lit "/v1/articles/{article_id}/versions/{version}/redact"))].
Definition draft_rules : list (Method * (Verb * str)) :=
  [(OnRest CreateDraft, (POST, lit "/v1/accounts/{account_id}/drafts"));
   (OnRest GetDraft, (GET, lit "/v1/drafts/{id}"));
   (OnRest UpdateDraft, (PATCH, lit "/v1/drafts/{draft.id}"));
   (OnRest DeleteDraft, (DELETE, lit "/v1/drafts/{id}"));
   (OnRest ListAccountDrafts, (GET, lit "/v1/accounts/{account_id}/drafts"));
   (OnRest PublishDraft, (POST, lit "/v1/drafts/{id}/publish"))].
Definition follow_rules : list (Method * (Verb * str)) :=
  [(OnRest FollowAccount, (POST, lit "/v1/users/{user_id}/follows"));
   (OnRest UnfollowAccount, (DELETE, lit "/v1/users/{user_id}/follows/{account_id}"));
   (OnRest GetFollow, (GET, lit "/v1/users/{user_id}/follows/{account_id}"));
   (OnRest ListUserFollows, (GET, lit "/v1/users/{user_id}/follows"));
   (OnRest ListAccountFollowers, (GET, lit "/v1/accounts/{account_id}/followers"))].
Definition event_rules : list (Method * (Verb * str)) :=
  [(OnRest RecordEvent, (POST, lit "/v1/events"));
   (OnRest RecordEventBatch, (POST, lit "/v1/events:batch"));
   (OnRest ListEvents, (GET, lit "/v1/events"))].
Definition account_stream_rules : list (Method * (Verb * str)) :=
  [(OnRest StreamAccountArticles, (GET, lit "/v1/accounts/{account_id}/article-stream"))].
Definition feed_follow_rules : list (Method * (Verb * str)) :=
  [(OnRest GetFollowFeed, (GET, lit "/v1/users/{user_id}/feed/follow"))].
Definition feed_recommendation_rules : list (Method * (Verb * str)) :=
  [(OnRest ReplaceRecommendationFeed, (PUT, lit "/v1/users/{user_id}/feed/recommendation"));
   (OnRest GetRecommendationFeed, (GET, lit "/v1/users/{user_id}/feed/recommendation"))].
Definition notification_rules : list (Method * (Verb * str)) :=
  [(OnRest (Notification SendNotification), (POST, lit "/v1/notifications"));
   (OnRest (Notification SendNotificationBatch), (POST, lit "/v1/notifications:batch"));
   (OnRest (Notification ListUserNotifications), (GET, lit "/v1/users/{user_id}/notifications"));
   (OnRest (Notification MarkNotificationRead), (POST, lit "/v1/notifications/{id}/read"));
   (OnRest (Notification MarkAllUserNotificationsRead), (POST, lit "/v1/users/{user_id}/notifications:mark-all-read"));
   (OnRest (Notification GetUserNotificationPreferences), (GET, lit "/v1/users/{user_id}/notification-preferences"));
   (OnRest (Notification UpdateUserNotificationPreferences), (PATCH, lit "/v1/users/{preferences.user_id}/notification-preferences"))].
Definition http_rules : list (Method * (Verb * str)) :=
  account_rules ++ user_rules ++ article_rules ++ draft_rules ++ follow_rules ++ event_rules ++
  account_stream_rules ++ feed_follow_rules ++ feed_recommendation_rules ++ notification_rules.

(** ** The shape of a path *)

(** A segment is fixed or captured: [:name] in the router, [{field}] in the rules. *)
Inductive Segment : Type := Fixed (s : str) | Captured.
#[export] Instance Segment_eq_dec : EqDecision Segment.
Proof. solve_decision. Defined.
Fixpoint split_slashes (fuel : nat) (path : str) : list str :=
  match fuel with
  | O => [path]
  | S fuel =>
    match split_once 47%N path with
    | Some (a, b) => a :: split_slashes fuel b
    | None => [path]
    end
  end.
Definition segments (captured : str → bool) (path : str) : list Segment :=
  (λ s, if captured s then Captured else Fixed s) <$> split_slashes (length path) path.
Definition axum_captured (s : str) : bool := bool_decide (head s = Some 58%N).
Definition rule_captured (s : str) : bool :=
  bool_decide (head s = Some 123%N) && bool_decide (last s = Some 125%N).
Definition router_shape (e : Verb * str) : Verb * list Segment := (e.1, segments axum_captured e.2).
Definition rule_shape (e : Verb * str) : Verb * list Segment := (e.1, segments rule_captured e.2).

Definition rule_of (m : Method) : option (Verb * str) :=
  snd <$> head (filter (λ e, e.1 = m) http_rules).
Lemma rule_of_elem m rule : rule_of m = Some rule → (m, rule) ∈ http_rules.
Proof.
  unfold rule_of. destruct (filter _ http_rules) as [|e l] eqn:Hl; [done|]. intros [= <-].
  assert (e ∈ filter (λ e, e.1 = m) http_rules) as Hin by (rewrite Hl; by left).
  apply list_elem_of_filter in Hin as [<- Hin]. by destruct e.
Qed.
Lemma rules_distinct m m' rule rule' :
  rule_of m = Some rule → rule_of m' = Some rule' → rule_shape rule = rule_shape rule' → m = m'.
Proof.
  intros (i & Hi)%rule_of_elem%list_elem_of_lookup (j & Hj)%rule_of_elem%list_elem_of_lookup Heq.
  assert (Hnd : NoDup ((λ e, rule_shape e.2) <$> http_rules)) by (apply (bool_decide_unpack _); vm_compute; exact I).
  assert (i = j) as ->; [|congruence].
  eapply (NoDup_lookup _ _ _ (rule_shape rule)); [exact Hnd| |].
  - by rewrite list_lookup_fmap, Hi.
  - rewrite list_lookup_fmap, Hj. cbn. by rewrite Heq.
Qed.
Lemma mounted_as_ruled route r : route_rpc route = Some r →
  ∃ rule, rule_of (OnRest r) = Some rule ∧ router_shape (build_router route) = rule_shape rule.
Proof.
  intros Hr. destruct route; (discriminate Hr || injection Hr as <-);
    eexists; (split; [vm_compute; reflexivity|vm_compute; reflexivity]).
Qed.
Lemma constants_apart route m rule :
  route_rpc route = None → rule_of m = Some rule → router_shape (build_router route) ≠ rule_shape rule.
Proof.
  intros Hr Hm%rule_of_elem Heq.
  assert (Hok : forallb (λ e, bool_decide (rule_shape e.2 ≠ (GET, [Fixed []; Fixed (lit "healthz")])) &&
            bool_decide (rule_shape e.2 ≠ (GET, [Fixed []; Fixed (lit "openapi.json")]))) http_rules = true)
    by (vm_compute; reflexivity).
  rewrite forallb_forall in Hok. specialize (Hok _ (proj1 (list_elem_of_In _ _) Hm)). cbn [snd] in Hok.
  rewrite <- Heq in Hok. destruct route; try discriminate Hr; vm_compute in Hok; discriminate Hok.
Qed.

Lemma every_rpc_routed r : ∃ route, route_rpc route = Some r.
Proof.
  let x := constr:([] : str) in
  pose (l := [RCreateAccount; RGetAccount x; RCreateUser; RGetUser x; RUpdateUser x;
    RDeleteUser x; RAddUserKey x; RRevokeUserKey x x; RPublishArticle x; RListAccountArticles x;
    RGetArticle x; REditArticle x; RTombstoneArticle x; RRedactArticleVersion x x; RCreateDraft x;
    RListAccountDrafts x; RGetDraft x; RUpdateDraft x; RDeleteDraft x; RPublishDraft x; RFollowUser x;
    RListUserFollows x; RGetFollow x x; RUnfollowUser x x; RListAccountFollowers x;
    RReplaceRecommendationFeed x; RGetRecommendationFeed x; RGetFollowFeed x; RStreamAccountArticles x;
    RRecordEvent; RListEvents; RRecordEventBatch; RSendNotification; RSendNotificationBatch;
    RListUserNotifications x; RMarkNotificationRead x; RMarkAllRead x; RGetPreferences x;
    RUpdatePreferences x]).
  assert (Hex : existsb (λ route, bool_decide (OnRest <$> route_rpc route = Some (OnRest r))) l = true)
    by (destruct r as [| | | | | | | | | | | | | | | | | | | | | | | | | | | | | | | |n]; [..|destruct n];
        vm_compute; reflexivity).
  apply existsb_exists in Hex as (route & _ & Hr). apply bool_decide_eq_true in Hr.
  exists route. destruct (route_rpc route); [|discriminate Hr]. by injection Hr as ->.
Qed.

(** C24. The REST surface is the annotated one, but for the account methods: every route is
    mounted at the verb and path that the protocol file promises for its method, and its
    handler refuses the request or calls that method, once; every method but [UpdateAccount],
    [DeleteAccount], [AddAccountKey] and [RevokeAccountKey] has a route, though these are
    annotated too; and no two methods share a verb and a path. *)
Theorem routes_follow_annotations `{UuidLib, ChronoLib, Base64Lib, CryptoLib, GatewayLib} {σ : Type} :
  (∀ route r, route_rpc route = Some r →
     (∃ rule, rule_of (OnRest r) = Some rule ∧ router_shape (build_router route) = rule_shape rule) ∧
     ∀ (state : GatewayState σ) openapi rq, one_call state rq r (serve state openapi route rq)) ∧
  (∀ m, is_Some (rule_of m)) ∧
  (∀ m, (∃ route r, m = OnRest r ∧ route_rpc route = Some r) ↔
        m ∉ [UpdateAccount; DeleteAccount; AddAccountKey; RevokeAccountKey]) ∧
  ∀ route route', router_shape (build_router route) = router_shape (build_router route') →
    route_rpc route = route_rpc route'.
Proof.
  split_and!.
  - intros route r Hr. split; [by apply mounted_as_ruled|intros; by apply serve_calls].
  - intros m. apply (bool_decide_unpack _). destruct m as [r| | | |]; [destruct r as [| | | | | | | | | | | | | | | | | | | | | | | | | | | | | | | |n]; [..|destruct n]|..]; vm_compute; exact I.
  - intros m. split.
    + intros (route & r & -> & _) Hin.
      repeat (apply elem_of_cons in Hin as [Hin|Hin]; [discriminate Hin|]). by apply not_elem_of_nil in Hin.
    + intros Hm. destruct m as [r| | | |]; [|exfalso; apply Hm; set_solver..].
      destruct (every_rpc_routed r) as [route Hr]. by exists route, r.
  - intros route route' Heq.
    destruct (route_rpc route) as [r|] eqn:Hr, (route_rpc route') as [r'|] eqn:Hr'; [| | |done].
    + destruct (mounted_as_ruled _ _ Hr) as (rule & Hm & Hs), (mounted_as_ruled _ _ Hr') as (rule' & Hm' & Hs').
      rewrite Hs, Hs' in Heq. pose proof (rules_distinct _ _ _ _ Hm Hm' Heq) as Hrr. by injection Hrr as <-.
    + destruct (mounted_as_ruled _ _ Hr) as (rule & Hm & Hs). rewrite Hs in Heq.
      by destruct (constants_apart _ _ _ Hr' Hm).
    + destruct (mounted_as_ruled _ _ Hr') as (rule & Hm & Hs). rewrite Hs in Heq.
      by destruct (constants_apart _ _ _ Hr Hm).
Qed.

Example user_is_mounted_as_ruled : ∀ id,
  build_router (RUpdateUser id) = (PATCH, lit "/v1/users/:id") ∧
  rule_of (OnRest UpdateUser) = Some (PATCH, lit "/v1/users/{user.id}") ∧
  router_shape (build_router (RUpdateUser id)) =
    (PATCH, [Fixed []; Fixed (lit "v1"); Fixed (lit "users"); Captured]).
Proof. intros id. split_and!; vm_compute; reflexivity. Qed.

Section witnesses.
#[local] Existing Instances toy_uuid toy_chrono toy_base64 toy_crypto toy_gateway.
Lemma routes_follow_annotations_witness :
  ∃ rule, rule_of (OnRest UpdateUser) = Some rule ∧
    router_shape (build_router (RUpdateUser (uuid_display 2%N))) = rule_shape rule.
Proof.
  destruct (routes_follow_annotations (σ := ())) as (Hroutes & _).
  exact (proj1 (Hroutes (RUpdateUser (uuid_display 2%N)) UpdateUser eq_refl)).
Defined.
End witnesses.
