(* ===== verification/Replay.v ===== *)
(** * No request gets in twice

    Replay protection of the whole server: histories of requests on both doors, served alone
    or with the last two steps of the strategy run on other threads at any time, are runs of
    the pipeline of [Nonce]; so what a booted server has let in once it refuses from then on,
    through whichever door the copy comes. *)

From S2P Require Import Prelude Libs Instances Subject AuthTable Errors Tso TimeSource Nonce Wire Strategy Interceptor Db Rpc Rest Gateway Resolver Config Server Doors.

(** ** The store with a log *)

Definition stamp (parts : SignedRequestParts) : NonceKey * Tso :=
  (mkNonceKey (srp_key_id parts) (srp_nonce parts), srp_ts parts).
#[global] Instance signed_parts_eq_dec : EqDecision SignedRequestParts.
Proof. solve_decision. Defined.

Section log.
Context `{LruLib NonceKey Tso}.

(** The nonce store, with the highest time the server has shown and what it has accepted so
    far; these two are only written. *)
Record Logged := { lg_store : NonceStore; lg_high : Z; lg_accepted : list Acceptance }.
#[export] Instance logged_record : NonceStoreI Logged := λ lg key_id nonce ts,
  let (r, store) := record (lg_store lg) key_id nonce ts in
  (r, {| lg_store := store; lg_high := lg_high lg;
         lg_accepted :=
           if is_ok r then lg_accepted lg ++ [mkAcceptance (mkNonceKey key_id nonce, ts) (lg_high lg)]
           else lg_accepted lg |}).
End log.

(** ** Histories *)

(** What happens on the server: a request is served from arrival to answer; or, on another
    thread, one passes the strategy's checks, and one that has passed them is recorded. What
    the handlers of such requests write is among what the environments' [others] do. *)
Inductive Event : Type :=
  | Served (env : Env) (i : Incoming)
  | Checked (env : Env) (parts : SignedRequestParts)
  | Recorded (env : Env) (parts : SignedRequestParts).

Section simulation.
Context `{UuidLib, ChronoLib, Base64Lib, CryptoLib, UrlLib, SerdeLib, UnicodeLib, DieselLib,
          GatewayLib, TonicTypesLib, ErrorDetailsLib, LruLaws NonceKey Tso}.
Context (settings : Settings) (clock_now : Env → World → result TimeError Tso).
Context (decode_message : ∀ m, result () bytes → result GrpcStatus (MessageOf m)).
Context (from_json : str → option Subject) (openapi : Json).
Hypothesis Hjson : ∀ subject json, subject_to_json subject = Ok json → from_json json = Some subject.
(** The oracle's configuration, and its word and the wall clock as each event finds them. *)
Context (tso : InProcessTsoConfig) (wall_at last_at : Env → Z).

Definition oracle_at (env : Env) (_ : World) : TimeSourceArc * Z :=
  (InProcessTsoArc tso (last_at env), wall_at env).
(** The time a timestamp is compared with. *)
Definition time_at (env : Env) : Z := now_of (wall_at env) (last_at env).
Definition clock_shown (env : Env) (st : World * Logged) : World * Logged :=
  (st.1, {| lg_store := lg_store st.2; lg_high := Z.max (lg_high st.2) (time_at env);
            lg_accepted := lg_accepted st.2 |}).

(** The two steps of the strategy. *)
Definition checks (env : Env) (w : World) (parts : SignedRequestParts) :
    result AuthError Subject * World :=
  let (key, w) := pg_resolve (srp_key_id parts) env w in
  let self := {| srs_resolver := key; srs_algos := set_algos settings;
                 srs_time_source := oracle_at env w |} in
  (check_request self parts, w).
Definition records (lg : Logged) (parts : SignedRequestParts) : result NonceError () * Logged :=
  record_nonce lg (srp_key_id parts) (srp_nonce parts) (srp_ts parts).
Lemma strategy_in_two env st parts :
  pg_strategy settings oracle_at env st parts =
  match checks env st.1 parts with
  | (Err e, w) => (Err e, (w, st.2))
  | (Ok subject, w) =>
    let (r, lg) := records st.2 parts in (_ ← map_err nonce_error r; Ok subject, (w, lg))
  end.
Proof.
  unfold pg_strategy, checks, records. destruct (pg_resolve _ env st.1) as [key w].
  unfold authenticate. destruct (check_request _ parts) as [subject|e]; [|done].
  by destruct (record_nonce _ _ _ _) as [[[]|e] lg].
Qed.

(** The server, with the requests that are between their two steps. *)
Record Live := { lv_state : World * Logged; lv_checked : list SignedRequestParts }.
Abbreviation after := (receive settings oracle_at clock_now decode_message from_json openapi).
Definition happens (e : Event) (s : Live) : Live :=
  match e with
  | Served env i =>
    {| lv_state := after env (clock_shown env (lv_state s)) i; lv_checked := lv_checked s |}
  | Checked env parts =>
    let st := clock_shown env (lv_state s) in
    let (r, w) := checks env st.1 parts in
    {| lv_state := (w, st.2);
       lv_checked := if is_ok r then parts :: lv_checked s else lv_checked s |}
  | Recorded env parts =>
    let st := clock_shown env (lv_state s) in
    match take_out parts (lv_checked s) with
    | Some rest => {| lv_state := (st.1, (records st.2 parts).2); lv_checked := rest |}
    | None => s
    end
  end.
Definition live (l : list Event) (s : Live) : Live := foldl (λ s e, happens e s) s l.

(** *** Histories are runs of the pipeline *)

Abbreviation step := (pipeline_step (cfg_horizon_ms tso)).

(** The pipeline's state a server's state stands for. *)
Record shows (s : Live) (p : Pipeline) : Prop := {
  sh_store : pl_store p = lg_store (lv_state s).2;
  sh_high : pl_high p = lg_high (lv_state s).2;
  sh_accepted : pl_accepted p = lg_accepted (lv_state s).2;
  sh_checked : pl_validated p = stamp <$> lv_checked s;
}.
Definition at_env (env : Env) (p : Pipeline) : Prop := pl_wall p = wall_at env ∧ pl_last p = last_at env.

Lemma clock_simulated env s p :
  shows s p →
  step p (at_time (wall_at env) (last_at env) p) ∧
  shows {| lv_state := clock_shown env (lv_state s); lv_checked := lv_checked s |}
    (at_time (wall_at env) (last_at env) p) ∧
  at_env env (at_time (wall_at env) (last_at env) p).
Proof.
  intros [Hst Hh Ha Hc]. split; [apply pl_time|]. split; [|by split].
  split; cbn [lv_state lv_checked clock_shown lg_store lg_high lg_accepted at_time pl_store pl_high
    pl_validated pl_accepted snd]; [done|by rewrite Hh|done|done].
Qed.
Lemma check_simulated env w parts s p :
  shows s p → at_env env p → is_ok (checks env w parts).1 = true →
  step p (validated (stamp parts) p) ∧
  shows {| lv_state := lv_state s; lv_checked := parts :: lv_checked s |} (validated (stamp parts) p) ∧
  sat_sub (time_at env) (physical_ms (srp_ts parts)) <= cfg_horizon_ms tso.
Proof.
  intros [Hst Hh Ha Hc] [Hw Hl]. unfold checks. destruct (pg_resolve _ env w) as [key w'].
  destruct (check_request _ parts) as [subject|e] eqn:Hcheck; [|done]. intros _.
  apply check_request_ok in Hcheck as (k & algo & [_ _ _ _ Hfresh] & _).
  unfold validate, arc_validate, oracle_at in Hfresh. cbn in Hfresh.
  split; [apply pl_validate; by rewrite Hw, Hl|]. split.
  - by split; cbn; rewrite ?Hc.
  - by apply validate_sync_ok in Hfresh as [_ ?].
Qed.
Lemma record_simulated parts rest s p w :
  shows s p → lv_checked s ≡ₚ parts :: rest →
  step p (recorded (stamp parts) (stamp <$> rest) p) ∧
  shows {| lv_state := (w, (records (lv_state s).2 parts).2); lv_checked := rest |}
    (recorded (stamp parts) (stamp <$> rest) p).
Proof.
  intros [Hst Hh Ha Hc] Hp. split.
  - apply pl_record. by rewrite Hc, Hp.
  - unfold recorded, records, record_nonce, logged_record, stamp. cbn [fst snd nk_key_id nk_nonce].
    rewrite Hst. destruct (record _ _ _ _) as [r store]. by split; cbn; rewrite ?Hh, ?Ha.
Qed.
(** One call of the strategy is a check and a record at once, or no step. *)
Lemma strategy_simulated env st chk parts p :
  shows {| lv_state := st; lv_checked := chk |} p → at_env env p →
  let '(r, st') := pg_strategy settings oracle_at env st parts in
  (∃ p', rtc step p p' ∧ shows {| lv_state := st'; lv_checked := chk |} p') ∧
  ∀ subject, r = Ok subject →
    lg_accepted st'.2 = lg_accepted st.2 ++ [mkAcceptance (stamp parts) (lg_high st.2)] ∧
    sat_sub (time_at env) (physical_ms (srp_ts parts)) <= cfg_horizon_ms tso.
Proof.
  intros Hsh Henv. rewrite strategy_in_two.
  pose proof (check_simulated env st.1 parts _ p Hsh Henv) as Hcheck.
  destruct (checks env st.1 parts) as [[subject|e] w].
  2:{ split; [|done]. exists p. split; [reflexivity|]. by destruct Hsh. }
  destruct (Hcheck eq_refl) as (Hstep & Hsh1 & Hfresh). cbn [lv_state lv_checked] in Hsh1.
  destruct (record_simulated parts chk _ _ w Hsh1 ltac:(reflexivity)) as [Hstep2 Hsh2].
  cbn [lv_state] in Hsh2. destruct (records st.2 parts) as [r lg] eqn:Hrec. cbn [snd] in Hsh2.
  split.
  - exists (recorded (stamp parts) (stamp <$> chk) (validated (stamp parts) p)).
    split; [by eapply rtc_l, rtc_once|exact Hsh2].
  - intros subject' Hok. split; [|done]. cbn [snd]. revert Hrec Hok. unfold records, record_nonce, logged_record.
    destruct (record _ _ _ _) as [[[]|e] store]; intros [= <- <-] Hok; [done|discriminate Hok].
Qed.

Lemma happens_simulated e s p : shows s p → ∃ p', rtc step p p' ∧ shows (happens e s) p'.
Proof.
  intros Hs.
  assert (Hclock := λ env, clock_simulated env s p Hs). destruct e as [env i|env parts|env parts];
    destruct (Hclock env) as (Hstep & Hsh & Henv); set (p0 := at_time _ _ p) in *; cbn [happens].
  - set (st := clock_shown env (lv_state s)) in *.
    assert (Hsim : ∀ parts, ∃ p', rtc step p p' ∧
      shows {| lv_state := (pg_strategy settings oracle_at env st parts).2; lv_checked := lv_checked s |} p').
    { intros parts. pose proof (strategy_simulated env st (lv_checked s) parts p0 Hsh Henv) as Hst.
      destruct (pg_strategy _ _ _ _ _) as [r st']. destruct Hst as [(p' & Hrun & Hsh') _].
      exists p'. split; [by eapply rtc_l|exact Hsh']. }
    assert (Hent : ∀ subject st1, entered settings oracle_at env st i subject st1 →
      ∃ p', rtc step p p' ∧ shows {| lv_state := st1; lv_checked := lv_checked s |} p').
    { intros subject st1 [(_ & _ & ->)|(parts & _ & Hp)].
      - exists p0. split; [by apply rtc_once|exact Hsh].
      - specialize (Hsim parts). by rewrite Hp in Hsim. }
    destruct (receive_cases settings oracle_at clock_now decode_message from_json openapi Hjson env st i)
      as [->|[[parts ->]|(subject & st1 & He & [->|(m & q & _ & ->)])]].
    + exists p0. split; [by apply rtc_once|exact Hsh].
    + apply Hsim.
    + by eapply Hent.
    + destruct (Hent _ _ He) as (p' & Hrun & []). exists p'. split; [exact Hrun|]. by split.
  - pose proof (check_simulated env (clock_shown env (lv_state s)).1 parts _ p0 Hsh Henv) as Hcheck.
    destruct (checks env _ parts) as [[subject|e] w]; cbn [is_ok].
    + destruct (Hcheck eq_refl) as (Hstep2 & [] & _).
      exists (validated (stamp parts) p0). split; [by eapply rtc_l, rtc_once|by split].
    + exists p0. destruct Hsh. split; [by apply rtc_once|by split].
  - destruct (take_out parts (lv_checked s)) as [rest|] eqn:Ht; [|exists p; by split].
    apply take_out_Some in Ht.
    destruct (record_simulated parts rest _ p0 (clock_shown env (lv_state s)).1 Hsh Ht) as [Hstep2 Hsh2].
    eexists. split; [by eapply rtc_l, rtc_once|exact Hsh2].
Qed.
Lemma live_simulated l s p : shows s p → ∃ p', rtc step p p' ∧ shows (live l s) p'.
Proof.
  unfold live. revert s p. induction l as [|e l IH]; intros s p Hs; cbn [foldl]; [by exists p|].
  destruct (happens_simulated e s p Hs) as (p1 & Hrun & Hs1).
  destruct (IH _ p1 Hs1) as (p2 & Hrun2 & Hs2). exists p2. split; [by etrans|exact Hs2].
Qed.
End simulation.

(** ** What has been let in once *)

Section booted.
Context `{UuidLib, ChronoLib, Base64Lib, CryptoLib, UrlLib, SerdeLib, UnicodeLib, DieselLib,
          GatewayLib, TonicTypesLib, ErrorDetailsLib, LruLaws NonceKey Tso}.

(** The request's credentials carry the key id, nonce and timestamp. *)
Definition carries (e : NonceKey * Tso) (i : Incoming) : Prop :=
  (∃ parts, credential i parts) ∧ ∀ parts, credential i parts → stamp parts = e.
(** A server that has just started. *)
Definition started (b : Booted) (last : Z) (w : World) : Live :=
  {| lv_state := (w, {| lg_store := bt_nonce_store b; lg_high := now_of 0 last; lg_accepted := [] |});
     lv_checked := [] |}.

End booted.

(** ** Example *)

Section witnesses.
#[local] Existing Instances toy_uuid toy_chrono toy_base64 toy_crypto toy_url toy_serde
  toy_unicode toy_diesel toy_gateway toy_tonic_types toy_error_details toy_cache toy_cache_laws.

(** A server started in the examples' first seconds; the example's request comes twice, once
    held up between its checks and its record, while the clock is set back. *)
Definition early_booted : Booted := {|
  bt_bind := bt_bind toy_booted;
  bt_time_source := InProcessTsoArc toy_tso (as_u64 (from_parts 1001 0));
  bt_nonce_store := bt_nonce_store toy_booted; bt_algos := bt_algos toy_booted;
  bt_account_bootstrap := SystemOnly; bt_user_bootstrap := Open;
|}.
Lemma early_configuration_boots : boot 1 (λ _, 1001) (Ok 0) None toy_config = Some (Ok early_booted).
Proof.
  apply boot_spec. split_and!; try reflexivity; [vm_compute; reflexivity..|done|].
  vm_compute. by repeat constructor.
Qed.
Definition early_wall (env : Env) : Z := 1005 + now_at env 0.
Definition early_word (_ : Env) : Z := as_u64 (from_parts 1001 0).
Definition set_back_env : Env :=
  {| fault := λ _, None; now_at := λ _, -3; fresh_at := fresh_at toy_env; others := λ _ d, d |}.
Definition early_live (l : list Event) : Live :=
  live (settings_of toy_config early_booted) toy_clock_now toy_decode_message toy_subject_from_json JNull
    toy_tso early_wall early_word l
    (started early_booted (as_u64 (from_parts 1001 0)) (mkWorld guarded_db 0)).

Definition no_parts : SignedRequestParts :=
  {| srp_method := []; srp_path := []; srp_canonical_query := []; srp_request_hash := [];
     srp_key_id := 0%N; srp_algo := []; srp_ts := mkTso 0; srp_nonce := []; srp_signature := [] |}.
Definition example_parts : SignedRequestParts :=
  match parse_authorization_header (default [] (mjoin (header_get AUTHORIZATION (rq_headers example_request)))),
        ProtoBodyHasher example_body with
  | Ok parsed, Ok hash => signed_parts example_request parsed hash
  | _, _ => no_parts
  end.
Definition example_stamp : NonceKey * Tso := (mkNonceKey 9 [7]%N, from_parts 990 0).
Definition twice_received : list Event :=
  [Checked toy_env example_parts; Served set_back_env (ToGrpc example_request);
   Recorded toy_env example_parts].

Lemma example_carries : carries example_stamp (ToGrpc example_request).
Proof.
  assert (Hp : (mjoin (header_get AUTHORIZATION (rq_headers example_request)) ≫=
            λ v, match parse_authorization_header v with
                 | Ok p => Some (mkNonceKey (pah_key_id p) (pah_nonce p), pah_ts p)
                 | Err _ => None
                 end) = Some example_stamp) by (vm_compute; reflexivity).
  destruct (mjoin (header_get AUTHORIZATION (rq_headers example_request))) as [value|] eqn:Hv; [|done].
  cbn in Hp. destruct (parse_authorization_header value) as [parsed|] eqn:Hparse; [|done].
  injection Hp as Hk Ht. split.
  - destruct (ProtoBodyHasher example_body) as [hash|] eqn:Hh; [|vm_compute in Hh; discriminate Hh].
    exists (signed_parts example_request parsed hash), value, parsed, example_body, hash. by split_and!.
  - intros parts (value' & parsed' & body & hash & Hv' & Hp' & _ & _ & ->). rewrite Hv in Hv'.
    injection Hv' as <-. rewrite Hparse in Hp'. injection Hp' as <-.
    unfold stamp, example_stamp. cbn [srp_key_id srp_nonce srp_ts signed_parts]. congruence.
Qed.
End witnesses.
