(* ===== verification/Journey.v ===== *)
(** * An owner's way in

    The other side of [Doors]: what is kept from strangers is open to the owner. A key that
    is registered through the server lets its holder in as the owner it was registered for. *)

From S2P Require Import Prelude Libs Instances Subject AuthTable Errors Tso TimeSource Nonce Wire Strategy Interceptor SeedClient Db Accounts Rpc AccountService Rest Gateway Resolver Config Server Doors.

(** ** The key of an owner *)

(** The row is the one active row with its key id, and no other table has the id. *)
Record sole_key (kind : KeyKind) (owner key_id : Uuid) (r : KeyRow) (d : Db) : Prop := {
  so_row : keys_of kind d !! (owner, key_id) = Some r;
  so_ids : key_owner r = owner ∧ key_key_id r = key_id;
  so_active : key_status r = lit "active";
  so_sole kind' pk r' : keys_of kind' d !! pk = Some r' → key_key_id r' = key_id →
    kind' = kind ∧ pk = (owner, key_id);
}.

Section resolved.
Context `{UuidLib, Base64Laws}.

Lemma sole_candidate kind owner key_id r d kind' :
  sole_key kind owner key_id r d →
  candidate key_id d kind' = if decide (kind' = kind) then Some (kind, r) else None.
Proof.
  intros [Hrow [Hown Hid] Hact Hsole]. unfold candidate.
  destruct (active_key_rows kind' key_id d) as [|x l] eqn:Hrows.
  - case_decide as Hk; [subst kind'|done]. exfalso.
    assert (Hin : r ∈ active_key_rows kind key_id d).
    { apply active_key_rows_elem. split; [by split|by eexists]. }
    rewrite Hrows in Hin. by apply not_elem_of_nil in Hin.
  - assert (Hx : x ∈ active_key_rows kind' key_id d) by (rewrite Hrows; left).
    apply active_key_rows_elem in Hx as [[Hxid _] [pk Hpk]].
    destruct (Hsole kind' pk x Hpk Hxid) as [-> ->]. rewrite decide_True by done.
    cbn. congruence.
Qed.
Lemma sole_key_resolves kind owner key_id r d bytes :
  sole_key kind owner key_id r d → key_public_key r = b64_encode bytes →
  resolve_spec key_id d =
    Ok {| rk_algo := key_algo r; rk_public_key := bytes;
          rk_subject := subject_of d kind owner key_id |}.
Proof.
  intros Hs Hb. unfold resolve_spec. cbn [omap list_omap].
  rewrite !(sole_candidate kind owner key_id r d) by done.
  assert (Hres : resolve_row key_id d (kind, r) =
    Ok (table_name kind, {| rk_algo := key_algo r; rk_public_key := bytes;
                            rk_subject := subject_of d kind owner key_id |})).
  { unfold resolve_row. cbn [fst snd]. rewrite Hb, b64_roundtrip. by rewrite (proj1 (so_ids _ _ _ _ _ Hs)). }
  destruct kind; cbn [decide]; repeat case_decide; try done; cbn [omap list_omap try_map];
    rewrite Hres; reflexivity.
Qed.
End resolved.

(** ** The holder of a key is let in *)

Section created.
Context `{UuidLib, ChronoLib, Base64Lib, UrlLib, DieselLib}.

(** A row is added to a key table, and to no other. *)
Definition key_added (kind : KeyKind) (owner key_id : Uuid) (key : PublicKey) (d d' : Db) : Prop :=
  ∃ now, keys_of kind d' = <[(owner, key_id) :=
           mkKey owner key_id (pk_algo key) (pk_public_key key) (lit "active") now None]> (keys_of kind d) ∧
    ∀ kind', kind' ≠ kind → keys_of kind' d' = keys_of kind' d.
Lemma key_added_frame kind owner key_id key d0 d d' :
  (∀ kind', keys_of kind' d = keys_of kind' d0) →
  key_added kind owner key_id key d d' → key_added kind owner key_id key d0 d'.
Proof.
  intros Hd (now & Hk & Ho). exists now. split; [by rewrite Hk, Hd|].
  intros kind' Hne. by rewrite Ho, Hd.
Qed.
Lemma same_keys {A} (m : M HeadlinesError A) env w a w' :
  quiet env → writes_nothing m → m env w = (Ok a, w') → w_db w' = w_db w.
Proof.
  intros Hq Hm Hr. pose proof (Hm (λ d, d = w_db w) env w) as Hd. rewrite Hr in Hd. apply Hd; [|done].
  intros n d ->. apply (proj2 Hq).
Qed.

(** An insert that ran quietly did what it says. *)
Lemma insert_quiet {A} ctx (viol : DateTime → Db → list (bool * DieselError)) f (g : DateTime → Db → A) env w a w' :
  quiet env →
  run_now ctx (λ now, returning (insert_stmt (viol now) (f now)) (g now)) env w = (Ok a, w') →
  ∃ now, w_db w' = f now (w_db w) ∧ a = g now (f now (w_db w)).
Proof.
  intros Hq Hr. apply map_errM_ok, stmt_ok in Hr as [Hr _]. rewrite (proj2 Hq) in Hr. cbn [w_db w_tick] in Hr.
  unfold returning, insert_stmt in Hr. destruct (filter _ _) as [|[b e] l]; [|done].
  injection Hr as <- <-. by eexists.
Qed.
Lemma key_create_quiet new env w k w' :
  quiet env → key_create new env w = (Ok k, w') →
  sk_parent_id k = nk_parent_id new ∧ sk_key_id k = nk_key_id new ∧
  key_added (nk_kind new) (nk_parent_id new) (nk_key_id new)
    {| pk_algo := nk_algo new; pk_public_key := nk_public_key new |} (w_db w) (w_db w').
Proof.
  intros Hq Hr. unfold key_create in Hr. destruct (nk_kind new) eqn:Hk; [| |done];
  (apply bind_ok in Hr as (u & w1 & Hc & Hr); rewrite conn_quiet in Hc by done; injection Hc as <- <-;
   apply bind_ok in Hr as (row & w2 & Hr & Hl);
   apply (insert_quiet _ _ _ _ _ _ _ _ Hq) in Hr as (now & Hd & ->);
   unfold lift, key_into_domain in Hl; cbn in Hl; injection Hl as <- <-;
   cbn [w_db] in Hd; rewrite Hd; split; [done|]; split; [done|]; exists now; split; [done|]; by intros []).
Qed.
Lemma account_create_quiet new env w ac w' :
  quiet env → account_create new env w = (Ok ac, w') →
  ac_id ac = nac_id new ∧ ∀ kind, keys_of kind (w_db w') = keys_of kind (w_db w).
Proof.
  intros Hq (u & w1 & Hc & Hr)%bind_ok. rewrite conn_quiet in Hc by done. injection Hc as <- <-.
  apply bind_ok in Hr as (row & w2 & Hr & Hl).
  apply (insert_quiet _ _ _ _ _ _ _ _ Hq) in Hr as (now & Hd & ->).
  unfold lift, account_into_domain in Hl. cbn in Hl. injection Hl as <- <-. split; [done|].
  rewrite Hd. by intros [].
Qed.
Lemma user_create_quiet new env w u w' :
  quiet env → user_create new env w = (Ok u, w') →
  us_id u = nus_id new ∧ ∀ kind, keys_of kind (w_db w') = keys_of kind (w_db w).
Proof.
  intros Hq (x & w1 & Hc & Hr)%bind_ok. rewrite conn_quiet in Hc by done. injection Hc as <- <-.
  apply bind_ok in Hr as (row & w2 & Hr & Hl).
  apply (insert_quiet _ _ _ _ _ _ _ _ Hq) in Hr as (now & Hd & ->).
  unfold lift, user_into_domain in Hl. cbn in Hl. injection Hl as <- <-. split; [done|].
  rewrite Hd. by intros [].
Qed.
Lemma validated_key algos key algo public :
  validate_public_key algos key = Ok (algo, public) → key = {| pk_algo := algo; pk_public_key := public |}.
Proof.
  unfold validate_public_key. intros Hv. destruct (bool_decide _); [done|].
  destruct (registry_get _ _); [|done]. destruct (b64_decode _); [|done].
  cbn [map_err mbind result_bind] in Hv. destruct (_ && _); [done|]. destruct key. by injection Hv as <- <-.
Qed.

(** What each of the four calls that register a key adds. *)
Lemma created_account_key algos mode s q key env w account key_text w' :
  quiet env → ca_initial_key q = Some key →
  create_account algos mode s q env w = (Ok (account, key_text), w') →
  ∃ owner key_id, pac_id account = uuid_display owner ∧ key_text = uuid_display key_id ∧
    key_added KAccount owner key_id key (w_db w) (w_db w').
Proof.
  intros Hq Hkey Hr. unfold create_account in Hr. destruct (_ && _); [done|].
  do 3 (apply bind_ok in Hr as (? & ? & [_ ->]%check_ok & Hr)).
  apply bind_ok in Hr as (pk & ? & [Hpk ->]%require_ok & Hr). rewrite Hkey in Hpk. injection Hpk as <-.
  apply bind_ok in Hr as ([algo public] & ? & [->%validated_key ->]%check_ok & Hr).
  apply bind_ok in Hr as (owner & wa & Ha & Hr). injection Ha as _ <-.
  apply bind_ok in Hr as (key_id & wb & Hb & Hr). injection Hb as _ <-.
  apply bind_ok in Hr as (ac & w1 & Hc%call_ok & Hr).
  apply (account_create_quiet _ _ _ _ _ Hq) in Hc as [Hid Hkeys].
  apply bind_ok in Hr as (k & w2 & Hk%call_ok & Hr).
  apply (key_create_quiet _ _ _ _ _ Hq) in Hk as (_ & _ & Hk).
  unfold mret, M_ret in Hr. injection Hr as <- <- <-. exists owner, key_id.
  split; [cbn; by rewrite Hid|]. split; [done|]. exact (key_added_frame _ _ _ _ _ _ _ Hkeys Hk).
Qed.
Lemma created_user_key algos mode s q key env w user key_text w' :
  quiet env → cu_initial_key q = Some key →
  create_user algos mode s q env w = (Ok (user, key_text), w') →
  ∃ owner key_id, pu_id user = uuid_display owner ∧ key_text = uuid_display key_id ∧
    key_added KUser owner key_id key (w_db w) (w_db w').
Proof.
  intros Hq Hkey Hr. unfold create_user in Hr. destruct (_ && _); [done|].
  apply bind_ok in Hr as (? & ? & [_ ->]%check_ok & Hr).
  apply bind_ok in Hr as (pk & ? & [Hpk ->]%require_ok & Hr). rewrite Hkey in Hpk. injection Hpk as <-.
  apply bind_ok in Hr as ([algo public] & ? & [->%validated_key ->]%check_ok & Hr).
  apply bind_ok in Hr as (owner & wa & Ha & Hr). injection Ha as _ <-.
  apply bind_ok in Hr as (key_id & wb & Hb & Hr). injection Hb as _ <-.
  apply bind_ok in Hr as (u & w1 & Hc%call_ok & Hr).
  apply (user_create_quiet _ _ _ _ _ Hq) in Hc as [Hid Hkeys].
  apply bind_ok in Hr as (k & w2 & Hk%call_ok & Hr).
  apply (key_create_quiet _ _ _ _ _ Hq) in Hk as (_ & _ & Hk).
  unfold mret, M_ret in Hr. injection Hr as <- <- <-. exists owner, key_id.
  split; [cbn; by rewrite Hid|]. split; [done|]. exact (key_added_frame _ _ _ _ _ _ _ Hkeys Hk).
Qed.
Lemma added_key_reply algos kind owner key env w (k : ProtoKey) w' :
  quiet env →
  ('(algo, public_key) ← check (validate_public_key algos key);
   key_id ← new_uuid;
   stored ← call (keys_create
     {| nk_kind := kind; nk_parent_id := owner; nk_key_id := key_id; nk_algo := algo;
        nk_public_key := public_key |});
   mret (key_to_proto stored)) env w = (Ok k, w') →
  ∃ key_id, pk_owner_id k = uuid_display owner ∧ pk_key_id k = uuid_display key_id ∧
    key_added kind owner key_id key (w_db w) (w_db w').
Proof.
  intros Hq Hr. apply bind_ok in Hr as ([algo public] & ? & [->%validated_key ->]%check_ok & Hr).
  apply bind_ok in Hr as (key_id & wb & Hb & Hr). injection Hb as _ <-.
  apply bind_ok in Hr as (stored & w2 & Hk%call_ok & Hr).
  apply (key_create_quiet _ _ _ _ _ Hq) in Hk as (Ho & Hi & Hk).
  unfold mret, M_ret in Hr. injection Hr as <- <-. exists key_id. cbn in *. by rewrite Ho, Hi.
Qed.
Lemma added_account_key algos s q key env w k w' :
  quiet env → ak_key q = Some key → add_account_key algos s q env w = (Ok k, w') →
  ∃ owner key_id, pk_owner_id k = uuid_display owner ∧ pk_key_id k = uuid_display key_id ∧
    key_added KAccount owner key_id key (w_db w) (w_db w').
Proof.
  intros Hq Hkey Hr. unfold add_account_key in Hr.
  apply bind_ok in Hr as (owner & ? & [_ ->]%check_ok & Hr). destruct (negb _); [done|].
  apply bind_ok in Hr as (acct & w1 & Hg%call_ok & Hr).
  apply (same_keys _ _ _ _ _ Hq) in Hg; [|intros P; apply account_get_reads].
  destruct (ac_status acct); [|done].
  apply bind_ok in Hr as (pk & ? & [Hpk ->]%require_ok & Hr). rewrite Hkey in Hpk. injection Hpk as <-.
  exists owner. rewrite <- Hg. exact (added_key_reply _ _ _ _ _ _ _ _ Hq Hr).
Qed.
Lemma added_user_key algos s q key env w k w' :
  quiet env → ak_key q = Some key → add_user_key algos s q env w = (Ok k, w') →
  ∃ owner key_id, pk_owner_id k = uuid_display owner ∧ pk_key_id k = uuid_display key_id ∧
    key_added KUser owner key_id key (w_db w) (w_db w').
Proof.
  intros Hq Hkey Hr. unfold add_user_key in Hr.
  apply bind_ok in Hr as (owner & ? & [_ ->]%check_ok & Hr). destruct (negb _); [done|].
  apply bind_ok in Hr as (user & w1 & Hg%call_ok & Hr).
  apply (same_keys _ _ _ _ _ Hq) in Hg; [|intros P; apply user_get_reads].
  destruct (us_status user); [|done].
  apply bind_ok in Hr as (pk & ? & [Hpk ->]%require_ok & Hr). rewrite Hkey in Hpk. injection Hpk as <-.
  exists owner. rewrite <- Hg. exact (added_key_reply _ _ _ _ _ _ _ _ Hq Hr).
Qed.
End created.

Section served.
Context `{UuidLib, !UuidLaws, ChronoLib, Base64Lib, !Base64Laws, CryptoLib, !SignerLib, !SignerLaws, UrlLib,
          SerdeLib, UnicodeLib, DieselLib, GatewayLib, TonicTypesLib, ErrorDetailsLib}.
Context {T N : Type} `{TimeSource T, NonceStoreI N}.
Context (settings : Settings) (clock_at : Env → World → T) (clock_now : Env → World → result TimeError Tso).
Context (decode_message : ∀ m, result () bytes → result GrpcStatus (MessageOf m)).
Abbreviation listen := (public_listener settings clock_at clock_now decode_message).
Abbreviation serve_grpc := (grpc_service settings clock_now decode_message).

(** A call made the way the client makes it: the message in one frame, the header signed. *)
Record client_call (sk : SigningKey) (key_id : Uuid) (encoded : bytes) (ms : Z) (nonce_id : Uuid)
    (rq : Request) : Prop := {
  cc_method : rq_method rq = lit "POST";
  cc_query : rq_query rq = None;
  cc_body : ∃ len, rq_body rq = Ok (grpc_frame 0 len encoded) ∧ length len = 4%nat;
  cc_header : header_get AUTHORIZATION (rq_headers rq) =
    Some (Some (signed_header encoded sk key_id (rq_path rq) ms nonce_id));
}.
(** The listener runs the service with the request as the subject's. *)
Definition served_as (subject : Subject) (env : Env) (w : World) (store store' : N) (rq : Request) : Prop :=
  ∃ seen w2, rq_subject seen = Some subject ∧ rq_path seen = rq_path rq ∧ rq_body seen = rq_body rq ∧
    w_db w2 = w_db w ∧
    listen env (w, store) rq =
      (let (r, w3) := serve_grpc seen env w2 in (FromService r, (w3, store'), [lit "ok"])).

#[local] Opaque AUTH_TABLE.
Lemma key_holder_is_served kind owner key_id r env w store store' sk encoded ms nonce_id rq spec :
  quiet env →
  set_algos settings !! lit "ed25519" = Some Ed25519 →
  sole_key kind owner key_id r (w_db w) → key_algo r = lit "ed25519" →
  key_public_key r = b64_encode (verifying_key_bytes sk) →
  client_call sk key_id encoded ms nonce_id rq →
  (∀ w', validate (clock_at env w') (from_parts ms 0) = Ok ()) →
  record_nonce store key_id (uuid_bytes nonce_id) (from_parts ms 0) = (Ok (), store') →
  table_lookup AUTH_TABLE (rq_path rq) = Some spec →
  is_allowed (subject_of (w_db w) kind owner key_id) spec = true →
  served_as (subject_of (w_db w) kind owner key_id) env w store store' rq.
Proof.
  intros Hq Halgo Hsole Hka Hpk [Hm Hqu (len & Hb & Hlen) Hh] Htime Hnonce Hspec Hallow.
  set (subject := subject_of (w_db w) kind owner key_id) in *.
  destruct (pg_resolve_quiet key_id env w Hq) as (w2 & Hres & Hdb).
  rewrite (sole_key_resolves kind owner key_id r _ _ Hsole Hpk), Hka in Hres.
  assert (Hstrategy : pg_strategy settings clock_at env (w, store)
            (client_parts encoded sk key_id (rq_path rq) ms nonce_id) = (Ok subject, (w2, store'))).
  { unfold pg_strategy. cbn [srp_key_id client_parts fst snd]. rewrite Hres.
    rewrite (client_authenticated _ store store' encoded sk key_id subject (rq_path rq) ms nonce_id);
      [reflexivity|exact Halgo|reflexivity|apply Htime|exact Hnonce]. }
  destruct (signed_request_enters _ _ _ encoded len sk key_id subject ms nonce_id rq Hstrategy)
    as (seen & Hseen & Hs & Hp & Hbody); [assumption..|].
  exists seen, w2. split; [exact Hs|]. split; [exact Hp|]. split; [exact Hbody|]. split; [exact Hdb|]. unfold public_listener, public_stack. rewrite Hseen.
  unfold authorization. rewrite Hs, Hp, Hspec. cbn [default from_option]. change (id subject) with subject.
  rewrite Hallow. reflexivity.
Qed.

(** The key a registration sends, and the owner and key id its reply names. *)
Definition sent_key (m : Method) : MessageOf m → option PublicKey :=
  match m return MessageOf m → option PublicKey with
  | OnRest r =>
    match r return RequestOf r → option PublicKey with
    | CreateAccount => ca_initial_key
    | CreateUser => cu_initial_key
    | AddUserKey => ak_key
    | _ => λ _, None
    end
  | AddAccountKey => ak_key
  | _ => λ _, None
  end.
Definition new_key (m : Method) : ReplyOf m → option (KeyKind * str * str) :=
  match m return ReplyOf m → option (KeyKind * str * str) with
  | OnRest r =>
    match r return ResponseOf r → option (KeyKind * str * str) with
    | CreateAccount => λ reply, (λ a, (KAccount, pac_id a, car_key_id reply)) <$> car_account reply
    | CreateUser => λ reply, (λ u, (KUser, pu_id u, cur_key_id reply)) <$> cur_user reply
    | AddUserKey => λ k, Some (KUser, pk_owner_id k, pk_key_id k)
    | _ => λ _, None
    end
  | AddAccountKey => λ k, Some (KAccount, pk_owner_id k, pk_key_id k)
  | _ => λ _, None
  end.
Lemma registration_adds_key s m (q : MessageOf m) key env w reply w1 :
  quiet env → sent_key m q = Some key →
  handle settings (time_now clock_now) s m q env w = (Ok reply, w1) →
  ∃ kind owner key_id, new_key m reply = Some (kind, uuid_display owner, uuid_display key_id) ∧
    key_added kind owner key_id key (w_db w) (w_db w1).
Proof.
  intros Hq Hkey Hr. destruct m as [[]| | | |]; try discriminate Hkey; cbn [handle handle_rest] in Hr;
    cbn [sent_key] in Hkey.
  - apply bind_ok in Hr as ([account key_text] & w2 & Hr & Hret).
    unfold mret, M_ret in Hret. injection Hret as <- <-.
    apply (created_account_key _ _ _ _ _ _ _ _ _ _ Hq Hkey) in Hr as (o & k & Ho & -> & Hk).
    exists KAccount, o, k. split; [cbn; by rewrite Ho|exact Hk].
  - apply bind_ok in Hr as ([user key_text] & w2 & Hr & Hret).
    unfold mret, M_ret in Hret. injection Hret as <- <-.
    apply (created_user_key _ _ _ _ _ _ _ _ _ _ Hq Hkey) in Hr as (o & k & Ho & -> & Hk).
    exists KUser, o, k. split; [cbn; by rewrite Ho|exact Hk].
  - apply (added_user_key _ _ _ _ _ _ _ _ Hq Hkey) in Hr as (o & k & Ho & Hi & Hk).
    exists KUser, o, k. split; [cbn; by rewrite Ho, Hi|exact Hk].
  - apply (added_account_key _ _ _ _ _ _ _ _ Hq Hkey) in Hr as (o & k & Ho & Hi & Hk).
    exists KAccount, o, k. split; [cbn; by rewrite Ho, Hi|exact Hk].
Qed.
Lemma added_key_sole kind owner key_id key d d' :
  key_added kind owner key_id key d d' →
  (∀ kind' pk r, keys_of kind' d !! pk = Some r → key_key_id r ≠ key_id) →
  ∃ r, sole_key kind owner key_id r d' ∧ key_algo r = pk_algo key ∧ key_public_key r = pk_public_key key.
Proof.
  intros (now & Hk & Ho) Hfresh.
  exists (mkKey owner key_id (pk_algo key) (pk_public_key key) (lit "active") now None).
  split; [|split; reflexivity].
  split; [by rewrite Hk, lookup_insert_eq|by split|reflexivity|].
  intros kind' pk r' Hrow Hid. destruct (decide (kind' = kind)) as [->|Hne].
  - rewrite Hk in Hrow. apply lookup_insert_Some in Hrow as [[<- _]|[_ Hrow]]; [by split|].
    by destruct (Hfresh _ _ _ Hrow).
  - rewrite Ho in Hrow by exact Hne. by destruct (Hfresh _ _ _ Hrow).
Qed.

(** C6. Who registers a key gets in: when an account or a user is created with the verifying
    key of a client, or the key is added to one, a call the client signs with that key and
    the key id of the reply is answered by the service, run as that owner, on every method
    open to it. It takes a timestamp the time source accepts, a nonce that is not known yet,
    and a key id no other row has. *)
Theorem registered_key_is_served sk s m (q : MessageOf m) env w reply w1 :
  quiet env →
  set_algos settings !! lit "ed25519" = Some Ed25519 →
  sent_key m q =
    Some {| pk_algo := lit "ed25519"; pk_public_key := b64_encode (verifying_key_bytes sk) |} →
  handle settings (time_now clock_now) s m q env w = (Ok reply, w1) →
  ∃ kind owner kid, new_key m reply = Some (kind, uuid_display owner, uuid_display kid) ∧
    ((∀ kind' pk r, keys_of kind' (w_db w) !! pk = Some r → key_key_id r ≠ kid) →
     ∀ env2 store store' encoded ms nonce_id rq spec,
       quiet env2 → client_call sk kid encoded ms nonce_id rq →
       (∀ w', validate (clock_at env2 w') (from_parts ms 0) = Ok ()) →
       record_nonce store kid (uuid_bytes nonce_id) (from_parts ms 0) = (Ok (), store') →
       table_lookup AUTH_TABLE (rq_path rq) = Some spec →
       is_allowed (subject_of (w_db w1) kind owner kid) spec = true →
       served_as (subject_of (w_db w1) kind owner kid) env2 w1 store store' rq).
Proof.
  intros Hq Halgo Hkey Hr.
  destruct (registration_adds_key _ _ _ _ _ _ _ _ Hq Hkey Hr) as (kind & owner & kid & Hnew & Hadd).
  exists kind, owner, kid. split; [exact Hnew|].
  intros Hfresh env2 store store' encoded ms nonce_id rq spec Hq2 Hcall Htime Hnonce Hspec Hallow.
  destruct (added_key_sole _ _ _ _ _ _ Hadd Hfresh) as (r & Hsole & Ha & Hp).
  exact (key_holder_is_served kind owner kid r env2 w1 store store' sk encoded ms nonce_id rq spec
    Hq2 Halgo Hsole Ha Hp Hcall Htime Hnonce Hspec Hallow).
Qed.
End served.

(** ** Example *)

Section witnesses.
#[local] Existing Instances toy_uuid toy_uuid_laws toy_chrono toy_base64 toy_base64_laws toy_crypto
  toy_signer toy_signer_laws toy_url toy_serde toy_unicode toy_diesel toy_gateway toy_tonic_types
  toy_error_details.
#[local] Instance no_replays : NonceStoreI () := λ s _ _ _, (Ok (), s).

Definition open_settings : Settings := {|
  set_algos := {[ lit "ed25519" := Ed25519 ]};
  set_account_bootstrap := Open; set_user_bootstrap := Open;
  set_content_max_bytes := 1000; set_replace_max_items := 10; set_batch_max_items := 10;
|}.
Definition ann : CreateAccountRequest :=
  {| ca_short_name := lit "ann"; ca_author_name := lit "Ann"; ca_author_url := [];
     ca_initial_key := Some {| pk_algo := lit "ed25519";
                               pk_public_key := b64_encode (verifying_key_bytes 5%N) |} |}.
(** Ann asks for a draft, with the key id she was given. *)
Definition anns_request (kid : Uuid) : Request := {|
  rq_method := lit "POST"; rq_path := seed_path; rq_query := None;
  rq_headers := {[ AUTHORIZATION := [Some (signed_header seed_message 5%N kid seed_path 990 77)] ]};
  rq_body := Ok (grpc_frame 0 [0; 0; 0; 2]%N seed_message); rq_subject := None |}.
Definition anns_registration :=
  handle open_settings (time_now toy_clock_now) Subject.Anonymous (OnRest CreateAccount) ann toy_env
    (mkWorld empty_db 0).

Lemma registered_key_is_served_witness :
  ∃ reply w1 owner kid, anns_registration = (Ok reply, w1) ∧ car_key_id reply = uuid_display kid ∧
    served_as (N := ()) open_settings toy_clock toy_clock_now toy_decode_message
      (Subject.Account owner kid) toy_env w1 () () (anns_request kid).
Proof.
  assert (Hok : is_ok anns_registration.1 = true) by (vm_compute; reflexivity).
  unfold anns_registration in *.
  destruct (handle _ _ _ _ _ _ _) as [[reply|e] w1] eqn:Hrun; [clear Hok|discriminate Hok].
  destruct (registered_key_is_served (N := ()) open_settings toy_clock toy_clock_now toy_decode_message
    (5%N : @SigningKey toy_crypto toy_signer) Subject.Anonymous (OnRest CreateAccount) ann toy_env
    (mkWorld empty_db 0) reply w1 toy_env_quiet eq_refl eq_refl Hrun)
    as (kind & owner & kid & Hnew & Hserved).
  cbn [new_key] in Hnew. destruct (car_account reply) as [account|]; [|discriminate Hnew].
  cbn in Hnew. injection Hnew as <- _ Hkid.
  exists reply, w1, owner, kid. split; [reflexivity|]. split; [exact Hkid|].
  assert (Hspec : ∃ spec, table_lookup AUTH_TABLE seed_path = Some spec ∧
            is_allowed (Subject.Account owner kid) spec = true)
    by (eexists; split; [vm_compute; reflexivity|vm_compute; reflexivity]).
  destruct Hspec as (spec & Hspec & Hallow).
  apply (Hserved ltac:(by intros [] pk r Hr; cbn in Hr; rewrite lookup_empty in Hr)
    toy_env () () seed_message 990 77%N (anns_request kid) spec); try assumption.
  - exact toy_env_quiet.
  - split; [reflexivity|reflexivity| |reflexivity]. exists [0; 0; 0; 2]%N. split; reflexivity.
  - intros w'. vm_compute. reflexivity.
  - reflexivity.
Defined.
End witnesses.
