(* ===== verification/Lockout.v ===== *)
(** * A revoked key's way out

    The end of what [Journey] begins: once the server has answered a revocation, no request
    signed with the key gets in again, through either door, however long the server goes on
    serving. *)

From S2P Require Import Prelude Libs Instances Subject AuthTable Errors Tso TimeSource Nonce Wire Strategy Interceptor SeedClient Db Accounts Rpc AccountService EventService Rest Gateway Resolver Config Writes Policy Server Doors Replay.

(** ** The row *)

(** The key id is found at one place at most. *)
Definition only_at (kind : KeyKind) (owner key_id : Uuid) (d : Db) : Prop := ∀ kind' pk r,
  keys_of kind' d !! pk = Some r → key_key_id r = key_id → kind' = kind ∧ pk = (owner, key_id).
Definition row_revoked (kind : KeyKind) (owner key_id : Uuid) (d : Db) : Prop :=
  ∃ r, keys_of kind d !! (owner, key_id) = Some r ∧ key_status r = lit "revoked".

Lemma revoked_nowhere_active kind owner key_id d :
  only_at kind owner key_id d → row_revoked kind owner key_id d → no_active_row key_id d.
Proof.
  intros Hat (r & Hr & Hst) kind' pk r' Hr' Hid. destruct (Hat _ _ _ Hr' Hid) as [-> ->].
  rewrite Hr in Hr'. injection Hr' as <-. rewrite Hst. by vm_compute.
Qed.
Lemma retained_row_revoked kind owner key_id d d' :
  retained d d' → row_revoked kind owner key_id d → row_revoked kind owner key_id d'.
Proof.
  intros Hret (r & Hr & Hst). destruct (re_keys _ _ Hret kind _ _ Hr) as (r' & Hr' & _ & _ & Hk).
  exists r'. auto.
Qed.

Section revoked.
Context `{UuidLib, ChronoLib, Base64Lib, UrlLib, SerdeLib, UnicodeLib, DieselLib}.

(** A revocation that was answered was stored. *)
Lemma key_revoke_in_revokes kind table c1 c2 owner key_id env w k w' :
  key_revoke_in kind table c1 c2 owner key_id env w = (Ok k, w') → row_revoked kind owner key_id (w_db w').
Proof.
  intros (u & w1 & _ & Hr)%bind_ok. apply bind_ok in Hr as (existing & w2 & _ & Hr).
  apply bind_ok in Hr as (r & w3 & _ & Hr). destruct (str_eqb _ _); [done|].
  apply bind_ok in Hr as (now & w4 & _ & Hr). apply bind_ok in Hr as (updated & w5 & Hu & Hr).
  unfold lift in Hr. injection Hr as _ <-. apply map_errM_ok, stmt_ok in Hu as [Hu _].
  unfold update_returning in Hu. injection Hu as Hsel <-.
  set (d := others env (w_tick w4) (w_db w4)) in *. unfold select_key, update_key in *.
  destruct (keys_of kind d !! (owner, key_id)) as [row|] eqn:Hrow.
  - exists (revoked_key now row). split; [|done].
    destruct kind; cbn in *; by rewrite lookup_alter_eq, Hrow.
  - destruct kind; cbn in *; by rewrite lookup_alter_eq, Hrow in Hsel.
Qed.
Lemma key_revoke_revokes kind owner key_id env w k w' :
  key_revoke kind owner key_id env w = (Ok k, w') → row_revoked kind owner key_id (w_db w').
Proof. destruct kind; [apply key_revoke_in_revokes..|done]. Qed.

(** What a revocation asks for. *)
Definition revocation (m : Method) : MessageOf m → option (KeyKind * RevokeKeyRequest) :=
  match m return MessageOf m → option (KeyKind * RevokeKeyRequest) with
  | OnRest r =>
    match r return RequestOf r → option (KeyKind * RevokeKeyRequest) with
    | RevokeUserKey => λ q, Some (KUser, q)
    | _ => λ _, None
    end
  | RevokeAccountKey => λ q, Some (KAccount, q)
  | _ => λ _, None
  end.
Lemma revocation_revokes settings time_now s m (q : MessageOf m) kind rq owner key_id env w reply w' :
  revocation m q = Some (kind, rq) →
  uuid_parse_str (rk_owner_id rq) = Ok owner → uuid_parse_str (rk_key_id rq) = Ok key_id →
  handle settings time_now s m q env w = (Ok reply, w') → row_revoked kind owner key_id (w_db w').
Proof.
  intros Hq Ho Hk Hr. destruct m as [[]| | | |]; try discriminate Hq; cbn [revocation] in Hq;
    injection Hq as <- <-; cbn [handle handle_rest] in Hr.
  - unfold revoke_user_key in Hr.
    apply bind_ok in Hr as (o & w1 & [Hpo ->]%check_ok & Hr). apply parse_uuid_ok in Hpo.
    apply bind_ok in Hr as (i & w2 & [Hpi ->]%check_ok & Hr). apply parse_uuid_ok in Hpi.
    destruct (negb _); [done|]. apply bind_ok in Hr as (active & w3 & _ & Hr). destruct (_ && _); [done|].
    apply bind_ok in Hr as (k & w4 & Hrev%call_ok & Hr). unfold mret, M_ret in Hr. injection Hr as _ <-.
    pose proof (key_revoke_revokes _ _ _ _ _ _ _ Hrev). congruence.
  - unfold revoke_account_key in Hr.
    apply bind_ok in Hr as (o & w1 & [Hpo ->]%check_ok & Hr). apply parse_uuid_ok in Hpo.
    apply bind_ok in Hr as (i & w2 & [Hpi ->]%check_ok & Hr). apply parse_uuid_ok in Hpi.
    destruct (negb _); [done|]. apply bind_ok in Hr as (ac & w3 & _ & Hr). destruct (ac_status ac); [|done].
    apply bind_ok in Hr as (active & w4 & _ & Hr). destruct (_ && _); [done|].
    apply bind_ok in Hr as (k & w5 & Hrev%call_ok & Hr). unfold mret, M_ret in Hr. injection Hr as _ <-.
    pose proof (key_revoke_revokes _ _ _ _ _ _ _ Hrev). congruence.
Qed.
End revoked.

(** ** The doors *)

Section locked_out.
Context `{UuidLib, ChronoLib, Base64Lib, CryptoLib, UrlLib, SerdeLib, UnicodeLib, DieselLib,
          GatewayLib, TonicTypesLib, ErrorDetailsLib}.
Context {T N : Type} `{TimeSource T, NonceStoreI N}.
Context (settings : Settings) (clock_at : Env → World → T) (clock_now : Env → World → result TimeError Tso).
Context (decode_message : ∀ m, result () bytes → result GrpcStatus (MessageOf m)).
Context (from_json : str → option Subject) (openapi : Json).
Hypothesis Hjson : ∀ subject json, subject_to_json subject = Ok json → from_json json = Some subject.
Abbreviation served := (serve_all settings clock_at clock_now decode_message from_json openapi).
Abbreviation refused := (locked_out settings clock_at clock_now decode_message from_json openapi).

(** The key id a request presents is the one its credentials name. *)
Definition presents (key_id : Uuid) (i : Incoming) : Prop :=
  (∃ parts, credential i parts) ∧ ∀ parts, credential i parts → srp_key_id parts = key_id.

(** The strategy turns a dead key down. *)
Lemma dead_key_refused env st parts :
  (∀ n d, no_active_row (srp_key_id parts) d → no_active_row (srp_key_id parts) (others env n d)) →
  no_active_row (srp_key_id parts) (w_db st.1) →
  ∃ e st', pg_strategy settings clock_at env st parts = (Err e, st').
Proof.
  intros Ho Hw. unfold pg_strategy.
  destruct (revoked_key_never_resolves (srp_key_id parts) env st.1 Ho Hw) as [e He].
  destruct (pg_resolve (srp_key_id parts) env st.1) as [key w]. cbn [fst] in He. subst key.
  set (self := {| srs_resolver := _; srs_algos := _; srs_time_source := _ |}).
  destruct (authenticate self st.2 parts) as [[s|e'] store] eqn:Hauth; [exfalso|by eexists _, _].
  unfold authenticate in Hauth. destruct (check_request self parts) as [s'|e'] eqn:Hcheck; [|done].
  apply check_request_ok in Hcheck as (k & algo & [Hk _ _ _ _] & _). done.
Qed.
Lemma dead_key_locked_out env st i key_id :
  (∀ n d, no_active_row key_id d → no_active_row key_id (others env n d)) →
  no_active_row key_id (w_db st.1) → presents key_id i → refused env st i.
Proof.
  intros Ho Hw [Hc Hid]. apply refused_locked_out; [exact Hjson|exact Hc|].
  intros parts Hp. apply dead_key_refused; by rewrite (Hid parts Hp).
Qed.

(** A history loses no record. *)
Lemma history_retains l st d0 :
  (∀ env i, (env, i) ∈ l → others_retain env) →
  retained d0 (w_db st.1) → retained d0 (w_db (served l st).1).
Proof.
  intros Hl. apply serve_all_keeps; [exact Hjson| |].
  - intros env i Hi n d Hd. etrans; [exact Hd|by eapply Hl].
  - intros. apply retained_allowed.
Qed.

(** C7. A revocation is final: after the server has answered that a key of an account or a user
    is revoked, and after any further history of requests on both doors, whatever fails, no
    request that presents the key id is let in as anybody. The public listener answers it as
    unauthenticated; so does the gateway, with 401, when it reads as the call of a method (a
    malformed body is refused as such before anybody is asked who sent it, and the two
    constant routes answer everybody). Through either door it changes nothing. Key ids are
    taken to be unique, and the requests beside these to lose no record and to activate no
    key with this id. *)
Theorem revoked_key_is_locked_out s m (q : MessageOf m) kind rq owner key_id env w reply w1
    store l env2 i :
  revocation m q = Some (kind, rq) →
  uuid_parse_str (rk_owner_id rq) = Ok owner → uuid_parse_str (rk_key_id rq) = Ok key_id →
  handle settings (time_now clock_now) s m q env w = (Ok reply, w1) →
  (∀ env' i', (env', i') ∈ l → others_retain env') →
  let st := served l (w1, store) in
  only_at kind owner key_id (w_db st.1) →
  (∀ n d, no_active_row key_id d → no_active_row key_id (others env2 n d)) →
  presents key_id i →
  refused env2 st i.
Proof.
  intros Hrev Hown Hkid Hr Hl st Hat Ho2 Hp.
  apply (revocation_revokes _ _ _ _ _ _ _ _ _ _ _ _ _ Hrev Hown Hkid) in Hr.
  apply dead_key_locked_out with (key_id := key_id); [exact Ho2| |exact Hp].
  apply (revoked_nowhere_active kind owner); [exact Hat|].
  apply (retained_row_revoked _ _ _ (w_db w1)); [|exact Hr].
  apply (history_retains l (w1, store)); [exact Hl|reflexivity].
Qed.
End locked_out.

(** ** Example *)

Section witnesses.
#[local] Existing Instances toy_uuid toy_chrono toy_base64 toy_crypto toy_url toy_serde
  toy_unicode toy_diesel toy_gateway toy_tonic_types toy_error_details.
#[local] Instance no_replays : NonceStoreI () := λ s _ _ _, (Ok (), s).

Definition only_atb (kind : KeyKind) (owner key_id : Uuid) (d : Db) : bool :=
  forallb (λ kind', forallb (λ row : (Uuid * Uuid) * KeyRow,
      negb (bool_decide (key_key_id row.2 = key_id)) ||
      bool_decide (kind' = kind) && bool_decide (row.1 = (owner, key_id)))
    (map_to_list (keys_of kind' d))) [KAccount; KUser; KSystem].
Lemma only_atb_spec kind owner key_id d : only_atb kind owner key_id d = true → only_at kind owner key_id d.
Proof.
  intros Hb kind' pk r Hr Hid. unfold only_atb in Hb. rewrite forallb_forall in Hb.
  specialize (Hb kind' ltac:(destruct kind'; cbn; auto)). rewrite forallb_forall in Hb.
  specialize (Hb (pk, r)). rewrite <- list_elem_of_In, elem_of_map_to_list in Hb. specialize (Hb Hr).
  cbn [fst snd] in Hb. rewrite bool_decide_eq_true_2 in Hb by done. cbn [negb orb] in Hb.
  apply andb_true_iff in Hb as [Hk Hp]. by apply bool_decide_eq_true in Hk, Hp.
Qed.

(** User 40 has the keys 8 and 9 and revokes the second with the first. *)
Definition two_user_keys : Db :=
  set_user_keys (<[ (40%N, 8%N) := mkKey 40 8 (lit "ed25519") (b64_encode example_key) (lit "active") 0 None ]>
    (user_keys guarded_db)) guarded_db.
Definition revoke_nine : RevokeKeyRequest :=
  {| rk_owner_id := uuid_display 40%N; rk_key_id := uuid_display 9%N |}.
Definition revoking_nine :=
  handle toy_settings (time_now toy_clock_now) (Subject.User 40 8) (OnRest RevokeUserKey) revoke_nine toy_env
    (mkWorld two_user_keys 0).

(** Before, the request signed with key 9 got to the layer that authorizes. *)
Example key_nine_was_let_in :
  (public_listener (N := ()) toy_settings toy_clock toy_clock_now toy_decode_message toy_env
     (mkWorld two_user_keys 0, ()) example_request).1.1 = Deny (lit "subject not permitted for RPC").
Proof. vm_compute. reflexivity. Qed.
Lemma example_presents_nine : presents 9%N (ToGrpc example_request).
Proof.
  destruct example_carries as [Hc Hs]. split; [exact Hc|].
  intros parts Hp. specialize (Hs parts Hp). by injection Hs.
Qed.
Lemma revoked_key_is_locked_out_witness :
  ∃ reply w1, revoking_nine = (Ok reply, w1) ∧
  ∃ msg, (public_listener (N := ()) toy_settings toy_clock toy_clock_now toy_decode_message toy_env
     (toy_served toy_registrations (w1, ())) example_request).1.1 = UnauthResponse msg.
Proof.
  assert (Hok : is_ok revoking_nine.1 = true) by (vm_compute; reflexivity).
  assert (Hat : only_atb KUser 40%N 9%N (w_db (toy_served toy_registrations (revoking_nine.2, ())).1) = true)
    by (vm_compute; reflexivity).
  destruct revoking_nine as [[reply|e] w1] eqn:Hrun; [clear Hok|discriminate Hok].
  exists reply, w1. split; [reflexivity|]. cbn [snd] in Hat.
  apply only_atb_spec in Hat. unfold toy_served in *.
  assert (Hl : ∀ env' i', (env', i') ∈ toy_registrations → others_retain env').
  { intros env' i' (j & [= -> ->] & _)%list_elem_of_fmap n d. reflexivity. }
  assert (Hown : uuid_parse_str (rk_owner_id revoke_nine) = Ok 40%N) by (vm_compute; reflexivity).
  assert (Hkid : uuid_parse_str (rk_key_id revoke_nine) = Ok 9%N) by (vm_compute; reflexivity).
  destruct (revoked_key_is_locked_out (N := ()) toy_settings toy_clock toy_clock_now toy_decode_message
    toy_subject_from_json JNull toy_subject_json (Subject.User 40 8) (OnRest RevokeUserKey) revoke_nine KUser
    revoke_nine 40%N 9%N toy_env (mkWorld two_user_keys 0) reply w1 () toy_registrations toy_env
    (ToGrpc example_request) eq_refl Hown Hkid Hrun Hl Hat
    (λ _ _ Hd, Hd) example_presents_nine) as (_ & Hanswer & _).
  exact (Hanswer example_request eq_refl).
Defined.
End witnesses.
