(* ===== verification/RpcMetrics.v ===== *)
(** * The metrics layer ([headlines-server/src/metrics.rs])

    The labels of [rpc_calls_total] and [rpc_latency_seconds], and the layer that records
    one increment and one measurement per call, where [main] puts it: outside the layer that
    authenticates. *)

From S2P Require Import Prelude Libs Instances Subject AuthTable Errors Tso TimeSource Nonce Wire Strategy Interceptor Db Rest Gateway Resolver Net Config Server Doors.

Definition slash : N := 47%N.

(** [str::trim_start_matches('/')] *)
Fixpoint trim_start_slashes (s : str) : str :=
  match s with
  | c :: s' => if (c =? slash)%N then trim_start_slashes s' else s
  | [] => []
  end.

(** [split_grpc_path]: [splitn(2, '/')] has a second part when there is a slash. *)
Definition UNKNOWN : str := lit "unknown".
Definition split_grpc_path (path : str) : str * str :=
  let trimmed := trim_start_slashes path in
  let '(service, method) := default (trimmed, []) (split_once slash trimmed) in
  if bool_decide (service = []) && bool_decide (method = []) then (UNKNOWN, path)
  else if bool_decide (method = []) then (UNKNOWN, service)
  else (service, method).

(** [subject_class_from_extensions] *)
Definition subject_class_from_extensions (subject : option Subject) : str :=
  match subject with
  | Some Anonymous => lit "anonymous"
  | Some (Subject.User _ _) => lit "user"
  | Some (Subject.Account _ _) => lit "account"
  | Some (System _ _ _) => lit "system"
  | None => lit "none"
  end.

(** [grpc_code_label] *)
Definition grpc_code_label (code : Z) : str :=
  match code with
  | 0 => lit "ok"
  | 1 => lit "cancelled"
  | 2 => UNKNOWN
  | 3 => lit "invalid_argument"
  | 4 => lit "deadline_exceeded"
  | 5 => lit "not_found"
  | 6 => lit "already_exists"
  | 7 => lit "permission_denied"
  | 8 => lit "resource_exhausted"
  | 9 => lit "failed_precondition"
  | 10 => lit "aborted"
  | 11 => lit "out_of_range"
  | 12 => lit "unimplemented"
  | 13 => lit "internal"
  | 14 => lit "unavailable"
  | 15 => lit "data_loss"
  | 16 => lit "unauthenticated"
  | _ => UNKNOWN
  end.

(** [grpc_status_from_response], on the [grpc-status] header: absent, or its text when it
    is text. *)
Definition grpc_status_from_response (header : option (option str)) : str :=
  match header with
  | None => lit "ok"
  | Some v => grpc_code_label (default (-1) (parse_i32 (or_default v)))
  end.

(** [RpcMetrics]: the counter's series, and the histogram's measurements. *)
Record RpcSeries := {
  sr_service : str; sr_method : str; sr_subject_class : str; sr_status : str }.
#[export] Instance RpcSeries_eq_dec : EqDecision RpcSeries.
Proof. solve_decision. Defined.
Record RpcMetrics := {
  rpc_calls_total : RpcSeries → nat;
  rpc_latency_seconds : list ((str * str) * Z);
}.

(** What [tonic] makes of an answer: its [grpc-status] header; a call that succeeds has its
    status in the trailers instead. *)
Class TonicHttp := status_header : option GrpcStatus → option (option str).
Class TonicHttpLaws `{TonicHttp} : Prop := {
  status_of_error s : status_header (Some s) = Some (Some (dec_Z (code_number (gs_code s))));
  status_of_success : status_header None = None;
}.
(** The status of an answer of the layers or of a service. *)
Definition answer_status {A} (r : Response (result GrpcStatus A)) : option GrpcStatus :=
  match r with
  | FromService (Ok _) => None
  | FromService (Err s) => Some s
  | UnauthResponse msg => Some (bare_status CUnauthenticated msg)
  | Deny msg => Some (bare_status CPermissionDenied msg)
  end.

(** [AuthMetrics]: [auth_results_total] by its label, and the ways to record: [record_ok],
    [record_err] and [record_label] of the interceptor come to a label each. *)
Definition AuthMetrics : Type := str → nat.
Definition record_label (label : str) (m : AuthMetrics) : AuthMetrics :=
  λ l, if decide (l = label) then S (m l) else m l.
Definition record_ok : AuthMetrics → AuthMetrics := record_label (lit "ok").
Definition record_err (err : AuthError) : AuthMetrics → AuthMetrics :=
  record_label (classify_auth_error err).

Section layer.
Context `{TonicHttp} {E A σ : Type}.

(** The label of an outcome; the inner service may fail as a transport. *)
Definition status_label (outcome : result E (Response (result GrpcStatus A))) : str :=
  match outcome with
  | Ok resp => grpc_status_from_response (status_header (answer_status resp))
  | Err _ => lit "transport_error"
  end.

(** [MetricsService::call] around an inner service, with the time it took. *)
Definition metrics_service
    (inner : σ → Request → result E (Response (result GrpcStatus A)) * σ)
    (elapsed : Z) (m : RpcMetrics) (s : σ) (req : Request) :
    result E (Response (result GrpcStatus A)) * σ * RpcMetrics :=
  let '(service, method) := split_grpc_path (rq_path req) in
  let subject_class := subject_class_from_extensions (rq_subject req) in
  let '(outcome, s) := inner s req in
  let series := {| sr_service := service; sr_method := method;
                   sr_subject_class := subject_class; sr_status := status_label outcome |} in
  (outcome, s,
   {| rpc_calls_total := λ k, if decide (k = series) then S (rpc_calls_total m k) else rpc_calls_total m k;
      rpc_latency_seconds := rpc_latency_seconds m ++ [((service, method), elapsed)] |}).
End layer.

(** ** The labels *)

Lemma trim_start_slashes_fix s : head s ≠ Some slash → trim_start_slashes s = s.
Proof.
  destruct s as [|c s]; [done|]. cbn. intros Hc. destruct (c =? slash)%N eqn:He; [|done].
  apply N.eqb_eq in He. congruence.
Qed.
Lemma trim_start_slashes_head s : head (trim_start_slashes s) ≠ Some slash.
Proof.
  induction s as [|c s IH]; [done|]. cbn. destruct (c =? slash)%N eqn:He; [done|].
  apply N.eqb_neq in He. cbn. congruence.
Qed.

(** The service label is never empty, and the method label only for an empty path. *)
Lemma split_labels path :
  (split_grpc_path path).1 ≠ [] ∧ ((split_grpc_path path).2 = [] → path = []).
Proof.
  unfold split_grpc_path. pose proof (trim_start_slashes_head path) as Hh.
  destruct (split_once slash (trim_start_slashes path)) as [[service method]|] eqn:Hs; cbn [default from_option id].
  - apply split_once_Some in Hs as [Ht _]. rewrite Ht in Hh.
    destruct (bool_decide_reflect (service = [])) as [->|Hne]; [done|].
    destruct (bool_decide_reflect (method = [])) as [->|Hme]; cbn [andb]; [|done].
    by split.
  - destruct (bool_decide_reflect (trim_start_slashes path = [])) as [He|Hne].
    + rewrite bool_decide_eq_true_2 by done. by split.
    + rewrite bool_decide_eq_true_2 by done. by split.
Qed.
Lemma split_canonical service method :
  service ≠ [] → slash ∉ service → method ≠ [] →
  split_grpc_path ([slash] ++ service ++ [slash] ++ method) = (service, method).
Proof.
  intros Hs Hf Hm. unfold split_grpc_path. cbn [app trim_start_slashes].
  change (slash =? slash)%N with true. cbv iota.
  rewrite trim_start_slashes_fix.
  2:{ destruct service as [|c service]; [done|]. cbn. intros [= ->]. set_solver. }
  rewrite split_once_app by done. cbn [default from_option id].
  by rewrite !bool_decide_eq_false_2.
Qed.

(** Of the sixteen codes and success, no two have the same label. *)
Lemma code_label_inj c c' :
  grpc_code_label (code_number c) = grpc_code_label (code_number c') → c = c'.
Proof. destruct c, c'; try done; intros Hl; vm_compute in Hl; discriminate Hl. Qed.
Lemma header_label c :
  grpc_status_from_response (Some (Some (dec_Z (code_number c)))) = grpc_code_label (code_number c).
Proof. by destruct c; vm_compute. Qed.
Lemma answer_label `{TonicHttpLaws} {E A} (resp : Response (result GrpcStatus A)) :
  status_label (E := E) (Ok resp) =
  match answer_status resp with
  | None => lit "ok"
  | Some s => grpc_code_label (code_number (gs_code s))
  end.
Proof.
  unfold status_label. destruct (answer_status resp) as [s|].
  - rewrite status_of_error. apply header_label.
  - by rewrite status_of_success.
Qed.

(** The paths of the methods split into their service and name. *)
Lemma method_labels m path : path = rpc_path m →
  rpc_path m = [slash] ++ (split_grpc_path path).1 ++ [slash] ++ (split_grpc_path path).2.
Proof.
  intros ->.
  assert (Hok : forallb (λ m, let '(service, name) := split_grpc_path (rpc_path m) in
      bool_decide (rpc_path m = [slash] ++ service ++ [slash] ++ name)) all_methods = true)
    by (vm_compute; reflexivity).
  rewrite forallb_forall in Hok. specialize (Hok m ltac:(apply list_elem_of_In, all_methods_complete)).
  destruct (split_grpc_path (rpc_path m)). by apply bool_decide_eq_true_1 in Hok.
Qed.

(** ** The layer where [main] puts it *)

Section counted.
Context `{UuidLib, ChronoLib, Base64Lib, CryptoLib, UrlLib, SerdeLib, UnicodeLib, DieselLib,
          GatewayLib, TonicTypesLib, ErrorDetailsLib, TonicHttpLaws}.
Context {T N : Type} `{TimeSource T, NonceStoreI N}.
Context (settings : Settings) (clock_at : Env → World → T) (clock_now : Env → World → result TimeError Tso).
Context (decode_message : ∀ m, result () bytes → result GrpcStatus (MessageOf m)).

Abbreviation Answer := (Response (result GrpcStatus {m : Method & ReplyOf m})).
(** The layers inside, with the interceptor's counter. *)
Definition listener (env : Env) (st : World * N * AuthMetrics) (req : Request) :
    result () Answer * (World * N * AuthMetrics) :=
  let '(resp, st', labels) :=
    public_listener settings clock_at clock_now decode_message env st.1 req in
  (Ok resp, (st', foldr record_label st.2 labels)).
(** The first layers of the public listener's stack. *)
Definition counted_listener (env : Env) (elapsed : Z) (m : RpcMetrics) (st : World * N * AuthMetrics)
    (req : Request) : result () Answer * (World * N * AuthMetrics) * RpcMetrics :=
  metrics_service (listener env) elapsed m st req.

(** The outcomes recorded for a request are those of its layers. *)
Lemma listener_labels env st req :
  let '(resp, _, labels) := public_listener settings clock_at clock_now decode_message env st req in
  match mjoin (header_get AUTHORIZATION (rq_headers req)) with
  | None => labels = [] ∧ ∀ msg, resp ≠ UnauthResponse msg
  | Some _ => ∃ label, labels = [label] ∧ (label = lit "ok" ↔ ∀ msg, resp ≠ UnauthResponse msg)
  end.
Proof.
  unfold public_listener.
  pose proof (public_stack_labels (pg_strategy settings clock_at env) ProtoBodyHasher
    (table_lookup AUTH_TABLE) (λ seen, seen) st req) as Hl.
  destruct (public_stack _ _ _ _ _ _) as [[[seen|msg|msg] [w store]] labels].
  - destruct (grpc_service _ _ _ _ _ _) as [r w']. destruct (mjoin _) as [value|].
    + destruct Hl as (label & -> & Hl). exists label. split; [done|]. split; [done|].
      intros _. by apply Hl.
    + by destruct Hl as [-> _].
  - destruct (mjoin _) as [value|].
    + destruct Hl as (label & -> & Hl). exists label. split; [done|]. split.
      * intros Hok. destruct (proj1 Hl Hok msg). done.
      * intros Hn. destruct (Hn msg). done.
    + destruct Hl as [_ Hl]. destruct (Hl msg). done.
  - destruct (mjoin _) as [value|].
    + destruct Hl as (label & -> & Hl). exists label. split; [done|]. split; [done|].
      intros _. by apply Hl.
    + by destruct Hl as [-> _].
Qed.

(** C33. Every call on the public listener is answered as without the layers that count, and
    counted once: one increment, in the series of the two halves of its path (a method's
    service and name) and of the code it was answered with, whichever layer or handler
    answered, and one measurement.  The class in the series is [none] for everybody: the layer
    reads the subject before the layer inside it has found out who is calling.  A call with
    credentials adds one to one authentication outcome, [ok] exactly when it was not refused
    as unauthenticated; a call without adds nothing. *)
Theorem calls_are_counted_once env elapsed m st auth req :
  rq_subject req = None →
  let '(resp, st', _) := public_listener settings clock_at clock_now decode_message env st req in
  let '(outcome, (st2, auth'), m') := counted_listener env elapsed m (st, auth) req in
  outcome = Ok resp ∧ st2 = st' ∧
  (∃ series,
    (∀ k, rpc_calls_total m' k = rpc_calls_total m k + if decide (k = series) then 1 else 0)%nat ∧
    rpc_latency_seconds m' =
      rpc_latency_seconds m ++ [((sr_service series, sr_method series), elapsed)] ∧
    (sr_service series, sr_method series) = split_grpc_path (rq_path req) ∧
    (∀ method, rq_path req = rpc_path method →
       rpc_path method = [slash] ++ sr_service series ++ [slash] ++ sr_method series) ∧
    sr_subject_class series = lit "none" ∧
    sr_status series = match answer_status resp with
                       | None => lit "ok"
                       | Some s => grpc_code_label (code_number (gs_code s))
                       end) ∧
  match mjoin (header_get AUTHORIZATION (rq_headers req)) with
  | None => auth' = auth
  | Some _ => ∃ label,
      (∀ l, auth' l = auth l + if decide (l = label) then 1 else 0)%nat ∧
      (label = lit "ok" ↔ ∀ msg, resp ≠ UnauthResponse msg)
  end.
Proof.
  intros Hs. unfold counted_listener, metrics_service, listener. rewrite Hs. cbn [fst snd].
  pose proof (listener_labels env st req) as Hl.
  destruct (public_listener _ _ _ _ _ _ _) as [[resp st'] labels].
  pose proof (λ m Hm, method_labels m (rq_path req) Hm) as Hlabels.
  destruct (split_grpc_path (rq_path req)) as [service method]. split_and!; [done..| |].
  - exists {| sr_service := service; sr_method := method; sr_subject_class := lit "none";
      sr_status := status_label (E := ()) (Ok resp) |}.
    cbn [sr_service sr_method sr_subject_class sr_status rpc_calls_total rpc_latency_seconds].
    split_and!; [|done|done|exact Hlabels|done|apply (answer_label (E := ()))].
    intros k. cbn [subject_class_from_extensions]. destruct (decide _); lia.
  - destruct (mjoin _) as [value|]; [|by destruct Hl as [-> _]].
    destruct Hl as (label & -> & Hl). exists label. split; [|exact Hl].
    intros l. cbn [foldr]. unfold record_label. destruct (decide _); lia.
Qed.
End counted.

(** ** Example *)

Section witnesses.
#[local] Existing Instances toy_uuid toy_chrono toy_base64 toy_crypto toy_url toy_serde
  toy_unicode toy_diesel toy_gateway toy_tonic_types toy_error_details.
#[local] Instance no_replays : NonceStoreI () := λ s _ _ _, (Ok (), s).
#[local] Instance toy_tonic_http : TonicHttp := λ s, (λ s, Some (dec_Z (code_number (gs_code s)))) <$> s.
#[local] Instance toy_tonic_http_laws : TonicHttpLaws.
Proof. done. Qed.

Definition no_metrics : RpcMetrics := {| rpc_calls_total _ := 0%nat; rpc_latency_seconds := [] |}.
Definition toy_get_draft_series (status : string) : RpcSeries :=
  {| sr_service := lit "headlines.v1.DraftService"; sr_method := lit "GetDraft";
     sr_subject_class := lit "none"; sr_status := lit status |}.
Definition toy_counted := counted_listener (N := ()) toy_settings toy_clock toy_clock_now toy_decode_message
  toy_env 12 no_metrics (mkWorld guarded_db 1, (), λ _, 0%nat) example_request.

(** A user's signed request for what only an account may do: the refusal is counted, as
    nobody's, though the authentication counts as a success. *)
Example refusal_counted :
  rpc_calls_total toy_counted.2 (toy_get_draft_series "permission_denied") = 1%nat ∧
  rpc_calls_total toy_counted.2 (toy_get_draft_series "ok") = 0%nat ∧
  toy_counted.1.2.2 (lit "ok") = 1%nat.
Proof. split_and!; vm_compute; reflexivity. Qed.
Lemma calls_are_counted_once_witness :
  ∃ series, rpc_calls_total toy_counted.2 series = 1%nat ∧ sr_subject_class series = lit "none" ∧
    sr_method series = lit "GetDraft".
Proof.
  pose proof (calls_are_counted_once (N := ()) toy_settings toy_clock toy_clock_now toy_decode_message
    toy_env 12 no_metrics (mkWorld guarded_db 1, ()) (λ _, 0%nat) example_request eq_refl) as Hc.
  unfold toy_counted. revert Hc.
  destruct (public_listener _ _ _ _ _ _ _) as [[resp st'] labels].
  destruct (counted_listener _ _ _ _ _ _ _ _ _) as [[outcome [st2 auth']] m'].
  intros (_ & _ & (series & Hcount & _ & Hpath & _ & Hclass & _) & _). exists series. split_and!.
  - cbn [snd]. rewrite Hcount, decide_True by done. reflexivity.
  - exact Hclass.
  - apply (f_equal snd) in Hpath. cbn [snd] in Hpath. rewrite Hpath. vm_compute. reflexivity.
Defined.
End witnesses.
