(* ===== verification/Telemetry.v ===== *)
(** * The domain counters and the telemetry of the binary
    ([headlines-api/src/metrics.rs], [headlines-auth/src/metrics.rs],
    [headlines-server/src/observability.rs], the set-up in [headlines-server/src/metrics.rs])

    The instruments count what they are told to add; the handlers that tell them, with the
    place of the call; histories of calls and what the totals are worth; and the choices made
    when the exporters are set up, which never keep the server from starting. *)

From S2P Require Import Prelude Libs Instances Subject AuthTable Errors Tso TimeSource Nonce Wire Strategy Interceptor Db Paging Articles Drafts Follows Accounts Feeds Events Content Rpc AccountService ArticleService ReaderServices EventService Rest Gateway Resolver Net Config Writes Policy Server Doors.

(** ** The instruments *)

(** The fields of [DomainMetrics], and the names [new] gives them. *)
Inductive DomainCounter : Type :=
  | articles_published | drafts_created | events_recorded | feeds_replaced.
#[export] Instance DomainCounter_eq_dec : EqDecision DomainCounter.
Proof. solve_decision. Defined.
Definition counter_name (c : DomainCounter) : str :=
  match c with
  | articles_published => lit "articles_published_total"
  | drafts_created => lit "drafts_created_total"
  | events_recorded => lit "events_recorded_total"
  | feeds_replaced => lit "feeds_replaced_total"
  end.

(** [DomainMetrics]: what each counter was given to add, in total. *)
Definition DomainMetrics : Type := DomainCounter → Z.
(** [no_op] *)
Definition no_op : DomainMetrics := λ _, 0.
(** [Counter::add] *)
Definition bump (c : DomainCounter) (n : Z) (k : DomainMetrics) : DomainMetrics :=
  λ c', if decide (c' = c) then k c' + n else k c'.

(** ** Handlers with their counters *)

(** A handler that also holds the instruments. *)
Definition Metered (E A : Type) : Type :=
  Env → World * DomainMetrics → result E A * (World * DomainMetrics).
#[export] Instance Metered_ret {E} : MRet (Metered E) := λ A a env st, (Ok a, st).
#[export] Instance Metered_bind {E} : MBind (Metered E) := λ A B f m env st,
  match m env st with
  | (Ok a, st) => f a env st
  | (Err e, st) => (Err e, st)
  end.
(** A part of a handler that counts nothing; [.add(n, ..)]. *)
Definition uncounted {E A} (m : M E A) : Metered E A := λ env '(w, k),
  let '(r, w) := m env w in (r, (w, k)).
Definition add {E} (c : DomainCounter) (n : Z) : Metered E () := λ _ '(w, k),
  (Ok (), (w, bump c n k)).

(** The counter is told after everything that can fail. *)
Definition counting (c : DomainCounter) {A} (m : M Fault A) : Metered Fault A :=
  reply ← uncounted m; add c 1;; mret reply.

Section handlers.
Context `{UuidLib, ChronoLib, Base64Lib, UrlLib, SerdeLib, UnicodeLib, DieselLib}.
Context (settings : Settings) (time_now : M TimeError Tso) (s : Subject).

(** [record_event_batch]: the counter is told as soon as the rows are stored, before they are
    converted for the reply. *)
Definition record_event_batch_metered (reqs : list RecordEventRequest) :
    Metered Fault (list ProtoEvent * Z) :=
  let batch_max_items := set_batch_max_items settings in
  if negb (is_authorized_writer s) then uncounted (permission_denied "events.write required")
  else if bool_decide (reqs = []) then
    uncounted (fail (invalid_argument "events" (lit "must contain at least one event")))
  else if batch_max_items <? Z.of_nat (length reqs) then
    uncounted (fail (BatchTooLarge (Z.of_nat (length reqs)) batch_max_items))
  else
    now ← uncounted (tso_now time_now);
    prepared ← uncounted (check (try_map (λ ev, prepare_event s ev now) reqs));
    rows ← uncounted (call (events_record_batch prepared));
    let stored_count := as_i32 (Z.of_nat (length rows)) in
    add events_recorded (stored_count mod 2 ^ 64);;
    recorded ← uncounted (check (try_map event_to_proto rows));
    mret (recorded, stored_count).

(** The methods as the services with real instruments serve them. *)
Definition metered_rest (r : Rpc) : RequestOf r → Metered Fault (ResponseOf r) :=
  let max := set_content_max_bytes settings in
  match r return RequestOf r → Metered Fault (ResponseOf r) with
  | PublishArticle => λ q, counting articles_published (publish_article max s q)
  | CreateDraft => λ q, counting drafts_created (create_draft max s q)
  | PublishDraft => λ q, counting articles_published (publish_draft max s q)
  | RecordEvent => λ q, counting events_recorded (record_event s time_now q)
  | RecordEventBatch => record_event_batch_metered
  | ReplaceRecommendationFeed => λ q, counting feeds_replaced
      (replace_recommendation_feed s (set_replace_max_items settings) (rf_user_id q) (rf_article_ids q))
  | r => λ q, uncounted (handle_rest settings time_now s r q)
  end.
Definition metered (m : Method) : MessageOf m → Metered Fault (ReplyOf m) :=
  match m return MessageOf m → Metered Fault (ReplyOf m) with
  | OnRest r => metered_rest r
  | m => λ q, uncounted (handle settings time_now s m q)
  end.
End handlers.

(** ** Instruments change nothing *)

Lemma bind_uncounted {E A B} (m : M E A) (f : A → Metered E B) env w k :
  (uncounted m ≫= f) env (w, k) =
  match m env w with (Ok a, w') => f a env (w', k) | (Err e, w') => (Err e, (w', k)) end.
Proof. unfold mbind at 1, Metered_bind, uncounted. by destruct (m env w) as [[?|?] ?]. Qed.
Lemma bind_uncounted_check {A B} (r : result HeadlinesError A) (f : A → Metered Fault B) env w k :
  (uncounted (check r) ≫= f) env (w, k) =
  match r with Ok a => f a env (w, k) | Err e => (Err (Domain e), (w, k)) end.
Proof. rewrite bind_uncounted. by destruct r. Qed.
Lemma bind_uncounted_call {A B} (m : M HeadlinesError A) (f : A → Metered Fault B) env w k :
  (uncounted (call m) ≫= f) env (w, k) =
  match m env w with (Ok a, w') => f a env (w', k) | (Err e, w') => (Err (Domain e), (w', k)) end.
Proof. rewrite bind_uncounted. unfold call, map_errM. by destruct (m env w) as [[?|?] ?]. Qed.
Lemma bind_add {E B} c n (f : () → Metered E B) env w k :
  (add c n ≫= f) env (w, k) = f () env (w, bump c n k).
Proof. done. Qed.
Lemma uncounted_run {E A} (m : M E A) env w k :
  uncounted m env (w, k) = ((m env w).1, ((m env w).2, k)).
Proof. unfold uncounted. by destruct (m env w). Qed.
Lemma counting_run c {A} (m : M Fault A) env w k :
  counting c m env (w, k) =
  match m env w with
  | (Ok a, w') => (Ok a, (w', bump c 1 k))
  | (Err e, w') => (Err e, (w', k))
  end.
Proof. unfold counting. rewrite bind_uncounted. by destruct (m env w) as [[?|?] ?]. Qed.
Lemma bump_eq c n k : bump c n k c = k c + n.
Proof. unfold bump. by rewrite decide_True. Qed.
Lemma bump_ne c c' n k : c' ≠ c → bump c n k c' = k c'.
Proof. intros. unfold bump. by rewrite decide_False. Qed.

(** ** What a table holds *)

(** The size of a table that no request makes smaller. *)
Section sizes.
Context {K A : Type} `{Countable K}.
Lemma rows_kept_size R (m m' : gmap K A) : rows_kept R m m' → (size m <= size m')%nat.
Proof.
  intros Hm. rewrite <- !size_dom. apply subseteq_size. intros i [r Hr]%elem_of_dom.
  apply elem_of_dom. destruct (Hm i r Hr) as (r' & Hr' & _). by exists r'.
Qed.
Lemma list_to_map_size (l : list (K * A)) (m : gmap K A) :
  NoDup l.*1 → (∀ k, k ∈ l.*1 → m !! k = None) →
  size (list_to_map l ∪ m : gmap K A) = (length l + size m)%nat.
Proof.
  induction l as [|[k x] l IH]; intros Hnd Hm.
  - by rewrite list_to_map_nil, (left_id_L ∅ (∪)).
  - cbn in Hnd. apply NoDup_cons in Hnd as [Hk Hnd].
    rewrite list_to_map_cons, <- insert_union_l, map_size_insert_None.
    + rewrite IH; [done|done|]. intros k' Hk'. apply Hm. cbn. set_solver.
    + apply lookup_union_None. split; [by apply not_elem_of_list_to_map|]. apply Hm. cbn. set_solver.
Qed.
End sizes.

Section made.
(** A measure of the database that nobody lowers. *)
Context (measure : Db → nat).
Hypothesis measure_mono : ∀ d d', retained d d' → (measure d <= measure d')%nat.
Definition at_least (n : nat) (d : Db) : Prop := (n <= measure d)%nat.

Lemma at_least_others env : others_retain env → ∀ N n d, at_least N d → at_least N (others env n d).
Proof. intros Ho N n d Hd. unfold at_least in *. pose proof (measure_mono _ _ (Ho n d)). lia. Qed.
Lemma at_least_allowed `{DieselLib} N w : allows (at_least N) w.
Proof.
  intros d d' Hd Heff. unfold at_least in *. pose proof (measure_mono _ _ (effect_retained _ _ _ Heff)). lia.
Qed.

(** A run that succeeds raises the measure by [k], whatever the others do. *)
Definition makes {E A} (k : nat) (m : M E A) : Prop := ∀ env w a w' N,
  others_retain env → m env w = (Ok a, w') → at_least N (w_db w) → at_least (N + k) (w_db w').

Lemma makes_after {E A B} k (m : M E A) (f : A → M E B) :
  (∀ P, preserves P m) → (∀ a, makes k (f a)) → makes k (m ≫= f).
Proof.
  intros Hm Hf env w b w' N Ho (a & w1 & Hr & Hr')%bind_ok Hw.
  pose proof (Hm (at_least N) env w (at_least_others env Ho N) Hw) as Hw1. rewrite Hr in Hw1.
  exact (Hf a env w1 b w' N Ho Hr' Hw1).
Qed.
Lemma makes_before {E A B} k (m : M E A) (f : A → M E B) :
  makes k m → (∀ a P, preserves P (f a)) → makes k (m ≫= f).
Proof.
  intros Hm Hf env w b w' N Ho (a & w1 & Hr & Hr')%bind_ok Hw.
  pose proof (Hm env w a w1 N Ho Hr Hw) as Hw1.
  pose proof (Hf a (at_least (N + k)) env w1 (at_least_others env Ho _) Hw1) as Hw'. by rewrite Hr' in Hw'.
Qed.
Lemma makes_throw {E A} k (e : E) : makes (A := A) k (throw e).
Proof. by intros env w a w' N. Qed.
Lemma makes_call {A} k (m : M HeadlinesError A) : makes k m → makes k (call m).
Proof. intros Hm env w a w' N Ho Hr. apply call_ok in Hr. exact (Hm env w a w' N Ho Hr). Qed.
(** A transaction that commits did what its body did, alone. *)
Lemma makes_tx `{DieselLib} {A} k (body : M TxError A) :
  (∀ env w a w', body (isolated env) w = (Ok a, w') → (measure (w_db w) + k <= measure (w_db w'))%nat) →
  makes k (tx body).
Proof.
  intros Hb env w a w' N Ho Hr%map_errM_ok Hw. unfold transaction in Hr.
  destruct (fault _ _) as [[? ?]|]; [done|].
  destruct (body _ _) as [[a'|e] w1] eqn:Hbody; [|done]. apply Hb in Hbody. cbn [w_db] in Hbody.
  destruct (fault _ _) as [[? ?]|]; [done|]. injection Hr as _ <-. cbn [w_db].
  pose proof (at_least_others env Ho N (w_tick w) _ Hw). unfold at_least in *. lia.
Qed.
(** An [INSERT] that succeeded, next to what the others did before it. *)
Lemma makes_insert `{DieselLib} {A} ctx viol f (row : A) k :
  (∀ d, Forall (λ v, v.1 = false) (viol d) → measure (f d) = measure d + k)%nat →
  makes k (run ctx (returning (insert_stmt viol f) (λ _, row))).
Proof.
  intros Hf env w a w' N Ho [Hr _]%map_errM_ok%stmt_ok Hw. unfold returning, insert_stmt in Hr.
  destruct (filter _ _) as [|[b e] l] eqn:Hl; [|done]. injection Hr as _ <-.
  assert (Hv : Forall (λ v, v.1 = false) (viol (others env (w_tick w) (w_db w)))).
  { apply Forall_forall. intros [[] e] Hv; [|done].
    exfalso. apply (not_elem_of_nil (true, e)). rewrite <- Hl. by apply list_elem_of_filter. }
  pose proof (at_least_others env Ho N (w_tick w) _ Hw). apply Hf in Hv. unfold at_least in *. lia.
Qed.
End made.

Create HintDb made.
#[export] Hint Resolve makes_throw makes_call : made.
Definition articles_size (d : Db) : nat := size (articles d).
Definition events_size (d : Db) : nat := size (events d).
Lemma articles_size_mono d d' : retained d d' → (articles_size d <= articles_size d')%nat.
Proof. intros Hr. eapply rows_kept_size, re_articles, Hr. Qed.
Lemma events_size_mono d d' : retained d d' → (events_size d <= events_size d')%nat.
Proof. intros Hr. eapply rows_kept_size, re_events, Hr. Qed.

(** ** What is counted was stored *)

Section stored.
Context `{UuidLib, ChronoLib, Base64Lib, UrlLib, SerdeLib, UnicodeLib, DieselLib}.

Lemma article_publish_makes new : makes articles_size 1 (article_publish new).
Proof.
  unfold article_publish.
  apply (makes_after _ articles_size_mono); [intros; apply preserves_conn|intros _].
  apply (makes_after _ articles_size_mono); [intros; apply preserves_now|intros now].
  apply (makes_before _ articles_size_mono); [|intros _ P; apply article_get_preserves].
  apply (makes_tx _ articles_size_mono). intros env w [] w' [Hn ->]%publish_tx_ok.
  unfold articles_size. cbn. rewrite map_size_insert_None by done. lia.
Qed.
Lemma draft_publish_makes id : makes articles_size 1 (draft_publish id).
Proof.
  unfold draft_publish.
  apply (makes_after _ articles_size_mono); [intros; apply preserves_conn|intros _].
  apply (makes_after _ articles_size_mono); [intros; apply preserves_now|intros now].
  apply (makes_before _ articles_size_mono); [|intros; apply preserves_ret].
  apply (makes_tx _ articles_size_mono). intros env w p w' (row & _ & Hn & -> & _)%draft_publish_tx_ok.
  unfold articles_size. cbn. rewrite map_size_insert_None by done. lia.
Qed.
Lemma add_events_size rows d :
  Forall (λ v, v.1 = false) (batch_violations d [] rows) →
  events_size (add_events rows d) = (events_size d + length rows)%nat.
Proof.
  intros [Hnd Hrows]%batch_violations_none. unfold events_size, add_events. cbn.
  assert (Hfst : ((λ r, (ev_id r, r)) <$> rows).*1 = ev_id <$> rows) by by rewrite <- list_fmap_compose.
  rewrite list_to_map_size; rewrite ?Hfst, ?length_fmap; [lia|done|].
  intros id (r & -> & Hr)%list_elem_of_fmap. by destruct (Hrows r Hr) as (_ & ? & _).
Qed.
Lemma event_record_makes r : makes events_size 1 (event_record r).
Proof.
  unfold event_record.
  apply (makes_after _ events_size_mono); [intros; apply preserves_conn|intros _].
  apply (makes_after _ events_size_mono); [intros; apply preserves_uuid|intros id].
  apply (makes_after _ events_size_mono); [intros; apply preserves_now|intros now].
  apply (makes_insert _ events_size_mono). cbn. intros d Hv. unfold events_size. cbn.
  rewrite map_size_insert_None; [lia|]. inversion Hv as [|? ? _ Hv']. inversion Hv' as [|? ? Hp _].
  by apply present_false in Hp.
Qed.
(** A stored batch is as long as it was prepared. *)
Lemma event_record_batch_makes records env w rows w' N :
  others_retain env → event_record_batch records env w = (Ok rows, w') →
  at_least events_size N (w_db w) →
  length rows = length records ∧ at_least events_size (N + length rows) (w_db w').
Proof.
  intros Ho. unfold event_record_batch. destruct (bool_decide_reflect (records = [])) as [->|_].
  { intros [= <- <-] Hw. split; [done|]. by rewrite Nat.add_0_r. }
  intros Hr Hw. apply bind_ok in Hr as (u & w1 & Hc & Hr). apply bind_ok in Hr as (now & w2 & Hn & Hr).
  apply bind_ok in Hr as (ids & w3 & Hi & Hr). cbv zeta in Hr.
  destruct (mint_ids records env w2) as (ids' & w3' & Hids & Hd3 & Hl). rewrite Hids in Hi.
  injection Hi as -> ->.
  assert (Hw3 : at_least events_size N (w_db w3)).
  { rewrite Hd3. pose proof (preserves_conn (at_least events_size N) env w
      (at_least_others _ events_size_mono env Ho N) Hw) as Hw1. rewrite Hc in Hw1.
    unfold utc_now in Hn. injection Hn as _ <-. exact Hw1. }
  assert (rows = zip_with (λ r id, new_event id now r) records ids) as Hrows.
  { pose proof Hr as Hr'. apply map_errM_ok, stmt_ok in Hr' as [Hr' _]. unfold returning in Hr'.
    destruct (insert_events _ _) as [[|] ?]; [|done]. by injection Hr' as <-. }
  rewrite <- Hrows in Hr. split.
  - rewrite Hrows, length_zip_with. lia.
  - refine (makes_insert _ events_size_mono _ _ _ rows (length rows) _ env w3 rows w' N Ho Hr Hw3).
    intros d. apply add_events_size.
Qed.

Context (settings : Settings) (time_now : M TimeError Tso) (s : Subject).
Hypothesis time_reads : ∀ P, preserves P time_now.

(** The guards and the conversions in a handler change nothing. *)
#[local] Hint Resolve active_account_keeps : preserve.
#[local] Hint Extern 1 (preserves _ (call (drafts_get _))) => apply preserves_call, draft_get_reads : preserve.
#[local] Hint Extern 2 (∀ P, preserves P _) => intros P; preserve : made.
#[local] Hint Extern 2 (∀ _ P, preserves P _) => intros ? P; preserve : made.
Ltac made mono :=
  repeat match goal with
  | |- makes _ _ (if ?b then _ else _) => destruct b
  | |- makes _ _ (let _ := _ in _) => cbv zeta
  | |- makes _ _ (permission_denied _) => apply makes_throw
  | |- makes _ _ (fail _) => apply makes_throw
  | |- makes _ _ (call (articles_publish _)) => apply makes_call, article_publish_makes
  | |- makes _ _ (call (drafts_publish _)) => apply makes_call, draft_publish_makes
  | |- makes _ _ (call (events_record _)) => apply makes_call, event_record_makes
  | |- makes _ _ (call _ ≫= _) =>
    apply (makes_before _ mono); [solve [made mono]|solve [eauto with made]]
  | |- makes _ _ (_ ≫= _) => apply (makes_after _ mono); [solve [eauto with made]|intros ?]
  end.
Lemma publish_article_makes max q : makes articles_size 1 (publish_article max s q).
Proof. unfold publish_article. made articles_size_mono. Qed.
Lemma publish_draft_makes max q : makes articles_size 1 (publish_draft max s q).
Proof. unfold publish_draft. made articles_size_mono. Qed.
Lemma record_event_makes q : makes events_size 1 (record_event s time_now q).
Proof.
  pose proof (λ P, preserves_tso_now time_now P (time_reads P)).
  unfold record_event. made events_size_mono.
Qed.
End stored.

(** ** Histories *)

(** What a reply reports of a counter: one success, or the number stored. *)
Definition counted_by (m : Method) : option DomainCounter :=
  match m with
  | OnRest PublishArticle | OnRest PublishDraft => Some articles_published
  | OnRest CreateDraft => Some drafts_created
  | OnRest RecordEvent | OnRest RecordEventBatch => Some events_recorded
  | OnRest ReplaceRecommendationFeed => Some feeds_replaced
  | _ => None
  end.
Definition units (m : Method) : ReplyOf m → Z :=
  match m return ReplyOf m → Z with
  | OnRest r => match r return ResponseOf r → Z with RecordEventBatch => λ reply, reply.2 | _ => λ _, 1 end
  | _ => λ _, 1
  end.
Definition told (c : DomainCounter) (m : Method) (r : result Fault (ReplyOf m)) : Z :=
  match r with
  | Ok reply => if decide (counted_by m = Some c) then units m reply else 0
  | Err _ => 0
  end.

Record Call := { c_env : Env; c_subject : Subject; c_method : Method; c_message : MessageOf c_method }.
Definition Reply : Type := {m : Method & result Fault (ReplyOf m)}.

Section histories.
Context `{UuidLib, ChronoLib, Base64Lib, UrlLib, SerdeLib, UnicodeLib, DieselLib}.
Context (settings : Settings) (clock : Env → World → result TimeError Tso).

(** The calls one after another, with and without instruments. *)
Fixpoint serve_metered (l : list Call) (st : World * DomainMetrics) :
    list Reply * (World * DomainMetrics) :=
  match l with
  | [] => ([], st)
  | c :: l =>
    let '(r, st) := metered settings (time_now clock) (c_subject c) (c_method c) (c_message c) (c_env c) st in
    let '(replies, st) := serve_metered l st in
    (existT (c_method c) r :: replies, st)
  end.
Fixpoint serve_plain (l : list Call) (w : World) : list Reply * World :=
  match l with
  | [] => ([], w)
  | c :: l =>
    let '(r, w) := handle settings (time_now clock) (c_subject c) (c_method c) (c_message c) (c_env c) w in
    let '(replies, w) := serve_plain l w in
    (existT (c_method c) r :: replies, w)
  end.
Definition told_all (c : DomainCounter) (replies : list Reply) : Z :=
  foldr (λ r n, told c (projT1 r) (projT2 r) + n) 0 replies.

Hypothesis small_batches : set_batch_max_items settings < 2 ^ 31.

(** What a run may do to the counters: at least what it reports, exactly that for the
    counters of single successes, and no more than it stored. *)
Record accounted (report : DomainCounter → Z) (w w' : World) (k k' : DomainMetrics) : Prop := {
  ac_told c : k c + report c <= k' c;
  ac_exact c : c ≠ events_recorded → k' c = k c + report c;
  ac_articles : k' articles_published - k articles_published
    <= Z.of_nat (articles_size (w_db w')) - Z.of_nat (articles_size (w_db w));
  ac_events : k' events_recorded - k events_recorded
    <= Z.of_nat (events_size (w_db w')) - Z.of_nat (events_size (w_db w));
}.
Lemma accounted_trans f g w1 w2 w3 k1 k2 k3 :
  accounted f w1 w2 k1 k2 → accounted g w2 w3 k2 k3 → accounted (λ c, f c + g c) w1 w3 k1 k3.
Proof.
  intros [T1 E1 A1 V1] [T2 E2 A2 V2]. split; [| |lia..].
  - intros c. pose proof (T1 c). pose proof (T2 c). lia.
  - intros c Hc. pose proof (E1 c Hc). pose proof (E2 c Hc). lia.
Qed.

Section one.
Context (env : Env) (s : Subject).
Hypothesis others_keep : others_retain env.
Abbreviation tnow := (time_now clock).

Lemma time_now_reads P : preserves P tnow.
Proof. by intros e w _ ?. Qed.
Lemma handle_grows measure m (q : MessageOf m) w :
  (∀ d d', retained d d' → (measure d <= measure d')%nat) →
  (measure (w_db w) <= measure (w_db (handle settings tnow s m q env w).2))%nat.
Proof.
  intros Hmono. apply (handle_effects (at_least measure (measure (w_db w)))); [| |unfold at_least; lia].
  - apply (at_least_allowed _ Hmono).
  - apply (at_least_others _ Hmono env others_keep).
Qed.

(** A handler without a counter, and one whose success is counted. *)
Lemma uncounted_accounted m (q : MessageOf m) w k :
  counted_by m = None →
  let '(r, w') := handle settings tnow s m q env w in accounted (λ c, told c m r) w w' k k.
Proof.
  intros Hc. pose proof (handle_grows articles_size m q w articles_size_mono) as Ha.
  pose proof (handle_grows events_size m q w events_size_mono) as He.
  destruct (handle _ _ _ _ _ _ _) as [r w']. cbn [snd] in *.
  assert (Ht : ∀ c, told c m r = 0) by (intros c; destruct r; cbn; [by rewrite Hc|done]).
  split; [intros c; rewrite Ht; lia|intros c _; rewrite Ht; lia|lia..].
Qed.
Lemma counting_accounted c m (q : MessageOf m) w k :
  counted_by m = Some c → (∀ reply, units m reply = 1) →
  (c = articles_published → makes articles_size 1 (handle settings tnow s m q)) →
  (c = events_recorded → makes events_size 1 (handle settings tnow s m q)) →
  let '(r, (w', k')) := counting c (handle settings tnow s m q) env (w, k) in
  (r, w') = handle settings tnow s m q env w ∧ accounted (λ c, told c m r) w w' k k'.
Proof.
  intros Hc Hu Hma Hme. rewrite counting_run.
  pose proof (handle_grows articles_size m q w articles_size_mono) as Ha.
  pose proof (handle_grows events_size m q w events_size_mono) as He.
  destruct (handle _ _ _ _ _ _ _) as [[reply|e] w'] eqn:Hr; (split; [done|]); cbn [snd] in *.
  2:{ split; cbn [told]; lia. }
  assert (Ht : ∀ c', bump c 1 k c' = k c' + told c' m (Ok reply)).
  { intros c'. cbn [told]. rewrite Hc, Hu. unfold bump.
    destruct (decide (c' = c)) as [->|Hne]; [rewrite decide_True by reflexivity; reflexivity|].
    rewrite decide_False by congruence. lia. }
  split.
  - intros c'. rewrite Ht. lia.
  - intros c' _. apply Ht.
  - destruct (decide (c = articles_published)) as [->|Hne]; [|rewrite bump_ne by done; lia].
    rewrite bump_eq. pose proof (Hma eq_refl env w reply w' _ others_keep Hr (le_n _)) as Hg.
    unfold at_least in Hg. lia.
  - destruct (decide (c = events_recorded)) as [->|Hne]; [|rewrite bump_ne by done; lia].
    rewrite bump_eq. pose proof (Hme eq_refl env w reply w' _ others_keep Hr (le_n _)) as Hg.
    unfold at_least in Hg. lia.
Qed.

Lemma batch_accounted (q : list RecordEventRequest) w k :
  let '(r, (w', k')) := record_event_batch_metered settings tnow s q env (w, k) in
  (r, w') = record_event_batch s tnow (set_batch_max_items settings) q env w ∧
  accounted (λ c, told c (OnRest RecordEventBatch) r) w w' k k'.
Proof.
  pose proof (handle_grows articles_size (OnRest RecordEventBatch) q w articles_size_mono) as Ha.
  pose proof (handle_grows events_size (OnRest RecordEventBatch) q w events_size_mono) as He.
  cbn [handle handle_rest] in Ha, He. revert Ha He.
  assert (Hfail : ∀ e w' (articles_ok : (articles_size (w_db w) <= articles_size (w_db w'))%nat)
      (events_ok : (events_size (w_db w) <= events_size (w_db w'))%nat),
      accounted (λ c, told c (OnRest RecordEventBatch) (Err e)) w w' k k).
  { intros e w' Ha He. split; cbn [told]; lia. }
  unfold record_event_batch_metered, record_event_batch.
  destruct (negb _); [rewrite uncounted_run; by split; [|apply Hfail]|].
  destruct (bool_decide _); [rewrite uncounted_run; by split; [|apply Hfail]|].
  destruct (set_batch_max_items settings <? Z.of_nat (length q)) eqn:Hmax;
    [rewrite uncounted_run; by split; [|apply Hfail]|].
  apply Z.ltb_ge in Hmax. rewrite bind_uncounted, bind_run.
  pose proof (preserves_tso_now tnow (at_least events_size (events_size (w_db w))) (time_now_reads _) env w
    (at_least_others _ events_size_mono env others_keep _) (le_n _)) as Hw1.
  destruct (tso_now tnow env w) as [[now|e] w1]; cbn [snd] in *; [|intros; by split; [|apply Hfail]].
  rewrite bind_check, bind_uncounted_check.
  destruct (try_map _ q) as [prepared|e] eqn:Hp; cbn [snd]; [|intros; by split; [|apply Hfail]].
  apply try_map_ok, Forall2_length in Hp. rewrite bind_call, bind_uncounted_call.
  destruct (events_record_batch prepared env w1) as [[rows|e] w2] eqn:Hr; cbn [snd];
    [|intros; by split; [|apply Hfail]].
  destruct (event_record_batch_makes _ _ _ _ _ _ others_keep Hr Hw1) as [Hl Hw2].
  unfold at_least in Hw2.
  assert (Hn : as_i32 (Z.of_nat (length rows)) = Z.of_nat (length rows))
    by (apply as_i32_id; unfold is_i32, i32_min, i32_max; lia).
  cbv zeta. rewrite Hn, Z.mod_small by lia.
  rewrite bind_check, bind_add, bind_uncounted_check.
  destruct (try_map event_to_proto rows) as [out|e];
    unfold mret, M_ret, Metered_ret; cbn [snd]; intros Ha He; (split; [done|]).
  - split.
    + intros c. cbn [told units counted_by snd]. unfold bump. repeat case_decide; try congruence; lia.
    + intros c Hc. rewrite bump_ne by done. cbn [told counted_by]. rewrite decide_False by congruence. lia.
    + rewrite bump_ne by done. lia.
    + rewrite bump_eq. lia.
  - split.
    + intros c. cbn [told]. unfold bump. case_decide; lia.
    + intros c Hc. rewrite bump_ne by done. cbn [told]. lia.
    + rewrite bump_ne by done. lia.
    + rewrite bump_eq. lia.
Qed.

Lemma metered_accounted m (q : MessageOf m) w k :
  let '(r, (w', k')) := metered settings tnow s m q env (w, k) in
  (r, w') = handle settings tnow s m q env w ∧ accounted (λ c, told c m r) w w' k k'.
Proof.
  assert (Hquiet : counted_by m = None → metered settings tnow s m q = uncounted (handle settings tnow s m q) →
    let '(r, (w', k')) := metered settings tnow s m q env (w, k) in
    (r, w') = handle settings tnow s m q env w ∧ accounted (λ c, told c m r) w w' k k').
  { intros Hc ->. rewrite uncounted_run. pose proof (uncounted_accounted m q w k Hc) as Hu.
    by destruct (handle _ _ _ _ _ _ _) as [r w']. }
  destruct m as [[]| | | |]; try (apply Hquiet; reflexivity); clear Hquiet.
  - apply (counting_accounted articles_published (OnRest PublishArticle)); try done.
    intros _. apply publish_article_makes.
  - by apply (counting_accounted drafts_created (OnRest CreateDraft)).
  - apply (counting_accounted articles_published (OnRest PublishDraft)); try done.
    intros _. apply publish_draft_makes.
  - by apply (counting_accounted feeds_replaced (OnRest ReplaceRecommendationFeed)).
  - apply (counting_accounted events_recorded (OnRest RecordEvent)); try done.
    intros _. apply record_event_makes, time_now_reads.
  - apply batch_accounted.
Qed.
End one.

(** C31. The domain counters change nothing and are worth what they say: in every history of
    calls, whatever fails and whatever requests that lose no record run in between, the
    replies and the database are those without instruments; the counters of drafts, feeds
    and published articles grow by exactly the successes replied, that of events by at least
    the events the replies report; and no more articles are counted as published, or events
    as recorded, than the tables gained. *)
Theorem counters_between_replies_and_tables (l : list Call) w k :
  (∀ c, c ∈ l → others_retain (c_env c)) →
  let '(replies, (w', k')) := serve_metered l (w, k) in
  (replies, w') = serve_plain l w ∧ accounted (λ c, told_all c replies) w w' k k'.
Proof.
  revert w k. induction l as [|c l IH]; intros w k Ho; cbn [serve_metered serve_plain].
  { split; [done|]. split; cbn; lia. }
  pose proof (metered_accounted (c_env c) (c_subject c) (Ho c ltac:(by left)) (c_method c) (c_message c) w k) as Hone.
  destruct (metered _ _ _ _ _ _ _) as [r [w1 k1]]. destruct Hone as [<- Hone].
  specialize (IH w1 k1 (λ c' Hc', Ho c' (list_elem_of_further _ _ _ Hc'))).
  destruct (serve_metered l (w1, k1)) as [replies [w' k']]. destruct IH as [<- IH].
  split; [done|]. exact (accounted_trans _ _ _ _ _ _ _ _ Hone IH).
Qed.
End histories.

(** ** Setting the exporters up *)

Definition eq_ignore_ascii_case (a b : str) : bool :=
  str_eqb (to_ascii_lowercase a) (to_ascii_lowercase b).

Section set_up.
(** From outside: the filter of the environment and the parser of a level, the two OTLP
    exporters at an endpoint, whether the process has no subscriber yet, [HEADLINES_ENV] and
    the version of the package. *)
Context {Filter SpanExporter MetricExporter OtlpError : Type}.
Context (try_from_default_env : option Filter) (try_new : str → option Filter).
Context (span_exporter : str → result OtlpError SpanExporter).
Context (metric_exporter : str → result OtlpError MetricExporter).
Context (no_subscriber : bool) (headlines_env : option str) (package_version : str).

(** The attributes of both resources. *)
Definition resource (config : ObservabilityConfig) : list (str * str) :=
  let env := default (lit "development") headlines_env in
  [(lit "service.name", service_name config);
   (lit "service.version", package_version);
   (lit "deployment.environment", env)].
(** [build_tracer] and [build_provider] of the metrics. *)
Record TracerProvider := {
  tp_exporter : SpanExporter; tp_resource : list (str * str); tp_tracer : str }.
Definition build_tracer (config : ObservabilityConfig) : result OtlpError TracerProvider :=
  exporter ← span_exporter (otlp_endpoint config);
  Ok {| tp_exporter := exporter; tp_resource := resource config; tp_tracer := service_name config |}.
Record MeterProvider := { mp_exporter : MetricExporter; mp_resource : list (str * str) }.
Definition build_provider (config : ObservabilityConfig) : result OtlpError MeterProvider :=
  exporter ← metric_exporter (otlp_endpoint config);
  Ok {| mp_exporter := exporter; mp_resource := resource config |}.

(** What [init] installs: the filter, the layer that exports when there is one, the format. *)
Record Subscriber := {
  sub_filter : Filter; sub_otel : option TracerProvider; sub_json : bool }.
(** [init]; the provider is the guard's. *)
Definition init (config : ObservabilityConfig) : result str (Subscriber * option TracerProvider) :=
  env_filter ← ok_or (lit "build EnvFilter")
                 (union try_from_default_env (try_new (log_level config)));
  let provider := match build_tracer config with Ok p => Some p | Err _ => None end in
  let json := eq_ignore_ascii_case (log_format config) (lit "json") in
  if no_subscriber then
    Ok ({| sub_filter := env_filter; sub_otel := provider; sub_json := json |}, provider)
  else Err (lit "init tracing subscriber").
(** [init_meter_provider]: the global provider, and the guard's, if any. *)
Definition init_meter_provider (config : ObservabilityConfig) : option MeterProvider :=
  match build_provider config with Ok p => Some p | Err _ => None end.
(** [Guard]'s [drop]: its provider is shut down, then the global one. *)
Inductive Shutdown (P : Type) : Type := ShutProvider (p : P) | ShutGlobalTracers.
#[global] Arguments ShutProvider {P} _.
#[global] Arguments ShutGlobalTracers {P}.
Definition drop_guard {P} (provider : option P) : list (Shutdown P) :=
  (match provider with Some p => [ShutProvider p] | None => [] end) ++ [ShutGlobalTracers].
Definition drop_metrics_guard {P} (provider : option P) : list (Shutdown P) :=
  match provider with Some p => [ShutProvider p] | None => [] end.

(** Whether the server starts depends on the filter and on the process, never on the
    collector; what is exported is labelled with the service's name. *)
Lemma telemetry_never_stops_boot config :
  is_ok (init config) =
    bool_decide (is_Some (union try_from_default_env (try_new (log_level config)))) && no_subscriber ∧
  ∀ sub provider, init config = Ok (sub, provider) →
    sub_otel sub = provider ∧
    (is_Some provider ↔ is_ok (span_exporter (otlp_endpoint config)) = true) ∧
    ∀ p, provider = Some p →
      tp_tracer p = service_name config ∧ (lit "service.name", service_name config) ∈ tp_resource p.
Proof.
  unfold init, build_tracer. destruct (union _ _) as [filter|]; cbn [ok_or mbind result_bind is_ok];
    [|by split].
  destruct no_subscriber; cbn [is_ok]; [|by split]. split; [done|].
  intros sub provider [= <- <-]. cbn [sub_otel].
  destruct (span_exporter _) as [exporter|e]; cbn; (split_and!; [done| |]).
  - split; [done|]. by eexists.
  - intros p [= <-]. cbn. split; [done|]. left.
  - split; [by intros []|done].
  - done.
Qed.
End set_up.

(** ** Examples *)

Section witnesses.
#[local] Existing Instances toy_uuid toy_chrono toy_base64 toy_url toy_serde toy_unicode toy_diesel.

(** The clock of the examples is late enough for their events; one of the calls is refused. *)
Definition toy_late_clock (env : Env) (w : World) : result TimeError Tso := Ok (from_parts 90000 0).
Definition toy_call (s : Subject) (m : Method) (q : MessageOf m) : Call :=
  {| c_env := toy_env; c_subject := s; c_method := m; c_message := q |}.
Definition toy_calls : list Call :=
  [toy_call toy_clicker (OnRest RecordEvent) (toy_share 2%N);
   toy_call toy_clicker (OnRest RecordEventBatch) [toy_share 2%N; toy_share 2%N];
   toy_call toy_clicker (OnRest RecordEventBatch) [toy_share 2%N; toy_share 3%N];
   toy_call (Subject.Account 1 20) (OnRest PublishArticle) toy_request;
   toy_call (Subject.Account 1 20) (OnRest CreateDraft) toy_request].
Definition toy_metered := serve_metered toy_settings toy_late_clock toy_calls (mkWorld toy_db 0, no_op).

Example successes_are_counted :
  toy_metered.2.2 <$> [articles_published; drafts_created; events_recorded; feeds_replaced] = [1; 1; 3; 0].
Proof. by vm_compute. Qed.
Lemma counters_between_replies_and_tables_witness :
  toy_metered.2.2 events_recorded <= Z.of_nat (size (events (w_db toy_metered.2.1))) ∧
  told_all events_recorded toy_metered.1 <= toy_metered.2.2 events_recorded.
Proof.
  assert (Hsmall : set_batch_max_items toy_settings < 2 ^ 31) by (vm_compute; reflexivity).
  assert (Ho : ∀ c, c ∈ toy_calls → others_retain (c_env c)).
  { intros c Hc n d. assert (c_env c = toy_env) as -> by (unfold toy_calls in Hc; set_solver). reflexivity. }
  pose proof (counters_between_replies_and_tables toy_settings toy_late_clock Hsmall toy_calls
    (mkWorld toy_db 0) no_op Ho) as Hc.
  change (serve_metered toy_settings toy_late_clock toy_calls (mkWorld toy_db 0, no_op)) with toy_metered in Hc.
  destruct toy_metered as [replies [w' k']]. destruct Hc as [_ [Ht _ _ Hv]].
  specialize (Ht events_recorded). unfold no_op, events_size in *. cbn [fst snd] in *. split; [|lia].
  assert (size (events (w_db (mkWorld toy_db 0))) = 0%nat) as He by (vm_compute; reflexivity). lia.
Defined.
End witnesses.
