(* ===== verification/Main.v ===== *)
(** * The process ([headlines-server/src/main.rs])

    What [main] does besides serving: the demo subcommands, the seed at boot, the wait for
    the gateway's channel; and the seed pipeline run against the assembled server. *)

From S2P Require Import Prelude Libs Instances Subject Errors Tso TimeSource Nonce Strategy Interceptor SeedClient Db Articles Drafts Follows Accounts Events Content Markdown Rpc AccountService ArticleService ReaderServices EventService Rest Gateway Seed Net Config Writes Policy Server Doors.

(** ** The boot-time seed *)

(** [seed_on_boot], on the environment variable when it is set to text. *)
Definition seed_on_boot (var : option str) : bool :=
  match var with
  | Some v => str_eqb v (lit "1") || str_eqb v (lit "true") || str_eqb v (lit "yes")
  | None => false
  end.
(** The endpoint the boot-time seed dials. *)
Definition boot_seed_endpoint (bind : BindAddrs) : str :=
  lit "http://127.0.0.1:" ++ dec_N (port (grpc_addr bind)).

(** How the task of the boot-time seed ends. *)
Inductive BootSeed : Type :=
  | SeedOff | SeedDone | SeedFailed (e : str) | SeedPresent | CheckFailed (e : str).

(** [wait_for_gateway]: turns of an attempt and a pause, until the deadline. [clock] has the
    readings of the monotonic clock in milliseconds, [attempt] what [build_app] answers each
    time; [None] when [fuel] turns were not enough. *)
Fixpoint wait_loop {A} (fuel : nat) (clock : nat → Z) (attempt : nat → result str A)
    (deadline : Z) (k : nat) (last_err : option str) : option (result str A) :=
  match fuel with
  | O => None
  | S fuel =>
    if clock (S k) <? deadline then
      match attempt k with
      | Ok app => Some (Ok app)
      | Err e => wait_loop fuel clock attempt deadline (S k) (Some e)
      end
    else Some (Err (default (lit "gateway dial timed out") last_err))
  end.
Definition wait_for_gateway {A} (fuel : nat) (clock : nat → Z) (attempt : nat → result str A)
    (timeout_ms : Z) : option (result str A) :=
  wait_loop fuel clock attempt (clock 0%nat + timeout_ms) 0 None.

(** ** The demo subcommands *)

(** The endpoint of [demo seed]. *)
Definition demo_endpoint (config : Config) (grpc_endpoint : option str) : str :=
  match grpc_endpoint with
  | Some e => e
  | None =>
    let host := cfg_grpc_host (cfg_server config) in
    lit "http://" ++ (if str_eqb host (lit "0.0.0.0") then lit "127.0.0.1" else host) ++
    lit ":" ++ dec_Z (cfg_grpc_port (cfg_server config))
  end.

(** [ensure_canonical_keys]: the key directories by kind. *)
Definition canonical_keys : list (str * list str) := list_lit <$>
  [("system", ["demo-ranker"; "demo-admin"]);
   ("account", ["techblog"; "worldnews"; "tutorials"; "opinion"; "videos"]);
   ("user", ["alice"; "bob"; "carol"; "dave"; "eve"; "frank"; "grace"])]%string.
Definition ensure_canonical_keys `{Base64Lib, SignerLib} (generate : str → SigningKey)
    (dirs : str → Dir) : str → Dir := λ kind,
  match plan_get canonical_keys kind with
  | Some names => ensure_keys generate (dirs kind) names
  | None => dirs kind
  end.

(** [print_curl_examples]: the lines printed. *)
Definition curl_section (title url : str) : list str := [title; lit "curl " ++ url; []].
Definition print_curl_examples (path base_url : str) (state : SeedState) : list str :=
  if bool_decide (ss_accounts state = ∅) then
    [lit "No seed-state.json found at " ++ path ++ lit "/seed-state.json.";
     lit "Run: headlines-server demo seed"]
  else
    [lit "# headlines demo " ++ [8212%N] ++ lit " copy-pasteable curl examples"] ++
    (lit <$>
      ["# All read endpoints below are anonymous-readable. Signed";
       "# endpoints would require a fresh signature each call; we";
       "# print only the unsigned readable surface here."])%string ++ [[]] ++
    match ss_users state !! lit "alice" with
    | Some alice => curl_section (lit "# Alice's user record") (base_url ++ lit "/v1/users/" ++ id_id alice)
    | None => []
    end ++
    match ss_accounts state !! lit "techblog" with
    | Some techblog =>
      curl_section (lit "# techblog account") (base_url ++ lit "/v1/accounts/" ++ id_id techblog) ++
      curl_section (lit "# techblog articles (anonymous-readable list)")
        (base_url ++ lit "/v1/accounts/" ++ id_id techblog ++ lit "/articles")
    | None => []
    end ++
    match btree (ss_articles state) with
    | (_, art_id) :: _ =>
      curl_section (lit "# A single article (anonymous-readable)")
        (base_url ++ lit "/v1/articles/" ++ art_id)
    | [] => []
    end ++
    (lit <$>
      ["# Full grpcurl example: list accounts via gRPC";
       "grpcurl -plaintext localhost:50051 list headlines.v1.AccountService"])%string ++
    [[]; lit "# To run authenticated requests, use the keypairs in";
     lit "# " ++ path ++ lit "/keys and the canonical signing format documented";
     lit "# in docs/design/auth.md."].

Section process.
Context `{UuidLib, ChronoLib, Base64Lib, CryptoLib, !SignerLib, GatewayLib, RngLib, MarkdownLib, DieselLib,
          FigmentLib}.
(** The seed pipeline's surroundings, as in [Seed]. *)
Variable call : ∀ r, Metadata → RequestOf r → M GrpcStatus (ResponseOf r).
Variable key_dirs : str → Dir.
Variable demo_files : str → str → option Dir.
Variable status_display : GrpcStatus → str.
Variable connect : str → M str ().
Variable parse_endpoint : str → result str str.

Definition seed_with (dirs : str → Dir) (endpoint : str) :=
  run_seed call dirs demo_files status_display (connect endpoint) (parse_endpoint endpoint).

(** [accounts_table_empty] *)
Definition accounts_table_empty : SM bool :=
  _ ← db_get;
  n ← sql (query (λ d, Z.of_nat (size (accounts d))));
  mret (n =? 0).

(** The task [main] spawns after the listeners. *)
Definition boot_seed (fuel : nat) (var : option str) (bind : BindAddrs) :
    Env → SeedWorld → BootSeed * SeedWorld := λ env w,
  if seed_on_boot var then
    match accounts_table_empty env w with
    | (Ok true, w) =>
      match seed_with key_dirs (boot_seed_endpoint bind) fuel 42 false false env w with
      | (Ok _, w) => (SeedDone, w)
      | (Err e, w) => (SeedFailed e, w)
      end
    | (Ok false, w) => (SeedPresent, w)
    | (Err e, w) => (CheckFailed e, w)
    end
  else (SeedOff, w).

(** [run_demo_subcommand]: the key files afterwards, what is printed, and the run. The pool
    and the migrations are [diesel]'s. *)
Variable db_connect : str → Z → M str ().
Variable run_pending_migrations : M str ().
Variable generate : str → SigningKey.
Definition run_demo_subcommand (fuel : nat) (cmd : DemoCmd) (cli : Cli) :
    SM ((str → Dir) * list str) :=
  match cmd with
  | InitKeys _ => mret (ensure_canonical_keys generate key_dirs, [])
  | CurlExamples path base_url =>
    state ← load_or_default;
    mret (key_dirs, print_curl_examples path base_url state)
  | Config.Seed reset _ skip_articles rng_seed grpc_endpoint =>
    config ← of_res (load cli);
    let db := cfg_database config in
    _ ← on_world (λ _, lit "connect to Postgres for seed") (db_connect (db_url db) (db_max_connections db));
    _ ← (if skip_migrations cli then mret ()
         else on_world (λ _, lit "apply migrations before seed") run_pending_migrations);
    _ ← seed_with key_dirs (demo_endpoint config grpc_endpoint) fuel rng_seed skip_articles reset;
    mret (key_dirs, [])
  end.
End process.

(** ** The wait for the gateway ends *)

Section waiting.
Context {A : Type} (clock : nat → Z) (attempt : nat → result str A).

(** How a wait that starts at turn [k] ends, at turn [n]. *)
Definition wait_ends (deadline : Z) (k : nat) (last_err : option str) (n : nat)
    (r : result str A) : Prop :=
  (k <= n)%nat ∧
  (∀ i, (k <= i < n)%nat → clock (S i) < deadline ∧ ∃ e, attempt i = Err e) ∧
  match r with
  | Ok app => clock (S n) < deadline ∧ attempt n = Ok app
  | Err e => deadline <= clock (S n) ∧
    if decide (n = k) then e = default (lit "gateway dial timed out") last_err
    else attempt (pred n) = Err e
  end.
Lemma wait_loop_ends deadline fuel k last_err :
  (∀ i, clock (S i) + 100 <= clock (S (S i))) →
  0 < Z.of_nat fuel → deadline - clock (S k) <= 100 * (Z.of_nat fuel - 1) →
  ∃ n r, wait_loop fuel clock attempt deadline k last_err = Some r ∧
    wait_ends deadline k last_err n r.
Proof.
  intros Hclock. revert k last_err. induction fuel as [|fuel IH]; intros k last_err Hpos Hd; [lia|].
  cbn [wait_loop]. destruct (Z.ltb_spec (clock (S k)) deadline) as [Hlt|Hge].
  - destruct (attempt k) as [app|e] eqn:Hk.
    + exists k, (Ok app). split; [done|]. split; [lia|]. split; [lia|done].
    + pose proof (Hclock k). destruct (IH (S k) (Some e)) as (n & r & Hr & Hle & Hall & Hend); [lia..|].
      exists n, r. split; [exact Hr|]. split; [lia|]. split.
      * intros i Hi. destruct (decide (i = k)) as [->|Hne]; [split; [done|by eexists]|].
        apply Hall. lia.
      * destruct r as [app|e']; [exact Hend|]. destruct Hend as [Hdl He]. split; [exact Hdl|].
        rewrite decide_False by lia. case_decide as Hn; [|exact He]. subst n e'. exact Hk.
  - exists k. eexists. split; [reflexivity|]. split; [lia|]. split; [lia|].
    by rewrite decide_True.
Qed.

(** The gateway is waited for, but not for ever: with the pause of 100 ms after each failed
    attempt, one turn more than the timeout has pauses is enough. The wait ends with the
    first attempt that succeeds, when that started before the deadline, and otherwise with
    the error of the last attempt; the generic error remains for a wait that never got to
    attempt anything. *)
Theorem wait_for_gateway_returns timeout_ms fuel :
  clock 0%nat <= clock 1%nat → (∀ i, clock (S i) + 100 <= clock (S (S i))) →
  timeout_ms <= 100 * Z.of_nat fuel →
  ∃ n r, wait_for_gateway (S fuel) clock attempt timeout_ms = Some r ∧
    wait_ends (clock 0%nat + timeout_ms) 0 None n r ∧ (n <= fuel)%nat.
Proof.
  intros H01 Hclock Hf.
  destruct (wait_loop_ends (clock 0%nat + timeout_ms) (S fuel) 0 None) as (n & r & Hr & Hends);
    [done|lia|lia|].
  exists n, r. split_and!; [done..|]. destruct Hends as (_ & Hall & _).
  assert (Hat : ∀ i, clock 1%nat + 100 * Z.of_nat i <= clock (S i)).
  { induction i as [|i IHi]; [lia|]. specialize (Hclock i). lia. }
  destruct n as [|n]; [lia|]. destruct (Hall n ltac:(lia)) as [Hlt _]. specialize (Hat n). lia.
Qed.
End waiting.
Lemma wait_for_gateway_returns_witness :
  wait_for_gateway 51 (λ k, 100 * Z.of_nat k) (λ k, if decide (k = 2)%nat then Ok 7 else Err (lit "refused"))
    5000 = Some (Ok 7).
Proof.
  destruct (wait_for_gateway_returns (λ k, 100 * Z.of_nat k)
    (λ k, if decide (k = 2)%nat then Ok 7 else Err (lit "refused")) 5000 50) as (n & r & Hr & Hends & _);
    [lia|intros; lia|lia|].
  rewrite Hr. destruct Hends as (_ & Hall & Hend).
  destruct r as [app|e].
  - destruct Hend as [_ Ha]. case_decide; [by injection Ha as <-|done].
  - destruct Hend as [Hd _]. exfalso. destruct (Hall 2%nat) as [_ [e' He']]; [lia|]. done.
Defined.

(** ** The seed pipeline keeps what its calls and statements keep *)

Section keeps.
Context `{DieselLib} (P : Db → Prop).

Definition sm_keeps {A} (m : SM A) : Prop :=
  ∀ env w, (∀ n d, P d → P (others env n d)) → P (w_db (sw_world w)) →
    P (w_db (sw_world (m env w).2)).

Lemma sm_keeps_ret {A} (a : A) : sm_keeps (mret a).
Proof. by intros env w _. Qed.
Lemma sm_keeps_bail {A} msg : sm_keeps (@bail A msg).
Proof. by intros env w _. Qed.
Lemma sm_keeps_res {A} (r : result str A) : sm_keeps (of_res r).
Proof. by intros env w _. Qed.
Lemma sm_keeps_save s : sm_keeps (save s).
Proof. by intros env w _. Qed.
Lemma sm_keeps_load : sm_keeps load_or_default.
Proof. by intros env w _. Qed.
Lemma sm_keeps_world {E A} (f : E → str) (m : M E A) : preserves P m → sm_keeps (on_world f m).
Proof.
  intros Hm env w Ho Hw. specialize (Hm env (sw_world w) Ho Hw). unfold on_world.
  by destruct (m env _).
Qed.
Lemma sm_keeps_bind {A B} (m : SM A) (f : A → SM B) :
  sm_keeps m → (∀ a, sm_keeps (f a)) → sm_keeps (m ≫= f).
Proof.
  intros Hm Hf env w Ho Hw. specialize (Hm env w Ho Hw). unfold mbind, SM_bind.
  destruct (m env w) as [[a|e] w1]; [|done]. by apply Hf.
Qed.
Lemma sm_keeps_sql {A} (q : Stmt A) : stmt_preserves P q → sm_keeps (sql q).
Proof. intros. by apply sm_keeps_world, preserves_stmt. Qed.
Lemma sm_keeps_sql_now {A} (q : DateTime → Stmt A) :
  (∀ t, stmt_preserves P (q t)) → sm_keeps (sql_now q).
Proof. intros Hq env w. by apply sm_keeps_sql. Qed.
Lemma sm_keeps_for_state {A} (f : A → SeedState → SM SeedState) l s :
  (∀ x s, sm_keeps (f x s)) → sm_keeps (for_state f l s).
Proof.
  intros Hf. revert s. induction l as [|x l IH]; intros s; [apply sm_keeps_ret|].
  by apply sm_keeps_bind.
Qed.
Lemma sm_keeps_for_unit {A} (f : A → SM ()) l : (∀ x, sm_keeps (f x)) → sm_keeps (for_unit f l).
Proof.
  intros Hf. induction l as [|x l IH]; [apply sm_keeps_ret|]. by apply sm_keeps_bind.
Qed.
Lemma sm_keeps_db : sm_keeps db_get.
Proof. apply sm_keeps_world, preserves_conn. Qed.
Lemma sm_keeps_fresh : sm_keeps fresh.
Proof. apply sm_keeps_world, preserves_uuid. Qed.
Lemma sm_keeps_now : sm_keeps now.
Proof. apply sm_keeps_world, preserves_now. Qed.
End keeps.

Create HintDb seed.
#[local] Hint Resolve sm_keeps_ret sm_keeps_bail sm_keeps_res sm_keeps_save sm_keeps_load sm_keeps_db
  sm_keeps_fresh sm_keeps_now sm_keeps_sql sm_keeps_sql_now query_preserves : seed.
(** Works through a step of the pipeline: binds, branches, loops, and leaves. *)
Ltac seeding :=
  repeat lazymatch goal with
  | |- sm_keeps _ (_ ≫= _) => apply sm_keeps_bind; [|intros ?]
  | |- sm_keeps _ (for_state _ _ _) => apply sm_keeps_for_state; intros ? ?
  | |- sm_keeps _ (for_unit _ _) => apply sm_keeps_for_unit; intros ?
  | |- sm_keeps _ (match ?x with _ => _ end) => destruct x
  | |- sm_keeps _ (let _ := _ in _) => cbv zeta
  | |- _ => solve [auto with seed]
  end.

Section pipeline.
Context `{UuidLib, ChronoLib, Base64Lib, CryptoLib, !SignerLib, GatewayLib, RngLib, MarkdownLib, DieselLib}.
Context (P : Db → Prop).
Variable call : ∀ r, Metadata → RequestOf r → M GrpcStatus (ResponseOf r).
Variable key_dirs : str → Dir.
Variable demo_files : str → str → option Dir.
Variable status_display : GrpcStatus → str.
Variable connect : M str ().
Variable endpoint : result str str.

Hypothesis call_keeps : ∀ r md q, preserves P (call r md q).
Hypothesis connect_keeps : preserves P connect.
Hypothesis system_keeps : ∀ r, stmt_preserves P (insert_system r).
Hypothesis system_key_keeps : ∀ owner kid algo pub t,
  stmt_preserves P (insert_system_key (mkKey owner kid algo pub (lit "active") t None)).
Hypothesis system_scope_keeps : ∀ id scope, stmt_preserves P (insert_system_scope id scope).
Hypothesis created_at_keeps : ∀ id t, stmt_preserves P (set_created_at id t).
Hypothesis redaction_keeps : ∀ id reason t, stmt_preserves P (redact_first_version id reason t).

#[local] Hint Resolve call_keeps : seed.
Lemma rpc_keeps context r md q : sm_keeps P (rpc call context r md q).
Proof. apply sm_keeps_world, call_keeps. Qed.
Lemma parse_keeps s : sm_keeps P (Seed.parse_id s).
Proof. apply sm_keeps_res. Qed.
Lemma signed_keeps r (q : RequestOf r) sk kid method : sm_keeps P (signed_request r q sk kid method).
Proof. unfold signed_request. seeding. Qed.
#[local] Hint Extern 1 (sm_keeps _ (rpc _ ?c ?r ?md ?q)) => exact (rpc_keeps c r md q) : seed.
#[local] Hint Extern 1 (sm_keeps _ (signed_request _ _ _ _ _)) => apply signed_keeps : seed.
#[local] Hint Resolve parse_keeps system_keeps system_key_keeps
  system_scope_keeps created_at_keeps redaction_keeps : seed.

Lemma select_systems_keeps name : stmt_preserves P (select_systems name).
Proof. apply query_preserves. Qed.
Lemma select_system_key_keeps id : stmt_preserves P (select_system_key id).
Proof. apply query_preserves. Qed.
#[local] Hint Resolve select_systems_keeps select_system_key_keeps : seed.
Lemma seed_systems_keeps keys s : sm_keeps P (seed_systems keys s).
Proof. unfold seed_systems, seed_system. seeding. Qed.
Lemma seed_accounts_keeps keys s : sm_keeps P (seed_accounts call keys s).
Proof. unfold seed_accounts, seed_account. seeding. Qed.
Lemma seed_users_keeps keys s : sm_keeps P (seed_users call keys s).
Proof. unfold seed_users, seed_user. seeding. Qed.
Lemma seed_articles_keeps keys s : sm_keeps P (seed_articles call demo_files keys s).
Proof. unfold seed_articles, seed_account_articles, publish_one, apply_state. seeding. Qed.
Lemma call_follow_keeps md q user acct : sm_keeps P (call_follow call status_display md q user acct).
Proof.
  intros env w Ho Hw. pose proof (call_keeps FollowAccount md q env (sw_world w) Ho Hw) as Hc.
  unfold call_follow. by destruct (call _ _ _ _ _) as [[?|?] ?].
Qed.
#[local] Hint Resolve call_follow_keeps : seed.
Lemma seed_follows_keeps keys s : sm_keeps P (seed_follows call status_display keys s).
Proof. unfold seed_follows, seed_follow. seeding. Qed.
Lemma seed_drafts_keeps keys s : sm_keeps P (seed_drafts call demo_files keys s).
Proof. unfold seed_drafts, seed_account_drafts. seeding. Qed.
Lemma replace_feeds_keeps ranker kid arts users rng : sm_keeps P (replace_feeds call ranker kid arts users rng).
Proof.
  revert rng. induction users as [|[u r] users IH]; intros rng; cbn [replace_feeds]; [seeding|].
  destruct (pick_articles arts rng). seeding.
Qed.
#[local] Hint Resolve replace_feeds_keeps : seed.
Lemma seed_feeds_keeps keys s rng : sm_keeps P (seed_recommendation_feeds call keys s rng).
Proof. unfold seed_recommendation_feeds. seeding. Qed.
Lemma build_batch_keeps u arts n rng : sm_keeps P (build_batch u arts n rng).
Proof.
  revert rng. induction n as [|n IH]; intros rng; cbn [build_batch]; [seeding|].
  apply sm_keeps_bind; [seeding|intros t]. destruct (one_event u arts t rng).
  apply sm_keeps_bind; [apply IH|intros]. seeding.
Qed.
#[local] Hint Resolve build_batch_keeps : seed.
Lemma event_loop_keeps fuel key kid u arts target emitted rng :
  sm_keeps P (event_loop call fuel key kid u arts target emitted rng).
Proof.
  revert emitted rng. induction fuel as [|fuel IH]; intros emitted rng; cbn [event_loop]; [seeding|].
  destruct (emitted <? target); [|seeding]. cbv zeta. apply sm_keeps_bind; [seeding|intros [events rng']].
  do 2 (apply sm_keeps_bind; [seeding|intros]). destruct (_ =? 0); [seeding|apply IH].
Qed.
#[local] Hint Resolve event_loop_keeps : seed.
Lemma events_for_keeps keys arts target users rng : sm_keeps P (events_for call keys arts target users rng).
Proof.
  revert rng. induction users as [|[u r] users IH]; intros rng; cbn [events_for]; [seeding|].
  destruct (keys !! u); [|apply IH]. do 2 (apply sm_keeps_bind; [seeding|intros]). apply IH.
Qed.
#[local] Hint Resolve events_for_keeps : seed.
Lemma seed_events_keeps keys s rng : sm_keeps P (seed_events call keys s rng).
Proof. unfold seed_events. seeding. Qed.
Lemma dial_keeps fuel ep deadline last : sm_keeps P (dial connect fuel ep deadline last).
Proof.
  revert last. induction fuel as [|fuel IH]; intros last; cbn [dial]; [seeding|].
  apply sm_keeps_bind; [seeding|intros t]. destruct (t <? deadline); [|seeding].
  apply sm_keeps_bind; [|intros [[]|e]; [seeding|apply IH]].
  intros env w Ho Hw. pose proof (connect_keeps env (sw_world w) Ho Hw) as Hc. unfold attempt.
  by destruct (connect _ _).
Qed.
#[local] Hint Resolve dial_keeps : seed.
Lemma build_channel_keeps fuel : sm_keeps P (build_channel connect endpoint fuel).
Proof. unfold build_channel. seeding. Qed.

#[local] Hint Resolve seed_systems_keeps seed_accounts_keeps seed_users_keeps seed_articles_keeps
  seed_follows_keeps seed_drafts_keeps seed_feeds_keeps seed_events_keeps build_channel_keeps : seed.
(** A run that does not reset keeps what the calls and the statements keep. *)
Lemma run_seed_keeps fuel rng skip :
  sm_keeps P (run_seed call key_dirs demo_files status_display connect endpoint fuel rng skip false).
Proof. unfold run_seed. seeding. Qed.

Lemma seed_systems_accounts keys s env w s' w' :
  seed_systems keys s env w = (Ok s', w') → ss_accounts s' = ss_accounts s.
Proof.
  intros (u & w1 & _ & Hr)%sm_bind_ok. revert s w1 Hr.
  induction keys as [|key keys IH]; intros s w1 Hr; cbn [for_state] in Hr; [by sm_inv Hr|].
  apply sm_bind_ok in Hr as (s1 & w2 & Hk & Hr). rewrite (IH _ _ Hr). unfold seed_system in Hk.
  destruct (known _ _); [by sm_inv Hk|]. do 4 apply sm_bind_ok in Hk as (? & ? & _ & Hk).
  case_match; sm_inv Hk; done.
Qed.
(** A run from scratch that finds the key of an account and succeeds has had an account made
    for it, without credentials. *)
Lemma run_seed_creates fuel rng skip env w w' :
  (∀ n d, P d → P (others env n d)) →
  sw_file w = None → key_names (key_dirs (lit "account")) ≠ [] →
  run_seed call key_dirs demo_files status_display connect endpoint fuel rng skip false env w = (Ok (), w') →
  ∃ q w1 r w2, call CreateAccount ∅ q env w1 = (Ok r, w2) ∧ (P (w_db w2) → P (w_db (sw_world w'))).
Proof.
  intros Ho Hfile Hnames Hr. unfold run_seed in Hr.
  apply sm_bind_ok in Hr as (u & wa & Ha & Hr). apply sm_ret in Ha as [_ <-].
  apply sm_bind_ok in Hr as (s0 & wa & Ha & Hr). unfold load_or_default in Ha. rewrite Hfile in Ha.
  injection Ha as <- <-.
  apply sm_bind_ok in Hr as (sk & wa & _ & Hr).
  apply sm_bind_ok in Hr as (ak & wb & [Hak _]%sm_res & Hr).
  apply sm_bind_ok in Hr as (uk & wc & _ & Hr).
  apply sm_bind_ok in Hr as (s1 & wd & Hs1%seed_systems_accounts & Hr).
  do 2 apply sm_bind_ok in Hr as (? & ? & _ & Hr).
  unfold load_kind in Hak. apply try_map_ok in Hak.
  destruct Hak as [|name key names keys _ _]; [done|]. clear Hnames.
  unfold seed_accounts in Hr. cbn [for_state] in Hr.
  apply sm_bind_ok in Hr as (s2 & we & Hk & Hr).
  apply sm_bind_ok in Hk as (s3 & wf & Hk & Hloop).
  unfold seed_account in Hk. cbv zeta in Hk. rewrite (proj2 (known_false _ _)) in Hk by (by rewrite Hs1).
  apply sm_bind_ok in Hk as (spec & wg & _ & Hk). apply sm_bind_ok in Hk as (resp & wh & Hc & Hk).
  apply sm_bind_ok in Hk as (ac & wi & [_ ->]%sm_res & Hk). apply sm_ret in Hk as [_ ->].
  unfold rpc, on_world in Hc.
  destruct (call CreateAccount ∅ _ env (sw_world wg)) as [[r|e] w2] eqn:Hcall; [|done].
  eexists _, _, r, w2. split; [exact Hcall|]. intros HP. injection Hc as _ <-.
  assert (Hrest : sm_keeps P (for_state (seed_account call) keys s3)).
  { apply seed_accounts_keeps. }
  specialize (Hrest env (mkSeedWorld w2 (sw_file wg)) Ho HP). rewrite Hloop in Hrest. cbn [snd] in Hrest.
  match type of Hr with ?m env we = _ => assert (Hm : sm_keeps P m) by seeding end.
  specialize (Hm env we Ho Hrest). by rewrite Hr in Hm.
Qed.
End pipeline.

(** ** What seeding keeps of the database *)

(** The runner's own statements keep every invariant. *)
Lemma insert_system_inv r : stmt_preserves db_inv (insert_system r).
Proof.
  apply insert_preserves. intros d [] _. split; [by apply (family_inv_frame d)| |done..].
  by apply (identity_inv_frame d).
Qed.
Lemma insert_system_key_inv owner kid algo pub t :
  stmt_preserves db_inv (insert_system_key (mkKey owner kid algo pub (lit "active") t None)).
Proof.
  apply insert_preserves. intros d [? [Ha Hu Hk] ? ? ?] _. split; [by apply (family_inv_frame d)| |done..].
  split; [exact Ha|exact Hu|]. intros [] pk r; cbn; [apply (Hk KAccount)|apply (Hk KUser)|].
  intros [[<- <-]|[_ Hr]]%lookup_insert_Some; [by split_and!; [..|left]|by apply (Hk KSystem)].
Qed.
Lemma insert_system_scope_inv id scope : stmt_preserves db_inv (insert_system_scope id scope).
Proof.
  apply insert_preserves. intros d [] _. split; [by apply (family_inv_frame d)| |done..].
  by apply (identity_inv_frame d).
Qed.
Lemma set_created_at_inv id t : stmt_preserves db_inv (set_created_at id t).
Proof.
  apply execute_preserves. intros d [Hf ? ? ? ?]. split; [| |done..].
  2: { by apply (identity_inv_frame d). }
  apply (family_inv_at d _ id); [| |done].
  - intros i Hi. cbn. by rewrite lookup_alter_ne.
  - destruct (Hf id) as [(Hn & ? & ? & ?)|(a & n & [[Ha Hid] ? ? ? Hs])].
    + left. split_and!; [cbn; by rewrite lookup_alter_eq, Hn|done..].
    + right. eexists _, n. split; [cbn; rewrite lookup_alter_eq, Ha; split; [done|exact Hid]|done..].
Qed.
Lemma redact_first_version_inv id reason t : stmt_preserves db_inv (redact_first_version id reason t).
Proof.
  apply execute_preserves. intros d [Hf ? ? ? ?]. split; [| |done..].
  2: { by apply (identity_inv_frame d). }
  destruct (article_versions d !! (id, 1)) as [row|] eqn:Hrow.
  - by apply (redacted_family d id 1 reason t false row).
  - apply (family_inv_frame d); try done. cbn. apply alter_id. intros x Hx. congruence.
Qed.

(** ** The seed against the assembled server *)

(** A database with an account. *)
Definition has_accounts (d : Db) : Prop := accounts d ≠ ∅.
Lemma rows_kept_nonempty {K A} `{Countable K} (R : A → A → Prop) (m m' : gmap K A) :
  rows_kept R m m' → m ≠ ∅ → m' ≠ ∅.
Proof.
  intros Hk Hne ->. destruct (map_choose m Hne) as (k & r & Hr).
  destruct (Hk k r Hr) as (r' & Hr' & _). by rewrite lookup_empty in Hr'.
Qed.
Lemma accounts_allowed `{DieselLib} w : allows has_accounts w.
Proof. intros d d' Hd Heff. destruct (effect_retained _ _ _ Heff) as [Ha]. by eapply rows_kept_nonempty. Qed.

Section creation.
Context `{DieselLib}.

Lemma account_create_made new env w a w' :
  account_create new env w = (Ok a, w') → has_accounts (w_db w').
Proof.
  intros (u & w1 & _ & Hr)%bind_ok. apply bind_ok in Hr as (row & w2 & Hr & Hl).
  apply map_errM_ok, stmt_ok in Hr as [Hr _]. unfold lift in Hl. injection Hl as _ <-.
  unfold returning, insert_account, insert_stmt in Hr.
  destruct (filter _ _) as [|[b e] l]; [|done]. injection Hr as _ <-. cbn. apply insert_non_empty.
Qed.
Lemma create_account_made `{UuidLib, ChronoLib, Base64Lib, UrlLib} algos mode s q env w r w' :
  (∀ n d, has_accounts d → has_accounts (others env n d)) →
  create_account algos mode s q env w = (Ok r, w') → has_accounts (w_db w').
Proof.
  intros Ho Hr. unfold create_account in Hr. destruct (_ && _); [done|].
  do 4 (apply bind_ok in Hr as (? & ? & _ & Hr)). apply bind_ok in Hr as ([algo pub] & ? & _ & Hr).
  do 2 (apply bind_ok in Hr as (? & ? & _ & Hr)).
  apply bind_ok in Hr as (ac & w1 & Hc%call_ok%account_create_made & Hr).
  apply bind_ok in Hr as (k & w2 & Hk & Hr). unfold mret, M_ret in Hr. injection Hr as _ <-.
  assert (Hkeep : ∀ new, preserves has_accounts (call (keys_create new)))
    by (intros; apply preserves_call, key_writes_keep, accounts_allowed).
  match type of Hk with call (keys_create ?new) _ _ = _ => specialize (Hkeep new env w1 Ho Hc) end.
  by rewrite Hk in Hkeep.
Qed.
End creation.

Section served.
Context `{UuidLib, ChronoLib, Base64Lib, CryptoLib, !SignerLib, UrlLib, SerdeLib, UnicodeLib, DieselLib,
          GatewayLib, RngLib, MarkdownLib, ErrorDetailsLib}.
Context (settings : Settings) (clock_now : Env → World → result TimeError Tso).
(** Whom the public listener takes the caller for, or its refusal; it only reads. *)
Context (identify : ∀ r, Metadata → RequestOf r → M GrpcStatus Subject).
Hypothesis identify_reads : ∀ r md q P, preserves P (identify r md q).
Context (key_dirs : str → Dir) (demo_files : str → str → option Dir).
Context (status_display : GrpcStatus → str) (connect : str → M str ()).
Hypothesis connect_reads : ∀ e P, preserves P (connect e).
Context (parse_endpoint : str → result str str).

(** A call of the runner, as the server answers it. *)
Definition served_call (r : Rpc) (md : Metadata) (q : RequestOf r) : M GrpcStatus (ResponseOf r) :=
  s ← identify r md q;
  map_errM fault_status (handle_rest settings (time_now clock_now) s r q).
Abbreviation served_seed := (seed_with served_call demo_files status_display connect parse_endpoint).
Abbreviation served_boot_seed := (boot_seed served_call key_dirs demo_files status_display connect parse_endpoint).

Lemma served_call_keeps P r md q : (∀ w, allows P w) → preserves P (served_call r md q).
Proof.
  intros HP. apply preserves_bind; [apply identify_reads|intros s]. apply preserves_map_err.
  exact (handle_effects P settings clock_now s (OnRest r) q HP).
Qed.
Lemma served_seed_inv dirs endpoint fuel rng skip :
  sm_keeps db_inv (served_seed dirs endpoint fuel rng skip false).
Proof.
  apply run_seed_keeps; intros; [apply served_call_keeps, inv_allowed|apply connect_reads|
    apply insert_system_inv|apply insert_system_key_inv|apply insert_system_scope_inv|
    apply set_created_at_inv|apply redact_first_version_inv].
Qed.
Lemma accounts_table_empty_keeps P : sm_keeps P accounts_table_empty.
Proof.
  apply sm_keeps_bind; [apply sm_keeps_db|intros _]. apply sm_keeps_bind; [|intros n; apply sm_keeps_ret].
  apply sm_keeps_sql, query_preserves.
Qed.

(** C36. Seeding at boot keeps the database sound: whatever fails at any of its steps, calls and
    statements, and whatever sound requests run in between, a database that satisfies the
    invariants of every component satisfies them when the task is over, although the runner
    writes systems, creation times and redactions with statements of its own. *)
Theorem boot_seed_keeps_integrity fuel var bind env w :
  (∀ n d, db_inv d → db_inv (others env n d)) →
  db_inv (w_db (sw_world w)) →
  db_inv (w_db (sw_world (served_boot_seed fuel var bind env w).2)).
Proof.
  intros Ho Hw. unfold boot_seed. destruct (seed_on_boot var); [|exact Hw].
  pose proof (accounts_table_empty_keeps db_inv env w Ho Hw) as Hk.
  destruct (accounts_table_empty env w) as [[[|]|e] w1]; [|exact Hk..].
  pose proof (served_seed_inv key_dirs (boot_seed_endpoint bind) fuel 42 false env w1 Ho Hk) as Hs.
  destruct (served_seed _ _ _ _ _ _ env w1) as [[?|?] w2]; exact Hs.
Qed.

Lemma served_seed_creates P dirs endpoint fuel rng skip env w w' :
  (∀ w, allows P w) → (∀ d d', accounts d' = accounts d → P d → P d') →
  (∀ n d, P d → P (others env n d)) →
  sw_file w = None → key_names (dirs (lit "account")) ≠ [] →
  served_seed dirs endpoint fuel rng skip false env w = (Ok (), w') →
  ∃ q w1 r w2, served_call CreateAccount ∅ q env w1 = (Ok r, w2) ∧
    (P (w_db w2) → P (w_db (sw_world w'))).
Proof.
  intros HP Hframe.
  assert (Hexecute : ∀ f, (∀ d, accounts (f d) = accounts d) → stmt_preserves P (execute f))
    by (intros f Hf; apply execute_preserves; intros d Hd; by apply (Hframe d)).
  apply run_seed_creates; intros; [by apply served_call_keeps|by apply Hexecute..].
Qed.
Lemma boot_seed_done fuel var bind env w w1 :
  served_boot_seed fuel var bind env w = (SeedDone, w1) →
  seed_on_boot var = true ∧ ∃ w0, accounts_table_empty env w = (Ok true, w0) ∧
    served_seed key_dirs (boot_seed_endpoint bind) fuel 42 false false env w0 = (Ok (), w1).
Proof.
  unfold boot_seed. destruct (seed_on_boot var); [|done].
  destruct (accounts_table_empty env w) as [[[|]|e] w0]; [|done..].
  destruct (served_seed _ _ _ _ _ _ env w0) as [[[]|e] w2] eqn:Hr; [|done].
  intros [= <-]. split; [done|]. by exists w0.
Qed.
Lemma accounts_table_empty_file env w : sw_file (accounts_table_empty env w).2 = sw_file w.
Proof. apply keeps_bind; [apply keeps_world|intros _]. apply keeps_bind; [apply keeps_world|done]. Qed.

(** C37. The demo data are seeded at most once: after a boot whose seed succeeded from scratch,
    every later boot finds an account and leaves the database and the state file alone,
    whatever requests, which never remove an account, have done in the meantime. *)
Theorem boot_seeds_once fuel var bind env w w1 :
  sw_file w = None → key_names (key_dirs (lit "account")) ≠ [] →
  (∀ n d, has_accounts d → has_accounts (others env n d)) →
  served_boot_seed fuel var bind env w = (SeedDone, w1) →
  ∀ fuel2 bind2 env2 w2, quiet env2 → retained (w_db (sw_world w1)) (w_db (sw_world w2)) →
  ∃ w3, served_boot_seed fuel2 var bind2 env2 w2 = (SeedPresent, w3) ∧
    w_db (sw_world w3) = w_db (sw_world w2) ∧ sw_file w3 = sw_file w2.
Proof.
  intros Hfile Hnames Ho (Hvar & w0 & Hempty & Hrun)%boot_seed_done fuel2 bind2 env2 w2 Hq Hre.
  assert (Hacc : has_accounts (w_db (sw_world w1))).
  { pose proof (accounts_table_empty_file env w) as Hf. rewrite Hempty, Hfile in Hf.
    apply (served_seed_creates has_accounts) in Hrun as (q & wa & r & wb & Hc & Hk);
      [|apply accounts_allowed|by unfold has_accounts; intros d d' ->|done..].
    apply Hk. unfold served_call in Hc. apply bind_ok in Hc as (s & wc & _ & Hc%map_errM_ok).
    cbn [handle_rest] in Hc. apply bind_ok in Hc as ([ac kid] & wd & Hc%create_account_made & Hr); [|done].
    unfold mret, M_ret in Hr. by injection Hr as _ <-. }
  apply (rows_kept_nonempty _ _ _ (re_accounts _ _ Hre)) in Hacc.
  unfold boot_seed. rewrite Hvar. unfold accounts_table_empty, db_get, sql, on_world, mbind, SM_bind.
  rewrite conn_quiet by done. cbn [map_err sw_world sw_file]. rewrite stmt_quiet by done.
  assert (Hne : (Z.of_nat (size (accounts (w_db (sw_world w2)))) =? 0) = false)
    by (apply Z.eqb_neq; intros Hz; apply Hacc, map_size_empty_inv; lia).
  unfold query, mret, SM_ret. cbn [map_err sw_world sw_file w_db]. rewrite Hne. by eexists.
Qed.

(** A server whose account registration is reserved for systems, as the default configuration
    has it, cannot be seeded from scratch: the runner registers its accounts without
    credentials, and its first registration is refused. *)
Theorem closed_server_cannot_be_seeded fuel var bind env w :
  set_account_bootstrap settings = SystemOnly →
  (∀ q env w s w', identify CreateAccount ∅ q env w = (Ok s, w') → s = Anonymous) →
  sw_file w = None → key_names (key_dirs (lit "account")) ≠ [] →
  (served_boot_seed fuel var bind env w).1 ≠ SeedDone.
Proof.
  intros Hmode Hanon Hfile Hnames Hdone.
  destruct (served_boot_seed fuel var bind env w) as [b w1] eqn:Hboot. cbn in Hdone. subst b.
  apply boot_seed_done in Hboot as (_ & w0 & Hempty & Hrun).
  pose proof (accounts_table_empty_file env w) as Hf. rewrite Hempty, Hfile in Hf.
  apply (served_seed_creates (λ _, True)) in Hrun as (q & wa & r & wb & Hc & _); [|done..].
  unfold served_call in Hc. apply bind_ok in Hc as (s & wc & ->%Hanon & Hc%map_errM_ok).
  cbn [handle_rest] in Hc. apply bind_ok in Hc as (x & wd & Hc & _). unfold create_account in Hc.
  by rewrite Hmode in Hc.
Qed.
End served.

(** The first of the printed examples, called as it stands, is refused. *)
Lemma anonymous_reads_no_user `{UuidLib, ChronoLib, Base64Lib, SerdeLib, DieselLib} raw env w user w' :
  get_user Anonymous raw env w ≠ (Ok user, w').
Proof. intros (id & w1 & _ & Hr)%bind_ok. done. Qed.

(** ** Examples *)

Section witnesses.
#[local] Existing Instances toy_uuid toy_chrono toy_base64 toy_crypto toy_signer toy_url toy_serde
  toy_unicode toy_diesel toy_gateway toy_rng toy_markdown toy_error_details.

(** One account and the ranker have key files. *)
Definition toy_key_dirs (kind : str) : Dir :=
  if str_eqb kind (lit "account") then ensure_keys (λ _, 5%N) ∅ [lit "techblog"]
  else if str_eqb kind (lit "system") then ensure_keys (λ _, 6%N) ∅ [lit "demo-ranker"]
  else ∅.
Definition toy_identify (r : Rpc) (md : Metadata) (q : RequestOf r) : M GrpcStatus Subject := mret Anonymous.
Definition toy_open : Settings := {|
  set_algos := set_algos toy_settings; set_account_bootstrap := Open; set_user_bootstrap := Open;
  set_content_max_bytes := 1000; set_replace_max_items := 10; set_batch_max_items := 10;
|}.
Definition toy_boot_seed (settings : Settings) (w : SeedWorld) : BootSeed * SeedWorld :=
  boot_seed (served_call settings toy_clock_now toy_identify) toy_key_dirs (λ _ _, None) gs_message
    (λ _, mret ()) Ok 1 (Some (lit "1")) (bt_bind toy_booted) toy_env w.

Lemma empty_db_inv : db_inv empty_db.
Proof.
  split.
  - intros id. left. by split_and!.
  - split; [by intros id r..|]. by intros [] pk r.
  - by intros u a r.
  - by intros id r.
  - by intros id r.
Qed.
Lemma toy_identify_reads r md q P : preserves P (toy_identify r md q).
Proof. apply preserves_ret. Qed.
Lemma toy_connect_reads (e : str) P : preserves (E := str) P (mret ()).
Proof. apply preserves_ret. Qed.

Lemma boot_seed_keeps_integrity_witness : db_inv (w_db (sw_world (toy_boot_seed toy_open toy_world).2)).
Proof.
  apply (boot_seed_keeps_integrity toy_open toy_clock_now toy_identify toy_identify_reads toy_key_dirs
    (λ _ _, None) gs_message (λ _, mret ()) toy_connect_reads Ok); [by intros|exact empty_db_inv].
Defined.

Example default_modes_refuse_seed :
  (toy_boot_seed toy_settings toy_world).1 = SeedFailed (lit "CreateAccount(techblog)").
Proof. by vm_compute. Qed.
Lemma closed_server_cannot_be_seeded_witness : (toy_boot_seed toy_settings toy_world).1 ≠ SeedDone.
Proof.
  apply (closed_server_cannot_be_seeded toy_settings toy_clock_now toy_identify toy_identify_reads
    toy_key_dirs (λ _ _, None) gs_message (λ _, mret ()) Ok); [done| |done|by vm_compute].
  intros q env w s w' Hr. unfold toy_identify, mret, M_ret in Hr. by injection Hr as <- _.
Defined.
Lemma boot_seeds_once_witness :
  let w1 := (toy_boot_seed toy_open toy_world).2 in
  size (accounts (w_db (sw_world w1))) = 1%nat ∧
  ∃ w3, toy_boot_seed toy_open w1 = (SeedPresent, w3) ∧ w_db (sw_world w3) = w_db (sw_world w1).
Proof.
  split; [by vm_compute|].
  assert (Hdone : (toy_boot_seed toy_open toy_world).1 = SeedDone) by (by vm_compute).
  destruct (toy_boot_seed toy_open toy_world) as [b w1] eqn:Hrun. cbn in Hdone. subst b.
  assert (Hkeys : key_names (toy_key_dirs (lit "account")) ≠ []) by (by vm_compute).
  pose proof (boot_seeds_once toy_open toy_clock_now toy_identify toy_identify_reads toy_key_dirs
    (λ _ _, None) gs_message (λ _, mret ()) Ok 1 (Some (lit "1")) (bt_bind toy_booted)
    toy_env toy_world w1 eq_refl Hkeys (λ n d Hd, Hd) Hrun 1 (bt_bind toy_booted) toy_env w1 toy_env_quiet)
    as Honce.
  destruct (Honce ltac:(reflexivity)) as (w3 & H3 & Hd & _).
  exists w3. split; [exact H3|exact Hd].
Defined.

(** With [TAILSCALE_IP] set the listener is bound to that address alone, and the boot-time
    seed dials the loopback. *)
Example boot_seed_dials_loopback :
  (λ b, (socket_v4_display [100; 64; 0; 7]%N (port (grpc_addr b)), boot_seed_endpoint b)) <$>
    resolve_bind_from default_server (Some (lit "100.64.0.7")) =
  Ok (lit "100.64.0.7:50051", lit "http://127.0.0.1:50051").
Proof. by vm_compute. Qed.
End witnesses.
